(* ===== verification/_CoqProject ===== *)
-Q . S2P
Prelude.v
Effects.v
GoStrings.v
Regex.v
Parser.v
Replica.v
Cache.v
Config.v
BatchText.v
Metrics.v
Executor.v
Manager.v
Sha1.v
Services.v
Batching.v
MariaWire.v
MariaConn.v
MariaFlow.v
MariaServe.v
MariaRuns.v
MariaSession.v
MariaBatch.v
Client.v
PgWire.v
MariaUnused.v
PgConn.v
PgServe.v
PgSafe.v
PgRuns.v
PgSession.v
PgBatch.v
Listen.v
Main.v
