(* ===== verification/Prelude.v ===== *)
(** * TQDBProxy verification library

    TQDBProxy is a proxy for MariaDB and PostgreSQL.  Clients write hints into a
    comment of a statement: a lifetime makes a read cacheable, a window makes a
    write batchable, a file and a line name the statement in the metrics.  The
    proxy parses the hint, serves reads from a shared cache, spreads cacheable
    reads over replicas, combines writes of many clients into batches, and
    passes everything else through to the primary.

    ** Parts and files

    Shared ground:
    - Prelude: bytes, machine integers, slices (out of range is [None], a
      panic), little- and big-endian numbers, tactics and the hint database.
    - Effects: the monad of the handlers of both proxies.  A handler changes the
      state of its session also when it returns an error; [Crash] is a panic,
      which ends the process since nothing recovers.  [hoare], [keeps],
      [respects] and [sound] (which excludes a panic) are the rules the theorems
      are proved with.
    - GoStrings, Regex: packages strings, strconv, unicode/utf8 and regexp as far
      as they are used; the case tables for runes beyond ASCII are a class.
    - Sha1: package crypto/sha1 and its hexadecimal text, for cache keys.
    - Metrics: src/metrics/metrics.go.  The collectors with their labels, and the
      panic of a call whose labels do not fit.

    Components:
    - Parser: src/parser/parser.go.  [Parse] runs the three patterns of the
      source on the matcher of Regex; [IsCacheable], [IsWritable],
      [IsBatchable], [GetBatchKey] are what the proxies route on.
    - Replica: src/replica/pool.go.  [Pool] with round robin and health;
      dialling is a parameter.
    - Cache: src/cache/cache.go.  The operations as programs of atomic steps over
      the store, the map of flights and their channels; any interleaving.  The
      store below (tqmemory) is a class with laws.
    - Config: src/config/config.go and the pools of src/cmd/tqdbproxy/main.go:
      loading, building and reloading pools, the shard of a database.
    - BatchText, Executor, Manager: src/writebatch.  The texts of batched
      statements; every strategy that executes a batch, with its errors, over a
      database that is a class; [Enqueue], timers, execution and [Close] as
      concurrent programs over a heap of groups.
    - MariaWire, MariaConn, MariaFlow, MariaServe, MariaRuns, MariaSession,
      MariaBatch, MariaUnused: src/mariadb/mariadb.go.  Packets and responses; a client
      connection ([clientConn], every handler, [dispatch], the command loop);
      where statements go; what the client gets; runs with surprising results;
      the refinement of a direct connection; batched writes; the functions
      nothing calls.
    - PgWire, PgConn, PgServe, PgSafe, PgRuns, PgSession, PgBatch:
      src/postgres/postgres.go.  Messages; a client connection ([connState],
      every handler, [dispatch], the message loop, the login); answers, flights
      and the loop; the invariant under which nothing panics; routing, and runs
      with surprising results; the refinement of a direct connection; batched
      writes.
    - Listen: [acceptLoop] of both proxies and [Stop], as a transition system.
    - Main: src/cmd/tqdbproxy/main.go with [Start] and [UpdateConfig] of both
      proxies: starting, reloading and ending the process.
    - Client: src/clients/go.  The wrappers of database/sql that print the hints.
    - Services: the cache and the batch manager as the sessions call them, as
      classes with laws.  MariaServe shows that Cache implements the one,
      Batching that Manager and Executor implement the other.

    ** How they interact

    A session parses a statement (Parser), asks the cache (Cache, through
    [CacheService]), enqueues a write (Manager and Executor, through
    [BatchService]), or picks a database from its pool (Replica), which the
    configuration chose by the name of the database (Config).  A session logs
    what it sends to backends and what it does to flights of the cache; the
    theorems speak about this log, about the bytes the client gets and about the
    state of the session.

    ** What the theorems show

    - Routing: writes and statements of a transaction stay on the primary
      (MariaFlow), replicas get cacheable reads only (PgRuns), a database goes to
      the pool described by the configuration last loaded (Config, Main), the
      round robin returns the next healthy replica (Replica).
    - Transparency: a response of a backend reaches the client with the same
      payloads (MariaWire, MariaServe); a session of any number of statements
      that are neither cached nor batched refines a client that talks to the
      primary directly (MariaSession for text queries and transactions, PgSession
      for the simple and the extended protocol, with errors); every simple query
      is answered by complete messages that end in one ReadyForQuery (PgServe).
    - Safety of the process: no message of a client makes a PostgreSQL session
      panic (PgSafe).  A MariaDB session can panic; MariaRuns and MariaWire have
      the runs.
    - Hints: what the client libraries print is what the parser reads (Client).
    - The cache: one leader per flight, no lost waiter, no double close, in any
      interleaving (Cache); sessions end the flights they lead on every path
      (MariaFlow, PgServe); what one session stores another is served
      (MariaServe).
    - Batches: every request is in one place and gets one answer (Manager,
      Executor); a transaction is all or nothing; combined statements carry the
      values of every request; a batched write that is alone goes through
      session, manager and executor to the database once, and its result to the
      client (MariaBatch, PgBatch).
    - Protocols: round trips of packets, messages, parameters, rows, the startup
      packet, LOAD DATA payloads and hints, against reference encoders and
      decoders stated beside them.
    - Termination and bounds: both message loops read everything the client
      sent; the round-robin index stays in range; after [Stop] every accept loop
      of the MariaDB proxy ends (Listen), and the loop over signals serves the
      configuration last loaded until the first signal that ends it (Main).

    ** Fuel

    Loops over input take the length of the input (or one more) as fuel: a turn
    takes at least one byte, four bytes of a MariaDB packet, five of a PostgreSQL
    message.  [run_serves_everything] and [messages_all_served] prove that the
    fuel is never used up.  The matcher of Regex recurses on pattern and text.

    ** Not modelled

    What the collectors count and the HTTP server of the metrics (a label that is
    not valid makes a call panic, [label_ok], whose law is that valid UTF-8 is
    valid); command line flags; logging; the clocks (a cache call that waits
    either is woken or times out, a ticker fires at any time); the clients in
    other languages and the benchmarks, which measure and do not serve.  Packages
    that are not part of the repository are classes:
    go-mysql's packet helpers ([Driver]), database/sql and the drivers
    ([Database], [SqlDriver], [Host]), tqmemory ([Store]), the ini parser ([Ini]).
    Formatting of floating-point numbers is a class parameter too.  Two sessions run one at a time between the operations
    of the cache and of the manager, which are the only state they share. *)

From Stdlib Require Import Ascii ZArith Lia.
From stdpp Require Import base list gmap strings numbers.

Open Scope Z_scope.

(** ** Bytes and byte strings

    A Go [string] and a Go [[]byte] are both sequences of bytes.  A byte is an
    [ascii], which is eight bits by construction, so no width side condition is
    ever needed on the contents of a string or of a packet. *)

Abbreviation byte := Ascii.ascii.
Abbreviation bytes := (list Ascii.ascii).

(** A Go string literal. *)
Definition str (s : string) : bytes := String.list_ascii_of_string s.

(** The numeric value of a byte, and the byte [z] converts to ([byte(z)] in
    Go keeps the low eight bits). *)
Definition bval (b : byte) : Z := Z.of_N (N_of_ascii b).
Definition to_byte (z : Z) : byte := ascii_of_N (Z.to_N (z mod 256)).

(** [len(s)] as a Go [int]. *)
Definition zlen {A} (l : list A) : Z := Z.of_nat (length l).

(** ** Machine integers

    Integers are [Z]; these are the conversions Go performs. *)

Definition MaxInt64 : Z := 2 ^ 63 - 1.
Definition MinInt64 : Z := - 2 ^ 63.

(** [int64(z)], also the wrap-around of every [int] and [int64] operation. *)
Definition int64 (z : Z) : Z := (z + 2 ^ 63) mod 2 ^ 64 - 2 ^ 63.
Definition int32 (z : Z) : Z := (z + 2 ^ 31) mod 2 ^ 32 - 2 ^ 31.
Definition int16 (z : Z) : Z := (z + 2 ^ 15) mod 2 ^ 16 - 2 ^ 15.
Definition int8 (z : Z) : Z := (z + 2 ^ 7) mod 2 ^ 8 - 2 ^ 7.
Definition uint64 (z : Z) : Z := z mod 2 ^ 64.
Definition uint32 (z : Z) : Z := z mod 2 ^ 32.
Definition uint16 (z : Z) : Z := z mod 2 ^ 16.
Definition uint8 (z : Z) : Z := z mod 2 ^ 8.

(** ** Slices

    [s[i:j]] on a string or slice whose capacity is its length: [None] is the
    run-time panic "slice bounds out of range". *)
Definition slice {A} (l : list A) (i j : Z) : option (list A) :=
  if (0 <=? i) && (i <=? j) && (j <=? zlen l)
  then Some (take (Z.to_nat (j - i)) (drop (Z.to_nat i) l))
  else None.

(** [s[i:]] and [s[:j]]. *)
Definition slice_from {A} (l : list A) (i : Z) : option (list A) := slice l i (zlen l).
Definition slice_to {A} (l : list A) (j : Z) : option (list A) := slice l 0 j.

(** [s[i]]: [None] is the panic "index out of range". *)
Definition index {A} (l : list A) (i : Z) : option A :=
  if 0 <=? i then l !! Z.to_nat i else None.

(** ** Little- and big-endian integers (package [encoding/binary]) *)

Fixpoint le_dec (l : bytes) : Z :=
  match l with
  | [] => 0
  | b :: t => bval b + 256 * le_dec t
  end.

Fixpoint le_enc (n : nat) (z : Z) : bytes :=
  match n with
  | O => []
  | S n => to_byte z :: le_enc n (z / 256)
  end.

Definition be_dec (l : bytes) : Z := le_dec (rev l).
Definition be_enc (n : nat) (z : Z) : bytes := rev (le_enc n z).

(** ** Tactics *)

Create HintDb tqdb.
Create Rewrite HintDb tqdb.

(** Case analysis on the scrutinee of the first [if] or [match]. *)
Ltac split_match :=
  match goal with
  | |- context [match ?x with _ => _ end] => destruct x eqn:?
  | H : context [match ?x with _ => _ end] |- _ => destruct x eqn:?
  end.

(** Turn boolean comparisons in the context and the goal into propositions. *)
Ltac bool_simpl :=
  repeat match goal with
  | H : (_ && _) = true |- _ => apply andb_true_iff in H; destruct H
  | H : (_ || _) = false |- _ => apply orb_false_iff in H; destruct H
  | H : negb _ = true |- _ => apply negb_true_iff in H
  | H : negb _ = false |- _ => apply negb_false_iff in H
  | H : (_ <=? _) = true |- _ => apply Z.leb_le in H
  | H : (_ <=? _) = false |- _ => apply Z.leb_gt in H
  | H : (_ <? _) = true |- _ => apply Z.ltb_lt in H
  | H : (_ <? _) = false |- _ => apply Z.ltb_ge in H
  | H : (_ =? _) = true |- _ => apply Z.eqb_eq in H
  | H : (_ =? _) = false |- _ => apply Z.eqb_neq in H
  | H : bool_decide _ = true |- _ => apply bool_decide_eq_true in H
  | H : bool_decide _ = false |- _ => apply bool_decide_eq_false in H
  end.

(** Decide a ground goal by computation. *)
Ltac ground := vm_compute; first [reflexivity | discriminate | split; [intro; discriminate | reflexivity]].

(** ** Lemmas on bytes *)

Lemma bval_range b : 0 <= bval b < 256.
Proof.
  unfold bval. pose proof (N_ascii_bounded b). split; [apply N2Z.is_nonneg|lia].
Qed.

Lemma bval_to_byte z : bval (to_byte z) = z mod 256.
Proof.
  unfold bval, to_byte. pose proof (Z.mod_pos_bound z 256 eq_refl).
  rewrite N_ascii_embedding by lia. lia.
Qed.

Lemma to_byte_bval b : to_byte (bval b) = b.
Proof.
  unfold to_byte. rewrite Z.mod_small by apply bval_range.
  unfold bval. rewrite N2Z.id. apply ascii_N_embedding.
Qed.

Lemma bval_inj b1 b2 : bval b1 = bval b2 -> b1 = b2.
Proof. intros H. rewrite <- (to_byte_bval b1), <- (to_byte_bval b2). by rewrite H. Qed.

Lemma bval_eqb_eq b1 b2 : (bval b1 =? bval b2) = true <-> b1 = b2.
Proof. rewrite Z.eqb_eq. split; [apply bval_inj | by intros ->]. Qed.

(** ** Lemmas on endian encodings *)

Lemma length_le_enc n z : length (le_enc n z) = n.
Proof. revert z; induction n; intros; simpl; [done|]. by rewrite IHn. Qed.

Lemma length_be_enc n z : length (be_enc n z) = n.
Proof. unfold be_enc. by rewrite length_rev, length_le_enc. Qed.

Lemma le_dec_bound l : 0 <= le_dec l < 256 ^ zlen l.
Proof.
  unfold zlen. induction l as [|b l IH]; simpl length; [done|].
  rewrite Nat2Z.inj_succ, Z.pow_succ_r by lia.
  simpl. pose proof (bval_range b). lia.
Qed.

Lemma le_dec_enc n z : le_dec (le_enc n z) = z mod 256 ^ Z.of_nat n.
Proof.
  revert z; induction n as [|n IH]; intros z; simpl le_enc; simpl le_dec.
  - by rewrite Z.mod_1_r.
  - rewrite IH, bval_to_byte, Nat2Z.inj_succ, Z.pow_succ_r by lia.
    rewrite Z.rem_mul_r by lia. lia.
Qed.

Lemma le_enc_dec l : le_enc (length l) (le_dec l) = l.
Proof.
  induction l as [|b l IH]; simpl; [done|].
  pose proof (bval_range b). f_equal.
  - apply bval_inj. rewrite bval_to_byte.
    rewrite Z.mul_comm, Z.mod_add, Z.mod_small by lia. done.
  - rewrite Z.mul_comm, Z.div_add, Z.div_small by lia. by rewrite Z.add_0_l.
Qed.

Lemma be_dec_enc n z : be_dec (be_enc n z) = z mod 256 ^ Z.of_nat n.
Proof. unfold be_dec, be_enc. rewrite rev_involutive. apply le_dec_enc. Qed.

Lemma be_enc_dec l : be_enc (length l) (be_dec l) = l.
Proof.
  unfold be_dec, be_enc. rewrite <- length_rev, le_enc_dec. apply rev_involutive.
Qed.

Lemma be_dec_bound l : 0 <= be_dec l < 256 ^ zlen l.
Proof. unfold be_dec. pose proof (le_dec_bound (rev l)). unfold zlen in *. by rewrite length_rev in *. Qed.

(** ** Lemmas on machine integers *)

Lemma int64_range z : MinInt64 <= int64 z <= MaxInt64.
Proof.
  unfold int64, MinInt64, MaxInt64. pose proof (Z.mod_pos_bound (z + 2 ^ 63) (2 ^ 64) eq_refl). lia.
Qed.

Lemma int64_id z : MinInt64 <= z <= MaxInt64 -> int64 z = z.
Proof. unfold int64, MinInt64, MaxInt64. intros. rewrite Z.mod_small by lia. lia. Qed.

(** ** Lemmas on slices and lists *)

Lemma zlen_nonneg {A} (l : list A) : 0 <= zlen l.
Proof. unfold zlen. lia. Qed.

Lemma zlen_app {A} (l1 l2 : list A) : zlen (l1 ++ l2) = zlen l1 + zlen l2.
Proof. unfold zlen. rewrite length_app. lia. Qed.

Lemma zlen_cons {A} (x : A) l : zlen (x :: l) = 1 + zlen l.
Proof. unfold zlen. simpl length. lia. Qed.

Lemma slice_app {A} (l1 l2 l3 : list A) :
  slice (l1 ++ l2 ++ l3) (zlen l1) (zlen l1 + zlen l2) = Some l2.
Proof.
  unfold slice. rewrite !zlen_app.
  pose proof (zlen_nonneg l1). pose proof (zlen_nonneg l2). pose proof (zlen_nonneg l3).
  replace ((0 <=? zlen l1) && (zlen l1 <=? zlen l1 + zlen l2)
           && (zlen l1 + zlen l2 <=? zlen l1 + (zlen l2 + zlen l3))) with true by lia.
  replace (zlen l1 + zlen l2 - zlen l1) with (zlen l2) by lia.
  unfold zlen. rewrite !Nat2Z.id, drop_app_length, take_app_length. done.
Qed.

Lemma slice_from_app {A} (l1 l2 : list A) : slice_from (l1 ++ l2) (zlen l1) = Some l2.
Proof.
  unfold slice_from. rewrite zlen_app.
  rewrite <- (app_nil_r l2) at 1. apply slice_app.
Qed.

Lemma slice_to_app {A} (l1 l2 : list A) : slice_to (l1 ++ l2) (zlen l1) = Some l1.
Proof. unfold slice_to. apply (slice_app [] l1 l2). Qed.

Lemma str_app s1 s2 : str (s1 +:+ s2) = str s1 ++ str s2.
Proof.
  unfold str. induction s1 as [|c s1 IH]; [done|].
  change (String c s1 +:+ s2) with (String c (s1 +:+ s2)). simpl. by rewrite IH.
Qed.

#[export] Hint Resolve bval_range zlen_nonneg le_dec_bound be_dec_bound int64_range : tqdb.
#[export] Hint Rewrite @zlen_app @zlen_cons bval_to_byte to_byte_bval length_le_enc length_be_enc
  le_dec_enc be_dec_enc : tqdb.

(** ** Sequences of steps *)

(** The reflexive transitive closure of a step relation, by steps at the end,
    which is the form invariants are proved on. *)
Section Reach.
Context {S : Type} (step : S -> S -> Prop).

Inductive reach (s0 : S) : S -> Prop :=
| reach_refl : reach s0 s0
| reach_step s s' : reach s0 s -> step s s' -> reach s0 s'.

Lemma reach_inv (I : S -> Prop) s0 s :
  I s0 -> (forall s s', I s -> step s s' -> I s') -> reach s0 s -> I s.
Proof. intros H0 Hstep. induction 1; eauto. Qed.

Lemma reach_trans s0 s1 s2 : reach s0 s1 -> reach s1 s2 -> reach s0 s2.
Proof. intros H01. induction 1; eauto using reach. Qed.
End Reach.
