(* ===== verification/Effects.v ===== *)
(** * Handlers

    The handlers of both proxies change the state of their session also when
    they return an error, and a panic ends the program.  They run in the monad
    [M] over a state and a type of errors; [hoare] states what holds before and
    after a handler, [respects] relates the states before and after it. *)

From Stdlib Require Import ZArith Lia.
From stdpp Require Import base list relations.
From S2P Require Import Prelude.

Inductive outcome (E A : Type) :=
| Done (x : A)
| Fail (e : E)
| Crash.
Arguments Done {E A}.
Arguments Fail {E A}.
Arguments Crash {E A}.

Section Handlers.
Context {W E : Type}.

Definition M (A : Type) : Type := W -> W * outcome E A.
#[global] Instance session_ret : MRet M := fun A x w => (w, Done x).
#[global] Instance session_bind : MBind M := fun A B k m w =>
  match m w with
  | (w, Done x) => k x w
  | (w, Fail e) => (w, Fail e)
  | (w, Crash) => (w, Crash)
  end.

Definition fail {A} (e : E) : M A := fun w => (w, Fail e).
Definition crash {A} : M A := fun w => (w, Crash).
Definition get {A} (f : W -> A) : M A := fun w => (w, Done (f w)).
Definition modify (f : W -> W) : M unit := fun w => (f w, Done tt).
Definition or_crash {A} (o : option A) : M A := match o with Some x => mret x | None => crash end.

(** Run [m] and hand its error to the caller as a value. *)
Definition catch {A} (m : M A) : M (A + E) := fun w =>
  match m w with
  | (w, Done x) => (w, Done (inl x))
  | (w, Fail e) => (w, Done (inr e))
  | (w, Crash) => (w, Crash)
  end.

(** ** Results *)

Lemma Done_Crash {A} (x : A) : Done (E := E) x <> Crash.
Proof. discriminate. Qed.

Lemma bind_run {A B} (m : M A) (k : A -> M B) w w1 x : m w = (w1, Done x) -> (m ≫= k) w = k x w1.
Proof. intros Hm. unfold mbind, session_bind. by rewrite Hm. Qed.

(** How a computation that does not crash went through a bind. *)
Lemma bind_inv {A B} (m : M A) (k : A -> M B) w w' r : (m ≫= k) w = (w', r) -> r <> Crash ->
  (exists e, m w = (w', Fail e) /\ r = Fail e) \/ (exists x w1, m w = (w1, Done x) /\ k x w1 = (w', r)).
Proof.
  unfold mbind, session_bind. destruct (m w) as [w1 [x|e|]]; intros Hm Hr; [eauto| |]; injection Hm as <- <-; [eauto|done].
Qed.

(** A step that cannot return an error. *)
Definition no_error {A} (m : M A) : Prop := forall w w' e, m w <> (w', Fail e).

Lemma no_error_bind {A B} (m : M A) (k : A -> M B) : no_error m -> (forall x, no_error (k x)) -> no_error (m ≫= k).
Proof.
  intros Hm Hk w w' e. unfold mbind, session_bind. destruct (m w) as [w1 [x|e1|]] eqn:Ew; [apply Hk|by apply Hm in Ew|done].
Qed.

Lemma no_error_or_crash {A} (o : option A) : no_error (or_crash o).
Proof. by destruct o. Qed.

Lemma no_error_catch {A} (m : M A) : no_error (catch m).
Proof. intros w w' e. unfold catch. by destruct (m w) as [? []]. Qed.

(** ** Conditions *)

(** From a state with [P], [m] returns a value with [Q], or an error with [F],
    or crashes. *)
Definition hoare {A} (P : W -> Prop) (m : M A) (Q : A -> W -> Prop) (F : E -> W -> Prop) : Prop :=
  forall w, P w -> match m w with (w', Done x) => Q x w' | (w', Fail e) => F e w' | (_, Crash) => True end.

Lemma hoare_pre {A} (P P' : W -> Prop) (m : M A) Q F : (forall w, P' w -> P w) -> hoare P m Q F -> hoare P' m Q F.
Proof. intros HP Hm w Hw. apply Hm, HP, Hw. Qed.

Lemma hoare_pure {A} (P : W -> Prop) (p : Prop) (m : M A) Q F : (p -> hoare P m Q F) -> hoare (fun w => P w /\ p) m Q F.
Proof. intros Hm w [Hw Hp]. by apply Hm. Qed.

Lemma hoare_post {A} P (m : M A) (Q Q' : A -> W -> Prop) (F F' : E -> W -> Prop) :
  (forall x w, Q x w -> Q' x w) -> (forall e w, F e w -> F' e w) -> hoare P m Q F -> hoare P m Q' F'.
Proof. intros HQ HF Hm w Hw. specialize (Hm w Hw). destruct (m w) as [w' [x|e|]]; auto. Qed.

Lemma hoare_ret {A} (x : A) (P : W -> Prop) Q F : (forall w, P w -> Q x w) -> hoare P (mret x) Q F.
Proof. intros HQ w Hw. apply HQ, Hw. Qed.
Lemma hoare_fail {A} (e : E) (P : W -> Prop) Q F : (forall w, P w -> F e w) -> hoare P (fail (A := A) e) Q F.
Proof. intros HQ w Hw. apply HQ, Hw. Qed.
Lemma hoare_crash {A} (P : W -> Prop) Q F : hoare P (crash (A := A)) Q F.
Proof. by intros w Hw. Qed.
Lemma hoare_modify f (P : W -> Prop) Q F : (forall w, P w -> Q tt (f w)) -> hoare P (modify f) Q F.
Proof. intros HQ w Hw. apply HQ, Hw. Qed.
Lemma hoare_get {A} (f : W -> A) (P : W -> Prop) Q F : (forall w, P w -> Q (f w) w) -> hoare P (get f) Q F.
Proof. intros HQ w Hw. apply HQ, Hw. Qed.
Lemma hoare_or_crash {A} (o : option A) (P : W -> Prop) Q F : (forall x w, o = Some x -> P w -> Q x w) -> hoare P (or_crash o) Q F.
Proof. intros HQ w Hw. destruct o as [x|]; cbn; [by apply HQ|done]. Qed.

Lemma hoare_bind {A B} P (m : M A) (k : A -> M B) Q' Q F :
  hoare P m Q' F -> (forall x, hoare (Q' x) (k x) Q F) -> hoare P (m ≫= k) Q F.
Proof.
  intros Hm Hk w Hw. specialize (Hm w Hw). unfold mbind, session_bind. destruct (m w) as [w' [x|e|]]; [by apply Hk|done..].
Qed.

Lemma hoare_catch {A} P (m : M A) Q F Q' F' : hoare P m Q F ->
  (forall x w, Q x w -> Q' (inl x) w) -> (forall e w, F e w -> Q' (inr e) w) -> hoare P (catch m) Q' F'.
Proof. intros Hm HQ HF w Hw. specialize (Hm w Hw). unfold catch. destruct (m w) as [w' [x|e|]]; [by apply HQ|by apply HF|done]. Qed.

(** A step without errors satisfies any condition on errors. *)
Lemma hoare_no_error {A} P (m : M A) Q F F' : no_error m -> hoare P m Q F -> hoare P m Q F'.
Proof. intros He Hm w Hw. specialize (Hm w Hw). destruct (m w) as [w' [x|e|]] eqn:E1; [done| |done]. by apply He in E1. Qed.

(** [m] keeps [I], whatever it returns. *)
Definition keeps {A} (I : W -> Prop) (m : M A) : Prop := hoare I m (fun _ => I) (fun _ => I).

Lemma keeps_bind {A B} I (m : M A) (k : A -> M B) : keeps I m -> (forall x, keeps I (k x)) -> keeps I (m ≫= k).
Proof. intros Hm Hk. eapply hoare_bind; [exact Hm|exact Hk]. Qed.

(** A step that keeps the condition and returns no error. *)
Lemma hoare_step {A B} I (m : M A) (k : A -> M B) Q F : no_error m -> keeps I m -> (forall x, hoare I (k x) Q F) -> hoare I (m ≫= k) Q F.
Proof. intros He Hm Hk. eapply hoare_bind; [by eapply hoare_no_error|exact Hk]. Qed.

Lemma keeps_catch {A} I (m : M A) : keeps I m -> keeps I (catch m).
Proof. intros Hm. by eapply hoare_catch. Qed.

Lemma keeps_ret {A} I (x : A) : keeps I (mret x).
Proof. by apply hoare_ret. Qed.
Lemma keeps_fail {A} I e : keeps I (fail (A := A) e).
Proof. by apply hoare_fail. Qed.
Lemma keeps_crash {A} I : keeps I (crash (A := A)).
Proof. apply hoare_crash. Qed.
Lemma keeps_get {A} I (f : W -> A) : keeps I (get f).
Proof. by apply hoare_get. Qed.
Lemma keeps_or_crash {A} I (o : option A) : keeps I (or_crash o).
Proof. by apply hoare_or_crash. Qed.

(** ** Absence of crashes *)

(** From a state with [I], [m] does not crash, its value has [Q], and [I] holds
    again, also after an error. *)
Definition sound {A} (I : W -> Prop) (m : M A) (Q : A -> Prop) : Prop :=
  forall w, I w -> match m w with (w', Done x) => Q x /\ I w' | (w', Fail _) => I w' | (_, Crash) => False end.

Lemma sound_bind {A B} I (m : M A) (k : A -> M B) P Q : sound I m P -> (forall x, P x -> sound I (k x) Q) -> sound I (m ≫= k) Q.
Proof.
  intros Hm Hk w Hw. specialize (Hm w Hw). unfold mbind, session_bind. destruct (m w) as [w' [x|e|]]; [|done..].
  destruct Hm as [Hx Hw']. by apply (Hk x Hx).
Qed.
Lemma sound_post {A} I (m : M A) (P Q : A -> Prop) : sound I m P -> (forall x, P x -> Q x) -> sound I m Q.
Proof. intros Hm HPQ w Hw. specialize (Hm w Hw). destruct (m w) as [w' [x|e|]]; naive_solver. Qed.
Lemma sound_ret {A} I (x : A) (Q : A -> Prop) : Q x -> sound I (mret x) Q.
Proof. by intros HQ w Hw. Qed.
Lemma sound_fail {A} I e (Q : A -> Prop) : sound I (fail e) Q.
Proof. by intros w Hw. Qed.
Lemma sound_get {A} I (f : W -> A) (Q : A -> Prop) : (forall w, I w -> Q (f w)) -> sound I (get f) Q.
Proof. intros HQ w Hw. cbn. auto. Qed.
Lemma sound_modify (I : W -> Prop) f (Q : unit -> Prop) : Q tt -> (forall w, I w -> I (f w)) -> sound I (modify f) Q.
Proof. intros HQ Hf w Hw. cbn. auto. Qed.
Lemma sound_or_crash {A} I (o : option A) (Q : A -> Prop) : (exists x, o = Some x /\ Q x) -> sound I (or_crash o) Q.
Proof. intros (x & -> & HQ). by apply sound_ret. Qed.
Lemma sound_catch {A} I (m : M A) (Q : A -> Prop) (R : A + E -> Prop) :
  sound I m Q -> (forall x, Q x -> R (inl x)) -> (forall e, R (inr e)) -> sound I (catch m) R.
Proof. intros Hm HQ HR w Hw. specialize (Hm w Hw). unfold catch. destruct (m w) as [w' [x|e|]]; naive_solver. Qed.

(** ** States *)

(** [m] relates the states before and after it, whatever its result. *)
Definition respects {A} (R : relation W) (m : M A) : Prop := forall w, R w (m w).1.

Context (R : relation W) `{!PreOrder R}.

Lemma respects_ret {A} (x : A) : respects R (mret x).
Proof. intros w. cbn. reflexivity. Qed.
Lemma respects_fail {A} e : respects R (fail (A := A) e).
Proof. intros w. cbn. reflexivity. Qed.
Lemma respects_crash {A} : respects R (crash (A := A)).
Proof. intros w. cbn. reflexivity. Qed.
Lemma respects_get {A} (f : W -> A) : respects R (get f).
Proof. intros w. cbn. reflexivity. Qed.
Lemma respects_or_crash {A} (o : option A) : respects R (or_crash o).
Proof. destruct o; [apply respects_ret|apply respects_crash]. Qed.

Lemma respects_bind {A B} (m : M A) (k : A -> M B) :
  respects R m -> (forall x, respects R (k x)) -> respects R (m ≫= k).
Proof.
  intros Hm Hk w. specialize (Hm w). unfold mbind, session_bind. destruct (m w) as [w' [x|e|]]; cbn in *; [|done..].
  etrans; [exact Hm|apply Hk].
Qed.

(** The same at one state, where what [m] returned is known. *)
Lemma relates_bind {A B} (m : M A) (k : A -> M B) w :
  R w (m w).1 -> (forall x w1, m w = (w1, Done x) -> R w1 (k x w1).1) -> R w ((m ≫= k) w).1.
Proof.
  intros Hm Hk. unfold mbind, session_bind. destruct (m w) as [w' [x|e|]]; cbn in *; [|done..].
  etrans; [exact Hm|by apply Hk].
Qed.

Lemma respects_catch {A} (m : M A) : respects R m -> respects R (catch m).
Proof. intros Hm w. specialize (Hm w). unfold catch. by destruct (m w) as [w' [x|e|]]. Qed.
End Handlers.
Arguments M : clear implicits.
