(* ===== verification/GoStrings.v ===== *)
(** * The parts of Go's standard library the proxy uses on strings

    UTF-8 decoding as [for _, r := range s] and package [regexp] perform it,
    package [strings] (TrimSpace, ToUpper, Index, Contains, Split, Fields, ...)
    and package [strconv] (Atoi, Itoa), on the byte strings of [Prelude].

    The Unicode case tables are not reproduced: the upper and lower case of a
    rune outside ASCII is a field of the class [UnicodeTables], so that every
    theorem holds for whatever tables the Go runtime carries. *)

From Stdlib Require Import Ascii ZArith Lia.
From stdpp Require Import base list gmap strings numbers.
From S2P Require Import Prelude.

Open Scope Z_scope.

(** ** Runes *)

(** A decoded rune with the bytes it was decoded from.  An invalid byte decodes
    to U+FFFD and keeps its single raw byte. *)
Record chunk := Chunk { rune : Z; raw : bytes }.

Definition RuneError : Z := 0xFFFD.

Definition cont (b : byte) : bool := (0x80 <=? bval b) && (bval b <=? 0xBF).

Definition two_ok (b0 b1 : byte) : bool :=
  (0xC2 <=? bval b0) && (bval b0 <=? 0xDF) && cont b1.

Definition three_ok (b0 b1 b2 : byte) : bool :=
  (0xE0 <=? bval b0) && (bval b0 <=? 0xEF) && cont b1 && cont b2 &&
  (negb (bval b0 =? 0xE0) || (0xA0 <=? bval b1)) &&
  (negb (bval b0 =? 0xED) || (bval b1 <=? 0x9F)).

Definition four_ok (b0 b1 b2 b3 : byte) : bool :=
  (0xF0 <=? bval b0) && (bval b0 <=? 0xF4) && cont b1 && cont b2 && cont b3 &&
  (negb (bval b0 =? 0xF0) || (0x90 <=? bval b1)) &&
  (negb (bval b0 =? 0xF4) || (bval b1 <=? 0x8F)).

Definition two_rune (b0 b1 : byte) : Z := (bval b0 - 0xC0) * 64 + (bval b1 - 0x80).
Definition three_rune (b0 b1 b2 : byte) : Z :=
  (bval b0 - 0xE0) * 4096 + (bval b1 - 0x80) * 64 + (bval b2 - 0x80).
Definition four_rune (b0 b1 b2 b3 : byte) : Z :=
  (bval b0 - 0xF0) * 262144 + (bval b1 - 0x80) * 4096 + (bval b2 - 0x80) * 64 + (bval b3 - 0x80).

(** The runes of a string, as [range] and [regexp] see them. *)
Fixpoint runes (s : bytes) : list chunk :=
  match s with
  | [] => []
  | b0 :: t0 =>
      if bval b0 <? 0x80 then Chunk (bval b0) [b0] :: runes t0
      else match t0 with
      | b1 :: t1 =>
          if two_ok b0 b1 then Chunk (two_rune b0 b1) [b0; b1] :: runes t1
          else match t1 with
          | b2 :: t2 =>
              if three_ok b0 b1 b2 then Chunk (three_rune b0 b1 b2) [b0; b1; b2] :: runes t2
              else match t2 with
              | b3 :: t3 =>
                  if four_ok b0 b1 b2 b3
                  then Chunk (four_rune b0 b1 b2 b3) [b0; b1; b2; b3] :: runes t3
                  else Chunk RuneError [b0] :: runes t0
              | [] => Chunk RuneError [b0] :: runes t0
              end
          | [] => Chunk RuneError [b0] :: runes t0
          end
      | [] => Chunk RuneError [b0] :: runes t0
      end
  end.

(** The bytes a sequence of decoded runes came from. *)
Definition unrunes (cs : list chunk) : bytes := concat (raw <$> cs).

(** [utf8.AppendRune] / [WriteRune]: surrogates and out-of-range values are
    written as U+FFFD. *)
Definition encode_rune (r : Z) : bytes :=
  if (0 <=? r) && (r <? 0x80) then [to_byte r]
  else if (0 <=? r) && (r <? 0x800) then [to_byte (0xC0 + r / 64); to_byte (0x80 + r mod 64)]
  else if (r <? 0) || (0x10FFFF <? r) || ((0xD800 <=? r) && (r <=? 0xDFFF))
       then [to_byte 0xEF; to_byte 0xBF; to_byte 0xBD]
  else if r <? 0x10000
       then [to_byte (0xE0 + r / 4096); to_byte (0x80 + (r / 64) mod 64); to_byte (0x80 + r mod 64)]
  else [to_byte (0xF0 + r / 262144); to_byte (0x80 + (r / 4096) mod 64);
        to_byte (0x80 + (r / 64) mod 64); to_byte (0x80 + r mod 64)].

(** [unicode.IsSpace]. *)
Definition isSpace (r : Z) : bool :=
  ((9 <=? r) && (r <=? 13)) || (r =? 32) || (r =? 0x85) || (r =? 0xA0) || (r =? 0x1680) ||
  ((0x2000 <=? r) && (r <=? 0x200A)) || (r =? 0x2028) || (r =? 0x2029) || (r =? 0x202F) ||
  (r =? 0x205F) || (r =? 0x3000).

(** A string of ASCII bytes, and a string that is valid UTF-8. *)
Definition is_ascii (s : bytes) : bool := forallb (fun b => bval b <? 0x80) s.
Definition valid_utf8 (s : bytes) : bool :=
  forallb (fun c => bool_decide (encode_rune (rune c) = raw c)) (runes s).

(** ** Unicode case tables *)

Class UnicodeTables := {
  upper_hi : Z -> Z;  (* unicode.ToUpper on runes >= 0x80 *)
  lower_hi : Z -> Z   (* unicode.ToLower on runes >= 0x80 *)
}.

(** A table that maps nothing, for examples on ASCII text, and one with the
    entries U+0250 -> U+2C6F (one byte longer in UTF-8). *)
Definition ascii_tables : UnicodeTables := {| upper_hi := fun r => r; lower_hi := fun r => r |}.
Definition turned_a_tables : UnicodeTables :=
  {| upper_hi := fun r => if r =? 0x250 then 0x2C6F else r;
     lower_hi := fun r => if r =? 0x2C6F then 0x250 else r |}.

(** ** Package strings *)

Fixpoint HasPrefix (s p : bytes) : bool :=
  match p, s with
  | [], _ => true
  | _ :: _, [] => false
  | c :: p', b :: s' => bool_decide (b = c) && HasPrefix s' p'
  end.

(** The first position of [sub] in [s]. *)
Fixpoint find_sub (s sub : bytes) : option nat :=
  if HasPrefix s sub then Some O
  else match s with
       | [] => None
       | _ :: t => S <$> find_sub t sub
       end.

Definition Index (s sub : bytes) : Z :=
  match find_sub s sub with Some n => Z.of_nat n | None => -1 end.

Definition Contains (s sub : bytes) : bool := 0 <=? Index s sub.

(** [strings.Count(s, c)] for a one-byte substring. *)
Definition CountByte (s : bytes) (c : byte) : nat := length (filter (fun b => b = c) s).

(** [strings.Split(s, c)] for a one-byte separator. *)
Fixpoint SplitByte (s : bytes) (c : byte) : list bytes :=
  match s with
  | [] => [[]]
  | b :: t =>
      if bool_decide (b = c) then [] :: SplitByte t c
      else match SplitByte t c with
           | h :: r => (b :: h) :: r
           | [] => [[b]]
           end
  end.

Fixpoint Join (l : list bytes) (sep : bytes) : bytes :=
  match l with
  | [] => []
  | [x] => x
  | x :: t => x ++ sep ++ Join t sep
  end.

Fixpoint drop_while {A} (p : A -> bool) (l : list A) : list A :=
  match l with
  | [] => []
  | x :: t => if p x then drop_while p t else l
  end.

Definition trim_while {A} (p : A -> bool) (l : list A) : list A :=
  rev (drop_while p (rev (drop_while p l))).

Definition TrimSpace (s : bytes) : bytes :=
  unrunes (trim_while (fun c => isSpace (rune c)) (runes s)).

(** [strings.Trim(s, cutset)] for a cutset of ASCII characters. *)
Definition Trim (s cutset : bytes) : bytes :=
  trim_while (fun b => bool_decide (b ∈ cutset)) s.

Definition TrimSuffix (s suffix : bytes) : bytes :=
  if HasPrefix (rev s) (rev suffix) then take (length s - length suffix) s else s.

Fixpoint fields_aux (cs : list chunk) (cur : bytes) : list bytes :=
  match cs with
  | [] => match cur with [] => [] | _ => [cur] end
  | c :: t =>
      if isSpace (rune c)
      then match cur with [] => fields_aux t [] | _ => cur :: fields_aux t [] end
      else fields_aux t (cur ++ raw c)
  end.

Definition Fields (s : bytes) : list bytes := fields_aux (runes s) [].

Section Case.
Context `{UnicodeTables}.

Definition upper_rune (r : Z) : Z :=
  if (97 <=? r) && (r <=? 122) then r - 32 else if r <? 0x80 then r else upper_hi r.
Definition lower_rune (r : Z) : Z :=
  if (65 <=? r) && (r <=? 90) then r + 32 else if r <? 0x80 then r else lower_hi r.

(** [strings.ToUpper] and [strings.ToLower]: [strings.Map] re-encodes every
    rune, so an invalid byte becomes the encoding of U+FFFD. *)
Definition ToUpper (s : bytes) : bytes :=
  concat ((fun c => encode_rune (upper_rune (rune c))) <$> runes s).
Definition ToLower (s : bytes) : bytes :=
  concat ((fun c => encode_rune (lower_rune (rune c))) <$> runes s).
End Case.

(** ** Package strconv *)

Inductive atoi_error := ErrSyntax | ErrRange.

Definition is_digit (b : byte) : bool := (48 <=? bval b) && (bval b <=? 57).

Fixpoint parse_uint (n : Z) (s : bytes) : Z + atoi_error :=
  match s with
  | [] => inl n
  | c :: t =>
      if is_digit c
      then let n1 := n * 10 + (bval c - 48) in
           if 2 ^ 64 - 1 <? n1 then inr ErrRange else parse_uint n1 t
      else inr ErrSyntax
  end.

(** [strconv.Atoi]: the value is returned beside the error, and out-of-range
    input gives the nearest 64-bit value. *)
Definition Atoi (s : bytes) : Z * option atoi_error :=
  let '(neg, digits) :=
    match s with
    | c :: t => if bval c =? 45 then (true, t) else if bval c =? 43 then (false, t) else (false, s)
    | [] => (false, [])
    end in
  match digits with
  | [] => (0, Some ErrSyntax)
  | _ =>
      match parse_uint 0 digits with
      | inr ErrSyntax => (0, Some ErrSyntax)
      | inr ErrRange => (if neg then MinInt64 else MaxInt64, Some ErrRange)
      | inl n =>
          if neg then (if 2 ^ 63 <? n then (MinInt64, Some ErrRange) else (- n, None))
          else (if MaxInt64 <? n then (MaxInt64, Some ErrRange) else (n, None))
      end
  end.

Definition digit (z : Z) : byte := to_byte (48 + z).

Fixpoint itoa_digits (fuel : nat) (z : Z) : bytes :=
  match fuel with
  | O => []
  | S fuel => if z <? 10 then [digit z] else itoa_digits fuel (z / 10) ++ [digit (z mod 10)]
  end.

(** [strconv.Itoa] and [fmt.Sprintf("%d", z)].  The number of decimal digits of
    [z] is at most [1 + log2 z]. *)
Definition Itoa (z : Z) : bytes :=
  if z <? 0 then to_byte 45 :: itoa_digits (S (Z.to_nat (Z.log2 (- z)))) (- z)
  else itoa_digits (S (Z.to_nat (Z.log2 z))) z.

(** ** Lemmas: runes *)

Lemma encode_ascii r : 0 <= r < 0x80 -> encode_rune r = [to_byte r].
Proof. intros. unfold encode_rune. by replace ((0 <=? r) && (r <? 0x80)) with true by lia. Qed.

Lemma to_byte_eq z b : z = bval b -> to_byte z = b.
Proof. intros ->. apply to_byte_bval. Qed.

(** A decoded multi-byte rune encodes to the bytes it was decoded from. *)
Lemma encode_two b0 b1 : two_ok b0 b1 = true -> encode_rune (two_rune b0 b1) = [b0; b1].
Proof.
  unfold two_ok, cont, encode_rune, two_rune. intros H. bool_simpl.
  set (x := bval b0 - 192). set (y := bval b1 - 128).
  assert (Hd : (x * 64 + y) / 64 = x) by (rewrite Z.div_add_l, Z.div_small by lia; lia).
  assert (Hm : (x * 64 + y) mod 64 = y) by (rewrite Z.add_comm, Z.mod_add, Z.mod_small by lia; lia).
  rewrite Hd, Hm.
  replace ((0 <=? x * 64 + y) && (x * 64 + y <? 128)) with false by lia.
  replace ((0 <=? x * 64 + y) && (x * 64 + y <? 2048)) with true by lia.
  repeat f_equal; apply to_byte_eq; lia.
Qed.

Lemma split_base64 q r : 0 <= r < 64 -> (q * 64 + r) / 64 = q /\ (q * 64 + r) mod 64 = r.
Proof.
  intros. split; [rewrite Z.div_add_l, Z.div_small by lia; lia|].
  rewrite Z.add_comm, Z.mod_add, Z.mod_small by lia. lia.
Qed.

Lemma encode_three b0 b1 b2 :
  three_ok b0 b1 b2 = true -> encode_rune (three_rune b0 b1 b2) = [b0; b1; b2].
Proof.
  unfold three_ok, cont, encode_rune, three_rune. intros H.
  set (x := bval b0 - 224). set (y := bval b1 - 128). set (z := bval b2 - 128).
  set (r := x * 4096 + y * 64 + z).
  assert (0 <= y < 64) by lia. assert (0 <= z < 64) by lia.
  assert (Hr : r = (x * 64 + y) * 64 + z) by lia.
  destruct (split_base64 (x * 64 + y) z) as [D1 M1]; [done|].
  destruct (split_base64 x y) as [D2 M2]; [done|].
  assert (D3 : r / 4096 = x) by (rewrite Hr; change 4096 with (64 * 64); rewrite <- Z.div_div, D1 by lia; done).
  replace ((0 <=? r) && (r <? 128)) with false by lia.
  replace ((0 <=? r) && (r <? 2048)) with false by lia.
  replace ((r <? 0) || (1114111 <? r) || ((55296 <=? r) && (r <=? 57343))) with false by lia.
  replace (r <? 65536) with true by lia.
  rewrite D3, Hr, D1, M1, M2. repeat f_equal; apply to_byte_eq; lia.
Qed.

Lemma encode_four b0 b1 b2 b3 :
  four_ok b0 b1 b2 b3 = true -> encode_rune (four_rune b0 b1 b2 b3) = [b0; b1; b2; b3].
Proof.
  unfold four_ok, cont, encode_rune, four_rune. intros H.
  set (x := bval b0 - 240). set (y := bval b1 - 128). set (z := bval b2 - 128). set (w := bval b3 - 128).
  set (r := x * 262144 + y * 4096 + z * 64 + w).
  assert (0 <= y < 64) by lia. assert (0 <= z < 64) by lia. assert (0 <= w < 64) by lia.
  assert (Hr : r = ((x * 64 + y) * 64 + z) * 64 + w) by lia.
  destruct (split_base64 ((x * 64 + y) * 64 + z) w) as [D1 M1]; [done|].
  destruct (split_base64 (x * 64 + y) z) as [D2 M2]; [done|].
  destruct (split_base64 x y) as [D3 M3]; [done|].
  assert (D4 : r / 4096 = x * 64 + y)
    by (rewrite Hr; change 4096 with (64 * 64); rewrite <- Z.div_div, D1, D2 by lia; done).
  assert (D5 : r / 262144 = x)
    by (change 262144 with (4096 * 64); rewrite <- Z.div_div, D4, D3 by lia; done).
  replace ((0 <=? r) && (r <? 128)) with false by lia.
  replace ((0 <=? r) && (r <? 2048)) with false by lia.
  replace ((r <? 0) || (1114111 <? r) || ((55296 <=? r) && (r <=? 57343))) with false by lia.
  replace (r <? 65536) with false by lia.
  rewrite D5, D4, Hr, D1, M1, M2, M3. repeat f_equal; apply to_byte_eq; lia.
Qed.

(** One decoding step: a rune is the encoding of its value, or a lone invalid
    byte read as U+FFFD. *)
Lemma runes_cons b0 t0 :
  exists c rest, runes (b0 :: t0) = c :: runes rest /\ b0 :: t0 = raw c ++ rest /\ raw c <> [] /\
    (encode_rune (rune c) = raw c \/ (0x80 <= bval b0 /\ c = Chunk RuneError [b0])).
Proof.
  pose proof (bval_range b0). cbn [runes].
  destruct (bval b0 <? 0x80) eqn:E0.
  { eexists _, t0. split_and!; [done..|]. left. simpl. rewrite encode_ascii by lia.
    by rewrite to_byte_bval. }
  apply Z.ltb_ge in E0.
  destruct t0 as [|b1 t1]; [eexists _, []; split_and!; [done..|by right]|].
  destruct (two_ok b0 b1) eqn:E1; [eexists _, t1; split_and!; [done..|left; by apply encode_two]|].
  destruct t1 as [|b2 t2]; [eexists _, [b1]; split_and!; [done..|by right]|].
  destruct (three_ok b0 b1 b2) eqn:E2; [eexists _, t2; split_and!; [done..|left; by apply encode_three]|].
  destruct t2 as [|b3 t3]; [eexists _, [b1; b2]; split_and!; [done..|by right]|].
  destruct (four_ok b0 b1 b2 b3) eqn:E3;
    [eexists _, t3; split_and!; [done..|left; by apply encode_four]|].
  eexists _, (b1 :: b2 :: b3 :: t3); split_and!; [done..|by right].
Qed.

(** Induction along the runes of a string. *)
Lemma runes_ind (P : bytes -> Prop) :
  P [] ->
  (forall c rest, raw c <> [] ->
     (encode_rune (rune c) = raw c \/ (exists b, 0x80 <= bval b /\ c = Chunk RuneError [b])) ->
     runes (raw c ++ rest) = c :: runes rest -> P rest -> P (raw c ++ rest)) ->
  forall s, P s.
Proof.
  intros H0 H1 s. remember (length s) as n eqn:En. revert s En.
  induction n as [n IH] using lt_wf_ind. intros [|b0 t0] ->; [done|].
  destruct (runes_cons b0 t0) as (c & rest & Hr & Hs & Hne & Hc). rewrite Hs in Hr |- *.
  apply H1; [done| |done|].
  - destruct Hc as [|[? ->]]; [by left|right; eauto].
  - eapply IH; [|done]. rewrite Hs, length_app. destruct (raw c); [done|simpl; lia].
Qed.

Lemma unrunes_cons c cs : unrunes (c :: cs) = raw c ++ unrunes cs.
Proof. done. Qed.

Lemma unrunes_app c1 c2 : unrunes (c1 ++ c2) = unrunes c1 ++ unrunes c2.
Proof. unfold unrunes. by rewrite fmap_app, concat_app. Qed.

Lemma unrunes_runes s : unrunes (runes s) = s.
Proof.
  induction s as [|c rest _ _ Hr IH] using runes_ind; [done|].
  by rewrite Hr, unrunes_cons, IH.
Qed.

Lemma runes_elem s c : c ∈ runes s -> encode_rune (rune c) = raw c \/ rune c = RuneError.
Proof.
  induction s as [|c' rest _ Hc Hr IH] using runes_ind; [by intros ?%elem_of_nil|].
  rewrite Hr, elem_of_cons. intros [->|]; [|auto]. destruct Hc as [|(b & _ & ->)]; auto.
Qed.

(** A decoded ASCII rune is the byte itself. *)
Lemma runes_elem_ascii s c : c ∈ runes s -> 0 <= rune c < 0x80 -> raw c = [to_byte (rune c)].
Proof.
  intros Hin Hr. destruct (runes_elem s c Hin) as [He|He]; [by rewrite <- He, encode_ascii|].
  rewrite He in Hr. unfold RuneError in Hr. lia.
Qed.

(** An ASCII byte always starts, and is, a rune of its own. *)
Definition ascii_chunk (b : byte) : chunk := Chunk (bval b) [b].

Lemma runes_ascii_cons b s : bval b < 0x80 -> runes (b :: s) = ascii_chunk b :: runes s.
Proof. intros H. simpl. by replace (bval b <? 0x80) with true by lia. Qed.

Lemma runes_ascii_app l s : is_ascii l = true -> runes (l ++ s) = (ascii_chunk <$> l) ++ runes s.
Proof.
  induction l as [|b l IH]; [done|]. simpl is_ascii. intros H. bool_simpl.
  simpl app. rewrite runes_ascii_cons by done. by rewrite IH.
Qed.

Lemma runes_ascii l : is_ascii l = true -> runes l = ascii_chunk <$> l.
Proof. intros H. rewrite <- (app_nil_r l) at 1. rewrite runes_ascii_app by done. by rewrite app_nil_r. Qed.

Lemma unrunes_ascii l : unrunes (ascii_chunk <$> l) = l.
Proof. unfold unrunes. induction l; simpl; [done|]. by f_equal. Qed.

Lemma is_ascii_app l1 l2 : is_ascii (l1 ++ l2) = is_ascii l1 && is_ascii l2.
Proof. apply forallb_app. Qed.

(** Decoding restarts at an ASCII byte, whatever came before it. *)
Lemma cont_ascii b : bval b < 0x80 -> cont b = false.
Proof. unfold cont. lia. Qed.

Lemma runes_app_boundary s b t :
  bval b < 0x80 -> runes (s ++ b :: t) = runes s ++ runes (b :: t).
Proof.
  intros Hb. pose proof (cont_ascii b Hb) as Hc.
  assert (H2 : forall x, two_ok x b = false) by (intros; unfold two_ok; rewrite Hc; apply andb_false_r).
  assert (H3 : forall x y, three_ok x b y = false /\ three_ok x y b = false).
  { intros; unfold three_ok; rewrite Hc; split; by rewrite ?andb_false_r. }
  assert (H4 : forall x y z, four_ok x b y z = false /\ four_ok x y b z = false /\ four_ok x y z b = false).
  { intros; unfold four_ok; rewrite Hc; split_and!; by rewrite ?andb_false_r. }
  remember (length s) as n eqn:En. revert s En.
  induction n as [n IH] using lt_wf_ind. intros [|b0 t0] ->; [done|].
  assert (IH' : forall s', (length s' <= length t0)%nat -> runes (s' ++ b :: t) = runes s' ++ runes (b :: t)).
  { intros s' Hs'. eapply IH; [|done]. simpl. lia. }
  clear IH. remember (runes (b :: t)) as R eqn:ER.
  cbn [app runes]. destruct (bval b0 <? 0x80); [cbn [app]; f_equal; apply IH'; lia|].
  destruct t0 as [|b1 t1]; cbn [app].
  { rewrite H2. destruct t as [|c t]; [by rewrite ER|]. rewrite (proj1 (H3 _ _)).
    destruct t as [|d t]; [by rewrite ER|]. by rewrite (proj1 (H4 _ _ _)), ER. }
  destruct (two_ok b0 b1); [cbn [app]; f_equal; apply IH'; simpl; lia|].
  pose proof (IH' (b1 :: t1) ltac:(done)) as IH1. cbn [app] in IH1.
  destruct t1 as [|b2 t2]; cbn [app] in *.
  { rewrite (proj2 (H3 _ _)). destruct t as [|c t]; [by rewrite IH1|].
    by rewrite (proj1 (proj2 (H4 _ _ _))), IH1. }
  destruct (three_ok b0 b1 b2); [cbn [app]; f_equal; apply IH'; simpl; lia|].
  destruct t2 as [|b3 t3]; cbn [app] in *.
  { by rewrite (proj2 (proj2 (H4 _ _ _))), IH1. }
  destruct (four_ok b0 b1 b2 b3); [cbn [app]; f_equal; apply IH'; simpl; lia|].
  cbn [app]. by f_equal.
Qed.

(** Re-encoding the runes of valid UTF-8 gives the string back. *)
Lemma valid_utf8_encode s :
  valid_utf8 s = true -> concat ((fun c => encode_rune (rune c)) <$> runes s) = s.
Proof.
  unfold valid_utf8. induction s as [|c rest _ _ Hr IH] using runes_ind; [done|].
  rewrite Hr. cbn [forallb]. intros H. bool_simpl.
  rewrite fmap_cons. cbn [concat]. by rewrite H, IH.
Qed.

Lemma is_ascii_valid_utf8 s : is_ascii s = true -> valid_utf8 s = true.
Proof.
  intros H. unfold valid_utf8. rewrite runes_ascii by done.
  induction s as [|b s IH]; [done|]. rewrite fmap_cons. cbn [forallb is_ascii] in *. bool_simpl.
  rewrite bool_decide_eq_true_2, IH; [done..|]. simpl.
  pose proof (bval_range b). by rewrite encode_ascii, to_byte_bval by lia.
Qed.

(** A rune that encodes to its bytes is read back whatever follows it. *)
Lemma runes_step s c : c ∈ runes s -> encode_rune (rune c) = raw c -> forall t, runes (raw c ++ t) = c :: runes t.
Proof.
  remember (length s) as n eqn:En. revert s En. induction n as [n IH] using lt_wf_ind. intros s -> Hin He t.
  assert (Hlone : forall b, encode_rune RuneError = [b] -> False) by (intros b; vm_compute; discriminate).
  assert (Hrec : forall s', (length s' < length s)%nat -> c ∈ runes s' -> runes (raw c ++ t) = c :: runes t) by eauto.
  clear IH. destruct s as [|b0 t0]; [by apply elem_of_nil in Hin|].
  cbn [runes] in Hin. destruct (bval b0 <? 0x80) eqn:E0.
  { apply elem_of_cons in Hin as [->|Hin]; [cbn; by rewrite E0|]. apply (Hrec t0); [cbn; lia|done]. }
  assert (Herr : forall s', (length s' <= length t0)%nat -> c ∈ Chunk RuneError [b0] :: runes s' -> runes (raw c ++ t) = c :: runes t).
  { intros s' Hs' [->|Hin']%elem_of_cons; [by apply Hlone in He|]. apply (Hrec s'); [cbn; lia|done]. }
  destruct t0 as [|b1 t1]; [by apply (Herr [])|]. destruct (two_ok b0 b1) eqn:E1.
  { apply elem_of_cons in Hin as [->|Hin]; [cbn; by rewrite E0, E1|]. apply (Hrec t1); [cbn; lia|done]. }
  destruct t1 as [|b2 t2]; [by apply (Herr [b1])|]. destruct (three_ok b0 b1 b2) eqn:E2.
  { apply elem_of_cons in Hin as [->|Hin]; [cbn; by rewrite E0, E1, E2|]. apply (Hrec t2); [cbn; lia|done]. }
  destruct t2 as [|b3 t3]; [by apply (Herr [b1; b2])|]. destruct (four_ok b0 b1 b2 b3) eqn:E3; [|by apply (Herr (b1 :: b2 :: b3 :: t3))].
  apply elem_of_cons in Hin as [->|Hin]; [cbn; by rewrite E0, E1, E2, E3|]. apply (Hrec t3); [cbn; lia|done].
Qed.

(** Any runes of a valid string are a valid string. *)
Lemma valid_utf8_runes s cs : valid_utf8 s = true -> cs ⊆ runes s -> valid_utf8 (unrunes cs) = true.
Proof.
  intros Hv Hsub. assert (Henc : forall c, c ∈ runes s -> encode_rune (rune c) = raw c).
  { intros c Hc. unfold valid_utf8 in Hv. rewrite forallb_forall in Hv. apply list_elem_of_In, Hv in Hc. by apply bool_decide_eq_true in Hc. }
  unfold valid_utf8. assert (E : runes (unrunes cs) = cs).
  { induction cs as [|c cs IH]; [done|]. rewrite unrunes_cons, (runes_step s), IH; [done|set_solver..| |].
    - apply Hsub. by left.
    - apply Henc, Hsub. by left. }
  rewrite E. apply forallb_forall. intros c Hc%list_elem_of_In. by apply bool_decide_eq_true_2, Henc, Hsub.
Qed.

(** ** Lemmas: searching and splitting *)

Lemma HasPrefix_app p s : HasPrefix (p ++ s) p = true.
Proof. induction p as [|c p IH]; simpl; [by destruct s|]. by rewrite bool_decide_eq_true_2, IH. Qed.

Lemma HasPrefix_spec s p : HasPrefix s p = true <-> exists t, s = p ++ t.
Proof.
  split; [|intros [t ->]; apply HasPrefix_app].
  revert s. induction p as [|c p IH]; intros s; [by exists s|].
  destruct s as [|b s]; simpl; [done|]. intros H. bool_simpl. subst.
  destruct (IH s) as [t ->]; [done|]. by exists t.
Qed.

(** [Index] finds an occurrence, and the first one. *)
Lemma find_sub_Some s sub n :
  find_sub s sub = Some n ->
  exists pre post, s = pre ++ sub ++ post /\ length pre = n /\
    forall k, (k < n)%nat -> HasPrefix (drop k s) sub = false.
Proof.
  revert n. induction s as [|b s IH]; intros n; cbn [find_sub].
  - destruct (HasPrefix [] sub) eqn:E; [|done]. intros [= <-].
    apply HasPrefix_spec in E as [t Ht]. exists [], t. split_and!; [done..|lia].
  - destruct (HasPrefix (b :: s) sub) eqn:E.
    + intros [= <-]. apply HasPrefix_spec in E as [t Ht]. exists [], t. split_and!; [done..|lia].
    + destruct (find_sub s sub) as [m|] eqn:Em; [|done]. intros [= <-].
      destruct (IH m eq_refl) as (pre & post & -> & <- & Hmin).
      exists (b :: pre), post. split_and!; [done..|]. intros [|k] Hk; [done|].
      simpl. apply Hmin. lia.
Qed.

Lemma find_sub_None s sub :
  find_sub s sub = None -> forall pre post, s <> pre ++ sub ++ post.
Proof.
  induction s as [|b s IH]; cbn [find_sub]; intros H pre post Heq.
  - destruct pre, sub; done.
  - destruct (HasPrefix (b :: s) sub) eqn:E; [done|].
    destruct (find_sub s sub) eqn:Em; [done|].
    destruct pre as [|b' pre].
    + rewrite Heq in E. simpl in E. by rewrite HasPrefix_app in E.
    + injection Heq as -> ->. by eapply IH.
Qed.

Lemma Contains_spec s sub : Contains s sub = true <-> exists pre post, s = pre ++ sub ++ post.
Proof.
  unfold Contains, Index. destruct (find_sub s sub) as [n|] eqn:E.
  - apply find_sub_Some in E as (pre & post & -> & _ & _). split; intros; [eauto|]. apply Z.leb_le. lia.
  - split; [done|]. intros (pre & post & Heq). by eapply find_sub_None in E.
Qed.

Lemma SplitByte_ne s c : SplitByte s c <> [].
Proof. destruct s; simpl; [done|]. case_bool_decide; [done|]. by destruct (SplitByte s c). Qed.

(** Joining the parts of a split with the separator gives the string back. *)
Lemma Join_SplitByte s c : Join (SplitByte s c) [c] = s.
Proof.
  induction s as [|b s IH]; [done|]. cbn [SplitByte]. pose proof (SplitByte_ne s c).
  case_bool_decide; subst; destruct (SplitByte s c) as [|h [|h' r]]; try done.
  - cbn [Join]. rewrite <- IH. done.
  - simpl in *. by rewrite IH.
  - simpl in *. by rewrite IH.
  - simpl in *. by rewrite IH.
Qed.

Lemma length_SplitByte s c : length (SplitByte s c) = S (CountByte s c).
Proof.
  unfold CountByte. induction s as [|b s IH]; [done|]. cbn [SplitByte].
  rewrite filter_cons. case_bool_decide; subst.
  - rewrite decide_True by done. simpl. by rewrite IH.
  - rewrite decide_False by done. destruct (SplitByte s c); done.
Qed.

(** No part of a split contains the separator. *)
Lemma SplitByte_no_sep s c p : p ∈ SplitByte s c -> c ∉ p.
Proof.
  revert p. induction s as [|b s IH]; intros p; cbn [SplitByte].
  - rewrite list_elem_of_singleton. intros ->. apply not_elem_of_nil.
  - case_bool_decide as Hb.
    + rewrite elem_of_cons. intros [->|?]; [apply not_elem_of_nil|eauto].
    + destruct (SplitByte s c) as [|h r].
      * rewrite list_elem_of_singleton. intros ->. rewrite list_elem_of_singleton. congruence.
      * rewrite elem_of_cons. intros [->|?].
        { rewrite elem_of_cons. intros [?|?]; [congruence|]. eapply IH; [|done]. by left. }
        eapply IH. by right.
Qed.

(** ** Lemmas: trimming *)

Lemma drop_while_app {A} (p : A -> bool) l1 l2 :
  forallb p l1 = true -> drop_while p (l1 ++ l2) = drop_while p l2.
Proof. induction l1; simpl; [done|]. intros H. bool_simpl. rewrite H. auto. Qed.

Lemma drop_while_suffix {A} (p : A -> bool) l :
  exists l1, l = l1 ++ drop_while p l /\ forallb p l1 = true.
Proof.
  induction l as [|x l IH]; [by exists []|]. simpl. destruct (p x) eqn:E; [|by exists []].
  destruct IH as (l1 & Heq & Hp). exists (x :: l1). simpl. rewrite E, <- Heq. done.
Qed.

Lemma drop_while_head {A} (p : A -> bool) l x t : drop_while p l = x :: t -> p x = false.
Proof. induction l; simpl; [done|]. destruct (p a) eqn:E; [done|]. by intros [= <- <-]. Qed.

Lemma drop_while_idemp {A} (p : A -> bool) l : drop_while p (drop_while p l) = drop_while p l.
Proof.
  destruct (drop_while p l) as [|x t] eqn:E; [done|]. simpl. by rewrite (drop_while_head _ _ _ _ E).
Qed.

Lemma trim_while_no_first {A} (p : A -> bool) l x t : trim_while p l = x :: t -> p x = false.
Proof.
  unfold trim_while. destruct (drop_while_suffix p (rev (drop_while p l))) as (l1 & Heq & _).
  intros H. apply (f_equal (@rev A)) in Heq. rewrite rev_involutive, rev_app_distr, H in Heq.
  by eapply drop_while_head.
Qed.

Lemma trim_while_id {A} (p : A -> bool) l :
  (forall x t, l = x :: t -> p x = false) -> (forall x t, l = t ++ [x] -> p x = false) ->
  trim_while p l = l.
Proof.
  intros Hf Hl. unfold trim_while.
  assert (drop_while p l = l) as ->.
  { destruct l; [done|]. simpl. by erewrite Hf. }
  assert (drop_while p (rev l) = rev l) as ->; [|apply rev_involutive].
  destruct (rev l) as [|x t] eqn:E; [done|]. simpl. erewrite Hl; [done|].
  rewrite <- (rev_involutive l), E. done.
Qed.

Lemma trim_while_no_last {A} (p : A -> bool) l x t : trim_while p l = t ++ [x] -> p x = false.
Proof.
  unfold trim_while. intros H. apply (f_equal (@rev A)) in H.
  rewrite rev_involutive, rev_app_distr in H. simpl in H. eauto using drop_while_head.
Qed.

Lemma trim_while_idemp {A} (p : A -> bool) l : trim_while p (trim_while p l) = trim_while p l.
Proof. apply trim_while_id; intros x t H; eauto using trim_while_no_first, trim_while_no_last. Qed.

Lemma forallb_ascii_chunk (p : Z -> bool) l :
  forallb (fun c => p (rune c)) (ascii_chunk <$> l) = forallb (fun b => p (bval b)) l.
Proof. induction l; [done|]. rewrite fmap_cons. cbn [forallb]. by rewrite IHl. Qed.

(** Leading spaces before [s] do not survive [TrimSpace]. *)
Lemma TrimSpace_lead l s :
  is_ascii l = true -> forallb (fun b => isSpace (bval b)) l = true -> TrimSpace (l ++ s) = TrimSpace s.
Proof.
  intros Ha Hs. unfold TrimSpace, trim_while. rewrite runes_ascii_app by done.
  rewrite drop_while_app; [done|]. by rewrite (forallb_ascii_chunk isSpace).
Qed.

(** ** Lemmas: numbers *)

Lemma bval_digit z : 0 <= z < 10 -> bval (digit z) = 48 + z.
Proof. intros. unfold digit. rewrite bval_to_byte. apply Z.mod_small. lia. Qed.

Lemma is_digit_digit z : 0 <= z < 10 -> is_digit (digit z) = true.
Proof. intros. unfold is_digit. rewrite bval_digit by done. lia. Qed.

Lemma parse_uint_app n s1 s2 m :
  parse_uint n s1 = inl m -> parse_uint n (s1 ++ s2) = parse_uint m s2.
Proof.
  revert n. induction s1 as [|c s1 IH]; intros n; simpl; [by intros [= ->]|].
  destruct (is_digit c); [|done]. destruct (2 ^ 64 - 1 <? _); [done|]. apply IH.
Qed.

Lemma itoa_digits_parse fuel z :
  0 <= z < 2 ^ 64 -> (Z.to_nat (Z.log2 z) < fuel)%nat ->
  parse_uint 0 (itoa_digits fuel z) = inl z.
Proof.
  revert z. induction fuel as [|fuel IH]; intros z Hz Hf; [lia|]. cbn [itoa_digits].
  destruct (z <? 10) eqn:E; bool_simpl.
  - cbn [parse_uint]. rewrite is_digit_digit, bval_digit by lia.
    replace (2 ^ 64 - 1 <? 0 * 10 + (48 + z - 48)) with false by lia. f_equal. lia.
  - assert (Hlog : Z.log2 (z / 10) < Z.log2 z).
    { apply Z.log2_lt_pow2; [apply Z.div_str_pos; lia|].
      pose proof (Z.log2_spec z). rewrite Z.pow_succ_r in * by apply Z.log2_nonneg.
      apply Z.div_lt_upper_bound; lia. }
    pose proof (Z.log2_nonneg (z / 10)).
    assert (0 <= z / 10 < 2 ^ 64) by (split; [apply Z.div_pos|apply Z.div_lt_upper_bound]; lia).
    pose proof (Z.mod_pos_bound z 10). pose proof (Z.div_mod z 10).
    rewrite (parse_uint_app 0 _ _ (z / 10)) by (apply IH; lia).
    cbn [parse_uint]. rewrite is_digit_digit, bval_digit by lia.
    replace (2 ^ 64 - 1 <? z / 10 * 10 + (48 + z mod 10 - 48)) with false by lia. f_equal. lia.
Qed.

Lemma itoa_digits_forall fuel z : 0 <= z -> forallb is_digit (itoa_digits fuel z) = true.
Proof.
  revert z. induction fuel as [|fuel IH]; intros z Hz; [done|]. cbn [itoa_digits].
  destruct (z <? 10) eqn:E; bool_simpl.
  - cbn. by rewrite is_digit_digit by lia.
  - rewrite forallb_app, IH by (apply Z.div_pos; lia). simpl.
    rewrite is_digit_digit; [done|]. apply Z.mod_pos_bound. lia.
Qed.

Lemma itoa_digits_ne fuel z : itoa_digits (S fuel) z <> [].
Proof. cbn [itoa_digits]. destruct (z <? 10); [done|]. by destruct (itoa_digits fuel (z / 10)). Qed.

Lemma Itoa_digits z : 0 <= z -> forallb is_digit (Itoa z) = true.
Proof. intros H. unfold Itoa. replace (z <? 0) with false by lia. by apply itoa_digits_forall. Qed.

Lemma is_ascii_Itoa z : is_ascii (Itoa z) = true.
Proof.
  assert (Hd : forall z, 0 <= z -> is_ascii (Itoa z) = true).
  { intros x Hx. apply Itoa_digits in Hx. unfold is_ascii. rewrite forallb_forall in *. intros b Hb%Hx. unfold is_digit in Hb. lia. }
  destruct (Z.leb_spec 0 z); [by apply Hd|]. specialize (Hd (- z) ltac:(lia)). unfold Itoa in *.
  rewrite (proj2 (Z.ltb_ge (- z) 0)) in Hd by lia. rewrite (proj2 (Z.ltb_lt z 0)) by lia. done.
Qed.

Lemma Itoa_ne z : Itoa z <> [].
Proof. unfold Itoa. destruct (z <? 0); [done|apply itoa_digits_ne]. Qed.

(** A stretch of decoded digits is a string of digit bytes. *)
Lemma unrunes_digits s l :
  (forall c, c ∈ l -> c ∈ runes s) -> forallb (fun c => (48 <=? rune c) && (rune c <=? 57)) l = true ->
  forallb is_digit (unrunes l) = true /\ length (unrunes l) = length l.
Proof.
  induction l as [|c l IH]; [done|]. cbn [forallb]. intros Hsub H. bool_simpl.
  destruct IH as [IH1 IH2]; [intros; apply Hsub; by right|done|].
  rewrite unrunes_cons, (runes_elem_ascii s) by (first [apply Hsub; by left|lia]).
  cbn. rewrite IH1, IH2. split; [|done]. unfold is_digit. rewrite bval_to_byte, Z.mod_small by lia.
  apply andb_true_iff; split; [|done]. lia.
Qed.

(** [Atoi] of a digit string has no sign to skip. *)
Lemma Atoi_digits s :
  s <> [] -> forallb is_digit s = true ->
  Atoi s = match parse_uint 0 s with
           | inl n => if MaxInt64 <? n then (MaxInt64, Some ErrRange) else (n, None)
           | inr ErrSyntax => (0, Some ErrSyntax)
           | inr ErrRange => (MaxInt64, Some ErrRange)
           end.
Proof.
  intros Hne Hd. destruct s as [|c s]; [done|]. unfold Atoi.
  simpl in Hd. apply andb_true_iff in Hd as [Hc _]. unfold is_digit in Hc.
  replace (bval c =? 45) with false by lia. replace (bval c =? 43) with false by lia. done.
Qed.

(** [Atoi (Itoa z)] is [z], for every non-negative 64-bit [z]. *)
Lemma Atoi_Itoa z : 0 <= z <= MaxInt64 -> Atoi (Itoa z) = (z, None).
Proof.
  intros Hz. unfold MaxInt64 in *. rewrite Atoi_digits by (auto using Itoa_ne; apply Itoa_digits; lia).
  unfold Itoa. replace (z <? 0) with false by lia.
  rewrite itoa_digits_parse by lia. unfold MaxInt64. by replace (2 ^ 63 - 1 <? z) with false by lia.
Qed.

(** What [Atoi] returns on digits is always a non-negative [int]. *)
Lemma parse_uint_nonneg n s m : 0 <= n -> parse_uint n s = inl m -> 0 <= m.
Proof.
  revert n. induction s as [|c s IH]; intros n Hn; simpl; [intros [= <-]; lia|].
  destruct (is_digit c) eqn:Ed; [|done]. destruct (2 ^ 64 - 1 <? _); [done|]. apply IH.
  unfold is_digit in Ed. lia.
Qed.

Lemma Atoi_digits_range s :
  s <> [] -> forallb is_digit s = true -> 0 <= (Atoi s).1 <= MaxInt64.
Proof.
  intros Hne Hd. rewrite Atoi_digits by done. unfold MaxInt64.
  destruct (parse_uint 0 s) as [n|[]] eqn:E; simpl; [|lia..].
  apply parse_uint_nonneg in E; [|lia]. destruct (2 ^ 63 - 1 <? n) eqn:El; simpl; lia.
Qed.

(** ** Lemmas: case mapping of ASCII text *)

Definition upper_byte (b : byte) : byte :=
  if (97 <=? bval b) && (bval b <=? 122) then to_byte (bval b - 32) else b.

Lemma upper_byte_ascii b : bval b < 0x80 -> bval (upper_byte b) < 0x80.
Proof.
  intros Hb. pose proof (bval_range b). unfold upper_byte. destruct (_ && _) eqn:E; [|done].
  bool_simpl. rewrite bval_to_byte, Z.mod_small; lia.
Qed.

Lemma ToUpper_ascii `{UnicodeTables} s : is_ascii s = true -> ToUpper s = upper_byte <$> s.
Proof.
  intros Hs. unfold ToUpper. rewrite runes_ascii by done. clear -Hs.
  induction s as [|b s IH]; [done|]. cbn [is_ascii forallb] in Hs. bool_simpl.
  rewrite !fmap_cons. cbn [concat]. rewrite IH by done. change (upper_byte b :: ?l) with ([upper_byte b] ++ l).
  f_equal. cbn [rune ascii_chunk]. unfold upper_rune, upper_byte. pose proof (bval_range b).
  destruct (_ && _) eqn:E.
  - bool_simpl. rewrite encode_ascii by lia. done.
  - replace (bval b <? 0x80) with true by lia. rewrite encode_ascii by lia. by rewrite to_byte_bval.
Qed.

Lemma length_ToUpper_ascii `{UnicodeTables} s : is_ascii s = true -> length (ToUpper s) = length s.
Proof. intros Hs. by rewrite ToUpper_ascii, length_fmap. Qed.

(** ** Lemmas: positions *)

Lemma HasPrefix_take s p : HasPrefix s p = true <-> take (length p) s = p.
Proof.
  rewrite HasPrefix_spec. split.
  - intros [t ->]. by rewrite take_app_length.
  - intros E. exists (drop (length p) s). by rewrite <- E at 1; rewrite take_drop.
Qed.

Lemma HasPrefix_short s p : (length s < length p)%nat -> HasPrefix s p = false.
Proof.
  intros Hl. apply not_true_iff_false. rewrite HasPrefix_spec. intros [t ->]. rewrite length_app in Hl. lia.
Qed.

Lemma find_sub_short s p : (length s < length p)%nat -> find_sub s p = None.
Proof.
  induction s as [|b s IH]; intros Hl; cbn [find_sub]; rewrite HasPrefix_short by done; [done|].
  rewrite IH; [done|]. cbn in Hl. lia.
Qed.

(** [Index] is [-1] or leaves room for the substring. *)
Lemma Index_range s sub : Index s sub = -1 \/ 0 <= Index s sub <= zlen s - zlen sub.
Proof.
  unfold Index. destruct (find_sub s sub) as [n|] eqn:E; [right|by left].
  apply find_sub_Some in E as (pre & post & -> & <- & _). rewrite !zlen_app.
  pose proof (zlen_nonneg post). unfold zlen in *. lia.
Qed.

(** The first occurrence of a substring splits the string. *)
Lemma Index_split s sub : Index s sub <> -1 ->
  exists pre post, s = pre ++ sub ++ post /\ Index s sub = zlen pre.
Proof.
  unfold Index. destruct (find_sub s sub) as [n|] eqn:E; [intros _|done].
  apply find_sub_Some in E as (pre & post & -> & <- & _). by exists pre, post.
Qed.

Lemma drop_while_length {A} (p : A -> bool) l : (length (drop_while p l) <= length l)%nat.
Proof. induction l as [|x l IH]; cbn; [done|]. destruct (p x); cbn; lia. Qed.

(** What [trim_while] keeps is a contiguous part. *)
Lemma trim_while_split {A} (p : A -> bool) l :
  exists l1 l2, l = l1 ++ trim_while p l ++ l2 /\ forallb p l1 = true /\ forallb p l2 = true.
Proof.
  assert (Hd : forall l : list A, exists l1, l = l1 ++ drop_while p l /\ forallb p l1 = true).
  { induction l0 as [|x l0 (l1 & E & Hl)]; [by exists []|]. cbn. destruct (p x) eqn:Ex; [|by exists []].
    exists (x :: l1). cbn. rewrite Ex, Hl. split; [by f_equal|done]. }
  destruct (Hd l) as (l1 & E1 & H1). destruct (Hd (rev (drop_while p l))) as (l2 & E2 & H2).
  exists l1, (rev l2). unfold trim_while. split; [|split; [done|]].
  - rewrite E1 at 1. f_equal. rewrite <- rev_app_distr, <- E2. by rewrite rev_involutive.
  - rewrite forallb_forall in *. intros x Hx. apply H2. by apply in_rev.
Qed.

Lemma TrimSpace_split s : exists s1 s2, s = s1 ++ TrimSpace s ++ s2.
Proof.
  destruct (trim_while_split (fun c => isSpace (rune c)) (runes s)) as (l1 & l2 & E & _).
  exists (unrunes l1), (unrunes l2). unfold TrimSpace. rewrite <- !unrunes_app, <- E. by rewrite unrunes_runes.
Qed.

Lemma length_TrimSpace s : (length (TrimSpace s) <= length s)%nat.
Proof. destruct (TrimSpace_split s) as (s1 & s2 & E). rewrite E at 2. rewrite !length_app. lia. Qed.

Lemma is_ascii_TrimSpace s : is_ascii s = true -> is_ascii (TrimSpace s) = true.
Proof.
  intros Hs. destruct (TrimSpace_split s) as (s1 & s2 & E). rewrite E, !is_ascii_app in Hs. by bool_simpl.
Qed.

(** Encodings of runes beyond ASCII have no ASCII byte. *)
Lemma encode_rune_hi r : ~ 0 <= r < 0x80 -> Forall (fun b => 0x80 <= bval b) (encode_rune r).
Proof.
  intros Hr. unfold encode_rune.
  assert (Hb : forall z, 0x80 <= z < 256 -> 0x80 <= bval (to_byte z)) by (intros; rewrite bval_to_byte, Z.mod_small; lia).
  assert (Hm : forall z, 0 <= z mod 64 < 64) by (intros; by apply Z.mod_pos_bound).
  destruct ((0 <=? r) && (r <? 0x80)) eqn:E1; [bool_simpl; lia|].
  destruct ((0 <=? r) && (r <? 0x800)) eqn:E2.
  { bool_simpl. repeat constructor; apply Hb; [|specialize (Hm r); lia].
    assert (r / 64 < 32) by (apply Z.div_lt_upper_bound; lia). pose proof (Z.div_pos r 64). lia. }
  destruct (_ || _) eqn:E3; [by repeat constructor; apply Hb|]. bool_simpl.
  assert (0x800 <= r). { apply andb_false_iff in E2. destruct E2; bool_simpl; lia. }
  destruct (r <? 0x10000) eqn:E4; bool_simpl; repeat constructor; apply Hb;
    try (match goal with |- context [?x mod 64] => specialize (Hm x); lia end).
  - assert (r / 4096 < 16) by (apply Z.div_lt_upper_bound; lia). pose proof (Z.div_pos r 4096). lia.
  - assert (r / 262144 < 5) by (apply Z.div_lt_upper_bound; lia). pose proof (Z.div_pos r 262144). lia.
Qed.
