(* ===== verification/Regex.v ===== *)
(** * Regular expressions with leftmost-first semantics

    Package [regexp] returns, among the matches that start leftmost, the one a
    backtracking search finds first.  [rmatch] is that search, on the syntax the
    proxy's three patterns use; [matches] is its declarative meaning, and the
    search is proved sound and complete for it.  [find] is
    [FindStringSubmatch] and [ReplaceAllEmpty] is [ReplaceAllString(s, "")]. *)

From Stdlib Require Import Ascii ZArith Lia.
From stdpp Require Import base list gmap strings numbers.
From S2P Require Import Prelude GoStrings.

Open Scope Z_scope.

Inductive re :=
| REmpty
| RSet (p : Z -> bool)        (* one rune of a class *)
| RStar (p : Z -> bool)       (* greedy repetition of a class *)
| RPlus (p : Z -> bool)
| ROpt (r : re)               (* greedy option *)
| RSeq (r1 r2 : re)
| RAlt (r1 r2 : re)
| RGroup (n : nat) (r : re)   (* capturing group n *)
| RWord.                      (* ASCII word boundary *)

(** A position in the input: the rune before it, the runes after it, and the
    groups captured so far (the latest first). *)
Record mstate := MS { prev : option Z; rest : list chunk; caps : list (nat * bytes) }.

Definition is_word (r : Z) : bool :=
  ((48 <=? r) && (r <=? 57)) || ((65 <=? r) && (r <=? 90)) || ((97 <=? r) && (r <=? 122)) || (r =? 95).

Definition is_word_opt (o : option Z) : bool := match o with Some r => is_word r | None => false end.

Definition at_boundary (st : mstate) : bool :=
  xorb (is_word_opt (prev st)) (is_word_opt (rune <$> head (rest st))).

(** The input consumed between two positions. *)
Definition consumed (s1 s2 : list chunk) : list chunk := take (length s1 - length s2) s1.

Fixpoint star_match (p : Z -> bool) (k : mstate -> option mstate) (pr : option Z)
    (s : list chunk) (cs : list (nat * bytes)) : option mstate :=
  match s with
  | c :: t =>
      if p (rune c)
      then match star_match p k (Some (rune c)) t cs with
           | Some x => Some x
           | None => k (MS pr s cs)
           end
      else k (MS pr s cs)
  | [] => k (MS pr [] cs)
  end.

Fixpoint rmatch (r : re) (st : mstate) (k : mstate -> option mstate) : option mstate :=
  match r with
  | REmpty => k st
  | RSet p =>
      match rest st with
      | c :: t => if p (rune c) then k (MS (Some (rune c)) t (caps st)) else None
      | [] => None
      end
  | RStar p => star_match p k (prev st) (rest st) (caps st)
  | RPlus p =>
      match rest st with
      | c :: t => if p (rune c) then star_match p k (Some (rune c)) t (caps st) else None
      | [] => None
      end
  | ROpt r => match rmatch r st k with Some x => Some x | None => k st end
  | RSeq r1 r2 => rmatch r1 st (fun st' => rmatch r2 st' k)
  | RAlt r1 r2 => match rmatch r1 st k with Some x => Some x | None => rmatch r2 st k end
  | RGroup n r =>
      rmatch r st (fun st' =>
        k (MS (prev st') (rest st') ((n, unrunes (consumed (rest st) (rest st'))) :: caps st')))
  | RWord => if at_boundary st then k st else None
  end.

(** Match at a position, anywhere the match may end. *)
Definition match_at (r : re) (pr : option Z) (s : list chunk) : option mstate :=
  rmatch r (MS pr s []) Some.

(** [FindStringSubmatch]: the leftmost position at which [r] matches. *)
Fixpoint find (r : re) (pr : option Z) (s : list chunk) : option mstate :=
  match match_at r pr s with
  | Some st => Some st
  | None => match s with [] => None | c :: t => find r (Some (rune c)) t end
  end.

Definition FindStringSubmatch (r : re) (s : bytes) : option (list (nat * bytes)) :=
  caps <$> find r None (runes s).

(** [matches[n]]: the text of group [n], empty when the group did not take part. *)
Fixpoint group (n : nat) (cs : list (nat * bytes)) : bytes :=
  match cs with
  | [] => []
  | (m, b) :: t => if (n =? m)%nat then b else group n t
  end.

(** [ReplaceAllString(s, "")]: successive non-overlapping matches removed.
    [skip] counts the runes of the current match still to be dropped. *)
Fixpoint remove_matches (r : re) (pr : option Z) (s : list chunk) (skip : nat) : list chunk :=
  match s with
  | [] => []
  | c :: t =>
      match skip with
      | S skip => remove_matches r (Some (rune c)) t skip
      | O =>
          match match_at r pr s with
          | Some st =>
              match length s - length (rest st) with
              | O => c :: remove_matches r (Some (rune c)) t O
              | S n => remove_matches r (Some (rune c)) t n
              end%nat
          | None => c :: remove_matches r (Some (rune c)) t O
          end
      end
  end.

Definition ReplaceAllEmpty (r : re) (s : bytes) : bytes :=
  unrunes (remove_matches r None (runes s) O).

(** ** Building patterns *)

Definition rlit (b : byte) : re := RSet (fun r => r =? bval b).

(** A literal string. *)
Fixpoint rstr (s : bytes) : re :=
  match s with
  | [] => REmpty
  | [b] => rlit b
  | b :: t => RSeq (rlit b) (rstr t)
  end.

(** A case-insensitive letter: simple folding adds U+017F to S and U+212A to K. *)
Definition fold_eq (b : byte) (r : Z) : bool :=
  (r =? bval b) || (r =? bval b + 32) || ((bval b =? 83) && (r =? 0x17F)) || ((bval b =? 75) && (r =? 0x212A)).

(** A case-insensitive word, given in upper case. *)
Fixpoint rword (s : bytes) : re :=
  match s with
  | [] => REmpty
  | [b] => RSet (fold_eq b)
  | b :: t => RSeq (RSet (fold_eq b)) (rword t)
  end.

Fixpoint rseq (l : list re) : re :=
  match l with
  | [] => REmpty
  | [r] => r
  | r :: t => RSeq r (rseq t)
  end.

Fixpoint ralt (l : list re) : re :=
  match l with
  | [] => REmpty
  | [r] => r
  | r :: t => RAlt r (ralt t)
  end.

(** [\d], [\s] and [\S]. *)
Definition re_digit (r : Z) : bool := (48 <=? r) && (r <=? 57).
Definition re_space (r : Z) : bool := (r =? 9) || (r =? 10) || (r =? 12) || (r =? 13) || (r =? 32).
Definition re_nonspace (r : Z) : bool := negb (re_space r).

(** ** Declarative meaning *)

Fixpoint last_rune (pr : option Z) (l : list chunk) : option Z :=
  match l with
  | [] => pr
  | c :: t => last_rune (Some (rune c)) t
  end.

Inductive matches : re -> mstate -> mstate -> Prop :=
| m_empty st : matches REmpty st st
| m_set p pr c t cs : p (rune c) = true ->
    matches (RSet p) (MS pr (c :: t) cs) (MS (Some (rune c)) t cs)
| m_star p pr l t cs : forallb (fun c => p (rune c)) l = true ->
    matches (RStar p) (MS pr (l ++ t) cs) (MS (last_rune pr l) t cs)
| m_plus p pr c l t cs : p (rune c) = true -> forallb (fun c => p (rune c)) l = true ->
    matches (RPlus p) (MS pr (c :: l ++ t) cs) (MS (last_rune pr (c :: l)) t cs)
| m_opt_some r st st' : matches r st st' -> matches (ROpt r) st st'
| m_opt_none r st : matches (ROpt r) st st
| m_seq r1 r2 st st1 st2 : matches r1 st st1 -> matches r2 st1 st2 -> matches (RSeq r1 r2) st st2
| m_alt_l r1 r2 st st' : matches r1 st st' -> matches (RAlt r1 r2) st st'
| m_alt_r r1 r2 st st' : matches r2 st st' -> matches (RAlt r1 r2) st st'
| m_group n r st st' : matches r st st' ->
    matches (RGroup n r) st
      (MS (prev st') (rest st') ((n, unrunes (consumed (rest st) (rest st'))) :: caps st'))
| m_word st : at_boundary st = true -> matches RWord st st.

Lemma star_match_sound p k s : forall pr cs x,
  star_match p k pr s cs = Some x ->
  exists l t, s = l ++ t /\ forallb (fun c => p (rune c)) l = true /\ k (MS (last_rune pr l) t cs) = Some x.
Proof.
  induction s as [|c s IH]; intros pr cs x; simpl.
  - intros H. by exists [], [].
  - destruct (p (rune c)) eqn:E; [|intros H; by exists [], (c :: s)].
    destruct (star_match p k (Some (rune c)) s cs) as [y|] eqn:Es.
    + intros [= <-]. apply IH in Es as (l & t & -> & Hl & Hk).
      exists (c :: l), t. simpl. by rewrite E, Hl.
    + intros H. by exists [], (c :: s).
Qed.

Lemma star_match_complete p k l t : forall pr cs,
  forallb (fun c => p (rune c)) l = true -> star_match p k pr (l ++ t) cs = None ->
  k (MS (last_rune pr l) t cs) = None.
Proof.
  induction l as [|c l IH]; intros pr cs; simpl.
  - intros _. destruct t as [|c t]; simpl; [done|].
    destruct (p (rune c)); [|done]. by destruct (star_match _ _ _ _ _).
  - intros H. bool_simpl. rewrite H.
    destruct (star_match p k (Some (rune c)) (l ++ t) cs) eqn:Es; [done|]. intros _. by apply IH.
Qed.

(** The search returns a match that the continuation accepts... *)
Lemma rmatch_sound r : forall st k x,
  rmatch r st k = Some x -> exists st', matches r st st' /\ k st' = Some x.
Proof.
  induction r; intros [pr s cs] k x; simpl.
  - eauto using matches.
  - destruct s as [|c t]; [done|]. destruct (p (rune c)) eqn:E; [|done]. eauto using matches.
  - intros (l & t & -> & Hl & Hk)%star_match_sound. eauto using matches.
  - destruct s as [|c t]; [done|]. destruct (p (rune c)) eqn:E; [|done].
    intros (l & t' & -> & Hl & Hk)%star_match_sound.
    eexists. split; [by apply m_plus|done].
  - destruct (rmatch r _ k) eqn:E; [intros [= <-]|]; [apply IHr in E as (? & ? & ?)|]; eauto using matches.
  - intros (st1 & H1 & (st2 & H2 & Hk)%IHr2)%IHr1. eauto using matches.
  - destruct (rmatch r1 _ k) eqn:E; [intros [= <-]|];
      [apply IHr1 in E as (? & ? & ?)|intros (? & ? & ?)%IHr2]; eauto using matches.
  - intros (st' & Hm & Hk)%IHr. eexists. split; [by apply m_group|done].
  - destruct (at_boundary _) eqn:E; [|done]. eauto using matches.
Qed.

(** ... and fails only when the continuation rejects every match. *)
Lemma rmatch_complete r st st' : matches r st st' -> forall k, rmatch r st k = None -> k st' = None.
Proof.
  induction 1; intros k; simpl.
  - done.
  - by rewrite H.
  - by apply star_match_complete.
  - rewrite H. by apply star_match_complete.
  - destruct (rmatch r st k) eqn:E; [done|]. intros _. by apply IHmatches.
  - by destruct (rmatch r st k).
  - intros E. by apply IHmatches2, (IHmatches1 (fun st => rmatch r2 st k)).
  - destruct (rmatch r1 st k) eqn:E; [done|]. intros _. by apply IHmatches.
  - destruct (rmatch r1 st k) eqn:E; [done|]. apply IHmatches.
  - by apply IHmatches.
  - by rewrite H.
Qed.

Lemma match_at_sound r pr s st : match_at r pr s = Some st -> matches r (MS pr s []) st.
Proof. intros (st' & Hm & [= <-])%rmatch_sound. done. Qed.

Lemma match_at_complete r pr s st : match_at r pr s = None -> matches r (MS pr s []) st -> False.
Proof. intros HN Hm. by apply (rmatch_complete _ _ _ Hm) in HN. Qed.

(** A match only moves forward. *)
Lemma matches_suffix r st st' : matches r st st' -> exists l, rest st = l ++ rest st'.
Proof.
  induction 1; simpl in *; try (by exists []); eauto.
  - by exists [c].
  - by exists (c :: l).
  - destruct IHmatches1 as [l1 ->], IHmatches2 as [l2 ->]. exists (l1 ++ l2). by rewrite app_assoc.
Qed.

Lemma consumed_app (l t : list chunk) : consumed (l ++ t) t = l.
Proof. unfold consumed. rewrite length_app, Nat.add_sub. apply take_app_length. Qed.

(** The search finds the leftmost position where the pattern matches. *)
Lemma find_Some r s : forall pr st,
  find r pr s = Some st ->
  exists pre suf, s = pre ++ suf /\ match_at r (last_rune pr pre) suf = Some st.
Proof.
  induction s as [|c s IH]; intros pr st; simpl.
  - destruct (match_at r pr []) eqn:E; [|done]. intros [= <-]. by exists [], [].
  - destruct (match_at r pr (c :: s)) eqn:E.
    + intros [= <-]. by exists [], (c :: s).
    + intros (pre & suf & -> & Hm)%IH. by exists (c :: pre), suf.
Qed.

Lemma find_None r s : forall pr pre suf,
  find r pr s = None -> s = pre ++ suf -> match_at r (last_rune pr pre) suf = None.
Proof.
  induction s as [|c s IH]; intros pr pre suf; simpl.
  - destruct (match_at r pr []) eqn:E; [done|]. by destruct pre, suf.
  - destruct (match_at r pr (c :: s)) eqn:E; [done|]. intros Hf Heq.
    destruct pre as [|c' pre]; simpl in *; [by subst|]. injection Heq as -> ->. by apply IH.
Qed.

(** With no match there is nothing to remove. *)
Lemma remove_matches_id r s : forall pr, find r pr s = None -> remove_matches r pr s 0 = s.
Proof.
  induction s as [|c s IH]; intros pr; [done|]. cbn [find remove_matches].
  destruct (match_at r pr (c :: s)); [done|]. intros H. by rewrite IH.
Qed.

(** Skipping through the runes of a match. *)
Lemma remove_matches_skip r l t : forall pr n, length l = n ->
  remove_matches r pr (l ++ t) n = remove_matches r (last_rune pr l) t 0.
Proof.
  induction l as [|c l IH]; intros pr n <-; [done|]. simpl. by rewrite (IH _ (length l)).
Qed.

(** A non-empty match at the front is dropped. *)
Lemma remove_matches_match r pr l t st :
  l <> [] -> match_at r pr (l ++ t) = Some st -> rest st = t ->
  remove_matches r pr (l ++ t) 0 = remove_matches r (last_rune pr l) t 0.
Proof.
  destruct l as [|c l]; [done|]. intros _ Hm Hr. cbn [app remove_matches].
  cbn [app] in Hm. rewrite Hm, Hr. cbn [length]. rewrite length_app.
  replace (S (length l + length t) - length t)%nat with (S (length l)) by lia.
  exact (remove_matches_skip r l t _ _ eq_refl).
Qed.

(** ** What a group can capture *)

Fixpoint groups_of (r : re) : list (nat * re) :=
  match r with
  | REmpty | RSet _ | RStar _ | RPlus _ | RWord => []
  | ROpt r => groups_of r
  | RSeq r1 r2 | RAlt r1 r2 => groups_of r1 ++ groups_of r2
  | RGroup n r => (n, r) :: groups_of r
  end.

Definition captured (r : re) (st : mstate) (n : nat) (b : bytes) : Prop :=
  exists g s1 s2, (n, g) ∈ groups_of r /\ matches g s1 s2 /\
    (exists l, rest st = l ++ rest s1) /\ b = unrunes (consumed (rest s1) (rest s2)).

Lemma captured_weaken r1 r2 st1 st2 n b :
  captured r1 st1 n b -> groups_of r1 ⊆ groups_of r2 -> (exists l, rest st2 = l ++ rest st1) ->
  captured r2 st2 n b.
Proof.
  intros (g & s1 & s2 & Hg & Hm & [l1 H1] & ->) Hsub [l2 H2]. exists g, s1, s2.
  split_and!; [by apply Hsub|done| |done]. exists (l2 ++ l1). by rewrite H2, H1, app_assoc.
Qed.

(** Every capture after a match was there before or was made by one of the
    pattern's groups, on a stretch of the input. *)
Lemma matches_caps r st st' : matches r st st' -> forall n b, (n, b) ∈ caps st' ->
  (n, b) ∈ caps st \/ captured r st n b.
Proof.
  assert (Hrefl : forall st : mstate, exists l : list chunk, rest st = l ++ rest st) by (intros; by exists []).
  induction 1 as [| | | |r st st' Hm IH| |r1 r2 st st1 st2 Hm1 IH1 Hm2 IH2
    |r1 r2 st st' Hm IH|r1 r2 st st' Hm IH|n r st st' Hm IH|]; simpl; intros m b Hin; try by left.
  - destruct (IH _ _ Hin); [by left|right]. eapply captured_weaken; [done| |done]. done.
  - destruct (IH2 _ _ Hin) as [Hin'|]; [destruct (IH1 _ _ Hin'); [by left|]|]; right.
    + eapply captured_weaken; [done| |done]. simpl. set_solver.
    + eapply captured_weaken; [done| |by eapply matches_suffix]. simpl. set_solver.
  - destruct (IH _ _ Hin); [by left|right]. eapply captured_weaken; [done| |done]. simpl. set_solver.
  - destruct (IH _ _ Hin); [by left|right]. eapply captured_weaken; [done| |done]. simpl. set_solver.
  - apply elem_of_cons in Hin as [[= -> ->]|Hin].
    + right. exists r, st, st'. simpl. split_and!; [by left|done..].
    + destruct (IH _ _ Hin); [by left|right]. eapply captured_weaken; [done| |done]. simpl. set_solver.
Qed.

Lemma group_elem n cs : group n cs = [] \/ (n, group n cs) ∈ cs.
Proof.
  induction cs as [|[m b] cs IH]; simpl; [by left|].
  destruct (n =? m)%nat eqn:E; [apply Nat.eqb_eq in E; subst; right; by left|].
  destruct IH; [by left|right; by right].
Qed.

(** What a group of a valid string captured is valid. *)
Lemma group_valid r s m n : FindStringSubmatch r s = Some m -> valid_utf8 s = true -> valid_utf8 (group n m) = true.
Proof.
  unfold FindStringSubmatch. destruct (find r None (runes s)) as [st|] eqn:Ef; [|done]. intros [= <-] Hv.
  apply find_Some in Ef as (pre & suf & Hs & Hm%match_at_sound). destruct (group_elem n (caps st)) as [->|Hin]; [done|].
  apply (matches_caps _ _ _ Hm) in Hin as [Hin|(g & s1 & s2 & _ & _ & [l Hl] & ->)]; [by apply elem_of_nil in Hin|].
  cbn [rest] in Hl. apply (valid_utf8_runes s); [done|]. rewrite Hs, Hl. intros c Hc. apply elem_of_app. right. apply elem_of_app. right.
  unfold consumed in Hc. apply elem_of_take in Hc as (i & Hi & _). by eapply list_elem_of_lookup_2.
Qed.

(** A group [(p+)] captures a non-empty run of runes of class [p]. *)
Lemma matches_plus_consumed p s1 s2 :
  matches (RPlus p) s1 s2 ->
  exists c l, consumed (rest s1) (rest s2) = c :: l /\ forallb (fun c => p (rune c)) (c :: l) = true.
Proof.
  inversion 1 as [| | |? pr c l t cs Hc Hl| | | | | | |]; subst; simpl. exists c, l. split.
  - by apply (consumed_app (c :: l)).
  - by rewrite Hc, Hl.
Qed.

(** ** Running the search on a known input *)

(** The state after consuming [l]. *)
Definition advance (st : mstate) (l t : list chunk) : mstate := MS (last_rune (prev st) l) t (caps st).

(** No rune of class [p] comes next. *)
Definition stops (p : Z -> bool) (t : list chunk) : bool :=
  match t with [] => true | c :: _ => negb (p (rune c)) end.

Lemma last_rune_app pr l1 l2 : last_rune pr (l1 ++ l2) = last_rune (last_rune pr l1) l2.
Proof. revert pr. induction l1; intros; simpl; auto. Qed.

(** The greedy choice is taken when it leads to a match. *)
Lemma star_match_greedy p k l t : forall pr cs x,
  forallb (fun c => p (rune c)) l = true -> stops p t = true ->
  k (MS (last_rune pr l) t cs) = Some x -> star_match p k pr (l ++ t) cs = Some x.
Proof.
  induction l as [|c l IH]; intros pr cs x Hl Ht Hk; simpl in *.
  - destruct t as [|c t]; [done|]. simpl in *. bool_simpl. by rewrite Ht.
  - bool_simpl. rewrite H. by rewrite (IH _ _ x).
Qed.

Lemma rstr_cons b c t : rstr (b :: c :: t) = RSeq (rlit b) (rstr (c :: t)).
Proof. done. Qed.

(** A literal matches exactly itself. *)
Lemma rmatch_rstr w t st k :
  rest st = (ascii_chunk <$> w) ++ t -> w <> [] ->
  rmatch (rstr w) st k = k (advance st (ascii_chunk <$> w) t).
Proof.
  destruct st as [pr s cs]. simpl. intros -> Hne. revert pr.
  induction w as [|b [|c w] IH]; intros pr; [done| |].
  - simpl. by rewrite Z.eqb_refl.
  - rewrite rstr_cons. cbn [rmatch rlit fmap list_fmap app rest ascii_chunk rune].
    rewrite Z.eqb_refl. exact (IH ltac:(done) _).
Qed.

(** A literal whose first character does not come next fails at once. *)
Lemma rmatch_rstr_fail b w st k :
  stops (fun r => r =? bval b) (rest st) = true -> rmatch (rstr (b :: w)) st k = None.
Proof.
  destruct st as [pr [|c s] cs]; simpl; intros H; bool_simpl; destruct w; simpl; try done;
    by replace (rune c =? bval b) with false by lia.
Qed.

(** The search looks at the rune before the position only to tell whether it is
    a word character. *)
Definition same_pos (s1 s2 : mstate) : Prop :=
  rest s1 = rest s2 /\ caps s1 = caps s2 /\ is_word_opt (prev s1) = is_word_opt (prev s2).

#[global] Instance same_pos_equiv : Equivalence same_pos.
Proof. split; unfold same_pos; [done|intros ?? (?&?&?); done|intros ??? (?&?&?) (?&?&?); split_and!; congruence]. Qed.

Definition same_result (o1 o2 : option mstate) : Prop :=
  option_relation same_pos (fun _ => False) (fun _ => False) o1 o2.

Lemma same_result_refl o : same_result o o.
Proof. by destruct o. Qed.

Lemma star_match_prev p k1 k2 s : forall pr1 pr2 cs,
  is_word_opt pr1 = is_word_opt pr2 ->
  (forall s1 s2, same_pos s1 s2 -> same_result (k1 s1) (k2 s2)) ->
  same_result (star_match p k1 pr1 s cs) (star_match p k2 pr2 s cs).
Proof.
  induction s as [|c s IH]; intros pr1 pr2 cs Hpr Hk; simpl; [by apply Hk|].
  destruct (p (rune c)); [|by apply Hk].
  pose proof (IH (Some (rune c)) (Some (rune c)) cs eq_refl Hk) as Hs.
  destruct (star_match p k1 _ _ _), (star_match p k2 _ _ _); try done. by apply Hk.
Qed.

Lemma rmatch_prev r : forall st1 st2 k1 k2,
  same_pos st1 st2 ->
  (forall s1 s2, same_pos s1 s2 -> same_result (k1 s1) (k2 s2)) ->
  same_result (rmatch r st1 k1) (rmatch r st2 k2).
Proof.
  induction r; intros st1 st2 k1 k2 (Hr & Hc & Hp) Hk; simpl in *; rewrite ?Hr, ?Hc.
  - by apply Hk.
  - destruct (rest st2) as [|c t]; [done|]. destruct (p (rune c)); [by apply Hk|done].
  - by apply star_match_prev.
  - destruct (rest st2) as [|c t]; [done|]. destruct (p (rune c)); [by apply star_match_prev|done].
  - assert (Hm : same_result (rmatch r st1 k1) (rmatch r st2 k2)) by by apply IHr.
    destruct (rmatch r st1 k1), (rmatch r st2 k2); try done. by apply Hk.
  - apply IHr1; [done|]. intros. by apply IHr2.
  - assert (Hm : same_result (rmatch r1 st1 k1) (rmatch r1 st2 k2)) by by apply IHr1.
    destruct (rmatch r1 st1 k1), (rmatch r1 st2 k2); try done. by apply IHr2.
  - apply IHr; [done|]. intros s1 s2 (Hr' & Hc' & Hp'). apply Hk. split_and!; simpl; congruence.
  - unfold at_boundary. rewrite Hr, Hp. destruct (xorb _ _); [by apply Hk|done].
Qed.

Lemma match_at_prev r pr1 pr2 s :
  is_word_opt pr1 = is_word_opt pr2 -> same_result (match_at r pr1 s) (match_at r pr2 s).
Proof. intros. by apply rmatch_prev. Qed.

Lemma find_prev r pr1 pr2 s :
  is_word_opt pr1 = is_word_opt pr2 -> same_result (find r pr1 s) (find r pr2 s).
Proof.
  intros Hp. pose proof (match_at_prev r pr1 pr2 s Hp) as Hm.
  destruct s; cbn [find]; destruct (match_at r pr1 _), (match_at r pr2 _); try done.
  apply same_result_refl.
Qed.

Lemma remove_matches_prev r s pr1 pr2 n :
  is_word_opt pr1 = is_word_opt pr2 -> remove_matches r pr1 s n = remove_matches r pr2 s n.
Proof.
  intros Hp. destruct s as [|c s]; [done|]. cbn [remove_matches].
  destruct n; [|done]. pose proof (match_at_prev r pr1 pr2 (c :: s) Hp) as Hm.
  destruct (match_at r pr1 (c :: s)), (match_at r pr2 (c :: s)); try done.
  destruct Hm as [Hr _]. by rewrite Hr.
Qed.

(** A pattern without [\b] does not look past what it consumes either. *)
Fixpoint word_free (r : re) : bool :=
  match r with
  | RWord => false
  | REmpty | RSet _ | RStar _ | RPlus _ => true
  | ROpt r | RGroup _ r => word_free r
  | RSeq r1 r2 | RAlt r1 r2 => word_free r1 && word_free r2
  end.

Lemma app_cancel {A} (l t1 t2 : list A) : l ++ t2 = t1 ++ t2 -> l = t1.
Proof. apply app_inv_tail. Qed.

Lemma matches_frame r st st' : matches r st st' -> word_free r = true -> forall l t',
  rest st = l ++ rest st' ->
  matches r (MS (prev st) (l ++ t') (caps st)) (MS (prev st') t' (caps st')).
Proof.
  induction 1 as [st|p pr c t cs Hc|p pr l0 t cs Hl|p pr c l0 t cs Hc Hl|r st st' Hm IH|r st
    |r1 r2 st st1 st2 Hm1 IH1 Hm2 IH2|r1 r2 st st' Hm IH|r1 r2 st st' Hm IH|n r st st' Hm IH|];
    simpl; intros Hw l t' Heq.
  - assert (l = []) as -> by (eapply app_cancel; by rewrite <- Heq). constructor.
  - assert (l = [c]) as -> by (eapply app_cancel; by rewrite <- Heq). by constructor.
  - apply app_cancel in Heq as <-. by constructor.
  - assert (l = c :: l0) as -> by (eapply app_cancel; by rewrite <- Heq). by apply m_plus.
  - apply m_opt_some. by apply IH.
  - assert (l = []) as -> by (eapply app_cancel; by rewrite <- Heq). apply m_opt_none.
  - bool_simpl. destruct (matches_suffix _ _ _ Hm1) as [l1 H1], (matches_suffix _ _ _ Hm2) as [l2 H2].
    assert (l = l1 ++ l2) as ->.
    { eapply app_cancel. by rewrite <- app_assoc, <- H2, <- H1, <- Heq. }
    rewrite <- app_assoc. eapply m_seq; [by apply IH1|by apply (IH2 ltac:(done) l2 t')].
  - bool_simpl. apply m_alt_l. by apply IH.
  - bool_simpl. apply m_alt_r. by apply IH.
  - replace (consumed (rest st) (rest st')) with (consumed (l ++ t') t')
      by by rewrite Heq, !consumed_app.
    apply (m_group n r (MS _ _ _) (MS _ _ _)). by apply IH.
  - done.
Qed.

(** Searching past text in which no match starts. *)
Lemma find_skip r suf pre : forall pr,
  (forall p1 p2, pre = p1 ++ p2 -> p2 <> [] -> match_at r (last_rune pr p1) (p2 ++ suf) = None) ->
  find r pr (pre ++ suf) = find r (last_rune pr pre) suf.
Proof.
  induction pre as [|c pre IH]; intros pr Hno; [done|]. cbn [app find last_rune].
  pose proof (Hno [] (c :: pre) eq_refl ltac:(done)) as H0. cbn [app last_rune] in H0. rewrite H0.
  apply IH. intros p1 p2 -> Hp2. by apply (Hno (c :: p1)).
Qed.

(** Greedy repetition and literals in front of the rest of a pattern. *)
Lemma rmatch_seq_star p r l t st k x :
  rest st = l ++ t -> forallb (fun c => p (rune c)) l = true -> stops p t = true ->
  rmatch r (advance st l t) k = Some x -> rmatch (RSeq (RStar p) r) st k = Some x.
Proof. destruct st. simpl. intros -> Hl Ht Hk. by apply star_match_greedy. Qed.

Lemma rmatch_seq_rstr w r t st k :
  rest st = (ascii_chunk <$> w) ++ t -> w <> [] ->
  rmatch (RSeq (rstr w) r) st k = rmatch r (advance st (ascii_chunk <$> w) t) k.
Proof. intros Hr Hne. cbn [rmatch]. by rewrite (rmatch_rstr w t). Qed.

(** ** Patterns that cannot cross a given rune *)

(** No class of the pattern contains [x]. *)
Fixpoint rejects (x : Z) (r : re) : bool :=
  match r with
  | REmpty | RWord => true
  | RSet p | RStar p | RPlus p => negb (p x)
  | ROpt r | RGroup _ r => rejects x r
  | RSeq r1 r2 | RAlt r1 r2 => rejects x r1 && rejects x r2
  end.

Lemma forallb_elem {A} (f : A -> bool) l x : forallb f l = true -> x ∈ l -> f x = true.
Proof. intros H Hx. apply list_elem_of_In in Hx. by eapply forallb_forall in H. Qed.

Lemma matches_rejects x r st st' : matches r st st' -> rejects x r = true ->
  exists l, rest st = l ++ rest st' /\ forall c, c ∈ l -> rune c <> x.
Proof.
  induction 1 as [st|p pr c t cs Hc|p pr l0 t cs Hl|p pr c l0 t cs Hc Hl|r st st' Hm IH|r st
    |r1 r2 st st1 st2 Hm1 IH1 Hm2 IH2|r1 r2 st st' Hm IH|r1 r2 st st' Hm IH|n r st st' Hm IH|st Hb];
    simpl; intros Hr; bool_simpl; try (exists []; split; [done|by intros ? ?%elem_of_nil]); auto.
  - exists [c]. split; [done|]. intros c' ->%list_elem_of_singleton <-. congruence.
  - exists l0. split; [done|]. intros c Hc <-. by rewrite (forallb_elem _ _ _ Hl Hc) in Hr.
  - exists (c :: l0). split; [done|]. intros c' [->|Hc']%elem_of_cons <-; [congruence|].
    by rewrite (forallb_elem _ _ _ Hl Hc') in Hr.
  - destruct IH1 as (l1 & H1 & Hl1), IH2 as (l2 & H2 & Hl2); [done..|].
    exists (l1 ++ l2). rewrite H1, H2, app_assoc. split; [done|].
    intros c [?|?]%elem_of_app; auto.
Qed.

(** A prefix that avoids [x] ends before [x]. *)
Lemma prefix_before {A} (l u p : list A) x suf :
  l ++ u = p ++ x :: suf -> x ∉ l -> exists m, p = l ++ m /\ u = m ++ x :: suf.
Proof.
  revert p. induction l as [|a l IH]; intros p Heq Hx; [by exists p|].
  destruct p as [|b p]; injection Heq as -> Heq.
  - destruct Hx. by left.
  - destruct (IH p Heq) as (m & -> & ->); [intros ?; apply Hx; by right|]. by exists m.
Qed.
