(* ===== verification/Parser.v ===== *)
(** * Package parser

    Query classification and hint extraction (src/parser/parser.go): the three
    patterns the parser applies, [Parse], and the predicates the proxies route
    on. *)

From Stdlib Require Import Ascii ZArith Lia.
From stdpp Require Import base list gmap strings numbers.
From S2P Require Import Prelude GoStrings Regex.

Open Scope Z_scope.

Inductive QueryType := QueryUnknown | QuerySelect | QueryInsert | QueryUpdate | QueryDelete.

#[global] Instance QueryType_eq_dec : EqDecision QueryType.
Proof. solve_decision. Defined.

Record ParsedQuery := {
  Type_ : QueryType;
  TTL : Z;        (* seconds, 0 means no caching *)
  DB : bytes;
  File : bytes;
  Line : Z;
  BatchMs : Z;    (* 0 means no batching *)
  Query : bytes
}.

(** [/\*\s*(ttl:(\d+))?\s*(file:(\S+))?\s*(line:(\d+))?\s*(batch:(\d+))?\s*\*/] *)
Definition hint_field (g : nat) (name : string) (p : Z -> bool) : re :=
  ROpt (RGroup g (RSeq (rstr (str name)) (RGroup (S g) (RPlus p)))).

Definition hintRegex : re := rseq
  [ rstr (str "/*"); RStar re_space;
    hint_field 1 "ttl:" re_digit; RStar re_space;
    hint_field 3 "file:" re_nonspace; RStar re_space;
    hint_field 5 "line:" re_digit; RStar re_space;
    hint_field 7 "batch:" re_digit; RStar re_space;
    rstr (str "*/") ].

(** [(?i)\b(SELECT|INSERT|UPDATE|DELETE)\b] *)
Definition queryTypeRegex : re := rseq
  [ RWord;
    RGroup 1 (ralt [rword (str "SELECT"); rword (str "INSERT"); rword (str "UPDATE"); rword (str "DELETE")]);
    RWord ].

(** The quote class (single quote, double quote, backquote) and the name class
    [[a-zA-Z0-9_$]], to which (?i) adds U+017F and U+212A. *)
Definition is_quote (r : Z) : bool := (r =? 39) || (r =? 34) || (r =? 96).
Definition is_name (r : Z) : bool := is_word r || (r =? 36) || (r =? 0x17F) || (r =? 0x212A).

(** [(?i)\b(?:FROM|JOIN|INTO|UPDATE)\s+(Q?)([a-zA-Z0-9_$]+)Q?\s*\.\s*(Q?)([a-zA-Z0-9_$]+)Q?]
    where [Q] is the quote class. *)
Definition fqnRegex : re := rseq
  [ RWord;
    ralt [rword (str "FROM"); rword (str "JOIN"); rword (str "INTO"); rword (str "UPDATE")];
    RPlus re_space;
    RGroup 1 (ROpt (RSet is_quote)); RGroup 2 (RPlus is_name); ROpt (RSet is_quote);
    RStar re_space; rlit (to_byte 46); RStar re_space;
    RGroup 3 (ROpt (RSet is_quote)); RGroup 4 (RPlus is_name); ROpt (RSet is_quote) ].

Definition IsCacheable (p : ParsedQuery) : bool :=
  bool_decide (Type_ p = QuerySelect) && (0 <? TTL p).

Definition IsWritable (p : ParsedQuery) : bool :=
  bool_decide (Type_ p = QueryInsert) || bool_decide (Type_ p = QueryUpdate)
  || bool_decide (Type_ p = QueryDelete).

Definition IsBatchable (p : ParsedQuery) : bool :=
  (bool_decide (Type_ p = QueryInsert) || bool_decide (Type_ p = QueryUpdate)
   || bool_decide (Type_ p = QueryDelete)) && (0 <? BatchMs p).

Definition GetBatchKey (p : ParsedQuery) : bytes := Query p.

Section Parse.
Context `{UnicodeTables}.

(** The query type: the first keyword anywhere in the text. *)
Definition query_type (query : bytes) : QueryType :=
  match FindStringSubmatch queryTypeRegex query with
  | Some m =>
      let w := ToUpper (group 1 m) in
      if bool_decide (w = str "SELECT") then QuerySelect
      else if bool_decide (w = str "INSERT") then QueryInsert
      else if bool_decide (w = str "UPDATE") then QueryUpdate
      else if bool_decide (w = str "DELETE") then QueryDelete
      else QueryUnknown
  | None => QueryUnknown
  end.

Definition fqn_db (query : bytes) : bytes :=
  match FindStringSubmatch fqnRegex query with
  | Some m => group 2 m
  | None => []
  end.

(** [if matches[g] != "" { x, _ = strconv.Atoi(matches[g]) }] *)
Definition hint_int (g : nat) (m : list (nat * bytes)) : Z :=
  match group g m with [] => 0 | s => (Atoi s).1 end.

Definition Parse (query : bytes) : ParsedQuery :=
  let p := {| Type_ := query_type query; TTL := 0; DB := fqn_db query; File := []; Line := 0;
              BatchMs := 0; Query := query |} in
  let p :=
    match FindStringSubmatch hintRegex query with
    | Some m =>
        let batchMs := hint_int 8 m in
        {| Type_ := Type_ p; TTL := hint_int 2 m; DB := DB p; File := group 4 m;
           Line := hint_int 6 m;
           BatchMs := if batchMs <? 0 then 0 else batchMs;
           Query := TrimSpace (ReplaceAllEmpty hintRegex query) |}
    | None => p
    end in
  if IsWritable p && (0 <? TTL p)
  then {| Type_ := Type_ p; TTL := 0; DB := DB p; File := File p; Line := Line p;
          BatchMs := BatchMs p; Query := Query p |}
  else p.
End Parse.

(** The three writing types. *)
Lemma IsWritable_match p :
  IsWritable p = match Type_ p with QueryInsert | QueryUpdate | QueryDelete => true | _ => false end.
Proof. unfold IsWritable. by destruct (Type_ p). Qed.

Lemma IsBatchable_match p : IsBatchable p = IsWritable p && (0 <? BatchMs p).
Proof. done. Qed.

Lemma batchable_writable p : IsBatchable p = true -> IsWritable p = true.
Proof. rewrite IsBatchable_match. intros Hb. by bool_simpl. Qed.

Lemma cacheable_not_batchable p : IsCacheable p = true -> IsBatchable p = false.
Proof. unfold IsCacheable, IsBatchable. intros Hc. bool_simpl. by replace (Type_ p) with QuerySelect. Qed.

(** The file of a hint is text when the statement is. *)
Lemma Parse_file_valid `{UnicodeTables} query : valid_utf8 query = true -> valid_utf8 (File (Parse query)) = true.
Proof.
  intros Hv. unfold Parse. cbv zeta. destruct (FindStringSubmatch hintRegex query) as [m|] eqn:Em; destruct (_ && _); cbn [File];
    done || by eapply group_valid.
Qed.

(** ** Hints as they are written

    The canonical form of a hint comment: any of the four fields, in the order
    the pattern expects them.  The client libraries print this form. *)
Record Hint := MkHint {
  h_ttl : option Z; h_file : option bytes; h_line : option Z; h_batch : option Z
}.

Definition print_field (name : string) (v : option bytes) : bytes :=
  match v with Some v => str name ++ v ++ str " " | None => [] end.

Definition print_hint (h : Hint) : bytes :=
  str "/* " ++ print_field "ttl:" (Itoa <$> h_ttl h) ++ print_field "file:" (h_file h)
  ++ print_field "line:" (Itoa <$> h_line h) ++ print_field "batch:" (Itoa <$> h_batch h) ++ str "*/".

(** Field values the pattern can carry: numbers are non-negative, a file name
    is a non-empty run of non-space characters. *)
Definition wf_num (o : option Z) : bool :=
  match o with Some z => (0 <=? z) && (z <=? MaxInt64) | None => true end.
Definition wf_file (f : bytes) : bool :=
  negb (bool_decide (f = [])) && forallb (fun c => re_nonspace (rune c)) (runes f).
Definition wf_hint (h : Hint) : bool :=
  wf_num (h_ttl h) && wf_num (h_line h) && wf_num (h_batch h)
  && match h_file h with Some f => wf_file f | None => true end.

(** What the groups of [hintRegex] hold after matching a field. *)
Definition field_caps (g : nat) (name : string) (v : option bytes) : list (nat * bytes) :=
  match v with Some v => [(g, str name ++ v); (S g, v)] | None => [] end.

Definition hint_caps (h : Hint) : list (nat * bytes) :=
  field_caps 7 "batch:" (Itoa <$> h_batch h) ++ field_caps 5 "line:" (Itoa <$> h_line h)
  ++ field_caps 3 "file:" (h_file h) ++ field_caps 1 "ttl:" (Itoa <$> h_ttl h).

(** ** Matching a printed hint *)

(** The runes of a field value, and of what follows it. *)
Definition field_runes (name : string) (v : option bytes) : list chunk :=
  match v with
  | Some v => (ascii_chunk <$> str name) ++ runes v ++ (ascii_chunk <$> str " ")
  | None => []
  end.

(** A value of class [p]: non-empty, and [p] does not contain the space that
    ends it. *)
Definition value_ok (p : Z -> bool) (v : option bytes) : Prop :=
  match v with Some v => v <> [] /\ forallb (fun c => p (rune c)) (runes v) = true | None => True end.

Lemma runes_ne v : v <> [] -> runes v <> [].
Proof. destruct v as [|b v]; [done|]. destruct (runes_cons b v) as (c & r & -> & _). done. Qed.

(** One optional field and the spaces after it. *)
Lemma match_field g name b w p v (t : list chunk) r st k x :
  rest st = field_runes name v ++ t -> str name = b :: w -> p 32 = false -> value_ok p v ->
  (v = None -> stops (fun r => r =? bval b) t = true) -> stops re_space t = true ->
  rmatch r (MS (last_rune (prev st) (field_runes name v)) t (field_caps g name v ++ caps st)) k = Some x ->
  rmatch (RSeq (hint_field g name p) (RSeq (RStar re_space) r)) st k = Some x.
Proof.
  intros Hr Hn Hp Hv Hnone Hsp Hk. destruct st as [pr s cs]. simpl in Hr. subst s.
  unfold hint_field. cbn [rmatch].
  destruct v as [v|]; cbn [field_runes field_caps app value_ok] in *.
  - destruct Hv as [Hne Hall]. rewrite rmatch_rstr with (t := runes v ++ (ascii_chunk <$> str " ") ++ t);
      [|cbn [rest]; by rewrite <- !app_assoc|by rewrite Hn].
    unfold advance. cbn [rest prev caps].
    destruct (runes v) as [|c l] eqn:Ev; [by apply runes_ne in Ev|]. cbn [forallb] in Hall. bool_simpl.
    cbn [app]. rewrite H.
    match goal with |- match ?m with _ => _ end = _ => assert (Hm : m = Some x); [|by rewrite Hm] end.
    apply star_match_greedy; [done| |].
    { cbn. by change (bval " ") with 32; rewrite Hp. }
    cbn [rest prev caps].
    assert (Hc1 : unrunes (consumed ((c :: l) ++ (ascii_chunk <$> str " ") ++ t) ((ascii_chunk <$> str " ") ++ t)) = v).
    { rewrite consumed_app, <- Ev. apply unrunes_runes. }
    assert (Hc2 : unrunes (consumed (((ascii_chunk <$> str name) ++ (c :: l) ++ (ascii_chunk <$> str " ")) ++ t)
              ((ascii_chunk <$> str " ") ++ t)) = str name ++ v).
    { rewrite <- !app_assoc, app_assoc, consumed_app, unrunes_app, unrunes_ascii, <- Ev.
      by rewrite unrunes_runes. }
    cbn [app] in Hc1, Hc2. rewrite Hc1, Hc2.
    apply (star_match_greedy re_space _ (ascii_chunk <$> str " ") t); [done..|].
    rewrite <- Hk. f_equal. f_equal. by rewrite !last_rune_app.
  - rewrite Hn, rmatch_rstr_fail by by apply Hnone.
    by apply (star_match_greedy re_space _ [] t).
Qed.

Lemma runes_print_field name v t :
  is_ascii (str name) = true -> runes (print_field name v ++ t) = field_runes name v ++ runes t.
Proof.
  intros Hn. destruct v as [v|]; [|done]. cbn [print_field field_runes].
  rewrite <- !app_assoc, runes_ascii_app by done. f_equal.
  change (str " ") with [(" " : byte)%char]. cbn [app].
  rewrite runes_app_boundary by done. by rewrite runes_ascii_cons by done.
Qed.

Lemma digits_ascii s : forallb is_digit s = true -> is_ascii s = true.
Proof.
  induction s as [|b s IH]; [done|]. simpl. unfold is_digit at 1. intros H. bool_simpl.
  rewrite IH by done. by replace (bval b <? 0x80) with true by lia.
Qed.

Lemma value_ok_num o : wf_num o = true -> value_ok re_digit (Itoa <$> o).
Proof.
  destruct o as [z|]; simpl; [|done]. intros H. bool_simpl.
  split; [apply Itoa_ne|]. pose proof (Itoa_digits z ltac:(lia)) as Hd.
  by rewrite runes_ascii, (forallb_ascii_chunk re_digit) by by apply digits_ascii.
Qed.

Lemma value_ok_file o :
  match o with Some f => wf_file f | None => true end = true -> value_ok re_nonspace o.
Proof. destruct o; simpl; [|done]. unfold wf_file. intros H. bool_simpl. done. Qed.

(** The first character of what remains of a hint after some of its fields. *)
Lemma stops_field p name v t :
  (forall b w, str name = b :: w -> p (bval b) = false) -> str name <> [] -> stops p t = true ->
  stops p (field_runes name v ++ t) = true.
Proof.
  intros Hp Hne Ht. destruct v; [|done]. cbn [field_runes]. destruct (str name) eqn:E; [done|].
  cbn. by rewrite (Hp _ _ eq_refl).
Qed.

Ltac solve_stops :=
  repeat (apply stops_field; [intros ?? [= <- _]; reflexivity|discriminate|]); reflexivity.

(** The runes of a printed hint and of what follows it. *)
Lemma runes_print_hint h q :
  runes (print_hint h ++ q) =
  (ascii_chunk <$> str "/* ") ++ field_runes "ttl:" (Itoa <$> h_ttl h) ++ field_runes "file:" (h_file h)
  ++ field_runes "line:" (Itoa <$> h_line h) ++ field_runes "batch:" (Itoa <$> h_batch h)
  ++ (ascii_chunk <$> str "*/") ++ runes q.
Proof.
  unfold print_hint. rewrite <- !app_assoc.
  by rewrite runes_ascii_app, !runes_print_field, runes_ascii_app by reflexivity.
Qed.

(** A printed hint is matched whole, with its fields in the groups. *)
Lemma match_hint h q pr :
  wf_hint h = true ->
  exists pr', match_at hintRegex pr (runes (print_hint h ++ q)) = Some (MS pr' (runes q) (hint_caps h)).
Proof.
  unfold wf_hint. intros Hwf. bool_simpl. rewrite runes_print_hint.
  eexists. unfold match_at, hintRegex. cbn [rseq].
  erewrite (rmatch_seq_rstr (str "/*") _ (ascii_chunk " " :: _)) by done.
  eapply (rmatch_seq_star _ _ [ascii_chunk " "]); [done|done|solve_stops|].
  eapply match_field; [done|done|done|by apply value_ok_num|intros _; solve_stops|solve_stops|].
  eapply match_field; [done|done|done|by apply value_ok_file|intros _; solve_stops|solve_stops|].
  eapply match_field; [done|done|done|by apply value_ok_num|intros _; solve_stops|solve_stops|].
  eapply match_field; [done|done|done|by apply value_ok_num|intros _; solve_stops|solve_stops|].
  erewrite rmatch_rstr by done. unfold advance, hint_caps. cbn [rest caps prev].
  by rewrite app_nil_r.
Qed.

(** A hint ends in a slash, which is not a word character. *)
Lemma runes_hint h q :
  exists l, runes (print_hint h) = l ++ [ascii_chunk "/"] /\
    runes (print_hint h ++ q) = runes (print_hint h) ++ runes q.
Proof.
  pose proof (runes_print_hint h []) as E. rewrite app_nil_r in E. rewrite E, runes_print_hint.
  exists ((ascii_chunk <$> str "/* ") ++ field_runes "ttl:" (Itoa <$> h_ttl h)
    ++ field_runes "file:" (h_file h) ++ field_runes "line:" (Itoa <$> h_line h)
    ++ field_runes "batch:" (Itoa <$> h_batch h) ++ [ascii_chunk "*"]).
  split; rewrite <- !app_assoc; done.
Qed.

Lemma last_rune_hint h q l pr :
  runes (print_hint h ++ q) = l ++ runes q -> last_rune pr l = Some 47.
Proof.
  destruct (runes_hint h q) as (l' & Hl' & ->). rewrite Hl'. intros <-%app_inv_tail.
  by rewrite last_rune_app.
Qed.

Lemma find_hint h q :
  wf_hint h = true ->
  FindStringSubmatch hintRegex (print_hint h ++ q) = Some (hint_caps h).
Proof.
  intros Hwf. unfold FindStringSubmatch. destruct (match_hint h q None Hwf) as [pr' Hm].
  destruct (runes (print_hint h ++ q)) eqn:E; cbn [find]; by rewrite Hm.
Qed.

Lemma replace_hint h q :
  wf_hint h = true -> ReplaceAllEmpty hintRegex (print_hint h ++ q) = ReplaceAllEmpty hintRegex q.
Proof.
  intros Hwf. unfold ReplaceAllEmpty. f_equal. destruct (match_hint h q None Hwf) as [pr' Hm].
  destruct (matches_suffix _ _ _ (match_at_sound _ _ _ _ Hm)) as [l Hl]. cbn [rest] in Hl.
  rewrite Hl in Hm |- *. erewrite remove_matches_match; [| |exact Hm|done].
  { apply remove_matches_prev. rewrite (last_rune_hint h q l) by done. done. }
  intros ->. cbn [app] in Hl. apply (f_equal unrunes) in Hl. rewrite !unrunes_runes in Hl.
  apply (f_equal length) in Hl. unfold print_hint in Hl. rewrite !length_app in Hl. simpl in Hl. lia.
Qed.

(** ** Reading the groups back *)

(** The integer a printed number field is read back as. *)
Lemma group_field_caps n g name v rest :
  group n (field_caps g name v ++ rest) =
  match v with
  | Some v => if (n =? g)%nat then str name ++ v else if (n =? S g)%nat then v else group n rest
  | None => group n rest
  end.
Proof. by destruct v. Qed.

Lemma hint_int_Itoa o : wf_num o = true ->
  match match Itoa <$> o with Some v => v | None => [] end with [] => 0 | s => (Atoi s).1 end = default 0 o.
Proof.
  destruct o as [z|]; [|done]. simpl. intros H. bool_simpl.
  destruct (Itoa z) eqn:E; [by apply Itoa_ne in E|]. by rewrite <- E, Atoi_Itoa.
Qed.

Lemma group_hint_caps h :
  group 2 (hint_caps h) = match Itoa <$> h_ttl h with Some v => v | None => [] end /\
  group 4 (hint_caps h) = match h_file h with Some v => v | None => [] end /\
  group 6 (hint_caps h) = match Itoa <$> h_line h with Some v => v | None => [] end /\
  group 8 (hint_caps h) = match Itoa <$> h_batch h with Some v => v | None => [] end.
Proof.
  unfold hint_caps. rewrite <- (app_nil_r (field_caps 1 _ _)), !group_field_caps.
  destruct (h_ttl h), (h_file h), (h_line h), (h_batch h); done.
Qed.

(** What [Parse] extracts from a hinted query, before the TTL rule for writes. *)
Lemma Parse_hint_fields `{UnicodeTables} h q :
  wf_hint h = true ->
  let p := Parse (print_hint h ++ q) in
  Type_ p = query_type (print_hint h ++ q) /\
  TTL p = (if IsWritable p then 0 else default 0 (h_ttl h)) /\
  File p = default [] (h_file h) /\ Line p = default 0 (h_line h) /\
  BatchMs p = default 0 (h_batch h) /\
  Query p = TrimSpace (ReplaceAllEmpty hintRegex q).
Proof.
  intros Hwf p. subst p. unfold Parse. rewrite find_hint, replace_hint by done. unfold hint_int.
  destruct (group_hint_caps h) as (-> & -> & -> & ->).
  unfold wf_hint in Hwf. bool_simpl. rewrite !hint_int_Itoa by done.
  assert (Hb : 0 <= default 0 (h_batch h)) by (destruct (h_batch h); simpl in *; bool_simpl; lia).
  assert (Ht : 0 <= default 0 (h_ttl h)) by (destruct (h_ttl h); simpl in *; bool_simpl; lia).
  generalize dependent (default 0 (h_ttl h)). intros ttl Ht.
  cbn [Type_ DB TTL File Line BatchMs Query].
  replace (default 0 (h_batch h) <? 0) with false by lia.
  rewrite !IsWritable_match. cbn [Type_].
  destruct (query_type (print_hint h ++ q)); cbn; try (split_and!; done);
    (destruct (0 <? ttl) eqn:E; bool_simpl; cbn; split_and!; try done; try lia).
Qed.

(** ** Properties of [Parse] *)

(** What the numeric groups of [hintRegex] can hold. *)
Lemma digit_group_range (g : nat) query m :
  In g [2; 6; 8]%nat -> FindStringSubmatch hintRegex query = Some m -> 0 <= hint_int g m <= MaxInt64.
Proof.
  intros Hg Hf. unfold hint_int. destruct (group_elem g m) as [->|Hin]; [done|].
  destruct (group g m) as [|b0 t] eqn:Eg; [done|]. rewrite <- Eg in Hin |- *.
  unfold FindStringSubmatch in Hf. destruct (find hintRegex None (runes query)) as [st|] eqn:Ef; [|done].
  injection Hf as <-. apply find_Some in Ef as (pre & suf & Hs & Hm%match_at_sound).
  destruct (matches_caps _ _ _ Hm _ _ Hin) as [?%elem_of_nil|(r & s1 & s2 & Hr & Hm' & [l Hl] & Hb)]; [done|].
  assert (Hrp : r = RPlus re_digit).
  { destruct Hg as [<-|[<-|[<-|[]]]]; cbn in Hr;
      repeat (apply elem_of_cons in Hr as [Hr|Hr]; [by simplify_eq|]); by apply elem_of_nil in Hr. }
  subst r. apply matches_plus_consumed in Hm' as (c & l' & Hc & Hall).
  rewrite Hb, Hc.
  destruct (unrunes_digits query (c :: l')) as [Hd Hlen]; [|done|].
  { rewrite <- Hc. intros x Hx. rewrite Hs. apply elem_of_app. right. cbn [rest] in Hl. rewrite Hl.
    apply elem_of_app. right. unfold consumed in Hx. by eapply elem_of_take in Hx as (i & Hx & _);
    eapply list_elem_of_lookup_2. }
  apply Atoi_digits_range; [|done]. intros Hnil. rewrite Hnil in Hlen. done.
Qed.

Lemma Parse_numbers `{UnicodeTables} query :
  0 <= TTL (Parse query) <= MaxInt64 /\ 0 <= Line (Parse query) <= MaxInt64 /\
  0 <= BatchMs (Parse query) <= MaxInt64.
Proof.
  unfold Parse. destruct (FindStringSubmatch hintRegex query) as [m|] eqn:Ef.
  - pose proof (digit_group_range 2 _ _ ltac:(simpl; tauto) Ef).
    pose proof (digit_group_range 6 _ _ ltac:(simpl; tauto) Ef).
    pose proof (digit_group_range 8 _ _ ltac:(simpl; tauto) Ef).
    replace (hint_int 8 m <? 0) with false by lia.
    destruct (IsWritable _ && _); cbn; unfold MaxInt64 in *; lia.
  - destruct (IsWritable _ && _); cbn; unfold MaxInt64; lia.
Qed.

(** Type invariant of the parser's result: the numeric hints are
    non-negative 64-bit integers, whatever the query text holds (an
    out-of-range number is clamped by [Atoi]). *)
Theorem Parse_ranges `{UnicodeTables} query :
  let p := Parse query in
  0 <= TTL p <= MaxInt64 /\ 0 <= Line p <= MaxInt64 /\ 0 <= BatchMs p <= MaxInt64.
Proof. apply Parse_numbers. Qed.

(** A query is never both cached and treated as a write: a cacheable result
    of [Parse] is not writable (hence not batchable), and a write carries no
    TTL whatever its hint says. *)
Theorem Parse_routes_disjoint `{UnicodeTables} query :
  let p := Parse query in
  (IsCacheable p = true -> IsWritable p = false /\ IsBatchable p = false) /\
  (IsWritable p = true -> TTL p = 0 /\ IsCacheable p = false).
Proof.
  cbn zeta. split.
  - unfold IsCacheable. intros Hc. bool_simpl. rewrite IsBatchable_match, IsWritable_match.
    rewrite H0. done.
  - intros Hw. destruct (Parse_numbers query) as [Hr _].
    assert (Ht : TTL (Parse query) = 0).
    { revert Hw Hr. unfold Parse.
      destruct (FindStringSubmatch hintRegex query); cbn zeta;
        (destruct (IsWritable _ && _) eqn:E; [done|]; intros Hw Hr; rewrite Hw in E; cbn in *; bool_simpl; lia). }
    split; [done|]. unfold IsCacheable. by rewrite Ht, andb_false_r.
Qed.

(** ** The query type does not depend on the hint *)

Lemma type_keywords_reject_slash :
  rejects 47 (ralt [rword (str "SELECT"); rword (str "INSERT"); rword (str "UPDATE"); rword (str "DELETE")]) = true.
Proof. reflexivity. Qed.

(** A keyword that starts inside text ending in a slash lies inside it. *)
Lemma type_match_local pr p suf st :
  matches queryTypeRegex (MS pr ((p ++ [ascii_chunk "/"]) ++ suf) []) st ->
  exists st', matches queryTypeRegex (MS pr (p ++ [ascii_chunk "/"]) []) st'.
Proof.
  unfold queryTypeRegex. cbn [rseq]. set (W := ralt _).
  intros Hm. inversion Hm as [| | | | | |r1 r2 st0 st1 st2 Hb Hm2| | | |]; subst.
  inversion Hb as [| | | | | | | | | |st' Hb']; subst.
  inversion Hm2 as [| | | | | |r1 r2 st0 st3 st4 Hg Hb2| | | |]; subst.
  inversion Hg as [| | | | | | | | |n r st0 st5 HW|]; subst.
  inversion Hb2 as [| | | | | | | | | |st' Hb2']; subst. clear Hm Hb Hm2 Hg Hb2.
  destruct (matches_rejects 47 _ _ _ HW type_keywords_reject_slash) as (l & Hl & Hno). cbn [rest] in Hl.
  rewrite <- app_assoc in Hl. cbn [app] in Hl. symmetry in Hl.
  destruct (prefix_before _ _ _ _ _ Hl) as (m & -> & Hr5).
  { intros Hin. by apply (Hno _ Hin). }
  pose proof (matches_frame _ _ _ HW eq_refl l (m ++ [ascii_chunk "/"])) as HF.
  cbn [rest prev caps] in HF.
  eexists. eapply m_seq; [apply m_word|eapply m_seq; [apply m_group|apply m_word]].
  - revert Hb'. unfold at_boundary. cbn [rest prev]. by destruct (l ++ m).
  - rewrite <- app_assoc. apply HF. rewrite Hr5, <- !app_assoc. done.
  - revert Hb2'. unfold at_boundary. cbn [rest prev]. rewrite Hr5. by destruct m.
Qed.

(** No keyword in the hint: the type is that of the query behind it. *)
Lemma query_type_hint `{UnicodeTables} h q :
  FindStringSubmatch queryTypeRegex (print_hint h) = None ->
  query_type (print_hint h ++ q) = query_type q.
Proof.
  intros Hnone. unfold query_type, FindStringSubmatch in *.
  destruct (find queryTypeRegex None (runes (print_hint h))) as [st|] eqn:Ef; [done|]. clear Hnone.
  destruct (runes_hint h q) as (l & Hl & ->). rewrite find_skip.
  - rewrite Hl, last_rune_app. cbn [last_rune ascii_chunk rune].
    pose proof (find_prev queryTypeRegex (Some (bval "/")) None (runes q) eq_refl) as Hp.
    destruct (find queryTypeRegex (Some _) (runes q)), (find queryTypeRegex None (runes q)); try done.
    destruct Hp as (_ & Hc & _). cbn. by rewrite Hc.
  - intros p1 p2 Heq Hp2. destruct (match_at queryTypeRegex _ (p2 ++ runes q)) as [st|] eqn:Em; [|done].
    apply match_at_sound in Em.
    assert (exists p, p2 = p ++ [ascii_chunk "/"]) as [p ->].
    { destruct (exists_last Hp2) as (p & x & ->). exists p. rewrite Hl, app_assoc in Heq.
      apply app_inj_tail in Heq as [_ <-]. done. }
    apply type_match_local in Em as [st' Hm'].
    exfalso. eapply match_at_complete; [|exact Hm']. by eapply find_None.
Qed.

(** A blank in front of a query does not change its type. *)
Lemma query_type_blank `{UnicodeTables} q : query_type (str " " ++ q) = query_type q.
Proof.
  unfold query_type, FindStringSubmatch. change (str " " ++ q) with ((" "%char : byte) :: q). rewrite runes_ascii_cons by done. cbn [find].
  assert (Hm : match_at queryTypeRegex None (ascii_chunk " "%char :: runes q) = None) by reflexivity. rewrite Hm.
  pose proof (find_prev queryTypeRegex (Some 32) None (runes q) eq_refl) as Hp.
  change (rune (ascii_chunk " "%char)) with 32.
  destruct (find queryTypeRegex (Some 32) (runes q)), (find queryTypeRegex None (runes q)); try done.
  destruct Hp as (_ & Hc & _). cbn. by rewrite Hc.
Qed.

(** C29. Print/parse round trip of hints: a hint comment in canonical form, in
    front of any query, is read back field by field and stripped; the remaining
    hints of the query are stripped with it, and the query keeps its type when
    the hint text holds no SQL keyword of its own. *)
Theorem Parse_print_hint `{UnicodeTables} h q :
  wf_hint h = true -> FindStringSubmatch queryTypeRegex (print_hint h) = None ->
  let p := Parse (print_hint h ++ q) in
  Type_ p = query_type q /\
  TTL p = (if IsWritable p then 0 else default 0 (h_ttl h)) /\
  File p = default [] (h_file h) /\ Line p = default 0 (h_line h) /\
  BatchMs p = default 0 (h_batch h) /\
  Query p = TrimSpace (ReplaceAllEmpty hintRegex q).
Proof.
  intros Hwf Hnone. destruct (Parse_hint_fields h q Hwf) as (Ht & Hrest).
  cbn zeta. rewrite Ht, query_type_hint by done. done.
Qed.

Lemma Parse_print_hint_witness :
  let h := MkHint (Some 60) (Some (str "app.go")) (Some 42) None in
  wf_hint h = true /\ TTL (Parse (H := ascii_tables) (print_hint h ++ str " SELECT 1")) = 60.
Proof.
  split; [reflexivity|].
  apply (@Parse_print_hint ascii_tables (MkHint (Some 60) (Some (str "app.go")) (Some 42) None)
           (str " SELECT 1")); reflexivity.
Defined.

(** Hints do not take part in grouping: the batch key of a hinted query is
    the same for every hint, so that writes of the same query from different
    source lines, or with different windows, join one batch. *)
Theorem GetBatchKey_hint_independent `{UnicodeTables} h1 h2 q :
  wf_hint h1 = true -> wf_hint h2 = true ->
  GetBatchKey (Parse (print_hint h1 ++ q)) = GetBatchKey (Parse (print_hint h2 ++ q)).
Proof.
  intros H1 H2. unfold GetBatchKey.
  destruct (Parse_hint_fields h1 q H1) as (_ & _ & _ & _ & _ & ->).
  by destruct (Parse_hint_fields h2 q H2) as (_ & _ & _ & _ & _ & ->).
Qed.

Lemma GetBatchKey_hint_independent_witness :
  let h1 := MkHint None (Some (str "a.go")) (Some 1) (Some 10) in
  let h2 := MkHint None None None (Some 50) in
  let q := str " INSERT INTO t VALUES (1)" in
  GetBatchKey (Parse (H := ascii_tables) (print_hint h1 ++ q))
  = GetBatchKey (Parse (H := ascii_tables) (print_hint h2 ++ q)).
Proof. apply (@GetBatchKey_hint_independent ascii_tables); reflexivity. Defined.

(** ** Queries without comments *)

Lemma matches_rstr_text s w st st' :
  matches (rstr w) st st' -> is_ascii w = true -> (forall c, c ∈ rest st -> c ∈ runes s) ->
  rest st = (ascii_chunk <$> w) ++ rest st'.
Proof.
  revert st. induction w as [|b w IH]; intros st Hm Ha Hsub; [inversion Hm; by subst|].
  cbn [is_ascii forallb] in Ha. bool_simpl. pose proof (bval_range b).
  assert (Hlit : forall st st1, matches (rlit b) st st1 -> (forall c, c ∈ rest st -> c ∈ runes s) ->
    rest st = ascii_chunk b :: rest st1).
  { intros st0 st1 Hl Hs. inversion Hl as [|? ? c t cs Hc| | | | | | | | |]; subst. cbn [rest] in *.
    bool_simpl. f_equal. pose proof (runes_elem_ascii s c (Hs c ltac:(by left)) ltac:(lia)) as Hraw.
    destruct c as [r rw]. cbn in *. subst. by rewrite to_byte_bval. }
  destruct w as [|c w]; [by apply Hlit|]. rewrite rstr_cons in Hm.
  inversion Hm as [| | | | | |? ? ? st1 ? Hm1 Hm2| | | |]; subst.
  rewrite (Hlit _ _ Hm1 Hsub). rewrite fmap_cons. cbn [app]. f_equal. apply IH; [done..|].
  intros x Hx. apply Hsub. rewrite (Hlit _ _ Hm1 Hsub). by right.
Qed.

Lemma find_hint_none q : Contains q (str "/*") = false -> find hintRegex None (runes q) = None.
Proof.
  intros Hc. destruct (find hintRegex None (runes q)) as [st|] eqn:Ef; [|done]. exfalso.
  apply find_Some in Ef as (pre & suf & Hs & Hm%match_at_sound).
  inversion Hm as [| | | | | |? ? ? st1 ? Hm1 Hm2| | | |]; subst.
  apply (matches_rstr_text q (str "/*")) in Hm1; [|done|].
  - cbn [rest] in Hm1. rewrite Hm1 in Hs. apply (f_equal unrunes) in Hs.
    rewrite unrunes_runes, !unrunes_app, unrunes_ascii in Hs.
    rewrite <- not_true_iff_false, Contains_spec in Hc. destruct Hc. eauto.
  - intros c Hin. rewrite Hs. apply elem_of_app. by right.
Qed.

(** A query that opens no comment is passed through untouched and unhinted:
    the proxy neither caches nor batches it. *)
Theorem Parse_no_comment `{UnicodeTables} q :
  Contains q (str "/*") = false ->
  let p := Parse q in
  Query p = q /\ TTL p = 0 /\ BatchMs p = 0 /\ File p = [] /\ Line p = 0 /\
  IsCacheable p = false /\ IsBatchable p = false.
Proof.
  intros Hc. assert (Hf : FindStringSubmatch hintRegex q = None) by (unfold FindStringSubmatch; by rewrite find_hint_none).
  cbn zeta. unfold Parse. rewrite Hf. cbn zeta. unfold IsCacheable. rewrite IsBatchable_match.
  cbn [TTL]. change (0 <? 0) with false. rewrite andb_false_r. cbn [TTL BatchMs Query File Line].
  split_and!; try done; apply andb_false_r.
Qed.

Lemma Parse_no_comment_witness :
  Query (Parse (H := ascii_tables) (str "INSERT INTO t VALUES (1)")) = str "INSERT INTO t VALUES (1)".
Proof. apply (@Parse_no_comment ascii_tables (str "INSERT INTO t VALUES (1)")). reflexivity. Defined.

(** ** Where the parser departs from its documentation *)

(** The order of the fields matters: the documented example
    [/* batch:10 file:a.go line:1 */ INSERT ...] is not recognised as a hint, so
    the query is neither stripped nor batchable. *)
Example batch_before_file_ignored `{UnicodeTables} :
  let q := str "/* batch:10 file:a.go line:1 */ INSERT INTO t VALUES (1)" in
  Query (Parse q) = q /\ BatchMs (Parse q) = 0.
Proof. vm_compute. split; reflexivity. Qed.

(** A keyword in the file name decides the type: this SELECT is routed as a
    batchable DELETE. *)
Example keyword_in_file_name `{UnicodeTables} :
  let p := Parse (str "/* file:delete.php batch:5 */ SELECT * FROM t") in
  Type_ p = QueryDelete /\ IsBatchable p = true.
Proof. vm_compute. split; reflexivity. Qed.

(** A comment inside a string literal is removed from the data. *)
Example comment_in_literal_removed `{UnicodeTables} :
  Query (Parse (str "INSERT INTO t VALUES ('a /* */ b')")) = str "INSERT INTO t VALUES ('a  b')".
Proof. vm_compute. reflexivity. Qed.
