(* ===== verification/Replica.v ===== *)
(** * Package replica

    The pool of one backend (src/replica/pool.go): a primary, its read
    replicas, their health and the round-robin index.  Every operation holds the
    pool's mutex for its whole body, so an operation is one atomic state
    transformer and any interleaving of goroutines is a sequence of them. *)

From Stdlib Require Import Ascii ZArith Lia.
From stdpp Require Import base list gmap strings numbers.
From S2P Require Import Prelude GoStrings.

Open Scope Z_scope.

Record Pool := {
  primary : bytes;
  replicas : list bytes;
  healthy : gmap bytes bool;
  current : Z   (* round-robin index *)
}.

Definition set_current (p : Pool) (c : Z) : Pool :=
  {| primary := primary p; replicas := replicas p; healthy := healthy p; current := c |}.
Definition set_healthy (p : Pool) (h : gmap bytes bool) : Pool :=
  {| primary := primary p; replicas := replicas p; healthy := h; current := current p |}.

(** [p.healthy[addr]]: a missing key reads as [false]. *)
Definition healthy_at (p : Pool) (addr : bytes) : bool := default false (healthy p !! addr).

Definition NewPool (primary : bytes) (replicas : list bytes) : Pool :=
  {| primary := primary; replicas := replicas;
     healthy := foldl (fun m r => <[r := true]> m) ∅ replicas;
     current := 0 |}.

Definition UpdateReplicas (p : Pool) (primary : bytes) (replicas : list bytes) : Pool :=
  let newHealthy := foldl (fun m r =>
      match healthy p !! r with
      | Some status => <[r := status]> m
      | None => <[r := true]> m
      end) ∅ replicas in
  {| primary := primary; replicas := replicas; healthy := newHealthy;
     current := if 0 <? zlen replicas then Z.rem (current p) (zlen replicas) else 0 |}.

Definition GetPrimary (p : Pool) : bytes := primary p.

(** The name of the replica at an index, as [fmt.Sprintf] prints it. *)
Definition replica_name (idx : Z) : bytes := str "replicas[" ++ Itoa idx ++ str "]".

(** The search loop, with the attempts that remain.  The outer [None] is the
    index-out-of-range panic of [p.replicas[idx]]; the inner one is the end of
    the loop with no healthy replica found. *)
Fixpoint GetReplica_loop (attempts : nat) (p : Pool) : option (Pool * option (bytes * bytes)) :=
  match attempts with
  | O => Some (p, None)
  | S attempts =>
      let idx := current p in
      match index (replicas p) idx with
      | None => None
      | Some replica =>
          let p := set_current p (Z.rem (current p + 1) (zlen (replicas p))) in
          if healthy_at p replica then Some (p, Some (replica, replica_name idx))
          else GetReplica_loop attempts p
      end
  end.

Definition GetReplica (p : Pool) : option (Pool * (bytes * bytes)) :=
  if zlen (replicas p) =? 0 then Some (p, (primary p, str "primary"))
  else match GetReplica_loop (length (replicas p)) p with
       | None => None
       | Some (p', Some r) => Some (p', r)
       | Some (p', None) => Some (p', (primary p', str "primary"))
       end.

Definition MarkUnhealthy (p : Pool) (addr : bytes) : Pool :=
  match healthy p !! addr with
  | Some _ => set_healthy p (<[addr := false]> (healthy p))
  | None => p
  end.

Definition MarkHealthy (p : Pool) (addr : bytes) : Pool :=
  match healthy p !! addr with
  | Some _ => set_healthy p (<[addr := true]> (healthy p))
  | None => p
  end.

Definition IsHealthy (p : Pool) (addr : bytes) : bool := healthy_at p addr.

Definition GetHealthyCount (p : Pool) : Z :=
  map_fold (fun _ h count => if (h : bool) then count + 1 else count) 0 (healthy p).

(** The network and address a backend address is dialled on. *)
Definition dial_target (addr : bytes) : bytes * bytes :=
  if (5 <? zlen addr) && bool_decide (take 5 addr = str "unix:")
  then (str "unix", drop 5 addr)
  else (str "tcp", addr).

Section HealthChecks.
(** Whether [net.DialTimeout(network, address, 2s)] succeeds. *)
Variable dial : bytes -> bytes -> bool.

Definition checkReplica (p : Pool) (addr : bytes) : Pool :=
  let '(network, dialAddr) := dial_target addr in
  if dial network dialAddr then MarkHealthy p addr else MarkUnhealthy p addr.

(** [checkAllReplicas] starts one goroutine per replica; [order] is the order
    in which they reach the pool's mutex. *)
Definition checkAllReplicas (order : list bytes) (p : Pool) : Pool := foldl checkReplica p order.
End HealthChecks.

(** What ends the select of [StartHealthChecks]: the context is done, or the
    ticker fires and a round runs with the network and the order it meets.  A
    check takes at most the two seconds of its timeout, the rounds start ten
    seconds apart: a round is over when the next one starts.  Between rounds the
    pool is used by others ([used]). *)
Inductive wakeup :=
| CtxDone
| Tick (used : Pool -> Pool) (dial : bytes -> bytes -> bool) (order : Pool -> list bytes).

Fixpoint health_loop (p : Pool) (wakeups : list wakeup) : Pool :=
  match wakeups with
  | [] | CtxDone :: _ => p
  | Tick used dial order :: wakeups => health_loop (let p := used p in checkAllReplicas dial (order p) p) wakeups
  end.

Definition StartHealthChecks (dial : bytes -> bytes -> bool) (order : Pool -> list bytes) (p : Pool) (wakeups : list wakeup) : Pool :=
  health_loop (checkAllReplicas dial (order p) p) wakeups.

(** ** The pool as a transition system *)

Inductive pool_step : Pool -> Pool -> Prop :=
| step_get p p' r : GetReplica p = Some (p', r) -> pool_step p p'
| step_unhealthy p addr : pool_step p (MarkUnhealthy p addr)
| step_healthy p addr : pool_step p (MarkHealthy p addr)
| step_check dial p addr : pool_step p (checkReplica dial p addr)
| step_update p prim reps : pool_step p (UpdateReplicas p prim reps).

(** The round-robin index is in range and the health map covers exactly the
    configured replicas. *)
Record pool_ok (p : Pool) : Prop := {
  ok_current : 0 <= current p /\ (current p < zlen (replicas p) \/ (replicas p = [] /\ current p = 0));
  ok_dom : dom (healthy p) = list_to_set (replicas p)
}.

(** ** Lemmas: the health map *)

Lemma dom_fold_healthy (f : bytes -> bool) reps : forall m : gmap bytes bool,
  dom (foldl (fun m r => <[r := f r]> m) m reps) = dom m ∪ list_to_set reps.
Proof. induction reps as [|r reps IH]; intros m; simpl; [set_solver|]. rewrite IH. set_solver. Qed.

Lemma lookup_fold_healthy (f : bytes -> bool) reps a : forall m : gmap bytes bool,
  foldl (fun m r => <[r := f r]> m) m reps !! a = if decide (a ∈ reps) then Some (f a) else m !! a.
Proof.
  induction reps as [|r reps IH]; intros m; cbn [foldl]; [by rewrite decide_False by apply not_elem_of_nil|].
  rewrite IH. destruct (decide (a ∈ reps)); [rewrite decide_True by (by right); done|].
  destruct (decide (a = r)) as [->|Hne].
  - by rewrite decide_True, lookup_insert_eq by by left.
  - rewrite decide_False, lookup_insert_ne by (rewrite ?elem_of_cons; naive_solver). done.
Qed.

(** The status a replica has after a reload. *)
Definition kept_status (p : Pool) (r : bytes) : bool := default true (healthy p !! r).

Lemma UpdateReplicas_healthy p prim reps :
  healthy (UpdateReplicas p prim reps) = foldl (fun m r => <[r := kept_status p r]> m) ∅ reps.
Proof.
  unfold UpdateReplicas. simpl. generalize (∅ : gmap bytes bool).
  induction reps as [|r reps IH]; intros m; [done|]. simpl. rewrite IH. unfold kept_status.
  by destruct (healthy p !! r).
Qed.

(** ** Lemmas: the search loop *)

Lemma index_lookup {A} (l : list A) i : 0 <= i -> index l i = l !! Z.to_nat i.
Proof. intros H. unfold index. by replace (0 <=? i) with true by lia. Qed.

Lemma index_Some {A} (l : list A) i : 0 <= i < zlen l -> exists x, index l i = Some x.
Proof. intros H. rewrite index_lookup by lia. apply lookup_lt_is_Some_2. unfold zlen in H. lia. Qed.

(** The replica [k] places after the round-robin index. *)
Definition at_offset (p : Pool) (k : Z) : option bytes :=
  index (replicas p) ((current p + k) mod zlen (replicas p)).

Lemma at_offset_next p k :
  0 < zlen (replicas p) -> 0 <= current p < zlen (replicas p) -> 0 <= k ->
  at_offset (set_current p (Z.rem (current p + 1) (zlen (replicas p)))) k = at_offset p (k + 1).
Proof.
  intros Hn Hc Hk. unfold at_offset. cbn. rewrite Z.rem_mod_nonneg, Zplus_mod_idemp_l by lia.
  f_equal. f_equal. lia.
Qed.

(** The loop finds the first healthy replica among the next [n], and leaves the
    index just after it; with none it has moved on by [n]. *)
Lemma GetReplica_loop_spec n : forall p,
  0 < zlen (replicas p) -> 0 <= current p < zlen (replicas p) ->
  let len := zlen (replicas p) in
  (exists k r, 0 <= k < Z.of_nat n /\ at_offset p k = Some r /\ healthy_at p r = true /\
     (forall j r', 0 <= j < k -> at_offset p j = Some r' -> healthy_at p r' = false) /\
     GetReplica_loop n p =
       Some (set_current p ((current p + k + 1) mod len), Some (r, replica_name ((current p + k) mod len))))
  \/ ((forall j r', 0 <= j < Z.of_nat n -> at_offset p j = Some r' -> healthy_at p r' = false) /\
      GetReplica_loop n p = Some (set_current p ((current p + Z.of_nat n) mod len), None)).
Proof.
  induction n as [|n IH]; intros p Hn Hc len.
  - right. split; [lia|]. cbn. unfold len. rewrite Z.add_0_r, Z.mod_small by lia. by destruct p.
  - destruct (index_Some (replicas p) (current p) Hc) as [r Hr].
    assert (H0 : at_offset p 0 = Some r) by (unfold at_offset; by rewrite Z.add_0_r, Z.mod_small by lia).
    set (p1 := set_current p (Z.rem (current p + 1) (zlen (replicas p)))).
    assert (Hcur : current p1 = (current p + 1) mod len) by (cbn; apply Z.rem_mod_nonneg; lia).
    assert (Hat : forall k, 0 <= k -> at_offset p1 k = at_offset p (k + 1)) by (intros; by apply at_offset_next).
    assert (Hwrap : forall j, ((current p + 1) mod len + j) mod len = (current p + (j + 1)) mod len).
    { intros j. rewrite Zplus_mod_idemp_l. f_equal. lia. }
    cbn [GetReplica_loop]. rewrite Hr. fold p1. change (healthy_at p1 r) with (healthy_at p r).
    destruct (healthy_at p r) eqn:Eh.
    + left. exists 0, r. split_and!; [lia..|done|done|lia|]. unfold len in *.
      rewrite Z.add_0_r. rewrite (Z.mod_small (current p)) by lia. rewrite <- Hcur. done.
    + assert (Hfirst : forall j r', 0 <= j < 1 -> at_offset p j = Some r' -> healthy_at p r' = false).
      { intros j r' Hj Hr'. assert (j = 0) as -> by lia. congruence. }
      destruct (IH p1) as [(k & r1 & Hk & Hr1 & Hh & Hmin & ->)|[Hnone ->]];
        [done|rewrite Hcur; apply Z.mod_pos_bound; exact Hn|left; exists (k + 1), r1|right].
      * split_and!; [lia..|by rewrite <- Hat by lia|done| |].
        { intros j r' Hj Hr'. destruct (decide (j < 1)); [apply (Hfirst j); [lia|done]|].
          apply (Hmin (j - 1)); [lia|]. rewrite Hat by lia. by rewrite Z.sub_add. }
        { rewrite Hcur. change (zlen (replicas p1)) with len.
          rewrite <- (Z.add_assoc ((current p + 1) mod len) k 1), !Hwrap.
          replace (current p + (k + 1) + 1) with (current p + (k + 1 + 1)) by lia. done. }
      * split.
        { intros j r' Hj Hr'. destruct (decide (j < 1)); [apply (Hfirst j); [lia|done]|].
          apply (Hnone (j - 1)); [lia|]. rewrite Hat by lia. by rewrite Z.sub_add. }
        { rewrite Hcur. change (zlen (replicas p1)) with len.
          rewrite Hwrap. replace (Z.of_nat n + 1) with (Z.of_nat (S n)) by lia. done. }
Qed.

(** ** Properties *)

Lemma zlen_pos_ne {A} (l : list A) : l <> [] -> 0 < zlen l.
Proof. destruct l; [done|]. intros _. rewrite zlen_cons. pose proof (zlen_nonneg l). lia. Qed.

Lemma NewPool_ok prim reps : pool_ok (NewPool prim reps).
Proof.
  split; cbn.
  - split; [lia|]. destruct (decide (reps = [])); [by right|left; by apply zlen_pos_ne].
  - rewrite (dom_fold_healthy (fun _ => true)). set_solver.
Qed.

Lemma UpdateReplicas_ok p prim reps : pool_ok p -> pool_ok (UpdateReplicas p prim reps).
Proof.
  intros [[Hc _] _]. split; [|rewrite UpdateReplicas_healthy, dom_fold_healthy; cbn; set_solver].
  cbn. destruct (0 <? zlen reps) eqn:E; bool_simpl.
  - rewrite Z.rem_mod_nonneg by lia. pose proof (Z.mod_pos_bound (current p) (zlen reps)). lia.
  - split; [lia|]. right. split; [|done]. destruct reps; [done|]. rewrite zlen_cons in E.
    pose proof (zlen_nonneg reps). lia.
Qed.

Lemma set_healthy_insert_ok p addr b st :
  pool_ok p -> healthy p !! addr = Some st -> pool_ok (set_healthy p (<[addr := b]> (healthy p))).
Proof.
  intros [Hc Hd] Ha. split; [done|]. cbn. rewrite dom_insert_L, <- Hd.
  assert (addr ∈ dom (healthy p)) by (apply elem_of_dom; eauto). set_solver.
Qed.

Lemma MarkUnhealthy_ok p addr : pool_ok p -> pool_ok (MarkUnhealthy p addr).
Proof. unfold MarkUnhealthy. destruct (healthy p !! addr) eqn:E; eauto using set_healthy_insert_ok. Qed.

Lemma MarkHealthy_ok p addr : pool_ok p -> pool_ok (MarkHealthy p addr).
Proof. unfold MarkHealthy. destruct (healthy p !! addr) eqn:E; eauto using set_healthy_insert_ok. Qed.

Lemma checkReplica_ok dial p addr : pool_ok p -> pool_ok (checkReplica dial p addr).
Proof.
  unfold checkReplica. destruct (dial_target addr) as [n a].
  destruct (dial n a); auto using MarkUnhealthy_ok, MarkHealthy_ok.
Qed.

Lemma set_current_ok p c : pool_ok p -> 0 <= c < zlen (replicas p) -> pool_ok (set_current p c).
Proof. intros [_ Hd] Hc. split; [|done]. cbn. lia. Qed.

Lemma set_current_id p : set_current p (current p) = p.
Proof. by destruct p. Qed.

(** What [GetReplica] does on a well-formed pool: it does not panic, and either
    returns the first healthy replica at or after the index, or the primary when
    there is none. *)
Lemma GetReplica_cases p : pool_ok p ->
  let len := zlen (replicas p) in
  (exists k r, 0 <= k < len /\ at_offset p k = Some r /\ healthy_at p r = true /\
     (forall j r', 0 <= j < k -> at_offset p j = Some r' -> healthy_at p r' = false) /\
     GetReplica p = Some (set_current p ((current p + k + 1) mod len), (r, replica_name ((current p + k) mod len))))
  \/ ((forall r, r ∈ replicas p -> healthy_at p r = false) /\ GetReplica p = Some (p, (primary p, str "primary"))).
Proof.
  intros [[Hc0 Hc] Hd] len. unfold GetReplica. fold len. destruct (len =? 0) eqn:E; bool_simpl.
  - right. split; [|done]. destruct (replicas p) as [|r0 rs] eqn:Er; [by intros r ?%elem_of_nil|].
    unfold len in E. rewrite ?Er, zlen_cons in E. pose proof (zlen_nonneg rs). lia.
  - pose proof (zlen_nonneg (replicas p)). fold len in H.
    assert (Hcur : 0 <= current p < len).
    { destruct Hc as [|[Hr _]]; [done|]. unfold len in E. by rewrite Hr in E. }
    destruct (GetReplica_loop_spec (length (replicas p)) p) as
      [(k & r & Hk & Hr & Hh & Hmin & ->)|[Hnone ->]]; [lia|done|left|right].
    + exists k, r. done.
    + split.
      * intros r [i Hi]%list_elem_of_lookup. pose proof (lookup_lt_Some _ _ _ Hi) as Hlt.
        apply (Hnone ((Z.of_nat i - current p) mod len) r).
        { apply Z.mod_pos_bound. lia. }
        unfold at_offset. fold len. rewrite Zplus_mod_idemp_r.
        replace (current p + (Z.of_nat i - current p)) with (Z.of_nat i) by lia.
        rewrite Z.mod_small by (unfold len, zlen; lia).
        rewrite index_lookup by lia. by rewrite Nat2Z.id.
      * assert (Hmod : (current p + Z.of_nat (length (replicas p))) mod zlen (replicas p) = current p).
        { change (Z.of_nat (length (replicas p))) with (zlen (replicas p)).
          rewrite <- (Z.mul_1_l (zlen (replicas p))) at 1.
          rewrite Z.mod_add, Z.mod_small; unfold len in *; lia. }
        by rewrite Hmod, set_current_id.
Qed.

Lemma GetReplica_ok p p' r : pool_ok p -> GetReplica p = Some (p', r) -> pool_ok p'.
Proof.
  intros Hok Hg. destruct (GetReplica_cases p Hok) as [(k & a & Hk & _ & _ & _ & E)|[_ E]];
    rewrite E in Hg; injection Hg as <- <-; [|done].
  apply set_current_ok; [done|]. apply Z.mod_pos_bound. lia.
Qed.

#[export] Hint Resolve NewPool_ok UpdateReplicas_ok MarkUnhealthy_ok MarkHealthy_ok checkReplica_ok
  GetReplica_ok : tqdb.

Lemma pool_step_ok p p' : pool_ok p -> pool_step p p' -> pool_ok p'.
Proof. intros Hok Hs. destruct Hs; eauto with tqdb. Qed.

(** C37. The pool never indexes its replica list out of range: from any freshly
    configured pool, after any interleaving of routing, health marks, health
    checks and configuration reloads, [GetReplica] returns (it does not panic)
    and the well-formedness invariant holds. *)
Theorem pool_never_panics prim reps p :
  reach pool_step (NewPool prim reps) p -> pool_ok p /\ exists p' r, GetReplica p = Some (p', r).
Proof.
  intros Hr. assert (Hok : pool_ok p).
  { eapply reach_inv; [apply NewPool_ok| |done]. eauto using pool_step_ok. }
  split; [done|]. destruct (GetReplica_cases p Hok) as [(k & r & _ & _ & _ & _ & E)|[_ E]]; eauto.
Qed.

Lemma pool_never_panics_witness :
  let p := UpdateReplicas (NewPool (str "p") [str "a"; str "b"; str "c"]) (str "p") [str "a"] in
  pool_ok p /\ exists p' r, GetReplica p = Some (p', r).
Proof.
  apply (pool_never_panics (str "p") [str "a"; str "b"; str "c"]).
  eapply reach_step; [apply reach_refl|apply step_update].
Defined.

(** C27. Routing contract of [GetReplica]: on a well-formed pool it returns the
    first healthy replica at or after the round-robin index, with the index in
    its name and the next index just behind it; only when no replica is healthy
    does it return the primary, leaving the pool unchanged. *)
Theorem GetReplica_spec p :
  pool_ok p ->
  let len := zlen (replicas p) in
  (exists k r, 0 <= k < len /\ at_offset p k = Some r /\ IsHealthy p r = true /\
     (forall j r', 0 <= j < k -> at_offset p j = Some r' -> IsHealthy p r' = false) /\
     GetReplica p = Some (set_current p ((current p + k + 1) mod len), (r, replica_name ((current p + k) mod len))))
  \/ ((forall r, r ∈ replicas p -> IsHealthy p r = false) /\
      GetReplica p = Some (p, (GetPrimary p, str "primary"))).
Proof. apply GetReplica_cases. Qed.

Lemma GetReplica_spec_witness :
  let p := MarkUnhealthy (NewPool (str "p") [str "a"; str "b"]) (str "a") in
  pool_ok p /\
  ((exists k r, 0 <= k < zlen (replicas p) /\ at_offset p k = Some r /\ IsHealthy p r = true /\
     (forall j r', 0 <= j < k -> at_offset p j = Some r' -> IsHealthy p r' = false) /\
     GetReplica p = Some (set_current p ((current p + k + 1) mod zlen (replicas p)),
                          (r, replica_name ((current p + k) mod zlen (replicas p)))))
  \/ ((forall r, r ∈ replicas p -> IsHealthy p r = false) /\
      GetReplica p = Some (p, (GetPrimary p, str "primary")))).
Proof.
  assert (H : pool_ok (MarkUnhealthy (NewPool (str "p") [str "a"; str "b"]) (str "a")))
    by (apply MarkUnhealthy_ok, NewPool_ok).
  split; [exact H|]. exact (GetReplica_spec _ H).
Defined.

(** [n] successive calls of [GetReplica] and the addresses they return. *)
Fixpoint get_many (n : nat) (p : Pool) : option (Pool * list bytes) :=
  match n with
  | O => Some (p, [])
  | S n =>
      match GetReplica p with
      | None => None
      | Some (p1, (addr, _)) =>
          match get_many n p1 with
          | Some (p2, addrs) => Some (p2, addr :: addrs)
          | None => None
          end
      end
  end.

Definition all_healthy (p : Pool) : Prop := forall r, r ∈ replicas p -> healthy_at p r = true.

Lemma at_offset_elem p k r : at_offset p k = Some r -> r ∈ replicas p.
Proof.
  unfold at_offset, index. destruct (0 <=? _); [|done]. apply list_elem_of_lookup_2.
Qed.

Lemma GetReplica_all_healthy p :
  pool_ok p -> replicas p <> [] -> all_healthy p ->
  exists r, index (replicas p) (current p) = Some r /\
    GetReplica p = Some (set_current p ((current p + 1) mod zlen (replicas p)), (r, replica_name (current p))).
Proof.
  intros Hok Hne Hall. pose proof (zlen_pos_ne _ Hne) as Hpos.
  destruct (GetReplica_cases p Hok) as [(k & r & Hk & Hr & Hh & Hmin & E)|[Hnone _]].
  - assert (Hcur : 0 <= current p < zlen (replicas p)).
    { destruct (ok_current p Hok) as [? [|[? _]]]; [lia|done]. }
    assert (k = 0) as ->.
    { destruct (decide (k = 0)) as [|Hk0]; [done|].
      destruct (index_Some (replicas p) (current p) Hcur) as [r0 Hr0].
      assert (H0 : at_offset p 0 = Some r0) by (unfold at_offset; by rewrite Z.add_0_r, Z.mod_small by lia).
      pose proof (Hmin 0 r0 ltac:(lia) H0) as Hf.
      by rewrite (Hall r0) in Hf by eauto using at_offset_elem. }
    unfold at_offset in Hr. rewrite Z.add_0_r, Z.mod_small in Hr by lia. exists r. split; [done|].
    rewrite E, Z.add_0_r. by rewrite (Z.mod_small (current p)) by lia.
  - destruct (replicas p) as [|r0 rs] eqn:Er; [done|].
    assert (Hin : r0 ∈ replicas p) by (rewrite Er; by left).
    pose proof (Hnone r0 ltac:(by left)) as Hf. by rewrite (Hall r0) in Hf.
Qed.

(** Round robin is fair: while every replica is healthy, the [i]-th of
    [n] successive calls returns the replica [i] places after the index, so that
    any [len] consecutive calls visit every position of the list exactly once. *)
Theorem GetReplica_round_robin n p :
  pool_ok p -> replicas p <> [] -> all_healthy p ->
  exists p' addrs, get_many n p = Some (p', addrs) /\
    current p' = (current p + Z.of_nat n) mod zlen (replicas p) /\
    length addrs = n /\
    forall i, (i < n)%nat -> addrs !! i = at_offset p (Z.of_nat i).
Proof.
  revert p. induction n as [|n IH]; intros p Hok Hne Hall; pose proof (zlen_pos_ne _ Hne) as Hpos.
  - exists p, []. cbn. split_and!; [done| |done|lia].
    destruct (ok_current p Hok) as [? [|[? _]]]; [|done]. rewrite Z.mod_small; lia.
  - destruct (GetReplica_all_healthy p Hok Hne Hall) as (r & Hr & Hg). cbn [get_many]. rewrite Hg.
    set (p1 := set_current p _).
    destruct (IH p1) as (p2 & addrs & -> & Hc2 & Hlen & Hat); [by eapply GetReplica_ok|done|done|].
    exists p2, (r :: addrs). split_and!; [done| |cbn; by rewrite Hlen|].
    + rewrite Hc2. cbn. rewrite Zplus_mod_idemp_l. f_equal. lia.
    + assert (Hcur : 0 <= current p < zlen (replicas p)).
      { destruct (ok_current p Hok) as [? [|[? _]]]; [lia|done]. }
      intros [|i] Hi.
      * cbn. unfold at_offset. by rewrite Z.add_0_r, Z.mod_small by lia.
      * cbn. rewrite Hat by lia. unfold at_offset. cbn. rewrite Zplus_mod_idemp_l. do 2 f_equal. lia.
Qed.

Lemma GetReplica_round_robin_witness :
  exists p' addrs,
    get_many 3 (NewPool (str "p") [str "a"; str "b"]) = Some (p', addrs) /\ length addrs = 3%nat.
Proof.
  destruct (GetReplica_round_robin 3 (NewPool (str "p") [str "a"; str "b"])) as (p' & addrs & H & _ & L & _).
  - apply NewPool_ok.
  - discriminate.
  - intros r Hr. apply list_elem_of_In in Hr. destruct Hr as [<-|[<-|[]]]; reflexivity.
  - exists p', addrs. split; assumption.
Defined.

(** A configuration reload keeps the health of the replicas that stay and
    starts new ones as healthy: after [UpdateReplicas] exactly the new replica
    list has a status, the old one where there was one. *)
Theorem UpdateReplicas_health p prim reps addr :
  healthy (UpdateReplicas p prim reps) !! addr =
    if decide (addr ∈ reps) then Some (default true (healthy p !! addr)) else None.
Proof. rewrite UpdateReplicas_healthy, lookup_fold_healthy. done. Qed.

(** ** Health checks *)

Lemma checkReplica_lookup dial p addr a :
  healthy (checkReplica dial p addr) !! a =
    if decide (a = addr)
    then (fun _ => dial (dial_target addr).1 (dial_target addr).2) <$> healthy p !! a
    else healthy p !! a.
Proof.
  unfold checkReplica, MarkHealthy, MarkUnhealthy. destruct (dial_target addr) as [n d]. cbn [fst snd].
  destruct (decide (a = addr)) as [->|Hne].
  - destruct (dial n d) eqn:Ed; destruct (healthy p !! addr) eqn:E; cbn; rewrite ?lookup_insert_eq; try done; by rewrite E.
  - destruct (dial n d); destruct (healthy p !! addr); cbn; by rewrite ?lookup_insert_ne.
Qed.

Lemma checkAll_lookup dial a order : forall p,
  healthy (checkAllReplicas dial order p) !! a =
    if decide (a ∈ order)
    then (fun _ => dial (dial_target a).1 (dial_target a).2) <$> healthy p !! a
    else healthy p !! a.
Proof.
  unfold checkAllReplicas. induction order as [|addr order IH]; intros p; cbn [foldl].
  - by rewrite decide_False by apply not_elem_of_nil.
  - rewrite IH, checkReplica_lookup. destruct (decide (a = addr)) as [->|Hne].
    + rewrite (decide_True (P := addr ∈ addr :: order)) by by left.
      destruct (decide (addr ∈ order)); [|done]. by destruct (healthy p !! addr).
    + destruct (decide (a ∈ order)); [rewrite decide_True by (by right)|rewrite decide_False by set_solver]; done.
Qed.

(** A round of health checks brings every replica's status in line with the
    network: the result depends only on which addresses could be dialled, never
    on the order in which the per-replica goroutines run. *)
Theorem checkAllReplicas_spec dial p order :
  pool_ok p -> Permutation order (replicas p) ->
  forall a, healthy (checkAllReplicas dial order p) !! a =
    if decide (a ∈ replicas p) then Some (dial (dial_target a).1 (dial_target a).2) else None.
Proof.
  intros Hok Hp a. rewrite checkAll_lookup.
  assert (Ha : a ∈ order <-> a ∈ replicas p) by by rewrite Hp.
  assert (Hd : is_Some (healthy p !! a) <-> a ∈ replicas p).
  { rewrite <- elem_of_dom, (ok_dom p Hok). apply elem_of_list_to_set. }
  destruct (decide (a ∈ replicas p)) as [Hin|Hin].
  - rewrite decide_True by by apply Ha. by destruct (proj2 Hd Hin) as [b ->].
  - rewrite decide_False by by rewrite Ha. apply eq_None_not_Some. by rewrite Hd.
Qed.

Lemma checkAllReplicas_spec_witness :
  healthy (checkAllReplicas (fun _ a => bool_decide (a = str "a")) [str "b"; str "a"]
             (NewPool (str "p") [str "a"; str "b"])) !! str "b" = Some false.
Proof.
  rewrite (checkAllReplicas_spec _ (NewPool (str "p") [str "a"; str "b"])).
  - reflexivity.
  - apply NewPool_ok.
  - apply perm_swap.
Defined.

Lemma checkAllReplicas_ok dial order p : pool_ok p -> pool_ok (checkAllReplicas dial order p).
Proof. unfold checkAllReplicas. revert p. induction order as [|a order IH]; intros p Hp; cbn [foldl]; [done|]. apply IH. auto with tqdb. Qed.

Lemma checkAllReplicas_status dial order p a : pool_ok p -> Permutation order (replicas p) -> a ∈ replicas p ->
  healthy (checkAllReplicas dial order p) !! a = Some (dial (dial_target a).1 (dial_target a).2).
Proof.
  intros Hok Hp Ha. rewrite checkAll_lookup, decide_True by by rewrite Hp.
  assert (is_Some (healthy p !! a)) as [b ->]; [|done]. apply elem_of_dom. rewrite (ok_dom p Hok). by apply elem_of_list_to_set.
Qed.

Lemma checkAllReplicas_replicas dial order p : replicas (checkAllReplicas dial order p) = replicas p.
Proof.
  unfold checkAllReplicas. revert p. induction order as [|a order IH]; intros p; cbn [foldl]; [done|]. rewrite IH.
  unfold checkReplica, MarkHealthy, MarkUnhealthy. destruct (dial_target a). destruct (dial _ _); by destruct (healthy p !! a).
Qed.

(** Uses of the pool between the rounds keep it well formed, and a round checks
    every replica. *)
Definition wakeup_ok (t : wakeup) : Prop :=
  match t with CtxDone => True | Tick used _ order => (forall p, pool_ok p -> pool_ok (used p)) /\ forall p, Permutation (order p) (replicas p) end.

Lemma health_loop_ok wakeups : forall p, Forall wakeup_ok wakeups -> pool_ok p -> pool_ok (health_loop p wakeups).
Proof.
  induction wakeups as [|[|used dial order] wakeups IH]; intros p Hf Hp; cbn [health_loop]; [done..|].
  apply list.Forall_cons in Hf as [[Hu _] Hf]. apply IH; [done|]. by apply checkAllReplicas_ok, Hu.
Qed.

Lemma health_loop_last used dial order wakeups : forall p, CtxDone ∉ wakeups ->
  health_loop p (wakeups ++ [Tick used dial order; CtxDone]) =
    (let q := used (health_loop p wakeups) in checkAllReplicas dial (order q) q).
Proof.
  induction wakeups as [|[|u d o] wakeups IH]; intros p Hn; cbn [app health_loop]; [done| |].
  - destruct Hn. by left.
  - apply IH. intros H. apply Hn. by right.
Qed.

(** The health checks follow the network: whatever happens to a pool between the
    rounds, it stays well formed, and after a round every replica of the pool is
    healthy exactly when its address could be dialled in that round; the checks
    end with their context. *)
Theorem health_checks_follow_network dial0 order0 p wakeups used dial order :
  pool_ok p -> Forall wakeup_ok wakeups -> wakeup_ok (Tick used dial order) -> CtxDone ∉ wakeups ->
  let q := StartHealthChecks dial0 order0 p (wakeups ++ [Tick used dial order; CtxDone]) in
  pool_ok q /\ forall a, a ∈ replicas q -> healthy q !! a = Some (dial (dial_target a).1 (dial_target a).2).
Proof.
  intros Hp Hf [Hu Ho] Hn. cbv zeta. unfold StartHealthChecks. rewrite health_loop_last by done. cbv zeta.
  set (q := used _). assert (Hq : pool_ok q) by by apply Hu, health_loop_ok, checkAllReplicas_ok.
  split; [by apply checkAllReplicas_ok|]. intros a. rewrite checkAllReplicas_replicas. intros Ha. by apply checkAllReplicas_status.
Qed.

Lemma health_checks_follow_network_witness :
  let q := StartHealthChecks (fun _ _ => false) replicas (NewPool (str "p") [str "a"; str "b"])
             ([] ++ [Tick (fun p => MarkHealthy p (str "b")) (fun _ d => bool_decide (d = str "a")) replicas; CtxDone]) in
  pool_ok q /\ forall a, a ∈ replicas q -> healthy q !! a = Some (bool_decide ((dial_target a).2 = str "a")).
Proof.
  apply (health_checks_follow_network (fun _ _ => false) replicas (NewPool (str "p") [str "a"; str "b"]) []
    (fun p => MarkHealthy p (str "b")) (fun _ d => bool_decide (d = str "a")) replicas).
  - apply NewPool_ok.
  - constructor.
  - split; [intros p Hp; by apply MarkHealthy_ok|intros p; reflexivity].
  - intros H. inversion H.
Defined.

(** [GetHealthyCount] counts the distinct healthy addresses. *)
Lemma GetHealthyCount_spec p :
  GetHealthyCount p = Z.of_nat (size (filter (fun kv : bytes * bool => kv.2 = true) (healthy p))).
Proof.
  unfold GetHealthyCount.
  apply (map_fold_weak_ind (fun c m => c = Z.of_nat (size (filter (fun kv : bytes * bool => kv.2 = true) m))));
    [done|].
  intros a b m c Ha ->. rewrite map_filter_insert. destruct b.
  - rewrite decide_True by done. rewrite map_size_insert_None; [lia|]. apply map_lookup_filter_None_2. by left.
  - rewrite decide_False by done. by rewrite delete_id.
Qed.
