(* ===== verification/Cache.v ===== *)
(** * Package cache

    The query cache with single-flight protection (src/cache/cache.go).  The
    store it wraps (tqmemory) is a third-party package and a parameter: the
    class [Store] has its operations, [StoreLaws] what its documentation
    promises and the cache relies on, and [TimedStore] is a concrete store that
    satisfies the promises.

    [GetOrWait], [SetAndNotify] and [CancelInflight] run concurrently.  Each is
    a small program whose steps are the atomic operations it performs on the
    store, on the [sync.Map] of flights and on a flight's [done] channel; a
    [world] interleaves any number of such programs. *)

From Stdlib Require Import Ascii ZArith QArith Lia.
From stdpp Require Import base list gmap strings numbers.
From S2P Require Import Prelude GoStrings.

Open Scope Z_scope.

Definition FlagFresh : Z := 0.
Definition FlagStale : Z := 1.
Definition FlagRefresh : Z := 3.

(** ** The store *)

Class Store := {
  store : Type;
  (** [Get(key)]: [None] is an error; the value may be nil.  Reading can change
      the store (the first stale read marks the entry as being refreshed). *)
  store_get : store -> bytes -> store * option (option bytes * Z);
  store_set : store -> bytes -> bytes -> Z -> store;
  store_delete : store -> bytes -> store
}.

(** What is relied on: [fresh s k v] says that [k] holds the unexpired [v]. *)
Class StoreLaws `{Store} := {
  fresh : store -> bytes -> bytes -> Prop;
  fresh_set s k v ttl : 0 < ttl -> fresh (store_set s k v ttl) k v;
  fresh_get s k v : fresh s k v ->
    exists s', store_get s k = (s', Some (Some v, FlagFresh)) /\ fresh s' k v;
  fresh_get_other s k v k' : fresh s k v -> fresh (store_get s k').1 k v
}.

(** ** The cache *)

Section Cache.
Context `{Store}.

(** A flight is identified by the order of its allocation; [closed] holds the
    flights whose [done] channel has been closed. *)
Record Cache := MkCache {
  entries : store;
  inflight : gmap bytes nat;
  closed : gset nat;
  next : nat
}.

Definition set_entries (c : Cache) (s : store) : Cache :=
  MkCache s (inflight c) (closed c) (next c).

Definition Get (c : Cache) (key : bytes) : Cache * option (bytes * Z) :=
  let '(s, r) := store_get (entries c) key in
  (set_entries c s,
   match r with
   | None => None
   | Some (None, _) => None
   | Some (Some value, flags) => Some (value, flags)
   end).

Definition Set_ (c : Cache) (key value : bytes) (ttl : Z) : Cache :=
  if 0 <? ttl then set_entries c (store_set (entries c) key value ttl) else c.

Definition Delete (c : Cache) (key : bytes) : Cache :=
  set_entries c (store_delete (entries c) key).

(** [f := &flight{done: make(chan struct{})}; c.inflight.LoadOrStore(key, f)] *)
Definition LoadOrStore (c : Cache) (key : bytes) : Cache * (nat * bool) :=
  let f := next c in
  match inflight c !! key with
  | Some existing => (MkCache (entries c) (inflight c) (closed c) (S f), (existing, true))
  | None => (MkCache (entries c) (<[key := f]> (inflight c)) (closed c) (S f), (f, false))
  end.

Definition LoadAndDelete (c : Cache) (key : bytes) : Cache * option nat :=
  (MkCache (entries c) (delete key (inflight c)) (closed c) (next c), inflight c !! key).

(** [close(f.done)]: closing a closed channel panics. *)
Definition close_flight (c : Cache) (f : nat) : option Cache :=
  if decide (f ∈ closed c) then None
  else Some (MkCache (entries c) (inflight c) ({[f]} ∪ closed c) (next c)).

(** The program points of one call, on one key. *)
Inductive pc :=
| GStart                          (* GetOrWait: first Get *)
| GMiss                           (* missed, about to LoadOrStore *)
| GWait (f : nat)                 (* select on f.done and the 15 s timer *)
| GWoken                          (* f.done was closed, second Get *)
| GHit (value : bytes) (flags : Z) (waited : bool)   (* returned (value, flags, true, waited) *)
| GLead (f : nat)                 (* returned (nil, 0, false, false), having registered f *)
| GFail                           (* returned (nil, 0, false, true) *)
| NStore (value : bytes) (ttl : Z)  (* SetAndNotify: Set *)
| NTake                           (* SetAndNotify and CancelInflight: LoadAndDelete *)
| NClose (f : nat)                (* close(f.done) *)
| NRet.                           (* returned *)

Inductive outcome :=
| Blocked                         (* waiting, or already returned *)
| Panic
| Next (c : Cache) (p : pc).

(** One atomic step of a call; [timeout] says that the timer of a waiter fired. *)
Definition call_step (timeout : bool) (c : Cache) (key : bytes) (p : pc) : outcome :=
  match p with
  | GStart =>
      match Get c key with
      | (c, Some (v, flags)) => Next c (GHit v flags false)
      | (c, None) => Next c GMiss
      end
  | GMiss =>
      match LoadOrStore c key with
      | (c, (existing, true)) => Next c (GWait existing)
      | (c, (f, false)) => Next c (GLead f)
      end
  | GWait f =>
      if timeout then Next c GFail
      else if decide (f ∈ closed c) then Next c GWoken else Blocked
  | GWoken =>
      match Get c key with
      | (c, Some (v, flags)) => Next c (GHit v flags true)
      | (c, None) => Next c GFail
      end
  | NStore v ttl => Next (Set_ c key v ttl) NTake
  | NTake =>
      match LoadAndDelete c key with
      | (c, Some f) => Next c (NClose f)
      | (c, None) => Next c NRet
      end
  | NClose f =>
      match close_flight c f with
      | Some c => Next c NRet
      | None => Panic
      end
  | GHit _ _ _ | GLead _ | GFail | NRet => Blocked
  end.

(** Any number of calls in progress. *)
Record world := World { cache : Cache; calls : list (bytes * pc) }.

(** How a call begins: [GetOrWait], [SetAndNotify] or [CancelInflight]. *)
Definition starts (p : pc) : bool :=
  match p with GStart | NStore _ _ | NTake => true | _ => false end.

Inductive world_step : world -> world -> Prop :=
| step_call w key p : starts p = true ->
    world_step w (World (cache w) (calls w ++ [(key, p)]))
| step_run w i key p timeout c' p' :
    calls w !! i = Some (key, p) -> call_step timeout (cache w) key p = Next c' p' ->
    world_step w (World c' (<[i := (key, p')]> (calls w)))
| step_store w s :            (* time passes, entries expire or are deleted *)
    world_step w (World (set_entries (cache w) s) (calls w)).

Definition init (s : store) : world := World (MkCache s ∅ ∅ O) [].

(** ** The invariant *)

Record world_ok (w : world) : Prop := {
  (* flights are allocated in order *)
  ok_inflight_lt key f : inflight (cache w) !! key = Some f -> (f < next (cache w))%nat;
  ok_closed_lt f : f ∈ closed (cache w) -> (f < next (cache w))%nat;
  ok_close_lt i key f : calls w !! i = Some (key, NClose f) -> (f < next (cache w))%nat;
  ok_wait_lt i key f : calls w !! i = Some (key, GWait f) -> (f < next (cache w))%nat;
  ok_lead_lt i key f : calls w !! i = Some (key, GLead f) -> (f < next (cache w))%nat;
  (* a registered or taken flight is open and has one owner *)
  ok_inflight_open key f : inflight (cache w) !! key = Some f -> f ∉ closed (cache w);
  ok_close_open i key f : calls w !! i = Some (key, NClose f) -> f ∉ closed (cache w);
  ok_inflight_inj k1 k2 f : inflight (cache w) !! k1 = Some f -> inflight (cache w) !! k2 = Some f -> k1 = k2;
  ok_close_inj i j k1 k2 f : calls w !! i = Some (k1, NClose f) -> calls w !! j = Some (k2, NClose f) -> i = j;
  ok_close_inflight i k1 k2 f : calls w !! i = Some (k1, NClose f) -> inflight (cache w) !! k2 <> Some f;
  (* a flight has one leader *)
  ok_lead_inj i j k1 k2 f : calls w !! i = Some (k1, GLead f) -> calls w !! j = Some (k2, GLead f) -> i = j;
  ok_inflight_lead key f : inflight (cache w) !! key = Some f -> exists i, calls w !! i = Some (key, GLead f)
}.
End Cache.

Arguments Cache {_}.
Arguments world {_}.

(** ** Making and closing a cache *)

Record CacheConfig := { MaxMemory : Z; Workers : Z; StaleMultiplier : Q }.
Definition DefaultCacheConfig : CacheConfig := {| MaxMemory := 64 * 1024 * 1024; Workers := 4; StaleMultiplier := 2 # 1 |}.

(** [tqmemory.NewSharded] with the memory, the multiplier and the workers of the
    configuration, and [Close]; an error is its text. *)
Class StoreMaker `{Store} := {
  NewSharded : Z -> Q -> Z -> store + bytes;
  store_close : store -> option bytes
}.

Definition New `{StoreMaker} (cfg : CacheConfig) : Cache + bytes :=
  match NewSharded (MaxMemory cfg) (StaleMultiplier cfg) (Workers cfg) with
  | inr err => inr err
  | inl s => inl (MkCache s ∅ ∅ O)
  end.

Definition Close `{StoreMaker} (c : Cache) : option bytes := store_close (entries c).

(** ** Lemmas: the invariant is preserved *)

Section Invariant.
Context `{Store}.
Implicit Types (c : Cache) (w : world) (key : bytes).

(** Looking up a call after one of them has moved. *)
Lemma calls_insert (l : list (bytes * pc)) i j key p p' x :
  l !! i = Some (key, p) ->
  <[i := (key, p')]> l !! j = Some x <-> (j = i /\ x = (key, p')) \/ (j <> i /\ l !! j = Some x).
Proof.
  intros Hi. destruct (decide (j = i)) as [->|Hne].
  - rewrite list_lookup_insert_eq by by eapply lookup_lt_Some. naive_solver.
  - rewrite list_lookup_insert_ne by done. naive_solver.
Qed.

Lemma calls_snoc (l : list (bytes * pc)) j x y :
  (l ++ [x]) !! j = Some y <-> l !! j = Some y \/ (j = length l /\ y = x).
Proof.
  rewrite lookup_app_Some, list_lookup_singleton_Some. split.
  - intros [?|(? & ? & ?)]; [by left|right]. split; [lia|done].
  - intros [?|[-> ->]]; [by left|right]. split; [lia|]. split; [lia|done].
Qed.

(** Split the alternatives of a lookup and use the invariant's clauses. *)
Local Ltac alternatives :=
  intros; repeat match goal with
  | H : _ \/ _ |- _ => destruct H
  | H : _ /\ _ |- _ => destruct H
  end; simplify_eq/=; try done; first [solve [eauto 4] | solve [exfalso; eauto 4] | idtac].

(** Another call has not moved. *)
Local Ltac other_call := right; split; [intros ->; simplify_eq/=; done|done].

(** Program points that hold no flight. *)
Definition inert (p : pc) : bool :=
  match p with GWait _ | GLead _ | NClose _ => false | _ => true end.

(** A call that starts holds no flight. *)
Lemma step_call_ok w key p : starts p = true ->
  world_ok w -> world_ok (World (cache w) (calls w ++ [(key, p)])).
Proof.
  intros Hs [H1 H2 H3 H4 H5 H6 H7 H8 H9 H10 H12 H13].
  split; cbn; intros *; rewrite ?calls_snoc; try solve [alternatives].
  - intros Hi. destruct (H13 _ _ Hi) as [i ?]. exists i. rewrite calls_snoc. by left.
Qed.

(** Entries of the store do not matter to the flights. *)
Lemma set_entries_ok w s : world_ok w -> world_ok (World (set_entries (cache w) s) (calls w)).
Proof. intros [H1 H2 H3 H4 H5 H6 H7 H8 H9 H10 H12 H13]. split; done. Qed.

(** A move between points that hold no flight. *)
Lemma step_inert_ok w i key p p' :
  calls w !! i = Some (key, p) -> (match p with GLead _ | NClose _ => false | _ => true end) = true ->
  inert p' = true ->
  world_ok w -> world_ok (World (cache w) (<[i := (key, p')]> (calls w))).
Proof.
  intros Hi Hp Hp' [H1 H2 H3 H4 H5 H6 H7 H8 H9 H10 H12 H13].
  split; cbn; intros *; rewrite ?(calls_insert _ _ _ _ _ _ _ Hi); try solve [alternatives].
  - intros Hf. destruct (H13 _ _ Hf) as [j ?]. exists j. rewrite (calls_insert _ _ _ _ _ _ _ Hi). other_call.
Qed.

(** [LoadOrStore] when another call is in flight: join it. *)
Lemma step_join_ok w i key f :
  calls w !! i = Some (key, GMiss) -> inflight (cache w) !! key = Some f ->
  world_ok w ->
  world_ok (World (MkCache (entries (cache w)) (inflight (cache w)) (closed (cache w)) (S (next (cache w))))
                  (<[i := (key, GWait f)]> (calls w))).
Proof.
  intros Hi Hf [H1 H2 H3 H4 H5 H6 H7 H8 H9 H10 H12 H13].
  split; cbn; intros *; rewrite ?(calls_insert _ _ _ _ _ _ _ Hi);
    try (intros; apply Nat.lt_lt_succ_r; solve [alternatives]); try solve [alternatives].
  - intros Hg. destruct (H13 _ _ Hg) as [j ?]. exists j. rewrite (calls_insert _ _ _ _ _ _ _ Hi). other_call.
Qed.

(** [LoadOrStore] on a free key: register a fresh flight and lead. *)
Lemma step_lead_ok w i key :
  calls w !! i = Some (key, GMiss) -> inflight (cache w) !! key = None ->
  world_ok w ->
  world_ok (World (MkCache (entries (cache w)) (<[key := next (cache w)]> (inflight (cache w)))
                           (closed (cache w)) (S (next (cache w))))
                  (<[i := (key, GLead (next (cache w)))]> (calls w))).
Proof.
  intros Hi Hf [H1 H2 H3 H4 H5 H6 H7 H8 H9 H10 H12 H13]. set (f := next (cache w)) in *.
  assert (Hne : forall k g, inflight (cache w) !! k = Some g -> g = f -> False) by (intros k g Hg; specialize (H1 _ _ Hg); lia).
  assert (Hins : forall k g, <[key := f]> (inflight (cache w)) !! k = Some g <->
    (k = key /\ g = f) \/ (k <> key /\ inflight (cache w) !! k = Some g)).
  { intros k g. destruct (decide (k = key)) as [->|]; [rewrite lookup_insert_eq|rewrite lookup_insert_ne by done]; split; alternatives. }
  assert (Hlt : forall j k g, calls w !! j = Some (k, NClose g) -> g = f -> False)
    by (intros j k g Hg; specialize (H3 _ _ _ Hg); lia).
  assert (Hlt' : forall j k g, calls w !! j = Some (k, GLead g) -> g = f -> False)
    by (intros j k g Hg; specialize (H5 _ _ _ Hg); lia).
  assert (Hcl : f ∉ closed (cache w)) by (intros Hin; specialize (H2 _ Hin); lia).
  split; cbn; intros *; rewrite ?Hins, ?(calls_insert _ _ _ _ _ _ _ Hi);
    try (intros; apply Nat.lt_succ_r; alternatives; solve [eauto using Nat.lt_le_incl]); try solve [alternatives].
  - intros [[-> [= ]]|[Hj Hl]] [[-> ?]|[? ?]]; [by eapply Hlt|by eapply H10].
  - intros [[-> ->]|[? Hg]]; [exists i; by rewrite (calls_insert _ _ _ _ _ _ _ Hi); left|].
    destruct (H13 _ _ Hg) as [j ?]. exists j. rewrite (calls_insert _ _ _ _ _ _ _ Hi). other_call.
Qed.

(** [LoadAndDelete] of a registered flight: the caller will close it. *)
Lemma step_take_ok w i key f :
  calls w !! i = Some (key, NTake) -> inflight (cache w) !! key = Some f ->
  world_ok w ->
  world_ok (World (MkCache (entries (cache w)) (delete key (inflight (cache w))) (closed (cache w)) (next (cache w)))
                  (<[i := (key, NClose f)]> (calls w))).
Proof.
  intros Hi Hf [H1 H2 H3 H4 H5 H6 H7 H8 H9 H10 H12 H13].
  assert (Hdel : forall k g, delete key (inflight (cache w)) !! k = Some g <->
    k <> key /\ inflight (cache w) !! k = Some g).
  { intros k g. rewrite lookup_delete_Some. split; alternatives. }
  assert (Hother : forall k, k <> key -> inflight (cache w) !! k <> Some f) by (intros k Hk ?; by apply Hk; eapply H8).
  split; cbn; intros *; rewrite ?Hdel, ?(calls_insert _ _ _ _ _ _ _ Hi); try solve [alternatives].
  - intros [[-> E1]|[? Hl]] [[-> E2]|[? Hl']]; simplify_eq; [done| | |by eapply H9].
    + by destruct (H10 _ _ key _ Hl').
    + by destruct (H10 _ _ key _ Hl).
  - intros [[-> [= -> ->]]|[? Hl]] [? ?]; [by eapply Hother|by eapply H10].
  - intros [? Hg]. destruct (H13 _ _ Hg) as [j ?]. exists j. rewrite (calls_insert _ _ _ _ _ _ _ Hi). other_call.
Qed.

(** Closing the flight that was taken out. *)
Lemma step_close_ok w i key f :
  calls w !! i = Some (key, NClose f) -> world_ok w ->
  world_ok (World (MkCache (entries (cache w)) (inflight (cache w)) ({[f]} ∪ closed (cache w)) (next (cache w)))
                  (<[i := (key, NRet)]> (calls w))).
Proof.
  intros Hi [H1 H2 H3 H4 H5 H6 H7 H8 H9 H10 H12 H13].
  split; cbn; intros *; rewrite ?elem_of_union, ?elem_of_singleton, ?(calls_insert _ _ _ _ _ _ _ Hi); try solve [alternatives].
  - intros Hg [->|?]; [by eapply H10|by eapply H6].
  - intros [[-> [= ]]|[Hj Hl]] [->|?]; [by eapply Hj, H9|by eapply H7].
  - intros Hg. destruct (H13 _ _ Hg) as [j ?]. exists j. rewrite (calls_insert _ _ _ _ _ _ _ Hi). other_call.
Qed.

(** The cases of a call's step. *)
Lemma call_step_cases timeout c key p c' p' : call_step timeout c key p = Next c' p' ->
  (exists s, c' = set_entries c s /\ inert p = true /\ inert p' = true) \/
  (c' = c /\ inert p' = true /\ exists f, p = GWait f) \/
  (exists f, p = GMiss /\ inflight c !! key = Some f /\ p' = GWait f /\
     c' = MkCache (entries c) (inflight c) (closed c) (S (next c))) \/
  (p = GMiss /\ inflight c !! key = None /\ p' = GLead (next c) /\
     c' = MkCache (entries c) (<[key := next c]> (inflight c)) (closed c) (S (next c))) \/
  (exists f, p = NTake /\ inflight c !! key = Some f /\ p' = NClose f /\
     c' = MkCache (entries c) (delete key (inflight c)) (closed c) (next c)) \/
  (p = NTake /\ inflight c !! key = None /\ p' = NRet /\
     c' = MkCache (entries c) (delete key (inflight c)) (closed c) (next c)) \/
  (exists f, p = NClose f /\ p' = NRet /\ (f ∉ closed c) /\
     c' = MkCache (entries c) (inflight c) ({[f]} ∪ closed c) (next c)).
Proof.
  destruct p; cbn; intros Hs; try done.
  - left. unfold Get in Hs. destruct (store_get _ _) as [s [[[v|] fl]|]]; simplify_eq; by exists s.
  - unfold LoadOrStore in Hs. destruct (inflight c !! key) eqn:E; simplify_eq; eauto 12.
  - right; left. destruct timeout; [|destruct (decide _)]; simplify_eq; eauto.
  - left. unfold Get in Hs. destruct (store_get _ _) as [s [[[v|] fl]|]]; simplify_eq; by exists s.
  - left. unfold Set_ in Hs. simplify_eq. destruct (0 <? ttl); [eexists; split; [reflexivity|done]|]. exists (entries c). by destruct c.
  - unfold LoadAndDelete in Hs. destruct (inflight c !! key) eqn:E; simplify_eq; eauto 12.
  - unfold close_flight in Hs. destruct (decide _); simplify_eq. do 6 right. eauto.
Qed.

Lemma world_step_ok w w' : world_ok w -> world_step w w' -> world_ok w'.
Proof.
  intros Hok Hw. destruct Hw as [w0 key p Hs|w0 i key p timeout c' p' Hi Hs|w0 s]; [by apply step_call_ok| |by apply set_entries_ok].
  destruct (call_step_cases _ _ _ _ _ _ Hs)
    as [(s & -> & ? & ?)|[(-> & ? & f & ->)|[(f & -> & ? & -> & ->)|[(-> & ? & -> & ->)|
        [(f & -> & ? & -> & ->)|[(-> & Hn & -> & ->)|(f & -> & -> & ? & ->)]]]]]].
  - change (World _ _) with (World (set_entries (cache (World (cache w0) (<[i := (key, p')]> (calls w0)))) s)
                              (calls (World (cache w0) (<[i := (key, p')]> (calls w0))))).
    apply set_entries_ok. eapply step_inert_ok; eauto. by destruct p.
  - by eapply step_inert_ok.
  - by apply step_join_ok.
  - by apply step_lead_ok.
  - by apply step_take_ok.
  - rewrite delete_id by done. replace (MkCache _ _ _ _) with (cache w0) by by destruct (cache w0).
    by eapply step_inert_ok.
  - by apply step_close_ok.
Qed.

Lemma init_ok s : world_ok (init s).
Proof. split; cbn; intros *; rewrite ?lookup_empty, ?lookup_nil, ?elem_of_empty; done. Qed.

Lemma reach_ok s w : reach world_step (init s) w -> world_ok w.
Proof. apply reach_inv; eauto using init_ok, world_step_ok. Qed.

(** The flight a call leads or waits for. *)
Definition holds (p : pc) : option nat :=
  match p with GLead f | GWait f => Some f | _ => None end.

(** It stays registered under the call's key until it is taken out to be
    closed. *)
Definition held_ok w : Prop := forall i key p f, calls w !! i = Some (key, p) -> holds p = Some f ->
  inflight (cache w) !! key = Some f \/ (exists j k, calls w !! j = Some (k, NClose f)) \/ f ∈ closed (cache w).

Lemma world_step_held_ok w w' : world_ok w -> held_ok w -> world_step w w' -> held_ok w'.
Proof.
  intros Hok Hl Hw. destruct Hw as [w0 key p Hs|w0 i key p timeout c' p' Hi Hs|w0 s]; [| |exact Hl]; intros j k q g; cbn.
  - rewrite calls_snoc. intros [Hj|[-> [= -> <-]]] Hg; [|by destruct q].
    destruct (Hl _ _ _ _ Hj Hg) as [?|[(a & b & Ha)|?]]; [by left| |by right; right].
    right; left. exists a, b. rewrite calls_snoc. by left.
  - rewrite (calls_insert _ _ _ _ _ _ _ Hi).
    destruct (call_step_cases _ _ _ _ _ _ Hs)
      as [(s & -> & ? & ?)|[(-> & ? & f & ->)|[(f & -> & ? & -> & ->)|[(-> & Hn & -> & ->)|
          [(f & -> & Hf & -> & ->)|[(-> & Hn & -> & ->)|(f & -> & -> & ? & ->)]]]]]];
      intros [[-> Hx]|[Hne Hj]] Hg; simplify_eq/=; try done; try (by destruct p'); try (by left);
      try (left; by rewrite lookup_insert_eq);
      destruct (Hl _ _ _ _ Hj Hg) as [?|[(a & b & Ha)|?]]; try (by left); try (by right; right);
      try (right; left; exists a, b; rewrite (calls_insert _ _ _ _ _ _ _ Hi); other_call).
    + left. rewrite lookup_insert_ne; [done|]. intros <-. congruence.
    + destruct (decide (k = key)) as [->|].
      * right; left. exists i, key. rewrite (calls_insert _ _ _ _ _ _ _ Hi). left. by simplify_eq.
      * left. by rewrite lookup_delete_ne.
    + left. by rewrite delete_id.
    + destruct (decide (a = i)) as [->|].
      * right; right. simplify_eq. set_solver.
      * right; left. exists a, b. rewrite (calls_insert _ _ _ _ _ _ _ Hi). by right.
    + right; right. set_solver.
Qed.

Lemma reach_held_ok s w : reach world_step (init s) w -> held_ok w.
Proof.
  intros Hr. enough (world_ok w /\ held_ok w) by tauto.
  refine (reach_inv world_step (fun w => world_ok w /\ held_ok w) _ _ _ _ Hr); [split; [apply init_ok|done]|].
  intros w1 w2 [? ?] Hs. eauto using world_step_ok, world_step_held_ok.
Qed.

(** ** Schedules

    Executing calls one step at a time, in a given order; no timer fires. *)
Definition run_call w (i : nat) : option world :=
  '(key, p) ← calls w !! i;
  match call_step false (cache w) key p with
  | Next c p => Some (World c (<[i := (key, p)]> (calls w)))
  | _ => None
  end.

Fixpoint runs w (l : list nat) : option world :=
  match l with
  | [] => Some w
  | i :: l => w ← run_call w i; runs w l
  end.

Lemma runs_next w i l key p c p' w' :
  calls w !! i = Some (key, p) -> call_step false (cache w) key p = Next c p' ->
  runs (World c (<[i := (key, p')]> (calls w))) l = Some w' -> runs w (i :: l) = Some w'.
Proof. intros Hi Hs Hr. cbn. unfold run_call. rewrite Hi. cbn. by rewrite Hs. Qed.

Lemma runs_reach w l w' : runs w l = Some w' -> reach world_step w w'.
Proof.
  revert w; induction l as [|i l IH]; intros w; cbn; [intros [= ->]; constructor|].
  unfold run_call. destruct (calls w !! i) as [[key p]|] eqn:Hi; [cbn|done].
  destruct (call_step false (cache w) key p) as [| |c p'] eqn:Hs; [done|done|cbn]. intros Hr.
  eapply reach_trans; [|by apply IH]. eapply reach_step; [apply reach_refl|by eapply step_run].
Qed.

Lemma calls_reach w l : Forall (fun x => starts x.2 = true) l ->
  reach world_step w (World (cache w) (calls w ++ l)).
Proof.
  revert w; induction l as [|[key p] l IH]; intros w; [rewrite app_nil_r; destruct w; constructor|].
  intros Hf. inversion_clear Hf. rewrite cons_middle, app_assoc.
  eapply reach_trans; [eapply reach_step; [apply reach_refl|by apply (step_call _ key p)]|]. by apply (IH (World _ _)).
Qed.
End Invariant.

(** ** A concrete store

    Entries are fresh until their soft expiry and stale until twice the time
    to live; the first stale read is told to refresh. *)
Record timed := Timed { now : Z; items : gmap bytes (bytes * Z * Z * bool) }.

#[local] Instance TimedStore : Store := {|
  store := timed;
  store_get s k :=
    match items s !! k with
    | None => (s, None)
    | Some (v, soft, hard, refreshing) =>
        if now s <? soft then (s, Some (Some v, FlagFresh))
        else if now s <? hard then
          if refreshing : bool then (s, Some (Some v, FlagStale))
          else (Timed (now s) (<[k := (v, soft, hard, true)]> (items s)), Some (Some v, FlagRefresh))
        else (s, None)
    end;
  store_set s k v ttl := Timed (now s) (<[k := (v, now s + ttl, now s + 2 * ttl, false)]> (items s));
  store_delete s k := Timed (now s) (delete k (items s))
|}.

Definition timed_fresh (s : timed) (k v : bytes) : Prop :=
  exists soft hard r, items s !! k = Some (v, soft, hard, r) /\ now s < soft.

#[local] Instance TimedStoreLaws : StoreLaws.
Proof.
  refine {| fresh := timed_fresh |}; unfold timed_fresh; cbn.
  - intros s k v ttl Ht. exists (now s + ttl), (now s + 2 * ttl), false. rewrite lookup_insert_eq. split; [done|lia].
  - intros s k v (soft & hard & r & Hl & Hn). exists s. rewrite Hl.
    replace (now s <? soft) with true by lia. eauto 6.
  - intros s k v k' (soft & hard & r & Hl & Hn).
    destruct (items s !! k') as [[[[v' soft'] hard'] r']|] eqn:Hk'; [|cbn; eauto 6].
    destruct (now s <? soft') eqn:E1; [cbn; eauto 6|].
    destruct (now s <? hard'); [destruct r'|]; cbn; eauto 6.
    exists soft, hard, r. rewrite lookup_insert_ne; [done|]. intros <-. rewrite Hl in Hk'. simplify_eq. lia.
Qed.

(** ** Properties *)

Section Properties.
Context `{Store}.
Implicit Types (w : world) (key : bytes).

(** C35. However calls of GetOrWait, SetAndNotify and CancelInflight are
    interleaved, no channel is closed twice: no reachable state has a call
    whose next step panics. *)
Theorem cache_never_panics (s : store) w i key p timeout :
  reach world_step (init s) w -> calls w !! i = Some (key, p) ->
  call_step timeout (cache w) key p <> Panic.
Proof.
  intros Hr%reach_ok Hi. destruct p; cbn; try done.
  - unfold Get. by destruct (store_get _ _) as [? [[[?|] ?]|]].
  - unfold LoadOrStore. by destruct (inflight _ !! _).
  - destruct timeout; [done|]. by destruct (decide _).
  - unfold Get. by destruct (store_get _ _) as [? [[[?|] ?]|]].
  - unfold LoadAndDelete. by destruct (inflight _ !! _).
  - unfold close_flight. rewrite decide_False; [done|]. by eapply ok_close_open.
Qed.

(** C17. No waiter is forgotten: the channel a GetOrWait waits for is closed,
    or a call that has taken the flight out of the map closes it in its next
    step, or the flight is still registered under the waiter's key and the
    call that registered it is its leader, which owes SetAndNotify or
    CancelInflight. *)
Theorem no_lost_waiter (s : store) w i key f :
  reach world_step (init s) w -> calls w !! i = Some (key, GWait f) ->
  f ∈ closed (cache w) \/
  (exists j k, calls w !! j = Some (k, NClose f) /\ f ∉ closed (cache w)) \/
  (inflight (cache w) !! key = Some f /\ exists j, calls w !! j = Some (key, GLead f)).
Proof.
  intros Hr Hi. pose proof (reach_ok _ _ Hr) as Hok.
  destruct (reach_held_ok _ _ Hr _ _ _ f Hi eq_refl) as [Hf|[(j & k & Hj)|?]]; [| |by left].
  - right; right. split; [done|]. by apply (ok_inflight_lead _ Hok).
  - right; left. exists j, k. split; [done|]. by eapply ok_close_open.
Qed.

(** C16. Single flight: of the calls told to fetch a key, at most one has a
    flight that nobody has closed or begun to close; in particular, while it
    is being fetched every other miss waits. *)
Theorem single_flight (s : store) w i j key f g :
  reach world_step (init s) w ->
  calls w !! i = Some (key, GLead f) -> calls w !! j = Some (key, GLead g) ->
  (forall n k, calls w !! n <> Some (k, NClose f) /\ calls w !! n <> Some (k, NClose g)) ->
  f ∉ closed (cache w) -> g ∉ closed (cache w) ->
  i = j /\ exists c', call_step false (cache w) key GMiss = Next c' (GWait f).
Proof.
  intros Hr Hi Hj Hn Hcf Hcg. pose proof (reach_ok _ _ Hr) as Hok. pose proof (reach_held_ok _ _ Hr) as Hh.
  assert (inflight (cache w) !! key = Some f) as Hf.
  { destruct (Hh _ _ _ f Hi eq_refl) as [?|[(n & k & Hx)|?]]; [done| |done]. by destruct (Hn n k). }
  assert (inflight (cache w) !! key = Some g) as Hg.
  { destruct (Hh _ _ _ g Hj eq_refl) as [?|[(n & k & Hx)|?]]; [done| |done]. by destruct (Hn n k). }
  assert (f = g) as <- by congruence. split; [by eapply ok_lead_inj|].
  cbn. unfold LoadOrStore. rewrite Hf. eauto.
Qed.

End Properties.

(** ** Witnesses *)

(** Two misses on one key, the leader's [SetAndNotify] about to start. *)
Definition w_store : @store TimedStore := Timed 0 ∅.
Definition w_key : bytes := str "mysql:q".
Definition w_start : world :=
  World (cache (init w_store)) [(w_key, GStart); (w_key, GStart); (w_key, NStore (str "rows") 60)].

Lemma w_reach l : match runs w_start l with Some _ => true | None => false end = true ->
  reach world_step (init w_store) (default w_start (runs w_start l)).
Proof.
  destruct (runs w_start l) as [w|] eqn:Hr; [intros _; cbn|done]. apply runs_reach in Hr. eapply reach_trans; [|exact Hr]. apply (calls_reach (init w_store)).
  repeat constructor.
Qed.

Definition w_waiting : world := default w_start (runs w_start [0; 0; 1; 1]%nat).
Definition w_closing : world := default w_start (runs w_start [0; 0; 1; 1; 2; 2]%nat).

Lemma cache_never_panics_witness :
  calls w_closing !! 2%nat = Some (w_key, NClose 0) /\
  call_step false (cache w_closing) w_key (NClose 0) <> Panic.
Proof.
  split; [reflexivity|]. apply (cache_never_panics w_store w_closing 2); [|reflexivity].
  apply (w_reach [0; 0; 1; 1; 2; 2]%nat). vm_compute. reflexivity.
Defined.

Lemma no_lost_waiter_witness :
  calls w_waiting !! 1%nat = Some (w_key, GWait 0) /\
  (0%nat ∈ closed (cache w_waiting) \/
   (exists j k, calls w_waiting !! j = Some (k, NClose 0) /\ 0%nat ∉ closed (cache w_waiting)) \/
   (inflight (cache w_waiting) !! w_key = Some 0%nat /\ exists j, calls w_waiting !! j = Some (w_key, GLead 0))).
Proof.
  split; [reflexivity|]. apply (no_lost_waiter w_store w_waiting 1 w_key 0); [|reflexivity].
  apply (w_reach [0; 0; 1; 1]%nat). vm_compute. reflexivity.
Defined.

Lemma single_flight_witness :
  calls w_waiting !! 0%nat = Some (w_key, GLead 0) /\
  (0%nat = 0%nat /\ exists c', call_step false (cache w_waiting) w_key GMiss = Next c' (GWait 0)).
Proof.
  split; [reflexivity|]. apply (single_flight w_store w_waiting 0 0 w_key 0 0); try reflexivity.
  - apply (w_reach [0; 0; 1; 1]%nat). vm_compute. reflexivity.
  - intros [|[|[|n]]] k; vm_compute; split; intros; discriminate.
  - intros Hin. vm_compute in Hin. discriminate.
  - intros Hin. vm_compute in Hin. discriminate.
Defined.

