(* ===== verification/Config.v ===== *)
(** * Package config and the pools of main

    Loading the configuration (src/config/config.go), building and reloading
    the pools from it (src/cmd/tqdbproxy/main.go), and choosing the pool of a
    database (the beginning of src/mariadb/mariadb.go [ensureBackend] and of
    src/postgres/postgres.go [handleConnection]).

    The INI reader (gopkg.in/ini.v1) is a parameter, the class [Ini].  Pools are
    shared by pointer between main, the proxies and the connections, so they
    live in a heap and a map of pools holds locations. *)

From Stdlib Require Import Ascii ZArith Lia.
From stdpp Require Import base list gmap strings numbers.
From S2P Require Import Prelude GoStrings Replica.

Open Scope Z_scope.

(** ** The INI reader *)

Class Ini := {
  file : Type;
  section : Type;
  Section_ : file -> bytes -> section;              (* cfg.Section(name) *)
  Sections : file -> list section;                  (* cfg.Sections() *)
  Name : section -> bytes;                          (* sec.Name() *)
  HasKey : section -> bytes -> bool;                (* sec.HasKey(key) *)
  KeyString : section -> bytes -> bytes;            (* sec.Key(key).String() *)
  MustString : section -> bytes -> bytes -> bytes;  (* sec.Key(key).MustString(default) *)
  MustInt : section -> bytes -> Z -> Z              (* sec.Key(key).MustInt(default) *)
}.

(** Sections of one name are merged by the reader. *)
Class IniLaws `{Ini} := {
  Sections_NoDup f : NoDup (Name <$> Sections f)
}.

(** ** Configuration data *)

Record BackendConfig := { Primary : bytes; Replicas : list bytes }.
Record WriteBatchConfig := { MaxBatchSize : Z; UseCopy : bool }.
Record ProxyConfig := MkProxyConfig {
  Listen : bytes;
  Socket : bytes;
  Default : bytes;
  Backends : gmap bytes BackendConfig;
  DBMap : gmap bytes bytes;
  WriteBatch : WriteBatchConfig
}.
Record Config := { MariaDB : ProxyConfig; Postgres : ProxyConfig }.

Definition set_backends (c : ProxyConfig) (b : gmap bytes BackendConfig) (m : gmap bytes bytes) : ProxyConfig :=
  MkProxyConfig (Listen c) (Socket c) (Default c) b m (WriteBatch c).
Definition set_listen (c : ProxyConfig) (v : bytes) : ProxyConfig :=
  MkProxyConfig v (Socket c) (Default c) (Backends c) (DBMap c) (WriteBatch c).

Definition comma : byte := ","%char.

Section Load.
Context `{Ini}.

(** The [replicas] key of a section. *)
Definition section_replicas (s : section) : list bytes :=
  if HasKey s (str "replicas") then
    let raw := KeyString s (str "replicas") in
    if decide (raw = []) then [] else TrimSpace <$> SplitByte raw comma
  else [].

(** The [databases] key of a section: every name is mapped to the backend. *)
Definition map_databases (s : section) (backendName : bytes) (m : gmap bytes bytes) : gmap bytes bytes :=
  if HasKey s (str "databases")
  then foldl (fun m db => <[TrimSpace db := backendName]> m) m (SplitByte (KeyString s (str "databases")) comma)
  else m.

(** One iteration of the loop over the sections. *)
Definition load_section (prefix : bytes) (pcfg : ProxyConfig) (s : section) : ProxyConfig :=
  let name := Name s in
  if (zlen prefix <? zlen name) && HasPrefix name prefix then
    let backendName := drop (length prefix) name in
    let primary := KeyString s (str "primary") in
    let replicas := section_replicas s in
    if decide (primary = []) then pcfg
    else set_backends pcfg
           (<[backendName := {| Primary := primary; Replicas := replicas |}]> (Backends pcfg))
           (map_databases s backendName (DBMap pcfg))
  else pcfg.

Definition loadProxyConfig (cfg : file) (protocol defaultListen : bytes) : ProxyConfig :=
  let sec := Section_ cfg protocol in
  let pcfg := {|
    Listen := MustString sec (str "listen") defaultListen;
    Socket := KeyString sec (str "socket");
    Default := MustString sec (str "default") (str "main");
    Backends := ∅;
    DBMap := ∅;
    WriteBatch := {| MaxBatchSize := MustInt sec (str "writebatch_max_batch_size") 1000; UseCopy := false |}
  |} in
  foldl (load_section (protocol ++ str ".")) pcfg (Sections cfg).

(** [ini_load path] is [ini.Load(path)], [None] its error; [getenv] is [os.Getenv]. *)
Definition Load (ini_load : bytes -> option file) (getenv : bytes -> bytes) (path : bytes) : option Config :=
  match ini_load path with
  | None => None
  | Some cfg =>
      let mariadb := loadProxyConfig cfg (str "mariadb") (str ":3307") in
      let postgres := loadProxyConfig cfg (str "postgres") (str ":5433") in
      let v := getenv (str "TQDBPROXY_MARIADB_LISTEN") in
      let mariadb := if decide (v = []) then mariadb else set_listen mariadb v in
      let v := getenv (str "TQDBPROXY_POSTGRES_LISTEN") in
      let postgres := if decide (v = []) then postgres else set_listen postgres v in
      Some {| MariaDB := mariadb; Postgres := postgres |}
  end.
End Load.

(** ** Pools *)

Abbreviation heap := (list Pool).
Abbreviation pools := (gmap bytes nat).

(** [order] is the order in which [range] visits the map of backends. *)
Definition initPools (h : heap) (order : list (bytes * BackendConfig)) : heap * pools :=
  foldl (fun '(h, ps) '(name, backend) =>
    (h ++ [NewPool (Primary backend) (Replicas backend)], <[name := length h]> ps)) (h, ∅) order.

Definition update_pool (current : pools) (st : heap * pools) (nb : bytes * BackendConfig) : heap * pools :=
  let '(h, newPools) := st in
  let '(name, backend) := nb in
  match current !! name with
  | Some pool =>
      (alter (fun p => UpdateReplicas p (Primary backend) (Replicas backend)) pool h, <[name := pool]> newPools)
  | None => (h ++ [NewPool (Primary backend) (Replicas backend)], <[name := length h]> newPools)
  end.

Definition updatePools (h : heap) (current : pools) (order : list (bytes * BackendConfig)) : heap * pools :=
  foldl (update_pool current) (h, ∅) order.

(** ** Routing *)

(** A missing database reads as the empty name and goes to the default shard. *)
Definition shard_of (c : ProxyConfig) (db : bytes) : bytes :=
  let shardName := default [] (DBMap c !! db) in
  if decide (shardName = []) then Default c else shardName.

(** [p.pools[shardName]]: [None] is nil. *)
Definition target_pool (c : ProxyConfig) (ps : pools) (db : bytes) : option nat := ps !! shard_of c db.

(** ** Lemmas on loading *)

Section LoadLemmas.
Context `{Ini}.

Lemma lookup_map_databases (s : section) (b : bytes) (m : gmap bytes bytes) (db b' : bytes) :
  map_databases s b m !! db = Some b' -> b' = b \/ m !! db = Some b'.
Proof.
  unfold map_databases. destruct (HasKey s _); [|by right].
  induction (SplitByte _ _) as [|x l IH] using rev_ind; [by right|].
  rewrite foldl_snoc. destruct (decide (TrimSpace x = db)) as [->|].
  - rewrite lookup_insert_eq. intros [= ->]. by left.
  - rewrite lookup_insert_ne by done. done.
Qed.

(** A section that configures a backend, and what it configures. *)
Definition configures (prefix b : bytes) (bc : BackendConfig) (s : section) : Prop :=
  Name s = prefix ++ b /\ b <> [] /\ KeyString s (str "primary") <> [] /\
  bc = {| Primary := KeyString s (str "primary"); Replicas := section_replicas s |}.

Lemma load_section_cases prefix c s :
  (load_section prefix c s = c /\ forall b bc, ~ configures prefix b bc s) \/
  (exists b bc, configures prefix b bc s /\
     load_section prefix c s = set_backends c (<[b := bc]> (Backends c)) (map_databases s b (DBMap c))).
Proof.
  unfold load_section. destruct ((_ <? _) && _) eqn:E.
  - apply andb_true_iff in E as [El Hp]. apply HasPrefix_spec in Hp as [b Hb]. rewrite Hb in *.
    rewrite drop_app_length. apply Z.ltb_lt in El. rewrite zlen_app in El.
    destruct (decide _) as [Hn|Hn].
    + left. split; [done|]. intros b' bc (? & ? & ? & ?). done.
    + right. exists b, {| Primary := KeyString s (str "primary"); Replicas := section_replicas s |}.
      split; [|done]. repeat split; [done| |done]. intros ->. unfold zlen in El. simpl length in El. lia.
  - left. split; [done|]. intros b bc (Hb & Hne & _). rewrite Hb, zlen_app, HasPrefix_app, andb_true_r in E.
    apply Z.ltb_ge in E. destruct b; [done|]. rewrite zlen_cons in E. pose proof (zlen_nonneg b). lia.
Qed.

(** Every target of the database map is a configured backend, and backends
    have a name and a primary. *)
Definition config_ok (c : ProxyConfig) : Prop :=
  (forall b bc, Backends c !! b = Some bc -> b <> [] /\ Primary bc <> []) /\
  (forall db b, DBMap c !! db = Some b -> is_Some (Backends c !! b)).

Lemma load_section_ok prefix c s : config_ok c -> config_ok (load_section prefix c s).
Proof.
  intros [Hb Hd]. destruct (load_section_cases prefix c s) as [[-> _]|(b & bc & (? & ? & ? & ?) & ->)]; [done|].
  split; cbn.
  - intros b' bc'. destruct (decide (b' = b)) as [->|].
    + rewrite lookup_insert_eq. intros [= <-]. by subst bc.
    + rewrite lookup_insert_ne by done. apply Hb.
  - intros db b' [->|Hm]%lookup_map_databases; [by rewrite lookup_insert_eq|].
    destruct (decide (b' = b)) as [->|]; [by rewrite lookup_insert_eq|].
    rewrite lookup_insert_ne by done. eauto.
Qed.

Lemma loadProxyConfig_ok cfg protocol dl : config_ok (loadProxyConfig cfg protocol dl).
Proof.
  unfold loadProxyConfig. induction (Sections cfg) as [|s l IH] using rev_ind; [split; done|].
  rewrite foldl_snoc. by apply load_section_ok.
Qed.

Lemma load_section_WriteBatch prefix c s : WriteBatch (load_section prefix c s) = WriteBatch c.
Proof. by destruct (load_section_cases prefix c s) as [[-> _]|(? & ? & _ & ->)]. Qed.

Lemma foldl_load_backends prefix c l b bc :
  NoDup (Name <$> l) -> Backends c = ∅ ->
  Backends (foldl (load_section prefix) c l) !! b = Some bc <-> exists s, s ∈ l /\ configures prefix b bc s.
Proof.
  intros Hnd Hc. induction l as [|s l IH] using rev_ind.
  - cbn. rewrite Hc, lookup_empty. split; [done|]. intros (s & Hs & _). by apply not_elem_of_nil in Hs.
  - rewrite fmap_app in Hnd. apply list.NoDup_app in Hnd as (Hl & Hdis & _). specialize (IH Hl).
    rewrite foldl_snoc. setoid_rewrite elem_of_app. setoid_rewrite list_elem_of_singleton.
    destruct (load_section_cases prefix (foldl (load_section prefix) c l) s) as [[-> Hno]|(b0 & bc0 & Hcf & ->)].
    + rewrite IH. split; [intros (x & ? & ?); eauto|]. intros (x & [?| ->] & ?); [eauto|by destruct (Hno b bc)].
    + cbn. destruct (decide (b = b0)) as [->|Hne].
      * rewrite lookup_insert_eq. split; [intros [= <-]; eauto|]. intros (x & [Hx| ->] & Hcx).
        -- exfalso. destruct Hcf as [E _]. destruct Hcx as [E' _]. eapply (Hdis (Name x)).
           ++ by apply list_elem_of_fmap_2.
           ++ cbn. rewrite list_elem_of_singleton. congruence.
        -- f_equal. destruct Hcf as (_ & _ & _ & ->). by destruct Hcx as (_ & _ & _ & ->).
      * rewrite lookup_insert_ne by done. rewrite IH. split; [intros (x & ? & ?); eauto|].
        intros (x & [?| ->] & Hx); [eauto|]. exfalso. destruct Hcf as [E _], Hx as [E' _].
        rewrite E in E'. by apply app_inv_head in E'.
Qed.
End LoadLemmas.

(** A database that is mapped, or that the default serves, has a backend. *)
Lemma shard_configured c db : config_ok c -> is_Some (DBMap c !! db) \/ is_Some (Backends c !! Default c) ->
  is_Some (Backends c !! shard_of c db).
Proof.
  intros [Hb Hd] Hdb. unfold shard_of. destruct (DBMap c !! db) as [b|] eqn:Em; cbn.
  - destruct (Hd _ _ Em) as [bc Hbc]. destruct (Hb _ _ Hbc) as [Hne _]. rewrite decide_False by done. by exists bc.
  - destruct Hdb as [[? ?]|?]; [done|]. by rewrite decide_True.
Qed.

(** ** Lemmas on pools *)

(** Locations are allocated and names do not share a pool. *)
Definition pools_ok (h : heap) (ps : pools) : Prop :=
  (forall n l, ps !! n = Some l -> (l < length h)%nat) /\
  (forall n1 n2 l, ps !! n1 = Some l -> ps !! n2 = Some l -> n1 = n2).

Lemma initPools_update h order : initPools h order = updatePools h ∅ order.
Proof.
  unfold initPools, updatePools. induction order as [|[n b] l IH] using rev_ind; [done|].
  rewrite !foldl_snoc, IH. destruct (foldl (update_pool ∅) (h, ∅) l) as [h' ps]. cbn. by rewrite lookup_empty.
Qed.

(** The pool of a backend after a reload. *)
Definition reloaded (h : heap) (current : pools) (h' : heap) (name : bytes) (b : BackendConfig) (l : nat) : Prop :=
  match current !! name with
  | Some l0 => l = l0 /\ exists p, h !! l0 = Some p /\ h' !! l0 = Some (UpdateReplicas p (Primary b) (Replicas b))
  | None => (length h <= l)%nat /\ h' !! l = Some (NewPool (Primary b) (Replicas b))
  end.

Lemma update_pool_other current h ps n b h' ps' l :
  update_pool current (h, ps) (n, b) = (h', ps') -> (l < length h)%nat -> current !! n <> Some l -> h' !! l = h !! l.
Proof.
  cbn. destruct (current !! n) as [l0|]; intros [= <- <-] Hl Hn.
  - apply list_lookup_alter_ne. congruence.
  - by apply lookup_app_l.
Qed.

Lemma update_pool_length current h ps n b h' ps' :
  update_pool current (h, ps) (n, b) = (h', ps') -> (length h <= length h')%nat.
Proof.
  cbn. destruct (current !! n); intros [= <- <-]; [by rewrite length_alter|]. rewrite length_app. lia.
Qed.

Lemma update_pool_lookup current h ps n b h' ps' n' :
  update_pool current (h, ps) (n, b) = (h', ps') -> n' <> n -> ps' !! n' = ps !! n'.
Proof. cbn. destruct (current !! n); intros [= <- <-] Hn; by rewrite lookup_insert_ne. Qed.

Lemma updatePools_inv h current order h' ps :
  pools_ok h current -> NoDup order.*1 -> updatePools h current order = (h', ps) ->
  (length h <= length h')%nat /\ pools_ok h' ps /\
  (forall l, (l < length h)%nat -> (forall n, n ∈ order.*1 -> current !! n <> Some l) -> h' !! l = h !! l) /\
  (forall n l, ps !! n = Some l -> n ∈ order.*1 /\ (current !! n = Some l \/ (length h <= l)%nat)) /\
  (forall n b, (n, b) ∈ order -> exists l, ps !! n = Some l /\ reloaded h current h' n b l).
Proof.
  intros [Hlt Hinj] Hnd. unfold updatePools. revert h' ps. induction order as [|[n b] l IH] using rev_ind; intros h2 ps2.
  { cbn. intros [= <- <-]. split; [done|]. split; [split; intros *; by rewrite lookup_empty|]. split; [done|].
    split; [intros *; by rewrite lookup_empty|]. intros ? ? Hx. by apply not_elem_of_nil in Hx. }
  rewrite foldl_snoc. destruct (foldl (update_pool current) (h, ∅) l) as [h1 ps1] eqn:E. intros Hu.
  rewrite fmap_app in Hnd. apply list.NoDup_app in Hnd as (Hl & Hdis & _).
  assert (Hnew : n ∉ l.*1) by (intros Hin; apply (Hdis _ Hin); by left).
  destruct (IH Hl _ _ eq_refl) as (Hlen & [Hlt1 Hinj1] & Hsame & Hdom & Hspec). clear IH.
  pose proof (update_pool_length _ _ _ _ _ _ _ Hu) as Hlen2.
  assert (Hold : forall n' l', n' <> n -> ps1 !! n' = Some l' -> current !! n <> Some l').
  { intros n' l' Hne Hp Hc. destruct (Hdom _ _ Hp) as [_ [Hc'|Hge]]; [by apply Hne; eapply Hinj|].
    specialize (Hlt _ _ Hc). lia. }
  assert (Hnp : exists ln, ps2 !! n = Some ln /\ (ln < length h2)%nat /\ reloaded h current h2 n b ln /\
    (forall n' l', ps1 !! n' = Some l' -> l' = ln -> n' = n) /\ (current !! n = Some ln \/ (length h <= ln)%nat)).
  { unfold reloaded. cbn in Hu. destruct (current !! n) as [l0|] eqn:Hc.
    - simplify_eq. exists l0. rewrite lookup_insert_eq, length_alter. pose proof (Hlt _ _ Hc).
      split; [done|]. split; [lia|]. split; [|split; [|by left]].
      + split; [done|]. destruct (lookup_lt_is_Some_2 h l0) as [p Hp]; [done|]. exists p. split; [done|].
        rewrite list_lookup_alter_eq, Hsame, Hp; [done|done|]. intros n' Hn' Hc'. assert (n' = n) by by eapply Hinj. by subst.
      + intros n' l' Hp ->. destruct (decide (n' = n)); [done|]. by destruct (Hold n' l0).
    - simplify_eq. exists (length h1). rewrite lookup_insert_eq, length_app. cbn. split; [done|]. split; [lia|].
      split; [split; [done|by rewrite lookup_app_r, Nat.sub_diag]|]. split; [|by right].
      intros n' l' Hp ->. specialize (Hlt1 _ _ Hp). lia. }
  destruct Hnp as (ln & Hln & Hltn & Hrel & Hfresh & Hcn).
  pose proof (fun n' => update_pool_lookup _ _ _ _ _ _ _ n' Hu) as Hother.
  assert (Hps : forall n' l', ps2 !! n' = Some l' -> (n' = n /\ l' = ln) \/ (n' <> n /\ ps1 !! n' = Some l')).
  { intros n' l' Hp. destruct (decide (n' = n)) as [->|Hne]; [left; by simplify_eq|right]. split; [done|]. by rewrite <- (Hother n' Hne). }
  rewrite fmap_app. split; [lia|]. split; [split|split; [|split]].
  - intros n' l' [[-> ->]|[? Hp]]%Hps; [done|]. specialize (Hlt1 _ _ Hp). lia.
  - intros n1 n2 l' [[-> ->]|[? Hp1]]%Hps [[-> ?]|[? Hp2]]%Hps; [done|symmetry; eauto|subst; eauto|eauto].
  - intros l' Hl' Hno. rewrite (update_pool_other _ _ _ _ _ _ _ l' Hu); [|lia|apply Hno; set_solver].
    apply Hsame; [done|]. intros n' Hn'. apply Hno. set_solver.
  - intros n' l' [[-> ->]|[? Hp]]%Hps; [split; [set_solver|done]|]. destruct (Hdom _ _ Hp). split; [set_solver|done].
  - intros n' b' Hin. rewrite elem_of_app, list_elem_of_singleton in Hin. destruct Hin as [Hin|[= -> ->]]; [|eauto].
    destruct (Hspec _ _ Hin) as (l' & Hp & Hr).
    assert (n' <> n) as Hne by (intros ->; apply Hnew, list_elem_of_fmap; by exists (n, b')).
    exists l'. rewrite Hother by done. split; [done|]. unfold reloaded in *.
    destruct (current !! n') as [l0|] eqn:Hc.
    + destruct Hr as (-> & p & Hp0 & Hp1). split; [done|]. exists p. split; [done|].
      rewrite (update_pool_other _ _ _ _ _ _ _ l0 Hu); eauto.
    + destruct Hr as [Hge Hp1]. split; [done|]. rewrite (update_pool_other _ _ _ _ _ _ _ l' Hu); eauto.
Qed.

(** ** A concrete INI file: sections are a map from names to their keys *)

Definition ini_key (s : bytes * list (bytes * bytes)) (k : bytes) : bytes :=
  match filter (fun kv => kv.1 = k) s.2 with [] => [] | kv :: _ => kv.2 end.

#[local] Instance MapIni : Ini := {|
  file := gmap bytes (list (bytes * bytes));
  section := bytes * list (bytes * bytes);
  Section_ f name := (name, default [] (f !! name));
  Sections f := map_to_list f;
  Name s := s.1;
  HasKey s k := existsb (fun kv => bool_decide (kv.1 = k)) s.2;
  KeyString := ini_key;
  MustString s k d := if decide (ini_key s k = []) then d else ini_key s k;
  MustInt s k d := match Atoi (ini_key s k) with (z, None) => z | _ => d end
|}.

#[local] Instance MapIniLaws : IniLaws.
Proof. constructor. intros f. apply (NoDup_fst_map_to_list f). Qed.

(** ** Properties *)

(** The backends of a protocol are exactly the sections named
    [protocol.name] with a non-empty name and a primary: each is loaded with the
    primary and the trimmed, comma-separated replicas of its own section, and no
    other section contributes. *)
Theorem loadProxyConfig_backends `{IniLaws} (cfg : file) (protocol dl b : bytes) (bc : BackendConfig) :
  Backends (loadProxyConfig cfg protocol dl) !! b = Some bc <->
  exists s, s ∈ Sections cfg /\ configures (protocol ++ str ".") b bc s.
Proof. apply foldl_load_backends; [apply Sections_NoDup|done]. Qed.

(** Routing is sound after every start or reload: when a database is mapped
    to a shard, or the default shard is configured, the database is given a
    pool, and that pool has the primary and the replicas its shard was
    configured with, the primary not empty. *)
Theorem routing_sound `{Ini} (cfg : file) (protocol dl db : bytes) (h h' : heap) (current ps : pools)
    (order : list (bytes * BackendConfig)) :
  let c := loadProxyConfig cfg protocol dl in
  pools_ok h current -> order ≡ₚ map_to_list (Backends c) -> updatePools h current order = (h', ps) ->
  is_Some (DBMap c !! db) \/ is_Some (Backends c !! Default c) ->
  exists l p bc, target_pool c ps db = Some l /\ h' !! l = Some p /\
    Backends c !! shard_of c db = Some bc /\
    primary p = Primary bc /\ replicas p = Replicas bc /\ primary p <> [].
Proof.
  intros c Hok Hperm Hu Hdb. destruct (loadProxyConfig_ok cfg protocol dl) as [Hb Hd]. fold c in Hb, Hd.
  destruct (shard_configured c db (conj Hb Hd) Hdb) as [bc Hbc].
  destruct (updatePools_inv h current order h' ps Hok) as (_ & _ & _ & _ & Hspec); [|done|].
  { rewrite Hperm. apply NoDup_fst_map_to_list. }
  destruct (Hspec (shard_of c db) bc) as (l & Hl & Hr); [by rewrite Hperm, elem_of_map_to_list|].
  unfold reloaded in Hr. destruct (Hb _ _ Hbc) as [_ Hp].
  destruct (current !! shard_of c db) as [l0|]; [destruct Hr as (-> & p & _ & Hr)|destruct Hr as [_ Hr]]; eauto 10.
Qed.

(** A reload keeps the identity of the pools that stay: a backend present
    before and after keeps its pool object (connections that hold it see the new
    addresses), a replica that stays keeps its health, and a new replica starts
    healthy; a new backend gets a fresh pool; and the map still gives different
    names different pools. *)
Theorem updatePools_keeps (h h' : heap) (current ps : pools) (order : list (bytes * BackendConfig)) :
  pools_ok h current -> NoDup order.*1 -> updatePools h current order = (h', ps) ->
  pools_ok h' ps /\
  forall name b, (name, b) ∈ order ->
    match current !! name with
    | Some l => exists p p', ps !! name = Some l /\ h !! l = Some p /\ h' !! l = Some p' /\
        primary p' = Primary b /\ replicas p' = Replicas b /\
        forall r, r ∈ Replicas b -> healthy_at p' r = default true (healthy p !! r)
    | None => exists l, ps !! name = Some l /\ (length h <= l)%nat /\
        h' !! l = Some (NewPool (Primary b) (Replicas b))
    end.
Proof.
  intros Hok Hnd Hu. destruct (updatePools_inv _ _ _ _ _ Hok Hnd Hu) as (_ & Hok' & _ & _ & Hspec).
  split; [done|]. intros name b Hin. destruct (Hspec _ _ Hin) as (l & Hl & Hr). unfold reloaded in Hr.
  destruct (current !! name) as [l0|]; [|destruct Hr; eauto].
  destruct Hr as (-> & p & Hp & Hp'). exists p, (UpdateReplicas p (Primary b) (Replicas b)).
  repeat (split; [done|]). intros r Hr. unfold healthy_at. rewrite UpdateReplicas_healthy, lookup_fold_healthy.
  by rewrite decide_True.
Qed.

(** ** Witnesses *)

Definition w_ini : @file MapIni := {[
  str "mariadb" := [(str "default", str "main")];
  str "mariadb.main" := [(str "primary", str "db1:3306"); (str "replicas", str "r1:3306, r2:3306")];
  str "mariadb.s2" := [(str "primary", str "db2:3306"); (str "databases", str "billing, logs")]
]}.
Definition w_config : ProxyConfig := loadProxyConfig w_ini (str "mariadb") (str ":3307").
Definition w_order : list (bytes * BackendConfig) := map_to_list (Backends w_config).
Definition w_old : heap := [MarkUnhealthy (NewPool (str "db0:3306") [str "r1:3306"]) (str "r1:3306")].

Lemma w_old_ok : pools_ok w_old {[str "main" := 0%nat]}.
Proof.
  split.
  - intros n l. rewrite lookup_singleton_Some. intros [<- <-]. cbn. lia.
  - intros n1 n2 l. rewrite !lookup_singleton_Some. by intros [<- _] [<- _].
Qed.

Lemma loadProxyConfig_backends_witness :
  Backends w_config !! str "main" = Some {| Primary := str "db1:3306"; Replicas := [str "r1:3306"; str "r2:3306"] |}.
Proof.
  apply (loadProxyConfig_backends w_ini (str "mariadb") (str ":3307")).
  exists (str "mariadb.main", [(str "primary", str "db1:3306"); (str "replicas", str "r1:3306, r2:3306")]).
  split.
  - apply elem_of_map_to_list. vm_compute. reflexivity.
  - split; [reflexivity|]. split; [discriminate|]. split; [vm_compute; discriminate|]. vm_compute. reflexivity.
Defined.

Lemma routing_sound_witness :
  exists l p bc,
    target_pool w_config (updatePools w_old {[str "main" := 0%nat]} w_order).2 (str "logs") = Some l /\
    (updatePools w_old {[str "main" := 0%nat]} w_order).1 !! l = Some p /\
    Backends w_config !! shard_of w_config (str "logs") = Some bc /\
    primary p = Primary bc /\ replicas p = Replicas bc /\ primary p <> [].
Proof.
  apply (routing_sound w_ini (str "mariadb") (str ":3307") (str "logs") w_old
           (updatePools w_old {[str "main" := 0%nat]} w_order).1 {[str "main" := 0%nat]}
           (updatePools w_old {[str "main" := 0%nat]} w_order).2 w_order).
  - apply w_old_ok.
  - done.
  - apply surjective_pairing.
  - left. exists (str "s2"). vm_compute. reflexivity.
Defined.

Definition w_reload : list (bytes * BackendConfig) :=
  [(str "main", {| Primary := str "db1:3306"; Replicas := [str "r1:3306"; str "r2:3306"] |})].

Lemma updatePools_keeps_witness :
  pools_ok (updatePools w_old {[str "main" := 0%nat]} w_reload).1 (updatePools w_old {[str "main" := 0%nat]} w_reload).2.
Proof.
  refine (proj1 (updatePools_keeps w_old _ {[str "main" := 0%nat]} _ w_reload _ _ _)).
  - apply w_old_ok.
  - cbn. apply NoDup_singleton.
  - apply surjective_pairing.
Defined.

(** The unhealthy replica is still unhealthy after the reload. *)
Example reload_keeps_unhealthy :
  match (updatePools w_old {[str "main" := 0%nat]} w_reload).1 !! 0%nat with
  | Some p => (healthy_at p (str "r1:3306"), healthy_at p (str "r2:3306"), primary p) = (false, true, str "db1:3306")
  | None => False
  end.
Proof. vm_compute. reflexivity. Qed.

(** An empty [databases] key maps the empty database name, so connections that
    select no database go to that shard and not to the default one. *)
Example empty_databases_key :
  let f : @file MapIni := {[
    str "mariadb.main" := [(str "primary", str "db1")];
    str "mariadb.s2" := [(str "primary", str "db2"); (str "databases", [])] ]} in
  shard_of (loadProxyConfig f (str "mariadb") []) [] = str "s2".
Proof. vm_compute. reflexivity. Qed.

(** The COPY/LOAD DATA option cannot be switched on from a configuration file. *)
Lemma UseCopy_never_loaded `{Ini} (cfg : file) (protocol dl : bytes) :
  UseCopy (WriteBatch (loadProxyConfig cfg protocol dl)) = false.
Proof.
  unfold loadProxyConfig. induction (Sections cfg) as [|s l IH] using rev_ind; [done|].
  rewrite foldl_snoc. by rewrite load_section_WriteBatch.
Qed.
