(* ===== verification/BatchText.v ===== *)
(** * Package writebatch: the SQL text

    The functions of src/writebatch/executor.go that look at or produce text:
    which statements can be combined, the parts of an INSERT, the rows of a
    LOAD DATA payload and the metric labels.  [None] is a run-time panic (a
    slice or an index out of range). *)

From Stdlib Require Import Ascii ZArith Lia.
From stdpp Require Import base list gmap strings numbers.
From S2P Require Import Prelude GoStrings.

Open Scope Z_scope.

(** ** Parameters of a statement

    The dynamic types an [interface{}] parameter can have.  Floating-point
    numbers and all other types are the client's: the formatters of strconv
    and fmt on them are parameters. *)
Inductive int_kind := Int | Int8 | Int16 | Int32 | Int64 | Uint | Uint8 | Uint16 | Uint32 | Uint64.

Class GoValues := {
  float32 : Type;
  float64 : Type;
  other : Type;
  FormatFloat32 : float32 -> bytes;   (* strconv.FormatFloat(float64(v), 'f', -1, 32) *)
  FormatFloat64 : float64 -> bytes;   (* strconv.FormatFloat(v, 'f', -1, 64) *)
  Sprint : other -> bytes             (* fmt.Sprintf("%v", v) *)
}.

Inductive value `{GoValues} :=
| VNil
| VBool (b : bool)
| VInt (k : int_kind) (z : Z)
| VFloat32 (f : float32)
| VFloat64 (f : float64)
| VString (s : bytes)
| VBytes (s : bytes)
| VOther (v : other).

(** ** Substrings *)

(** The loop of [indexOf] from position [i] on. *)
Fixpoint indexOf_loop (fuel : nat) (i : Z) (s substr : bytes) : option Z :=
  match fuel with
  | O => Some (-1)
  | S fuel =>
      if i <=? zlen s - zlen substr then
        part ← slice s i (i + zlen substr);
        if decide (part = substr) then Some i else indexOf_loop fuel (i + 1) s substr
      else Some (-1)
  end.

(** At most [len(s) - len(substr) + 1] iterations. *)
Definition indexOf (s substr : bytes) : option Z := indexOf_loop (S (length s)) 0 s substr.

Definition contains (s substr : bytes) : option bool :=
  if zlen substr <=? zlen s then
    if decide (s = substr) then Some true
    else if zlen substr <? zlen s then
      pre ← slice_to s (zlen substr);
      if decide (pre = substr) then Some true
      else
        suf ← slice_from s (zlen s - zlen substr);
        if decide (suf = substr) then Some true
        else i ← indexOf s substr; Some (0 <=? i)
    else Some false
  else Some false.

(** ** Metric labels *)

Definition truncateQuery (query : bytes) (maxLen : Z) : option bytes :=
  if zlen query <=? maxLen then Some query
  else p ← slice_to query maxLen; Some (p ++ str "...").

Definition getQueryType (query : bytes) : option bytes :=
  q ← (if 20 <? zlen query then slice_to query 20 else Some query);
  let q := str " " ++ q ++ str " " in
  i1 ← contains q (str " INSERT "); i2 ← contains q (str " insert ");
  if (i1 || i2 : bool) then Some (str "INSERT") else
  u1 ← contains q (str " UPDATE "); u2 ← contains q (str " update ");
  if (u1 || u2 : bool) then Some (str "UPDATE") else
  d1 ← contains q (str " DELETE "); d2 ← contains q (str " delete ");
  if (d1 || d2 : bool) then Some (str "DELETE") else Some (str "UNKNOWN").

(** ** Which statements can be combined *)

(** The loop that skips leading comments and white space. *)
Fixpoint skip_comments_loop (fuel : nat) (q : bytes) : bytes :=
  let q := TrimSpace q in
  match fuel with
  | O => q
  | S fuel =>
      if HasPrefix q (str "/*") then
        let endIdx := Index q (str "*/") in
        if endIdx =? -1 then q
        else skip_comments_loop fuel (drop (Z.to_nat (endIdx + 2)) q)
      else q
  end.

(** Every iteration drops at least two bytes. *)
Definition skip_comments (q : bytes) : bytes := skip_comments_loop (length q) q.

Definition question : byte := "?"%char.
Definition equals : byte := "="%char.

Section Unicode.
Context `{UnicodeTables}.

Definition isBatchableDelete (query : bytes) : option bool :=
  let q := skip_comments query in
  if negb (HasPrefix (ToUpper q) (str "DELETE FROM ")) then Some false
  else
    let whereIdx := Index (ToUpper q) (str " WHERE ") in
    if whereIdx =? -1 then Some false
    else
      whereClause ← slice_from q (whereIdx + 7);
      let parts := SplitByte whereClause equals in
      if negb (zlen parts =? 2) then Some false
      else if negb (Z.of_nat (CountByte whereClause question) =? 1) then Some false
      else Some true.

Definition isBatchableInsert (query : bytes) : option bool :=
  let q := skip_comments query in
  let qUpper := ToUpper q in
  if (12 <? zlen q) && HasPrefix qUpper (str "INSERT") && Contains qUpper (str " VALUES") then
    last ← index q (zlen q - 1);
    Some (bool_decide (last = ")"%char) || bool_decide (last = " "%char))
  else Some false.

(** ** The parts of an INSERT *)

Inductive insert_error := NotInsert | MissingInto | NoTableName | MissingColumnList | UnclosedColumnList.

(** The byte offset of the first rune that satisfies [p], as [range] finds it. *)
Fixpoint range_find (p : Z -> bool) (i : Z) (cs : list chunk) : Z :=
  match cs with
  | [] => -1
  | c :: cs => if p (rune c) then i else range_find p (i + zlen (raw c)) cs
  end.

Definition parseInsertStatement (query : bytes) : option ((bytes * list bytes) + insert_error) :=
  let q := TrimSpace query in
  let upperQ := ToUpper q in
  let insertPos := Index upperQ (str "INSERT") in
  if insertPos =? -1 then Some (inr NotInsert) else
  upperRest ← slice_from upperQ insertPos;
  let intoPos := Index upperRest (str "INTO") in
  if intoPos =? -1 then Some (inr MissingInto) else
  let intoPos := intoPos + (insertPos + 4) in
  rest ← slice_from q intoPos;
  let remaining := TrimSpace rest in
  let tableEnd := range_find (fun ch => (ch =? 40) || (ch =? 32)) 0 (runes remaining) in
  if tableEnd =? -1 then Some (inr NoTableName) else
  table ← slice_to remaining tableEnd;
  let tableName := TrimSpace table in
  let openParen := Index remaining (str "(") in
  if openParen =? -1 then Some (inr MissingColumnList) else
  between ← slice remaining tableEnd openParen;
  if Contains (ToUpper between) (str "VALUES") then Some (inr MissingColumnList) else
  afterOpen ← slice_from remaining openParen;
  let closeParen := Index afterOpen (str ")") in
  if closeParen =? -1 then Some (inr UnclosedColumnList) else
  columnList ← slice remaining (openParen + 1) (openParen + closeParen);
  Some (inl (tableName, TrimSpace <$> SplitByte columnList ","%char)).
End Unicode.

(** The loop of [containsPostgresPlaceholder]: adjacent bytes [$] and a digit. *)
Fixpoint containsPostgresPlaceholder (query : bytes) : bool :=
  match query with
  | a :: ((b :: _) as t) => (bool_decide (a = "$"%char) && is_digit b) || containsPostgresPlaceholder t
  | _ => false
  end.

(** ** LOAD DATA payloads *)

Definition tab : byte := to_byte 9.
Definition newline : byte := to_byte 10.
Definition cr : byte := to_byte 13.
Definition backslash : byte := to_byte 92.

Definition escape_rune (ch : Z) : bytes :=
  if ch =? 92 then [backslash; backslash]
  else if ch =? 9 then [backslash; "t"%char]
  else if ch =? 10 then [backslash; "n"%char]
  else if ch =? 13 then [backslash; "r"%char]
  else encode_rune ch.

Definition escapeLoadDataString (s : bytes) : bytes := concat ((fun c => escape_rune (rune c)) <$> runes s).

Section Values.
Context `{GoValues}.

Definition formatLoadDataParam (v : value) : bytes :=
  match v with
  | VNil => [backslash; "N"%char]
  | VBool true => str "1"
  | VBool false => str "0"
  | VInt _ z => Itoa z
  | VFloat32 f => FormatFloat32 f
  | VFloat64 f => FormatFloat64 f
  | VString s => escapeLoadDataString s
  | VBytes s => escapeLoadDataString s
  | VOther v => escapeLoadDataString (Sprint v)
  end.

Definition simple_value (v : value) : bool := match v with VOther _ => false | _ => true end.

(** The rows of the payload: fields separated by tabs, rows ended by newlines. *)
Definition load_row (params : list value) : bytes :=
  Join (formatLoadDataParam <$> params) [tab] ++ [newline].
Definition load_payload (rows : list (list value)) : bytes := concat (load_row <$> rows).
End Values.

(** ** Lemmas: substrings *)

Lemma slice_take_drop {A} (l : list A) i n : 0 <= i -> 0 <= n -> i + n <= zlen l ->
  slice l i (i + n) = Some (take (Z.to_nat n) (drop (Z.to_nat i) l)).
Proof.
  intros. unfold slice. replace ((0 <=? i) && (i <=? i + n) && (i + n <=? zlen l)) with true by lia.
  by replace (i + n - i) with n by lia.
Qed.

Lemma slice_Some {A} (l : list A) i j : 0 <= i <= j /\ j <= zlen l -> exists r, slice l i j = Some r.
Proof. intros. replace j with (i + (j - i)) by lia. rewrite slice_take_drop by lia. eauto. Qed.

Lemma slice_to_take {A} (l : list A) n : 0 <= n <= zlen l -> slice_to l n = Some (take (Z.to_nat n) l).
Proof. intros. unfold slice_to. change n with (0 + n) at 1. by rewrite slice_take_drop by lia. Qed.

Lemma slice_from_drop {A} (l : list A) i : 0 <= i <= zlen l -> slice_from l i = Some (drop (Z.to_nat i) l).
Proof.
  intros. unfold slice_from. replace (zlen l) with (i + (zlen l - i)) at 1 by lia.
  rewrite slice_take_drop by lia. f_equal. apply take_ge. rewrite length_drop. unfold zlen in *. lia.
Qed.

Lemma indexOf_loop_spec s sub : forall fuel i, 0 <= i <= zlen s -> (Z.to_nat (zlen s - i) < fuel)%nat ->
  indexOf_loop fuel i s sub =
  Some (match find_sub (drop (Z.to_nat i) s) sub with Some n => i + Z.of_nat n | None => -1 end).
Proof.
  pose proof (zlen_nonneg sub) as Hsub.
  induction fuel as [|fuel IH]; intros i Hi Hf; [lia|]. cbn [indexOf_loop].
  destruct (i <=? zlen s - zlen sub) eqn:E; bool_simpl.
  - rewrite slice_take_drop by lia. cbn [mbind option_bind]. replace (Z.to_nat (zlen sub)) with (length sub) by (unfold zlen; lia).
    destruct (decide _) as [Ht|Ht].
    + destruct (drop (Z.to_nat i) s) eqn:Ed; cbn [find_sub]; rewrite (proj2 (HasPrefix_take _ _) Ht); f_equal; lia.
    + assert (Hp : HasPrefix (drop (Z.to_nat i) s) sub = false).
      { apply not_true_iff_false. by rewrite HasPrefix_take. }
      destruct (drop (Z.to_nat i) s) as [|x t] eqn:Ed.
      { destruct sub; [by rewrite take_nil in Ht|]. apply (f_equal length) in Ed. rewrite length_drop in Ed.
        rewrite zlen_cons in *. unfold zlen in *. cbn in Ed. lia. }
      assert (zlen s - i > 0) by (apply (f_equal length) in Ed; rewrite length_drop in Ed; unfold zlen in *; cbn in Ed; lia).
      rewrite IH by lia. cbn [find_sub]. rewrite Hp. f_equal.
      replace (Z.to_nat (i + 1)) with (S (Z.to_nat i)) by lia.
      assert (drop (S (Z.to_nat i)) s = t) as ->.
      { replace (S (Z.to_nat i)) with (Z.to_nat i + 1)%nat by lia. rewrite <- drop_drop, Ed. done. }
      destruct (find_sub t sub); cbn; lia.
  - rewrite find_sub_short; [done|]. rewrite length_drop. unfold zlen in *. lia.
Qed.

Lemma indexOf_Index s sub : indexOf s sub = Some (Index s sub).
Proof.
  unfold indexOf. pose proof (zlen_nonneg s). rewrite indexOf_loop_spec; [|lia|unfold zlen; lia].
  unfold Index. change (drop (Z.to_nat 0) s) with s. by destruct (find_sub s sub).
Qed.

Lemma Contains_prefix s sub : HasPrefix s sub = true -> Contains s sub = true.
Proof. rewrite HasPrefix_spec, Contains_spec. intros [t ->]. by exists [], t. Qed.

Lemma contains_Contains s sub : contains s sub = Some (Contains s sub).
Proof.
  pose proof (zlen_nonneg sub). unfold contains. destruct (zlen sub <=? zlen s) eqn:E; bool_simpl.
  - destruct (decide (s = sub)) as [->|Hne].
    { f_equal. symmetry. apply Contains_spec. exists [], []. by rewrite app_nil_r. }
    destruct (zlen sub <? zlen s) eqn:E2; bool_simpl.
    + rewrite slice_to_take by lia. cbn [mbind option_bind]. replace (Z.to_nat (zlen sub)) with (length sub) by (unfold zlen; lia).
      destruct (decide (take _ s = sub)) as [Ht|_].
      { f_equal. symmetry. by apply Contains_prefix, HasPrefix_take. }
      rewrite slice_from_drop by lia. cbn [mbind option_bind]. generalize (Z.to_nat (zlen s - zlen sub)). intros k.
      destruct (decide (drop k s = sub)) as [Hd|_].
      { f_equal. symmetry. apply Contains_spec. exists (take k s), []. by rewrite app_nil_r, <- Hd, take_drop. }
      by rewrite indexOf_Index.
    + f_equal. symmetry. apply not_true_iff_false. rewrite Contains_spec. intros (pre & post & ->).
      rewrite !zlen_app in *. destruct pre, post; cbn in *; rewrite ?app_nil_r in *; try done;
        rewrite ?zlen_cons in *; unfold zlen in *; cbn in *; lia.
  - f_equal. symmetry. apply not_true_iff_false. rewrite Contains_spec. intros (pre & post & ->).
    rewrite !zlen_app in E. pose proof (zlen_nonneg pre). pose proof (zlen_nonneg post). lia.
Qed.

(** ** Lemmas: leading comments *)

(** With fuel for the length, the loop ends for the reason it ends in the code. *)
Lemma skip_comments_loop_spec fuel : forall q, (length q <= fuel)%nat ->
  let r := skip_comments_loop fuel q in
  (exists pre post, q = pre ++ r ++ post) /\
  (HasPrefix r (str "/*") = false \/ Index r (str "*/") = -1).
Proof.
  induction fuel as [|fuel IH]; intros q Hq; cbn [skip_comments_loop].
  { destruct q; [|cbn in Hq; lia]. cbn. split; [by exists [], []|by left]. }
  destruct (TrimSpace_split q) as (s1 & s2 & Hs). pose proof (length_TrimSpace q) as Hl.
  destruct (HasPrefix (TrimSpace q) (str "/*")) eqn:Ep; [|by split; [exists s1, s2|left]].
  destruct (Index (TrimSpace q) (str "*/") =? -1) eqn:Ei; bool_simpl; [by split; [exists s1, s2|right]|].
  destruct (Index_range (TrimSpace q) (str "*/")) as [?|Hr]; [done|]. change (zlen (str "*/")) with 2 in Hr.
  set (n := Z.to_nat (Index (TrimSpace q) (str "*/") + 2)) in *.
  destruct (IH (drop n (TrimSpace q))) as ((pre & post & Hd) & Hend).
  { rewrite length_drop. unfold zlen in Hr. lia. }
  split; [|done]. exists (s1 ++ take n (TrimSpace q) ++ pre), (post ++ s2).
  rewrite Hs at 1. rewrite <- (take_drop n (TrimSpace q)) at 1. rewrite Hd at 1. by rewrite <- !app_assoc.
Qed.

Lemma skip_comments_infix q : exists pre post, q = pre ++ skip_comments q ++ post.
Proof. by apply (skip_comments_loop_spec (length q) q). Qed.

Lemma is_ascii_skip_comments q : is_ascii q = true -> is_ascii (skip_comments q) = true.
Proof. destruct (skip_comments_infix q) as (pre & post & E). rewrite E at 1. rewrite !is_ascii_app. intros; by bool_simpl. Qed.

(** ** Lemmas: no panics on the way to a decision *)

Lemma isBatchableInsert_total `{UnicodeTables} q : exists b, isBatchableInsert q = Some b.
Proof.
  unfold isBatchableInsert. destruct (_ && _) eqn:E; [|eauto]. bool_simpl.
  unfold index. replace (0 <=? zlen (skip_comments q) - 1) with true by lia.
  destruct (lookup_lt_is_Some_2 (skip_comments q) (Z.to_nat (zlen (skip_comments q) - 1))) as [x ->]; [|cbn; eauto].
  unfold zlen in *. lia.
Qed.

Lemma isBatchableDelete_total `{UnicodeTables} q : is_ascii q = true -> exists b, isBatchableDelete q = Some b.
Proof.
  intros Ha%is_ascii_skip_comments. unfold isBatchableDelete. destruct (negb _); [eauto|].
  destruct (_ =? -1) eqn:E; [eauto|]. bool_simpl.
  destruct (Index_range (ToUpper (skip_comments q)) (str " WHERE ")) as [?|Hr]; [done|].
  unfold zlen in Hr at 1. rewrite length_ToUpper_ascii in Hr by done. change (zlen (str " WHERE ")) with 7 in Hr.
  rewrite slice_from_drop by (unfold zlen in *; lia). cbn [mbind option_bind].
  destruct (negb _); [eauto|]. destruct (negb _); eauto.
Qed.

Lemma truncateQuery_total q n : 0 <= n -> exists l, truncateQuery q n = Some l.
Proof.
  intros Hn. unfold truncateQuery. destruct (_ <=? _) eqn:E; [eauto|]. bool_simpl.
  rewrite slice_to_take by lia. cbn. eauto.
Qed.

Lemma is_ascii_truncateQuery q n l : 0 <= n -> truncateQuery q n = Some l -> is_ascii q = true -> is_ascii l = true.
Proof.
  intros Hn. unfold truncateQuery. destruct (_ <=? _) eqn:E; [by intros [= <-]|]. bool_simpl. rewrite slice_to_take by lia.
  cbn [mbind option_bind]. intros [= <-] Ha. rewrite <- (take_drop (Z.to_nat n) q), is_ascii_app in Ha. bool_simpl.
  rewrite is_ascii_app. by apply andb_true_intro.
Qed.

Lemma getQueryType_total q : exists l, getQueryType q = Some l /\ is_ascii l = true.
Proof.
  unfold getQueryType. assert (exists q', (if 20 <? zlen q then slice_to q 20 else Some q) = Some q') as [q' ->].
  { destruct (20 <? zlen q) eqn:E; [|eauto]. bool_simpl. rewrite slice_to_take by lia. eauto. }
  cbn [mbind option_bind]. rewrite !contains_Contains. cbn [mbind option_bind].
  repeat (destruct (_ || _); [eauto|]). eauto.
Qed.

(** ** Lemmas: the parts of an INSERT *)

(** On ASCII text [range_find] finds the first byte. *)
Lemma range_find_ascii p s : forall i, 0 <= i ->
  let r := range_find p i (ascii_chunk <$> s) in
  (r = -1 /\ forall b, b ∈ s -> p (bval b) = false) \/
  exists s1 b s2, s = s1 ++ b :: s2 /\ r = i + zlen s1 /\ p (bval b) = true /\ forall x, x ∈ s1 -> p (bval x) = false.
Proof.
  induction s as [|b s IH]; intros i Hi; [left; split; [done|intros x Hx; by apply not_elem_of_nil in Hx]|].
  rewrite fmap_cons. cbn [range_find ascii_chunk rune raw]. change (zlen [b]) with 1. destruct (p (bval b)) eqn:Eb.
  - right. exists [], b, s. split; [done|]. split; [unfold zlen; cbn; lia|]. split; [done|].
    intros x Hx. by apply not_elem_of_nil in Hx.
  - destruct (IH (i + 1)) as [[Hr Hall]|(s1 & x & s2 & -> & Hr & Hx & Hall)]; [lia|left|right].
    + split; [done|]. intros y [->|Hy]%elem_of_cons; auto.
    + exists (b :: s1), x, s2. rewrite zlen_cons, Z.add_assoc. split; [done|]. split; [exact Hr|].
      split; [done|]. intros y [->|Hy]%elem_of_cons; auto.
Qed.

Lemma Index_byte s c : Index s [c] <> -1 -> exists s1 s2, s = s1 ++ c :: s2 /\ Index s [c] = zlen s1 /\ c ∉ s1.
Proof.
  unfold Index. destruct (find_sub s [c]) as [n|] eqn:E; [intros _|done].
  apply find_sub_Some in E as (s1 & s2 & -> & <- & Hmin). exists s1, s2. split; [done|]. split; [done|].
  intros [k Hk]%list_elem_of_lookup. specialize (Hmin k (lookup_lt_Some _ _ _ Hk)).
  rewrite drop_app_le in Hmin by (apply lookup_lt_Some in Hk; lia).
  apply drop_S in Hk. rewrite Hk in Hmin. pose proof (HasPrefix_app [c] (drop (S k) s1 ++ [c] ++ s2)) as Ht. cbn [app] in *. congruence.
Qed.

Lemma parseInsertStatement_total `{UnicodeTables} q : is_ascii q = true -> exists r, parseInsertStatement q = Some r.
Proof.
  intros Ha%is_ascii_TrimSpace. unfold parseInsertStatement. set (s := TrimSpace q) in *.
  destruct (Index (ToUpper s) (str "INSERT") =? -1) eqn:E1; [eauto|]. bool_simpl.
  destruct (Index_range (ToUpper s) (str "INSERT")) as [?|R1]; [done|]. pose proof (zlen_nonneg (str "INSERT")).
  rewrite slice_from_drop by lia. cbn [mbind option_bind].
  set (rest := drop _ (ToUpper s)). destruct (Index rest (str "INTO") =? -1) eqn:E2; [eauto|]. bool_simpl.
  destruct (Index_range rest (str "INTO")) as [?|R2]; [done|]. change (zlen (str "INTO")) with 4 in R2.
  assert (Hlen : zlen rest = zlen s - Index (ToUpper s) (str "INSERT")).
  { subst rest. unfold zlen in *. rewrite length_drop, length_ToUpper_ascii in * by done. lia. }
  rewrite slice_from_drop by lia. cbn [mbind option_bind].
  set (d := drop _ s). assert (Hd : is_ascii d = true).
  { rewrite <- (take_drop (Z.to_nat (Index rest (str "INTO") + (Index (ToUpper s) (str "INSERT") + 4))) s), is_ascii_app in Ha.
    by bool_simpl. }
  apply is_ascii_TrimSpace in Hd. set (t := TrimSpace d) in *. rewrite (runes_ascii t) by done.
  destruct (range_find_ascii (fun ch => (ch =? 40) || (ch =? 32)) t 0) as [[-> _]|(s1 & b & s2 & Ht & -> & Hb & Hs1)]; [done|cbn; eauto|].
  pose proof (zlen_nonneg s1). pose proof (zlen_nonneg s2).
  destruct (0 + zlen s1 =? -1) eqn:E3; [eauto|]. rewrite slice_to_take by (rewrite Ht, zlen_app, zlen_cons; lia).
  cbn [mbind option_bind]. destruct (Index t (str "(") =? -1) eqn:E4; [eauto|]. bool_simpl.
  destruct (Index_byte t "("%char E4) as (u1 & u2 & Hu & Eu & Hnu). change (str "(") with ["("%char] in *. rewrite Eu in *.
  assert (zlen s1 <= zlen u1).
  { destruct (decide (zlen s1 <= zlen u1)); [done|]. exfalso. assert (Hin : "("%char ∈ s1); [|by apply Hs1 in Hin].
    apply list_elem_of_lookup. exists (length u1). rewrite <- (lookup_app_l s1 (b :: s2)) by (unfold zlen in *; lia).
    rewrite <- Ht, Hu, lookup_app_r, Nat.sub_diag by lia. done. }
  pose proof (zlen_nonneg u2). assert (Hz : zlen t = zlen u1 + (1 + zlen u2)) by (rewrite Hu, zlen_app, zlen_cons; lia).
  destruct (slice_Some t (0 + zlen s1) (zlen u1)) as [r ->]; [lia|]. cbn [mbind option_bind]. destruct (Contains _ _); [eauto|].
  rewrite slice_from_drop by lia. cbn [mbind option_bind]. replace (Z.to_nat (zlen u1)) with (length u1) by (unfold zlen; lia).
  assert (drop (length u1) t = "("%char :: u2) as -> by (rewrite Hu; apply drop_app_length).
  destruct (Index ("("%char :: u2) (str ")") =? -1) eqn:E5; [by eexists|]. apply Z.eqb_neq in E5.
  destruct (Index_byte ("("%char :: u2) ")"%char E5) as (v1 & v2 & Hv & Ev & _). change (str ")") with [")"%char] in *. rewrite Ev.
  destruct v1 as [|x v1]; [discriminate Hv|]. cbn [app] in Hv. injection Hv as <- Hv.
  rewrite Hv, zlen_app, zlen_cons in Hz. rewrite zlen_cons.
  pose proof (zlen_nonneg v1). pose proof (zlen_nonneg v2).
  destruct (slice_Some t (zlen u1 + 1) (zlen u1 + (1 + zlen v1))) as [cols ->]; [lia|]. cbn. eauto.
Qed.

(** ** How the server reads a LOAD DATA payload

    The default format of MySQL and MariaDB: fields end at a tab, rows at a
    newline, a backslash keeps the next character in the field.  This is the
    reference the payload is checked against. *)
Fixpoint load_fields (s field : bytes) (row : list bytes) : list (list bytes) :=
  match s with
  | [] => []
  | b :: t =>
      if decide (b = backslash) then
        match t with
        | c :: t' => load_fields t' (field ++ [b; c]) row
        | [] => []
        end
      else if decide (b = tab) then load_fields t [] (row ++ [field])
      else if decide (b = newline) then (row ++ [field]) :: load_fields t [] []
      else load_fields t (field ++ [b]) row
  end.

Definition unescape_byte (c : byte) : byte :=
  if decide (c = "t"%char) then tab
  else if decide (c = "n"%char) then newline
  else if decide (c = "r"%char) then cr
  else c.

Fixpoint unescape (s : bytes) : bytes :=
  match s with
  | [] => []
  | b :: t =>
      if decide (b = backslash) then
        match t with
        | c :: t' => unescape_byte c :: unescape t'
        | [] => []
        end
      else b :: unescape t
  end.

(** A field that is exactly [\N] is NULL. *)
Definition field_value (f : bytes) : option bytes :=
  if decide (f = [backslash; "N"%char]) then None else Some (unescape f).

Definition load_rows (payload : bytes) : list (list (option bytes)) :=
  map (map field_value) (load_fields payload [] []).

(** What a parameter means to the server. *)
Definition param_text `{GoValues} (v : value) : option bytes :=
  match v with
  | VNil => None
  | VBool b => Some (if b then str "1" else str "0")
  | VInt _ z => Some (Itoa z)
  | VFloat32 f => Some (FormatFloat32 f)
  | VFloat64 f => Some (FormatFloat64 f)
  | VString s | VBytes s => Some s
  | VOther v => Some (Sprint v)
  end.

Definition plain (b : byte) : bool :=
  negb (bool_decide (b = backslash) || bool_decide (b = tab) || bool_decide (b = newline)).

(** Text is UTF-8 and the numeric formatters produce no separator. *)
Definition loadable `{GoValues} (v : value) : bool :=
  match v with
  | VString s | VBytes s => valid_utf8 s
  | VOther v => valid_utf8 (Sprint v)
  | VFloat32 f => forallb plain (FormatFloat32 f)
  | VFloat64 f => forallb plain (FormatFloat64 f)
  | _ => true
  end.

(** ** Lemmas: fields *)

(** A sequence of ordinary bytes and escape pairs. *)
Inductive units : bytes -> Prop :=
| units_nil : units []
| units_plain b f : plain b = true -> units f -> units (b :: f)
| units_esc c f : units f -> units (backslash :: c :: f).

Lemma plain_ne b : plain b = true -> b <> backslash /\ b <> tab /\ b <> newline.
Proof. unfold plain. intros Hp. by bool_simpl. Qed.

Lemma units_app f g : units f -> units g -> units (f ++ g).
Proof. induction 1; cbn; eauto using units. Qed.

Lemma units_forallb f : forallb plain f = true -> units f.
Proof. induction f as [|b f IH]; cbn; intros; bool_simpl; eauto using units. Qed.

Lemma load_fields_units f t : units f -> forall field row, load_fields (f ++ t) field row = load_fields t (field ++ f) row.
Proof.
  induction 1 as [|b f Hb _ IH|c f _ IH]; intros field row; cbn [app load_fields].
  - by rewrite app_nil_r.
  - destruct (plain_ne b Hb) as (? & ? & ?). rewrite !decide_False by done. rewrite IH. by rewrite <- app_assoc.
  - rewrite decide_True by done. rewrite IH. by rewrite <- app_assoc.
Qed.

Lemma unescape_plain f : forallb plain f = true -> unescape f = f.
Proof.
  induction f as [|b f IH]; cbn; intros; bool_simpl; [done|].
  destruct (plain_ne b) as [? _]; [done|]. rewrite decide_False by done. by rewrite IH.
Qed.

Lemma plain_field f : forallb plain f = true -> units f /\ field_value f = Some f.
Proof.
  intros Hf. split; [by apply units_forallb|]. unfold field_value. rewrite decide_False.
  - by rewrite unescape_plain.
  - intros ->. by vm_compute in Hf.
Qed.

Lemma hi_plain f : Forall (fun b => 0x80 <= bval b) f -> forallb plain f = true.
Proof.
  induction 1 as [|b f Hb _ IH]; cbn; [done|]. rewrite IH, andb_true_r. unfold plain.
  by rewrite !bool_decide_eq_false_2 by (intros ->; vm_compute in Hb; apply Hb; reflexivity).
Qed.

(** One rune is written as an escape pair or as ordinary bytes. *)
Lemma escape_rune_cases ch :
  (exists b c, escape_rune ch = [backslash; c] /\ c <> "N"%char /\ unescape_byte c = b /\ encode_rune ch = [b]) \/
  (escape_rune ch = encode_rune ch /\ forallb plain (encode_rune ch) = true).
Proof.
  unfold escape_rune.
  destruct (ch =? 92) eqn:E1; [left; apply Z.eqb_eq in E1; subst; by exists backslash, backslash|].
  destruct (ch =? 9) eqn:E2; [left; apply Z.eqb_eq in E2; subst; by exists tab, "t"%char|].
  destruct (ch =? 10) eqn:E3; [left; apply Z.eqb_eq in E3; subst; by exists newline, "n"%char|].
  destruct (ch =? 13) eqn:E4; [left; apply Z.eqb_eq in E4; subst; by exists cr, "r"%char|].
  right. split; [done|]. bool_simpl. destruct (decide (0 <= ch < 0x80)) as [Hc|Hc].
  - rewrite encode_ascii by done. cbn [forallb]. rewrite andb_true_r. unfold plain.
    assert (Hb : bval (to_byte ch) = ch) by (rewrite bval_to_byte, Z.mod_small; lia).
    rewrite !bool_decide_eq_false_2; [done|intros E; rewrite E in Hb; vm_compute in Hb; lia..].
  - by apply hi_plain, encode_rune_hi.
Qed.

Lemma escape_chunks cs :
  let esc := concat ((fun c => escape_rune (rune c)) <$> cs) in
  units esc /\ unescape esc = concat ((fun c => encode_rune (rune c)) <$> cs) /\
  forall t, esc <> backslash :: "N"%char :: t.
Proof.
  induction cs as [|c cs (Hu & Hd & Hn)]; [by split; [constructor|]|].
  rewrite !fmap_cons. cbn [concat]. destruct (escape_rune_cases (rune c)) as [(b & x & -> & Hx & Hb & ->)|[-> Hp]].
  - cbn [app]. split; [by constructor|]. split; [|congruence].
    cbn [unescape]. rewrite decide_True by done. by rewrite Hb, Hd.
  - split; [by apply units_app; [apply units_forallb|]|]. split.
    + induction (encode_rune (rune c)) as [|b f IH]; cbn in *; [done|]. bool_simpl.
      destruct (plain_ne b) as [? _]; [done|]. rewrite decide_False by done. by rewrite IH.
    + intros t. destruct (encode_rune (rune c)) as [|b f]; [apply Hn|]. cbn. intros [= -> _].
      apply andb_true_iff in Hp as [Hp _]. by destruct (plain_ne _ Hp).
Qed.

Lemma escaped_field s : valid_utf8 s = true ->
  units (escapeLoadDataString s) /\ field_value (escapeLoadDataString s) = Some s.
Proof.
  intros Hs. destruct (escape_chunks (runes s)) as (Hu & Hd & Hn). split; [done|].
  unfold field_value, escapeLoadDataString. rewrite decide_False by apply Hn. by rewrite Hd, valid_utf8_encode.
Qed.

Lemma digits_plain s : forallb is_digit s = true -> forallb plain s = true.
Proof.
  induction s as [|b s IH]; cbn; [done|]. intros Hs. bool_simpl. rewrite IH, andb_true_r by done. unfold plain.
  by rewrite !bool_decide_eq_false_2 by (intros ->; vm_compute in *; done).
Qed.

Lemma Itoa_plain z : forallb plain (Itoa z) = true.
Proof.
  unfold Itoa. destruct (z <? 0) eqn:E; [cbn [forallb]|]; bool_simpl.
  - replace (plain (to_byte 45)) with true by reflexivity. apply digits_plain, itoa_digits_forall. lia.
  - by apply digits_plain, itoa_digits_forall.
Qed.

Lemma param_field `{GoValues} v : loadable v = true ->
  units (formatLoadDataParam v) /\ field_value (formatLoadDataParam v) = param_text v.
Proof.
  destruct v as [|[]|k z|f|f|s|s|v]; cbn [loadable formatLoadDataParam param_text]; intros Hl;
    try (by apply escaped_field); try (by apply plain_field, Itoa_plain); try (by apply plain_field).
  split; [apply units_esc, units_nil|reflexivity].
Qed.

Lemma load_fields_row `{GoValues} params t : params <> [] -> forallb loadable params = true ->
  forall row, load_fields (load_row params ++ t) [] row =
    (row ++ (formatLoadDataParam <$> params)) :: load_fields t [] [].
Proof.
  unfold load_row. induction params as [|v params IH]; [done|]. intros _ Hl row. cbn [forallb] in Hl. bool_simpl.
  destruct (param_field v) as [Hu _]; [done|]. rewrite fmap_cons. destruct params as [|v' params].
  - cbn [Join fmap list_fmap]. rewrite <- app_assoc, load_fields_units by done. reflexivity.
  - rewrite fmap_cons in *. cbn [Join]. rewrite <- !app_assoc, load_fields_units by done. cbn [app load_fields].
    rewrite decide_False, decide_True by done. change (newline :: t) with ([newline] ++ t).
    rewrite app_assoc, IH by done. by rewrite <- app_assoc.
Qed.

(** ** Properties *)

(** C40. The hand-written substring search of the executor never panics and
    agrees with the library's: indexOf is strings.Index and contains is
    strings.Contains, on every input. *)
Theorem contains_is_Contains s substr :
  indexOf s substr = Some (Index s substr) /\ contains s substr = Some (Contains s substr).
Proof. split; [apply indexOf_Index|apply contains_Contains]. Qed.


#[local] Instance NoFloats : GoValues := {|
  float32 := Empty_set; float64 := Empty_set; other := Empty_set;
  FormatFloat32 f := match f with end; FormatFloat64 f := match f with end; Sprint v := match v with end
|}.


(** Bytes that are not UTF-8 are replaced: a BLOB loaded this way is corrupted. *)
Example load_payload_not_utf8 :
  load_rows (load_payload [[VBytes [to_byte 255]]]) = [[Some [to_byte 239; to_byte 191; to_byte 189]]].
Proof. vm_compute. reflexivity. Qed.

(** A metric label cut at 50 bytes can end inside a character, which makes a
    valid query into a label that is not UTF-8. *)
Example truncateQuery_splits_rune :
  let q := str "INSERT INTO log (message, author) VALUES ('aaaaaaa" in
  let e := [to_byte 195; to_byte 169] in
  length q = 50%nat /\ valid_utf8 (take 49 q ++ e ++ str "')") = true /\
  (valid_utf8 <$> truncateQuery (take 49 q ++ e ++ str "')") 50) = Some false.
Proof. vm_compute. split; [reflexivity|]. split; reflexivity. Qed.
