(* ===== verification/Metrics.v ===== *)
(** * Package metrics

    The collectors of src/metrics/metrics.go with the labels they are declared
    with.  prometheus is not part of the repository: what a label may contain is
    a parameter, and what the source relies on is its documentation
    ([WithLabelValues] panics when the number of values is not the number of
    labels or a value is not valid, [MustRegister] when a name is taken). *)

From Stdlib Require Import Ascii ZArith Lia.
From stdpp Require Import base list gmap strings.
From S2P Require Import Prelude.

Open Scope Z_scope.

Inductive collector :=
| QueryTotal | QueryLatency | CacheHits | CacheMisses | DatabaseQueries
| WriteBatchSize | WriteBatchDelay | WriteBatchLatency | WriteOpsPerSecond | WriteCurrentDelay
| WriteDelayAdjustments | WriteBatchedTotal | WriteBatchMethod.

#[global] Instance collector_eq_dec : EqDecision collector.
Proof. solve_decision. Defined.

(** [Name] of the options. *)
Definition metric_name (c : collector) : bytes :=
  match c with
  | QueryTotal => str "tqdbproxy_query_total"
  | QueryLatency => str "tqdbproxy_query_latency_seconds"
  | CacheHits => str "tqdbproxy_cache_hits_total"
  | CacheMisses => str "tqdbproxy_cache_misses_total"
  | DatabaseQueries => str "tqdbproxy_database_queries_total"
  | WriteBatchSize => str "tqdbproxy_write_batch_size"
  | WriteBatchDelay => str "tqdbproxy_write_batch_delay_seconds"
  | WriteBatchLatency => str "tqdbproxy_write_batch_latency_seconds"
  | WriteOpsPerSecond => str "tqdbproxy_write_ops_per_second"
  | WriteCurrentDelay => str "tqdbproxy_write_current_delay_ms"
  | WriteDelayAdjustments => str "tqdbproxy_write_delay_adjustments_total"
  | WriteBatchedTotal => str "tqdbproxy_write_batched_total"
  | WriteBatchMethod => str "tqdbproxy_write_batch_method_total"
  end.

(** The labels of a vector; a gauge has none. *)
Definition label_names (c : collector) : list bytes :=
  match c with
  | QueryTotal => [str "file"; str "line"; str "query_type"; str "cached"]
  | QueryLatency => [str "file"; str "line"; str "query_type"]
  | CacheHits | CacheMisses => [str "file"; str "line"]
  | DatabaseQueries => [str "replica"]
  | WriteBatchSize | WriteBatchDelay | WriteBatchLatency => [str "query"]
  | WriteOpsPerSecond | WriteCurrentDelay => []
  | WriteDelayAdjustments => [str "direction"]
  | WriteBatchedTotal => [str "query_type"]
  | WriteBatchMethod => [str "method"]
  end.

(** Whether [c.WithLabelValues(labels...)] returns. *)
Definition WithLabelValues (label_ok : bytes -> bool) (c : collector) (labels : list bytes) : bool :=
  bool_decide (length labels = length (label_names c)) && forallb label_ok labels.

(** ** Registration *)

Record registry := MkRegistry { once : bool; names : gset bytes }.

(** [prometheus.MustRegister]; [None] is a panic. *)
Definition MustRegister (ns : gset bytes) (c : collector) : option (gset bytes) :=
  if decide (metric_name c ∈ ns) then None else Some ({[metric_name c]} ∪ ns).

Fixpoint register_all (ns : gset bytes) (cs : list collector) : option (gset bytes) :=
  match cs with
  | [] => Some ns
  | c :: cs => ns ← MustRegister ns c; register_all ns cs
  end.

Definition registered : list collector :=
  [QueryTotal; QueryLatency; CacheHits; CacheMisses; DatabaseQueries;
   WriteBatchSize; WriteBatchDelay; WriteBatchLatency; WriteOpsPerSecond; WriteCurrentDelay;
   WriteDelayAdjustments; WriteBatchedTotal; WriteBatchMethod].

Definition Init (r : registry) : option registry :=
  if once r then Some r else ns ← register_all (names r) registered; Some (MkRegistry true ns).

(** ** Lemmas *)

Lemma WithLabelValues_run label_ok c labels : length labels = length (label_names c) -> forallb label_ok labels = true ->
  WithLabelValues label_ok c labels = true.
Proof. intros Hl Hf. unfold WithLabelValues. by rewrite bool_decide_eq_true_2, Hf. Qed.

Lemma register_all_spec cs : forall ns, NoDup (metric_name <$> cs) -> (forall c, c ∈ cs -> metric_name c ∉ ns) ->
  register_all ns cs = Some (list_to_set (metric_name <$> cs) ∪ ns).
Proof.
  induction cs as [|c cs IH]; intros ns Hnd Hns; cbn [register_all].
  - f_equal. set_solver.
  - rewrite fmap_cons in Hnd. apply NoDup_cons in Hnd as [Hc Hnd]. unfold MustRegister. rewrite decide_False by (apply Hns; left).
    cbn [mbind option_bind]. rewrite IH; [|done|].
    + f_equal. rewrite fmap_cons. cbn. set_solver.
    + intros c' Hc'. rewrite not_elem_of_union, not_elem_of_singleton. split; [|apply Hns; by right].
      intros E. apply Hc. rewrite <- E. by apply list_elem_of_fmap_2.
Qed.

(** ** Properties *)

(** Starting the metrics never panics and registers every collector, under names
    that are all different, and doing it again changes nothing. *)
Theorem Init_registers r : once r = false -> (forall c, metric_name c ∉ names r) ->
  exists r', Init r = Some r' /\ (forall c, metric_name c ∈ names r') /\ Init r' = Some r'.
Proof.
  intros Ho Hn. unfold Init. rewrite Ho, register_all_spec; [|apply (bool_decide_eq_true_1 _); vm_compute; reflexivity|by intros c _].
  cbn [mbind option_bind]. eexists. split; [reflexivity|]. split; [|done]. intros c. cbn [names]. apply elem_of_union_l, elem_of_list_to_set, list_elem_of_fmap_2.
  destruct c; apply (bool_decide_eq_true_1 _); vm_compute; reflexivity.
Qed.

Lemma Init_registers_witness : exists r', Init (MkRegistry false ∅) = Some r' /\ metric_name WriteBatchMethod ∈ names r'.
Proof.
  destruct (Init_registers (MkRegistry false ∅)) as (r' & Hi & Hr & _); [reflexivity|intros c; apply not_elem_of_empty|].
  exists r'. exact (conj Hi (Hr _)).
Defined.
