(* ===== verification/Executor.v ===== *)
(** * Package writebatch: executing a batch

    Every strategy of src/writebatch/executor.go for a batch of write requests.
    The database (database/sql with its drivers) and the metric library are
    parameters, the class [Database].  Code runs in a state monad over [World]:
    the database, the counter of LOAD DATA handlers and the log of what the code
    did, in order; [None] is a run-time panic. *)

From Stdlib Require Import Ascii ZArith Lia.
From stdpp Require Import base list gmap strings numbers.
From S2P Require Import Prelude GoStrings BatchText Metrics.

Open Scope Z_scope.

(** What a driver reports about a statement ([sql.Result]; the errors of its
    two methods are ignored by the code and the value is used as it is). *)
Record Result := { RowsAffected : Z; LastInsertId : Z }.

Class Database `{GoValues} := {
  dbstate : Type;
  tx : Type;
  stmt : Type;
  db_error : Type;
  db_Exec : dbstate -> bytes -> list value -> dbstate * (Result + db_error);
  db_Begin : dbstate -> dbstate * (tx + db_error);
  db_Prepare : dbstate -> bytes -> dbstate * (stmt + db_error);
  tx_Exec : dbstate -> tx -> bytes -> list value -> dbstate * (Result + db_error);
  tx_Prepare : dbstate -> tx -> bytes -> dbstate * (stmt + db_error);
  tx_Commit : dbstate -> tx -> dbstate * option db_error;
  tx_Rollback : dbstate -> tx -> dbstate;
  stmt_Exec : dbstate -> stmt -> list value -> dbstate * (Result + db_error);
  stmt_QueryRow : dbstate -> stmt -> list value -> dbstate * (Z + db_error);  (* QueryRow(...).Scan(&int64) *)
  stmt_Close : dbstate -> stmt -> dbstate * option db_error;
  CopyIn : bytes -> list bytes -> bytes;                                      (* pq.CopyIn *)
  RegisterReaderHandler : dbstate -> bytes -> bytes -> dbstate;               (* name, payload *)
  DeregisterReaderHandler : dbstate -> bytes -> dbstate;
  label_ok : bytes -> bool;     (* WithLabelValues accepts the label; it panics otherwise *)
  label_ok_utf8 l : valid_utf8 l = true -> label_ok l = true
}.

Section Executor.
Context `{UnicodeTables} `{Database}.

(** ** Data *)

Inductive error :=
| DbError (e : db_error)
| ErrManagerClosed
| ErrTimeout
| ErrBatchFull
| CtxError.                      (* ctx.Err() *)

Record WriteResult := MkResult {
  AffectedRows : Z;
  LastInsertID : Z;
  BatchSize : Z;
  ReturningValues : list value;
  Error : option error
}.

Definition error_result (e : error) : WriteResult := MkResult 0 0 0 [] (Some e).

(** [ResultChan] identifies the channel of the request (it has room for one
    result); [OnBatchComplete] says whether there is a callback. *)
Record WriteRequest := {
  Query : bytes;
  Params : list value;
  ResultChan : nat;
  OnBatchComplete : bool;
  HasReturning : bool
}.

Record BatchConfig := { MaxBatchSize : Z; UseCopy : bool }.
Definition DefaultConfig : BatchConfig := {| MaxBatchSize := 1000; UseCopy := false |}.

(** The fields of the manager the executor reads. *)
Record Manager := { config : BatchConfig; firstInsertIDIsFirst : bool }.

(** [New]: [driverType] is the name of the type of the driver, ["*mysql.MySQLDriver"]
    for MariaDB. *)
Definition New (driverType : bytes) (config : BatchConfig) : Manager :=
  {| config := config; firstInsertIDIsFirst := Contains (ToLower driverType) (str "mysql") |}.

(** ** The world *)

Inductive event :=
| ESend (c : nat) (r : WriteResult)          (* req.ResultChan <- r *)
| ECallback (c : nat) (batchSize : Z)        (* req.OnBatchComplete(batchSize) *)
| EExec (q : bytes) (ps : list value) (ok : bool)
| EBegin (ok : bool)
| EPrepare (q : bytes) (ok : bool)
| ETxExec (q : bytes) (ps : list value) (ok : bool)
| EStmtExec (ps : list value) (ok : bool)
| EStmtClose
| ECommit (ok : bool)
| ERollback
| ERegister (name payload : bytes)
| EDeregister (name : bytes).

Record World := MkWorld { db : dbstate; loadDataHandlerSeq : Z; log : list event }.

Definition M (A : Type) : Type := World -> option (World * A).
#[global] Instance M_ret : MRet M := fun A x w => Some (w, x).
#[global] Instance M_bind : MBind M := fun A B k m w =>
  match m w with Some (w, x) => k x w | None => None end.

Definition panic {A} : M A := fun _ => None.
Definition or_panic {A} (o : option A) : M A := match o with Some x => mret x | None => panic end.

(** A call of the database that is logged. *)
Definition call {R} (f : dbstate -> dbstate * R) (ev : R -> event) : M R := fun w =>
  let '(d, r) := f (db w) in Some (MkWorld d (loadDataHandlerSeq w) (log w ++ [ev r]), r).
Definition ok {A B} (r : A + B) : bool := match r with inl _ => true | inr _ => false end.
Definition no_error {A} (r : option A) : bool := match r with None => true | Some _ => false end.

Definition Exec q ps : M (Result + db_error) := call (fun d => db_Exec d q ps) (fun r => EExec q ps (ok r)).
Definition Begin : M (tx + db_error) := call db_Begin (fun r => EBegin (ok r)).
Definition Prepare q : M (stmt + db_error) := call (fun d => db_Prepare d q) (fun r => EPrepare q (ok r)).
Definition TxPrepare t q : M (stmt + db_error) := call (fun d => tx_Prepare d t q) (fun r => EPrepare q (ok r)).
Definition TxExec t q ps : M (Result + db_error) := call (fun d => tx_Exec d t q ps) (fun r => ETxExec q ps (ok r)).
Definition Commit t : M (option db_error) := call (fun d => tx_Commit d t) (fun r => ECommit (no_error r)).
Definition Rollback t : M unit := call (fun d => (tx_Rollback d t, tt)) (fun _ => ERollback).
Definition StmtExec s ps : M (Result + db_error) := call (fun d => stmt_Exec d s ps) (fun r => EStmtExec ps (ok r)).
Definition StmtQueryRow s ps : M (Z + db_error) := call (fun d => stmt_QueryRow d s ps) (fun r => EStmtExec ps (ok r)).
Definition StmtClose s : M (option db_error) := call (fun d => stmt_Close d s) (fun _ => EStmtClose).
Definition Register name data : M unit :=
  call (fun d => (RegisterReaderHandler d name data, tt)) (fun _ => ERegister name data).
Definition Deregister name : M unit := call (fun d => (DeregisterReaderHandler d name, tt)) (fun _ => EDeregister name).

(** [loadDataHandlerSeq.Add(1)] *)
Definition next_seq : M Z := fun w =>
  let n := uint64 (loadDataHandlerSeq w + 1) in Some (MkWorld (db w) n (log w), n).

Definition emit (e : event) : M unit := fun w =>
  Some (MkWorld (db w) (loadDataHandlerSeq w) (log w ++ [e]), tt).
Definition send (req : WriteRequest) (r : WriteResult) : M unit := emit (ESend (ResultChan req) r).
Definition notify (req : WriteRequest) (n : Z) : M unit :=
  if OnBatchComplete req then emit (ECallback (ResultChan req) n) else mret tt.

Fixpoint for_each {A} (f : A -> M unit) (l : list A) : M unit :=
  match l with
  | [] => mret tt
  | x :: l => f x ;; for_each f l
  end.

(** [metrics.C.WithLabelValues(label)] *)
Definition with_label (c : collector) (label : bytes) : M unit :=
  if WithLabelValues label_ok c [label] then mret tt else panic.
Definition count_method (method : string) : M unit := with_label WriteBatchMethod (str method).

(** ** Delivering results *)

Definition send_error (requests : list WriteRequest) (e : db_error) : M unit :=
  for_each (fun req => send req (error_result (DbError e))) requests.

Definition send_results (l : list (WriteRequest * WriteResult)) : M unit :=
  for_each (fun '(req, r) => send req r) l.

(** Send a result and tell the connection. *)
Definition deliver (n : Z) (l : list (WriteRequest * WriteResult)) : M unit :=
  for_each (fun '(req, r) => send req r ;; notify req n) l.

(** The same result for every request, or one that depends on its position. *)
Definition deliver_each (n : Z) (requests : list WriteRequest) (f : nat -> WriteResult) : M unit :=
  deliver n (zip requests (f <$> seq 0 (length requests))).

Definition exec_result (n : Z) (r : Result) : WriteResult := MkResult (RowsAffected r) (LastInsertId r) n [] None.

(** ** One request *)

Definition executeWrite (query : bytes) (params : list value) : M WriteResult :=
  r ← Exec query params;
  match r with
  | inr err => mret (error_result (DbError err))
  | inl result => mret (exec_result 1 result)
  end.

Definition executeSingle (req : WriteRequest) : M unit :=
  result ← executeWrite (Query req) (Params req);
  send req result.

(** ** Combined DELETE *)

Definition executeTrueBatchedDelete (requests : list WriteRequest) : M unit :=
  req0 ← or_panic (index requests 0);
  let firstQuery := Query req0 in
  let whereIdx := Index (ToUpper firstQuery) (str " WHERE ") in
  whereClause ← or_panic (slice_from firstQuery (whereIdx + 7));
  key ← or_panic (index (SplitByte whereClause equals) 0);
  let keyCol := TrimSpace key in
  baseQuery ← or_panic (slice_to firstQuery whereIdx);
  let query := baseQuery ++ str " WHERE " ++ keyCol ++ str " IN (" ++
               Join ((fun _ => str "?") <$> requests) (str ",") ++ str ")" in
  allParams ← or_panic (mapM (fun req => index (Params req) 0) requests);
  r ← Exec query allParams;
  match r with
  | inr err => send_error requests err
  | inl result =>
      let n := zlen requests in
      deliver_each n requests (fun _ => MkResult (RowsAffected result) 0 n [] None)
  end.

(** ** Prepared statement in a transaction *)

(** One execution of the statement. *)
Definition prepared_row (hasReturning : bool) (n : Z) (s : stmt) (req : WriteRequest) : M WriteResult :=
  if hasReturning then
    r ← StmtQueryRow s (Params req);
    match r with
    | inr err => mret (error_result (DbError err))
    | inl returnedValue => mret (MkResult 1 0 n [VInt Int64 returnedValue] None)
    end
  else
    r ← StmtExec s (Params req);
    match r with
    | inr err => mret (error_result (DbError err))
    | inl result => mret (exec_result n result)
    end.

Fixpoint prepared_rows (hasReturning : bool) (n : Z) (s : stmt) (requests : list WriteRequest) : M (list WriteResult) :=
  match requests with
  | [] => mret []
  | req :: requests =>
      r ← prepared_row hasReturning n s req;
      rs ← prepared_rows hasReturning n s requests;
      mret (r :: rs)
  end.

Definition is_error (r : WriteResult) : bool := match Error r with Some _ => true | None => false end.

Definition executePreparedBatch (requests : list WriteRequest) : M unit :=
  req0 ← or_panic (index requests 0);
  let n := zlen requests in
  t ← Begin;
  match t with
  | inr err => send_error requests err
  | inl t =>
      s ← TxPrepare t (Query req0);
      match s with
      | inr err => Rollback t ;; send_error requests err
      | inl s =>
          results ← prepared_rows (HasReturning req0) n s requests;
          (if existsb is_error results then
             Rollback t ;; send_results (zip requests results)
           else
             c ← Commit t;
             match c with
             | Some err => send_error requests err
             | None => deliver n (zip requests results)
             end) ;;
          StmtClose s ;;                        (* defer stmt.Close() *)
          mret tt
      end
  end.

(** ** Prepared statement without a transaction *)

Fixpoint fallback_rows (n : Z) (s : stmt) (requests : list WriteRequest) : M unit :=
  match requests with
  | [] => mret tt
  | req :: requests =>
      r ← StmtExec s (Params req);
      match r with
      | inr err => send req (error_result (DbError err))
      | inl result => send req (exec_result n result) ;; notify req n
      end ;;
      fallback_rows n s requests
  end.

Definition executePreparedBatchFallback (requests : list WriteRequest) : M unit :=
  req0 ← or_panic (index requests 0);
  s ← Prepare (Query req0);
  match s with
  | inr err => send_error requests err
  | inl s => fallback_rows (zlen requests) s requests ;; StmtClose s ;; mret tt
  end.

(** ** Different statements in one transaction *)

(** Either all results, or the position of the first failure and its error. *)
Fixpoint tx_rows (n : Z) (t : tx) (i : nat) (requests : list WriteRequest) : M (list WriteResult + nat * db_error) :=
  match requests with
  | [] => mret (inl [])
  | req :: requests =>
      r ← TxExec t (Query req) (Params req);
      match r with
      | inr err => mret (inr (i, err))
      | inl result =>
          rs ← tx_rows n t (S i) requests;
          match rs with
          | inr e => mret (inr e)
          | inl rs => mret (inl (exec_result n result :: rs))
          end
      end
  end.

Definition executeTransactionBatch (requests : list WriteRequest) : M unit :=
  let n := zlen requests in
  t ← Begin;
  match t with
  | inr err => send_error requests err
  | inl t =>
      rs ← tx_rows n t 0 requests;
      match rs with
      | inr (i, err) =>
          Rollback t ;;
          send_error (take (S i) requests) err ;;
          send_error (drop (S i) requests) err
      | inl results =>
          c ← Commit t;
          match c with
          | Some err => send_error requests err
          | None => deliver n (zip requests results)
          end
      end
  end.

(** ** Multi-row INSERT *)

Variable m : Manager.

Definition normalizeFirstInsertID (rawID batchSize : Z) : Z :=
  if firstInsertIDIsFirst m then rawID else int64 (rawID - (batchSize - 1)).

(** The placeholders of one row, from parameter number [paramIndex] on. *)
Definition row_text (isPostgres : bool) (numParams : nat) (paramIndex : Z) : bytes :=
  str "(" ++
  Join ((fun i => if isPostgres then str "$" ++ Itoa (paramIndex + Z.of_nat i) else str "?") <$> seq 0 numParams)
       (str ",") ++
  str ")".

Fixpoint rows_text (isPostgres : bool) (numParams : nat) (paramIndex : Z) (requests : list WriteRequest) : list bytes :=
  match requests with
  | [] => []
  | _ :: requests =>
      row_text isPostgres numParams paramIndex ::
      rows_text isPostgres numParams (paramIndex + Z.of_nat numParams) requests
  end.

(** Results of one statement that inserted all rows: row [i] has the id of the
    first row plus [i]. *)
Definition insert_outcome (requests : list WriteRequest) (r : Result + db_error) : M unit :=
  match r with
  | inr err => send_error requests err
  | inl result =>
      let n := zlen requests in
      let firstID := normalizeFirstInsertID (LastInsertId result) n in
      deliver_each n requests (fun i => MkResult 1 (int64 (firstID + Z.of_nat i)) n [] None)
  end.

Definition executeTrueBatchedInsertMultiRow (requests : list WriteRequest) : M unit :=
  req0 ← or_panic (index requests 0);
  let firstQuery := Query req0 in
  let valuesPos := Index (ToUpper firstQuery) (str "VALUES") in
  if valuesPos =? -1 then executePreparedBatchFallback requests
  else
    let valuesIdx := valuesPos + 6 in
    baseQuery ← or_panic (slice_to firstQuery valuesIdx);
    let numParams := length (Params req0) in
    if Nat.eqb numParams 0 then
      rest ← or_panic (slice_from firstQuery valuesIdx);
      let valuesClause := TrimSpace rest in
      r ← Exec (baseQuery ++ str " " ++ Join ((fun _ => valuesClause) <$> requests) (str ", ")) [];
      insert_outcome requests r
    else
      let isPostgres := (0 <? zlen firstQuery) && containsPostgresPlaceholder firstQuery in
      let allParams := concat (Params <$> requests) in
      r ← Exec (baseQuery ++ str " " ++ Join (rows_text isPostgres numParams 1 requests) (str ", ")) allParams;
      insert_outcome requests r.

(** ** Bulk loading *)

Definition bulk_result (n : Z) : WriteResult := MkResult 1 0 n [] None.

Fixpoint copy_rows (s : stmt) (requests : list WriteRequest) : M (option db_error) :=
  match requests with
  | [] => mret None
  | req :: requests =>
      r ← StmtExec s (Params req);
      match r with
      | inr err => mret (Some err)
      | inl _ => copy_rows s requests
      end
  end.

Definition executeCopyBatchedInsert (requests : list WriteRequest) : M unit :=
  req0 ← or_panic (index requests 0);
  p ← or_panic (parseInsertStatement (Query req0));
  match p with
  | inr _ => executeTrueBatchedInsertMultiRow requests
  | inl (tableName, columns) =>
      t ← Begin;
      match t with
      | inr err => send_error requests err
      | inl txn =>
          s ← TxPrepare txn (CopyIn tableName columns);
          match s with
          | inr _ => Rollback txn ;; executeTrueBatchedInsertMultiRow requests
          | inl s =>
              e ← copy_rows s requests;
              match e with
              | Some err => StmtClose s ;; Rollback txn ;; send_error requests err
              | None =>
                  f ← StmtExec s [];
                  match f with
                  | inr err => StmtClose s ;; Rollback txn ;; send_error requests err
                  | inl _ =>
                      cl ← StmtClose s;
                      match cl with
                      | Some err => Rollback txn ;; send_error requests err
                      | None =>
                          c ← Commit txn;
                          match c with
                          | Some err => send_error requests err
                          | None => deliver_each (zlen requests) requests (fun _ => bulk_result (zlen requests))
                          end
                      end
                  end
              end
          end
      end
  end.

Definition quote_column (col : bytes) : bytes := str "`" ++ col ++ str "`".

Definition executeLoadDataInfileBatchedInsert (requests : list WriteRequest) : M unit :=
  req0 ← or_panic (index requests 0);
  p ← or_panic (parseInsertStatement (Query req0));
  match p with
  | inr _ => executeTrueBatchedInsertMultiRow requests
  | inl (tableName, columns) =>
      let data := load_payload (Params <$> requests) in
      n ← next_seq;
      let handlerName := str "writebatch_" ++ Itoa n in
      Register handlerName data ;;
      let loadQuery := str "LOAD DATA LOCAL INFILE 'Reader::" ++ handlerName ++ str "' INTO TABLE `" ++ tableName ++
                       str "` (" ++ Join (quote_column <$> columns) (str ", ") ++ str ")" in
      t ← Begin;
      (match t with
       | inr err => send_error requests err
       | inl txn =>
           r ← TxExec txn loadQuery [];
           match r with
           | inr _ => Rollback txn ;; executeTrueBatchedInsertMultiRow requests
           | inl _ =>
               c ← Commit txn;
               match c with
               | Some err => send_error requests err
               | None => deliver_each (zlen requests) requests (fun _ => bulk_result (zlen requests))
               end
           end
       end) ;;
      Deregister handlerName                   (* defer mysql.DeregisterReaderHandler *)
  end.

Definition allParamsAreSimple (requests : list WriteRequest) : bool :=
  forallb (fun req => forallb simple_value (Params req)) requests.

Definition executeTrueBatchedInsert (requests : list WriteRequest) : M unit :=
  req0 ← or_panic (index requests 0);
  if UseCopy (config m) && (0 <? zlen (Params req0)) && allParamsAreSimple requests then
    if containsPostgresPlaceholder (Query req0) then count_method "copy" ;; executeCopyBatchedInsert requests
    else count_method "load_data_infile" ;; executeLoadDataInfileBatchedInsert requests
  else count_method "multi_row_insert" ;; executeTrueBatchedInsertMultiRow requests.

(** ** Choosing the strategy *)

Definition executeBatchedWrites (requests : list WriteRequest) : M unit :=
  req0 ← or_panic (index requests 0);
  let firstQuery := Query req0 in
  let allSame := forallb (fun req => bool_decide (Query req = firstQuery)) (drop 1 requests) in
  if allSame then
    isInsert ← or_panic (if HasReturning req0 then Some false else isBatchableInsert firstQuery);
    if (isInsert : bool) then executeTrueBatchedInsert requests
    else
      isDelete ← or_panic (isBatchableDelete firstQuery);
      if (isDelete : bool) then count_method "batched_delete" ;; executeTrueBatchedDelete requests
      else count_method "prepared" ;; executePreparedBatch requests
  else count_method "transaction" ;; executeTransactionBatch requests.

(** The part of [executeBatch] that follows the removal of the requests from
    their group, for a batch that is not empty. *)
Definition execute_requests (requests : list WriteRequest) : M unit :=
  req0 ← or_panic (index requests 0);
  queryLabel ← or_panic (truncateQuery (Query req0) 50);
  with_label WriteBatchSize queryLabel ;;
  with_label WriteBatchDelay queryLabel ;;
  (if zlen requests =? 1 then executeSingle req0 else executeBatchedWrites requests) ;;
  with_label WriteBatchLatency queryLabel ;;
  queryType ← or_panic (getQueryType (Query req0));
  with_label WriteBatchedTotal queryType.
End Executor.

Arguments World {_ _}.
Arguments event {_ _}.
Arguments WriteRequest {_}.
Arguments WriteResult {_ _}.

(** ** Traces

    What a computation adds to the log. *)

Section Traces.
Context `{UnicodeTables} `{Database}.
Implicit Types (ev : list event) (requests : list WriteRequest).

(** The channels results were sent to, in order. *)
Definition sent ev : list nat :=
  omap (fun e => match e with ESend c _ => Some c | _ => None end) ev.

(** A callback directly follows the send of a successful result to the same
    request, and both report the size [n] of the batch. *)
Fixpoint callbacks_ok (n : Z) (prev : option (nat * WriteResult)) ev : Prop :=
  match ev with
  | [] => True
  | ECallback c k :: ev =>
      match prev with
      | Some (c', r) => c = c' /\ Error r = None /\ BatchSize r = k /\ k = n
      | None => False
      end /\ callbacks_ok n None ev
  | ESend c r :: ev => callbacks_ok n (Some (c, r)) ev
  | _ :: ev => callbacks_ok n None ev
  end.

(** The trace of a computation that answers the channels [cs], once each and
    in this order, as part of a batch of size [n]. *)
Definition answers {A} (n : Z) (cs : list nat) (m : M A) : Prop := forall w w' a,
  m w = Some (w', a) -> exists ev, log w' = log w ++ ev /\ sent ev = cs /\ callbacks_ok n None ev.

(** A computation that never panics. *)
Definition total {A} (m : M A) : Prop := forall w, exists w' a, m w = Some (w', a).

Lemma sent_app ev1 ev2 : sent (ev1 ++ ev2) = sent ev1 ++ sent ev2.
Proof. apply omap_app. Qed.

Lemma callbacks_ok_prev n prev ev : callbacks_ok n None ev -> callbacks_ok n prev ev.
Proof. destruct ev as [|[] ev]; cbn; tauto. Qed.

Lemma callbacks_ok_app n ev1 ev2 : forall prev,
  callbacks_ok n prev ev1 -> callbacks_ok n None ev2 -> callbacks_ok n prev (ev1 ++ ev2).
Proof.
  induction ev1 as [|e ev1 IH]; intros prev Ha Hb; [by apply callbacks_ok_prev|].
  destruct e; cbn in *; eauto. destruct Ha as [Hp Ha]. eauto.
Qed.

(** Composition, with what is known of the first result. *)
Lemma answers_bind_post {A B} (Q : A -> Prop) n cs1 cs2 (m : M A) (k : A -> M B) :
  answers n cs1 m -> (forall w w' a, m w = Some (w', a) -> Q a) -> (forall a, Q a -> answers n cs2 (k a)) ->
  answers n (cs1 ++ cs2) (m ≫= k).
Proof.
  intros Hm Hq Hk w w' b. unfold mbind, M_bind. destruct (m w) as [[w1 a]|] eqn:E; [|done]. intros Hb.
  destruct (Hm _ _ _ E) as (ev1 & E1 & <- & C1). destruct (Hk a (Hq _ _ _ E) _ _ _ Hb) as (ev2 & E2 & <- & C2).
  exists (ev1 ++ ev2). rewrite E2, E1, sent_app. rewrite <- app_assoc. eauto using callbacks_ok_app.
Qed.

Lemma answers_bind {A B} n cs1 cs2 (m : M A) (k : A -> M B) :
  answers n cs1 m -> (forall a, answers n cs2 (k a)) -> answers n (cs1 ++ cs2) (m ≫= k).
Proof. intros Hm Hk. by apply (answers_bind_post (fun _ => True)). Qed.

Lemma answers_quiet {A B} n cs (m : M A) (k : A -> M B) :
  answers n [] m -> (forall a, answers n cs (k a)) -> answers n cs (m ≫= k).
Proof. apply (answers_bind n [] cs). Qed.

Lemma answers_quiet_post {A B} (Q : A -> Prop) n cs (m : M A) (k : A -> M B) :
  answers n [] m -> (forall w w' a, m w = Some (w', a) -> Q a) -> (forall a, Q a -> answers n cs (k a)) ->
  answers n cs (m ≫= k).
Proof. apply (answers_bind_post Q n [] cs). Qed.

Lemma answers_ret {A} n (a : A) : answers n [] (mret a).
Proof. intros w w' b [= <- <-]. exists []. rewrite app_nil_r. done. Qed.

Lemma answers_panic {A} n cs : answers n cs (panic : M A).
Proof. by intros w w' a ?. Qed.

Lemma answers_or_panic {A} n (o : option A) : answers n [] (or_panic o).
Proof. destruct o; [apply answers_ret|apply answers_panic]. Qed.

(** A logged call that is neither a send nor a callback. *)
Lemma answers_call {R} n (f : dbstate -> dbstate * R) (g : R -> event) :
  (forall r, match g r with ESend _ _ | ECallback _ _ => False | _ => True end) -> answers n [] (call f g).
Proof.
  intros Hg w w' r. unfold call. destruct (f (db w)) as [d r'] eqn:E. intros [= <- <-]. exists [g r']. cbn.
  specialize (Hg r'). by destruct (g r').
Qed.

Lemma answers_next_seq n : answers n [] next_seq.
Proof. intros w w' a [= <- <-]. exists []. cbn. by rewrite app_nil_r. Qed.

Lemma answers_send n req r : answers n [ResultChan req] (send req r).
Proof. intros w w' a [= <- <-]. by eexists [_]. Qed.

Lemma answers_deliver_one n req r : Error r = None -> BatchSize r = n ->
  answers n [ResultChan req] (send req r ;; notify req n).
Proof.
  intros He Hb w w' a. unfold notify, send, emit, mbind, M_bind. destruct (OnBatchComplete req); intros [= <- <-]; cbn.
  - eexists [_; _]. rewrite <- app_assoc. cbn. eauto 10.
  - by eexists [_].
Qed.

Lemma answers_for_each {A} n (f : A -> M unit) (c : A -> nat) l :
  (forall x, x ∈ l -> answers n [c x] (f x)) -> answers n (c <$> l) (for_each f l).
Proof.
  induction l as [|x l IH]; intros Hf; [apply answers_ret|]. rewrite fmap_cons. cbn [for_each].
  apply (answers_bind n [c x]); [apply Hf; by left|]. intros _. apply IH. intros y Hy. apply Hf. by right.
Qed.

Lemma answers_send_error n requests e : answers n (ResultChan <$> requests) (send_error requests e).
Proof. apply answers_for_each. intros. apply answers_send. Qed.

Lemma zip_fst_chan requests (rs : list WriteResult) : length rs = length requests ->
  (fun x => ResultChan x.1) <$> zip requests rs = ResultChan <$> requests.
Proof.
  intros Hl. rewrite <- (fst_zip requests rs) at 2 by lia. by rewrite <- list_fmap_compose.
Qed.

Lemma answers_send_results n requests rs : length rs = length requests ->
  answers n (ResultChan <$> requests) (send_results (zip requests rs)).
Proof.
  intros Hl. rewrite <- (zip_fst_chan requests rs Hl). apply answers_for_each. intros [req r] _. apply answers_send.
Qed.

Lemma answers_deliver n requests rs : length rs = length requests ->
  Forall (fun r => Error r = None /\ BatchSize r = n) rs ->
  answers n (ResultChan <$> requests) (deliver n (zip requests rs)).
Proof.
  intros Hl Hf. rewrite <- (zip_fst_chan requests rs Hl). apply answers_for_each. intros [req r] Hin.
  apply elem_of_zip_r in Hin. rewrite list.Forall_forall in Hf. destruct (Hf r Hin). by apply answers_deliver_one.
Qed.

Lemma answers_deliver_each n requests f : (forall i, Error (f i) = None /\ BatchSize (f i) = n) ->
  answers n (ResultChan <$> requests) (deliver_each n requests f).
Proof.
  intros Hf. apply answers_deliver; [by rewrite length_fmap, length_seq|].
  apply Forall_fmap, list.Forall_forall. intros i _. apply Hf.
Qed.

Lemma answers_with_label n c label : answers n [] (with_label c label).
Proof. unfold with_label. destruct (WithLabelValues _ _ _); [apply answers_ret|apply answers_panic]. Qed.

Lemma answers_count_method n s : answers n [] (count_method s).
Proof. apply answers_with_label. Qed.
End Traces.

#[export] Hint Resolve answers_with_label answers_count_method answers_ret answers_or_panic answers_panic answers_next_seq answers_send answers_send_error
  answers_deliver_one answers_deliver_each answers_deliver answers_send_results : tqdb.

(** Step over a call that sends nothing, or finish with a known lemma. *)
Ltac quiet := first [ by auto with tqdb | apply answers_call; by intros [] | apply answers_call; by intros ].
Ltac answer_step :=
  match goal with
  | |- answers _ _ (mbind _ _) => apply answers_quiet; [quiet|intros ?]
  | |- answers _ _ (match ?x with _ => _ end) => destruct x eqn:?
  | |- answers _ _ _ => by auto with tqdb
  end.

Section Answers.
Context `{UnicodeTables} `{Database}.
Implicit Types (requests : list WriteRequest).

(** A computation that closes a resource afterwards. *)
Lemma answers_finally {A B} n cs (m : M A) (k : A -> M B) :
  answers n cs m -> (forall a, answers n [] (k a)) -> answers n cs (m ≫= k).
Proof. intros. rewrite <- (app_nil_r cs). by apply answers_bind. Qed.

Lemma answers_executeSingle n req : answers n [ResultChan req] (executeSingle req).
Proof.
  unfold executeSingle. apply answers_quiet; [|auto with tqdb].
  unfold executeWrite. repeat answer_step.
Qed.

Lemma answers_executeTrueBatchedDelete requests :
  answers (zlen requests) (ResultChan <$> requests) (executeTrueBatchedDelete requests).
Proof. unfold executeTrueBatchedDelete. repeat answer_step. Qed.

Lemma prepared_rows_spec h n s requests : answers n [] (prepared_rows h n s requests) /\
  forall w w' rs, prepared_rows h n s requests w = Some (w', rs) ->
    length rs = length requests /\ Forall (fun r => is_error r = true \/ Error r = None /\ BatchSize r = n) rs.
Proof.
  induction requests as [|req requests [IHa IHr]]; cbn [prepared_rows].
  { split; [auto with tqdb|]. by intros w w' rs [= <- <-]. }
  assert (Hrow : answers n [] (prepared_row h n s req) /\ forall w w' r, prepared_row h n s req w = Some (w', r) ->
    is_error r = true \/ Error r = None /\ BatchSize r = n).
  { unfold prepared_row. split; [destruct h; repeat answer_step|]. intros w w' r.
    destruct h; unfold mbind, M_bind, StmtQueryRow, StmtExec, call;
      [destruct (stmt_QueryRow _ _ _) as [d [v|e]]|destruct (stmt_Exec _ _ _) as [d [v|e]]];
      intros [= <- <-]; auto. }
  split.
  - apply answers_quiet; [apply Hrow|]. intros r. apply answers_quiet; [apply IHa|auto with tqdb].
  - intros w w' rs. unfold mbind, M_bind. destruct (prepared_row h n s req w) as [[w1 r]|] eqn:E1; [|done].
    destruct (prepared_rows h n s requests w1) as [[w2 rs2]|] eqn:E2; [|done]. intros [= <- <-].
    destruct (IHr _ _ _ E2) as [Hl Hf]. split; [cbn; lia|]. constructor; [by apply Hrow in E1|done].
Qed.

Lemma existsb_is_error n rs : existsb is_error rs = false ->
  Forall (fun r => is_error r = true \/ Error r = None /\ BatchSize r = n) rs ->
  Forall (fun r => Error r = None /\ BatchSize r = n) rs.
Proof.
  intros He. induction 1 as [|r rs Hr Hf IH]; cbn in He; [done|]. apply orb_false_iff in He as [He Hs].
  constructor; [|by apply IH]. by destruct Hr as [?|?]; [congruence|].
Qed.

Lemma answers_executePreparedBatch requests :
  answers (zlen requests) (ResultChan <$> requests) (executePreparedBatch requests).
Proof.
  unfold executePreparedBatch. do 2 answer_step. destruct a0 as [t|err]; [|by auto with tqdb].
  answer_step. destruct a0 as [s|err]; [|by repeat answer_step].
  destruct (prepared_rows_spec (HasReturning a) (zlen requests) s requests) as [Ha Hr].
  apply (answers_quiet_post _ _ _ _ _ Ha Hr). intros rs [Hl Hf]. apply answers_finally.
  - destruct (existsb is_error rs) eqn:E; repeat answer_step. eauto using existsb_is_error with tqdb.
  - intros _. repeat answer_step.
Qed.

Lemma answers_fallback_rows n s requests : answers n (ResultChan <$> requests) (fallback_rows n s requests).
Proof.
  induction requests as [|req requests IH]; cbn [fallback_rows]; [auto with tqdb|]. rewrite fmap_cons.
  answer_step. apply (answers_bind n [ResultChan req]); [|done]. repeat answer_step.
Qed.

Lemma answers_executePreparedBatchFallback requests :
  answers (zlen requests) (ResultChan <$> requests) (executePreparedBatchFallback requests).
Proof.
  unfold executePreparedBatchFallback. do 2 answer_step. destruct a0 as [s|err]; [|by auto with tqdb].
  apply answers_finally; [apply answers_fallback_rows|]. intros _. repeat answer_step.
Qed.

Lemma tx_rows_spec n t requests : forall i, answers n [] (tx_rows n t i requests) /\
  forall w w' rs, tx_rows n t i requests w = Some (w', inl rs) ->
    length rs = length requests /\ Forall (fun r => Error r = None /\ BatchSize r = n) rs.
Proof.
  induction requests as [|req requests IH]; intros i; cbn [tx_rows].
  { split; [auto with tqdb|]. by intros w w' rs [= <- <-]. }
  destruct (IH (S i)) as [IHa IHr]. split.
  - answer_step. destruct a as [result|err]; [|by repeat answer_step].
    apply answers_quiet; [apply IHa|]. intros rs. repeat answer_step.
  - intros w w' rs. unfold mbind, M_bind, TxExec, call. destruct (tx_Exec _ _ _ _) as [d [r|e]]; [|done].
    destruct (tx_rows n t (S i) requests _) as [[w2 [rs2|e]]|] eqn:E2; [|done..]. intros [= <- <-].
    destruct (IHr _ _ _ E2) as [Hl Hf]. split; [cbn; lia|]. by constructor.
Qed.

Lemma answers_executeTransactionBatch requests :
  answers (zlen requests) (ResultChan <$> requests) (executeTransactionBatch requests).
Proof.
  unfold executeTransactionBatch. answer_step. destruct a as [t|err]; [|by auto with tqdb].
  destruct (tx_rows_spec (zlen requests) t requests 0) as [Ha Hr].
  apply (answers_quiet_post (fun x => forall rs, x = inl rs ->
    length rs = length requests /\ Forall (fun r => Error r = None /\ BatchSize r = zlen requests) rs) _ _ _ _ Ha).
  { intros w w' x Hx rs ->. by eapply Hr. }
  intros [rs|[i err]] Hx.
  - destruct (Hx rs eq_refl). repeat answer_step.
  - answer_step.
    assert (E : ResultChan <$> requests = (ResultChan <$> take (S i) requests) ++ (ResultChan <$> drop (S i) requests))
      by by rewrite <- fmap_app, take_drop.
    rewrite E. refine (answers_bind _ _ _ _ _ _ _); auto with tqdb.
Qed.

Lemma answers_insert_outcome m requests r :
  answers (zlen requests) (ResultChan <$> requests) (insert_outcome m requests r).
Proof. unfold insert_outcome. repeat answer_step. Qed.

Lemma answers_executeTrueBatchedInsertMultiRow m requests :
  answers (zlen requests) (ResultChan <$> requests) (executeTrueBatchedInsertMultiRow m requests).
Proof.
  unfold executeTrueBatchedInsertMultiRow. answer_step. destruct (_ =? -1); [apply answers_executePreparedBatchFallback|].
  answer_step. destruct (Nat.eqb _ _); repeat first [apply answers_insert_outcome | answer_step].
Qed.

Lemma answers_copy_rows n s requests : answers n [] (copy_rows s requests).
Proof.
  induction requests as [|req requests IH]; cbn [copy_rows]; [auto with tqdb|]. answer_step. destruct a; auto with tqdb.
Qed.

Lemma answers_executeCopyBatchedInsert m requests :
  answers (zlen requests) (ResultChan <$> requests) (executeCopyBatchedInsert m requests).
Proof.
  unfold executeCopyBatchedInsert.
  repeat first [apply answers_executeTrueBatchedInsertMultiRow
               |apply answers_quiet; [apply answers_copy_rows|intros ?] | answer_step].
Qed.

Lemma answers_executeLoadDataInfileBatchedInsert m requests :
  answers (zlen requests) (ResultChan <$> requests) (executeLoadDataInfileBatchedInsert m requests).
Proof.
  unfold executeLoadDataInfileBatchedInsert. do 2 answer_step.
  destruct a0 as [[table cols]|]; [|apply answers_executeTrueBatchedInsertMultiRow]. do 3 answer_step.
  apply answers_finally; [|intros; quiet].
  repeat first [apply answers_executeTrueBatchedInsertMultiRow | answer_step].
Qed.

Lemma answers_executeBatchedWrites m requests :
  answers (zlen requests) (ResultChan <$> requests) (executeBatchedWrites m requests).
Proof.
  unfold executeBatchedWrites, executeTrueBatchedInsert.
  repeat first [apply answers_executeTrueBatchedInsertMultiRow | apply answers_executeTrueBatchedDelete
               |apply answers_executePreparedBatch | apply answers_executeTransactionBatch
               |apply answers_executeCopyBatchedInsert | apply answers_executeLoadDataInfileBatchedInsert | answer_step].
Qed.

Lemma answers_execute_requests m requests :
  answers (zlen requests) (ResultChan <$> requests) (execute_requests m requests).
Proof.
  unfold execute_requests. apply (answers_quiet_post (fun r => index requests 0 = Some r) _); [auto with tqdb| |].
  { intros w w' a. by destruct (index requests 0); [intros [= <- <-]|]. }
  intros req0 Hreq0. answer_step. do 2 answer_step. apply answers_finally; [|intros _; repeat answer_step].
  destruct (zlen requests =? 1) eqn:E; [|apply answers_executeBatchedWrites]. bool_simpl.
  destruct requests as [|r [|r2 l]]; [done| |rewrite !zlen_cons in E; pose proof (zlen_nonneg l); lia].
  injection Hreq0 as <-. apply answers_executeSingle.
Qed.
End Answers.

(** ** Absence of panics *)

Section Total.
Context `{UnicodeTables} `{Database}.
Implicit Types (requests : list WriteRequest).

Lemma total_bind {A B} (m : M A) (k : A -> M B) : total m -> (forall a, total (k a)) -> total (m ≫= k).
Proof.
  intros Hm Hk w. destruct (Hm w) as (w1 & a & E). destruct (Hk a w1) as (w2 & b & E2).
  exists w2, b. unfold mbind, M_bind. by rewrite E.
Qed.

Lemma total_ret {A} (a : A) : total (mret a).
Proof. intros w. by exists w, a. Qed.

Lemma total_or_panic {A} (o : option A) x : o = Some x -> total (or_panic o).
Proof. intros ->. apply total_ret. Qed.

Lemma total_known {A B} (o : option A) x (k : A -> M B) : o = Some x -> total (k x) -> total (or_panic o ≫= k).
Proof. intros ->. done. Qed.

Lemma total_call {R} (f : dbstate -> dbstate * R) (g : R -> event) : total (call f g).
Proof. intros w. unfold call. destruct (f (db w)). eauto. Qed.

Lemma total_emit e : total (emit e).
Proof. intros w. unfold emit. eauto. Qed.

Lemma total_next_seq : total next_seq.
Proof. intros w. unfold next_seq. eauto. Qed.

Lemma total_notify req n : total (notify req n).
Proof. unfold notify. destruct (OnBatchComplete req); [apply total_emit|apply total_ret]. Qed.

(** Every collector of the executor has one label. *)
Lemma total_with_label c label : length (label_names c) = 1%nat -> is_ascii label = true -> total (with_label c label).
Proof.
  intros Hc Ha. unfold with_label. rewrite WithLabelValues_run; [apply total_ret|done|].
  cbn [forallb]. by rewrite label_ok_utf8 by by apply is_ascii_valid_utf8.
Qed.

Lemma total_count_method {A} s (k : M A) : is_ascii (str s) = true -> total k -> total (count_method s ;; k).
Proof. intros. apply total_bind; [by apply total_with_label|by intros _]. Qed.

Lemma total_for_each {A} (f : A -> M unit) l : (forall x, total (f x)) -> total (for_each f l).
Proof. intros Hf. induction l; cbn [for_each]; [apply total_ret|]. by apply total_bind. Qed.
End Total.

#[export] Hint Resolve total_ret total_call total_emit total_next_seq total_notify : tqdb.

Ltac total_step :=
  match goal with
  | |- total (mbind _ (or_panic _)) => fail 1
  | |- total (mbind _ _) => apply total_bind; [|intros ?]
  | |- total (match ?x with _ => _ end) => destruct x eqn:?
  | |- total (for_each _ _) => apply total_for_each; intros ?
  | |- total _ => first [by auto with tqdb | apply total_call]
  end.

Section TotalStrategies.
Context `{UnicodeTables} `{Database}.
Implicit Types (requests : list WriteRequest) (req : WriteRequest).

Lemma total_send_error requests e : total (send_error requests e).
Proof. unfold send_error, send. repeat total_step. Qed.

Lemma total_send_results l : total (send_results l).
Proof. unfold send_results, send. repeat total_step. Qed.

Lemma total_deliver n l : total (deliver n l).
Proof. unfold deliver, send. repeat total_step. Qed.

Lemma total_deliver_each n requests f : total (deliver_each n requests f).
Proof. apply total_deliver. Qed.

Hint Resolve total_send_error total_send_results total_deliver total_deliver_each : tqdb.

Lemma total_executeSingle req : total (executeSingle req).
Proof. unfold executeSingle, executeWrite, send. repeat total_step. Qed.

Lemma total_prepared_rows h n s requests : total (prepared_rows h n s requests).
Proof.
  induction requests; cbn [prepared_rows]; [auto with tqdb|]. unfold prepared_row. repeat first [done|total_step].
Qed.

Lemma total_fallback_rows n s requests : total (fallback_rows n s requests).
Proof. induction requests; cbn [fallback_rows]; [auto with tqdb|]. unfold send. repeat first [done|total_step]. Qed.

Lemma total_tx_rows n t requests : forall i, total (tx_rows n t i requests).
Proof. induction requests; intros i; cbn [tx_rows]; [auto with tqdb|]. repeat first [done|total_step]. Qed.

Lemma total_copy_rows s requests : total (copy_rows s requests).
Proof. induction requests; cbn [copy_rows]; [auto with tqdb|]. repeat first [done|total_step]. Qed.

Hint Resolve total_prepared_rows total_fallback_rows total_tx_rows total_copy_rows : tqdb.

Lemma total_executePreparedBatch req requests : total (executePreparedBatch (req :: requests)).
Proof. unfold executePreparedBatch. apply (total_known _ req); [done|]. repeat total_step. Qed.

Lemma total_executePreparedBatchFallback req requests : total (executePreparedBatchFallback (req :: requests)).
Proof. unfold executePreparedBatchFallback. apply (total_known _ req); [done|]. repeat total_step. Qed.

Lemma total_executeTransactionBatch requests : total (executeTransactionBatch requests).
Proof. unfold executeTransactionBatch. repeat total_step. Qed.

Lemma total_executeTrueBatchedInsertMultiRow m req requests : is_ascii (Query req) = true ->
  total (executeTrueBatchedInsertMultiRow m (req :: requests)).
Proof.
  intros Ha. unfold executeTrueBatchedInsertMultiRow. apply (total_known _ req); [done|].
  destruct (_ =? -1) eqn:E; [apply total_executePreparedBatchFallback|]. bool_simpl.
  destruct (Index_range (ToUpper (Query req)) (str "VALUES")) as [?|Hr]; [done|].
  unfold zlen in Hr at 1. rewrite length_ToUpper_ascii in Hr by done. change (zlen (str "VALUES")) with 6 in Hr.
  eapply total_known; [apply slice_to_take; unfold zlen in *; lia|].
  unfold insert_outcome. destruct (Nat.eqb _ _).
  - eapply total_known; [apply slice_from_drop; unfold zlen in *; lia|]. repeat total_step.
  - repeat total_step.
Qed.

Lemma total_executeCopyBatchedInsert m req requests : is_ascii (Query req) = true ->
  total (executeCopyBatchedInsert m (req :: requests)).
Proof.
  intros Ha. unfold executeCopyBatchedInsert. apply (total_known _ req); [done|].
  destruct (parseInsertStatement_total _ Ha) as [r Hr]. apply (total_known _ r); [done|].
  repeat first [by apply total_executeTrueBatchedInsertMultiRow|total_step].
Qed.

Lemma total_executeLoadDataInfileBatchedInsert m req requests : is_ascii (Query req) = true ->
  total (executeLoadDataInfileBatchedInsert m (req :: requests)).
Proof.
  intros Ha. unfold executeLoadDataInfileBatchedInsert. apply (total_known _ req); [done|].
  destruct (parseInsertStatement_total _ Ha) as [r Hr]. apply (total_known _ r); [done|].
  repeat first [by apply total_executeTrueBatchedInsertMultiRow|total_step].
Qed.

Lemma total_executeTrueBatchedInsert m req requests : is_ascii (Query req) = true ->
  total (executeTrueBatchedInsert m (req :: requests)).
Proof.
  intros Ha. unfold executeTrueBatchedInsert. apply (total_known _ req); [done|].
  repeat first [by apply total_count_method, total_executeTrueBatchedInsertMultiRow
               |by apply total_count_method, total_executeCopyBatchedInsert
               |by apply total_count_method, total_executeLoadDataInfileBatchedInsert | total_step].
Qed.

(** The WHERE that makes a DELETE batchable is found in the whole statement. *)
Lemma batchable_delete_where q : is_ascii q = true -> isBatchableDelete q = Some true ->
  0 <= Index (ToUpper q) (str " WHERE ") /\ Index (ToUpper q) (str " WHERE ") + 7 <= zlen q.
Proof.
  intros Ha Hd. assert (Hc : Contains (ToUpper q) (str " WHERE ") = true).
  { unfold isBatchableDelete in Hd. destruct (negb _); [discriminate Hd|].
    destruct (Index (ToUpper (skip_comments q)) (str " WHERE ") =? -1) eqn:E; [discriminate Hd|]. apply Z.eqb_neq in E. clear Hd.
    destruct (Index_split _ _ E) as (p1 & p2 & Hs & _). apply Contains_spec.
    destruct (skip_comments_infix q) as (pre & post & Hq). pose proof (is_ascii_skip_comments q Ha) as Hsk.
    rewrite (ToUpper_ascii q) by done. rewrite Hq, !fmap_app. rewrite <- (ToUpper_ascii (skip_comments q)), Hs by done.
    exists ((upper_byte <$> pre) ++ p1), (p2 ++ (upper_byte <$> post)). by rewrite <- !app_assoc. }
  unfold Contains in Hc. destruct (Index_range (ToUpper q) (str " WHERE ")) as [E|Hr]; [by rewrite E in Hc|].
  unfold zlen in Hr at 1. rewrite length_ToUpper_ascii in Hr by done. change (zlen (str " WHERE ")) with 7 in Hr.
  unfold zlen in *. lia.
Qed.

Lemma total_executeTrueBatchedDelete req requests : is_ascii (Query req) = true ->
  isBatchableDelete (Query req) = Some true -> Forall (fun r => Params r <> []) (req :: requests) ->
  total (executeTrueBatchedDelete (req :: requests)).
Proof.
  intros Ha Hd Hp. unfold executeTrueBatchedDelete. apply (total_known _ req); [done|].
  destruct (batchable_delete_where _ Ha Hd) as [Hi Hl].
  eapply total_known; [apply slice_from_drop; lia|].
  destruct (SplitByte _ equals) as [|k ks] eqn:Ek; [by apply SplitByte_ne in Ek|]. apply (total_known _ k); [done|].
  eapply total_known; [apply slice_to_take; lia|].
  assert (exists ps, mapM (fun r => index (Params r) 0) (req :: requests) = Some ps) as [ps Hps].
  { apply mapM_is_Some_2. eapply list.Forall_impl; [exact Hp|]. intros r Hr. unfold compose, index. cbn in *. destruct (Params r); [done|by eexists]. }
  apply (total_known _ ps); [done|]. repeat total_step.
Qed.

(** A batch on which no code path panics: its first statement is ASCII and every
    request of a DELETE that will be combined has a parameter. *)
Record batch_safe requests : Prop := {
  safe_first : exists req rest, requests = req :: rest /\ is_ascii (Query req) = true /\
    (isBatchableDelete (Query req) = Some true -> Forall (fun r => Params r <> []) requests)
}.

Lemma total_execute_requests m requests : batch_safe requests -> total (execute_requests m requests).
Proof.
  intros [(req & rest & -> & Ha & Hdel)]. unfold execute_requests. apply (total_known _ req); [done|].
  destruct (truncateQuery_total (Query req) 50) as [l Hl]; [done|]. apply (total_known _ l); [done|].
  assert (Hla : is_ascii l = true) by (eapply (is_ascii_truncateQuery _ 50); [lia|done..]).
  do 2 (apply total_bind; [by apply total_with_label|intros _]). apply total_bind.
  - destruct (_ =? 1); [apply total_executeSingle|]. unfold executeBatchedWrites. apply (total_known _ req); [done|].
    destruct (forallb _ _); [|by apply total_count_method, total_executeTransactionBatch].
    assert (exists b, (if HasReturning req then Some false else isBatchableInsert (Query req)) = Some b) as [b Hb].
    { destruct (HasReturning req); [eauto|]. apply isBatchableInsert_total. }
    apply (total_known _ b); [done|]. destruct b; [by apply total_executeTrueBatchedInsert|].
    destruct (isBatchableDelete_total _ Ha) as [d Hd]. apply (total_known _ d); [done|].
    destruct d; apply total_count_method; [done|apply total_executeTrueBatchedDelete; eauto|done|apply total_executePreparedBatch].
  - intros _. apply total_bind; [by apply total_with_label|intros _]. destruct (getQueryType_total (Query req)) as (t & Ht & Hta).
    apply (total_known _ t); [done|]. by apply total_with_label.
Qed.
End TotalStrategies.

(** ** Exact traces *)

Section Exact.
Context `{UnicodeTables} `{Database}.
Implicit Types (requests : list WriteRequest) (w : World).

Definition add_events w (ev : list event) : World := MkWorld (db w) (loadDataHandlerSeq w) (log w ++ ev).

Definition error_events requests (e : db_error) : list event :=
  (fun req => ESend (ResultChan req) (error_result (DbError e))) <$> requests.

(** A result, and the callback when the request has one. *)
Definition delivery (n : Z) (x : WriteRequest * WriteResult) : list event :=
  ESend (ResultChan x.1) x.2 :: if OnBatchComplete x.1 then [ECallback (ResultChan x.1) n] else [].
Definition delivery_events (n : Z) (l : list (WriteRequest * WriteResult)) : list event := l ≫= delivery n.

Lemma bind_known {A B} (o : option A) x (k : A -> M B) w : o = Some x -> (or_panic o ≫= k) w = k x w.
Proof. by intros ->. Qed.

Lemma for_each_events {A} (f : A -> M unit) (g : A -> list event) l :
  (forall x w, f x w = Some (add_events w (g x), tt)) ->
  forall w, for_each f l w = Some (add_events w (l ≫= g), tt).
Proof.
  intros Hf. induction l as [|x l IH]; intros w; cbn [for_each].
  - unfold add_events. cbn. rewrite app_nil_r. by destruct w.
  - unfold mbind, M_bind. rewrite Hf, IH. unfold add_events. cbn. by rewrite <- app_assoc.
Qed.

Lemma send_error_run requests e w : send_error requests e w = Some (add_events w (error_events requests e), tt).
Proof.
  unfold send_error. by apply (for_each_events _ (fun req => [ESend (ResultChan req) (error_result (DbError e))])).
Qed.

Lemma deliver_run n l w : deliver n l w = Some (add_events w (delivery_events n l), tt).
Proof.
  unfold deliver, delivery_events. apply for_each_events. intros [req r] w'. unfold delivery, notify, send, emit.
  unfold mbind, M_bind, add_events. cbn. destruct (OnBatchComplete req); cbn; [|done]. by rewrite <- app_assoc.
Qed.

(** Statements run in a transaction, one event each. *)
Lemma tx_rows_events n t requests : forall i w, exists w' rs ev,
  tx_rows n t i requests w = Some (w', rs) /\ log w' = log w ++ ev /\
  match rs with
  | inl rs => length rs = length requests /\ Forall (fun r => Error r = None /\ BatchSize r = n) rs /\
      ev = (fun req => ETxExec (Query req) (Params req) true) <$> requests
  | inr (j, _) => exists pre req post, requests = pre ++ req :: post /\ j = (i + length pre)%nat /\
      ev = ((fun req => ETxExec (Query req) (Params req) true) <$> pre) ++ [ETxExec (Query req) (Params req) false]
  end.
Proof.
  induction requests as [|req requests IH]; intros i w; cbn [tx_rows].
  { exists w, (inl []), []. rewrite app_nil_r. done. }
  unfold mbind, M_bind, TxExec, call. destruct (tx_Exec (db w) t (Query req) (Params req)) as [d [r|e]] eqn:E.
  - destruct (IH (S i) (MkWorld d (loadDataHandlerSeq w) (log w ++ [ETxExec (Query req) (Params req) true])))
      as (w' & rs & ev & Hrun & Hlog & Hrs). cbn [ok]. rewrite Hrun. cbn in Hlog. rewrite <- app_assoc in Hlog. destruct rs as [rs|[j e]].
    + destruct Hrs as (Hl & Hf & ->). eexists w', _, _. split; [done|]. split; [exact Hlog|].
      split; [cbn; lia|]. split; [by constructor|done].
    + destruct Hrs as (pre & req' & post & -> & -> & ->). eexists w', _, _. split; [done|]. split; [exact Hlog|].
      exists (req :: pre), req', post. split; [done|]. split; [cbn; lia|done].
  - eexists _, _, _. split; [done|]. split; [done|]. exists [], req, requests. split; [done|]. split; [cbn; lia|done].
Qed.
End Exact.

(** ** Lemmas: rows of a multi-row INSERT *)

Section Rows.
Context `{UnicodeTables} `{Database}.

Lemma rows_text_eq pg k requests : forall p, rows_text pg k p requests =
  (fun i => row_text pg k (p + Z.of_nat (i * k))) <$> seq 0 (length requests).
Proof.
  induction requests as [|r l IH]; intros p; [done|]. cbn [rows_text length seq]. rewrite fmap_cons. f_equal.
  - f_equal. lia.
  - rewrite IH, <- fmap_S_seq, <- list_fmap_compose. apply list_fmap_ext. intros j x _. unfold compose. f_equal.
    rewrite Nat.mul_succ_l. lia.
Qed.

Lemma concat_params_lookup (k : nat) (requests : list WriteRequest) :
  Forall (fun r => length (Params r) = k) requests ->
  forall i j req, requests !! i = Some req -> (j < k)%nat -> concat (Params <$> requests) !! (i * k + j)%nat = Params req !! j.
Proof.
  induction 1 as [|r l Hr _ IH]; intros i j req Hi Hj; [done|]. rewrite fmap_cons. cbn [concat]. destruct i as [|i].
  - injection Hi as <-. apply lookup_app_l. cbn. lia.
  - rewrite lookup_app_r by (cbn; lia). rewrite <- (IH i j req) by done. f_equal. cbn. lia.
Qed.

Lemma concat_params_length (k : nat) (requests : list WriteRequest) :
  Forall (fun r => length (Params r) = k) requests -> length (concat (Params <$> requests)) = (length requests * k)%nat.
Proof. induction 1 as [|r l Hr _ IH]; [done|]. rewrite fmap_cons. cbn [concat length]. rewrite length_app, IH. lia. Qed.
End Rows.

(** ** Properties *)

Section Properties.
Context `{UnicodeTables} `{Database}.
Implicit Types (requests : list WriteRequest) (w : World).


(** A connection is told the size of its batch only after its own request
    succeeded: in the trace of any batch that finishes, a callback directly
    follows the send of an error-free result to the same request, and both
    carry the number of requests of the batch. *)
Theorem callbacks_follow_results m requests w w' :
  execute_requests m requests w = Some (w', tt) ->
  exists ev, log w' = log w ++ ev /\ callbacks_ok (zlen requests) None ev.
Proof. intros Hr. destruct (answers_execute_requests _ _ _ _ _ Hr) as (ev & ? & _ & ?). eauto. Qed.

(** C15. A batch of different statements is all or nothing: either it was
    committed, after every statement succeeded in order, and only then every
    request gets its own result; or nothing was committed and every request
    gets the same error, a rollback following the first failed statement. *)
Theorem transaction_all_or_nothing requests w : exists w' ev,
  executeTransactionBatch requests w = Some (w', tt) /\ log w' = log w ++ ev /\
  let done := (fun req => ETxExec (Query req) (Params req) true) <$> requests in
  ((exists results, length results = length requests /\
      Forall (fun r => Error r = None /\ BatchSize r = zlen requests) results /\
      ev = [EBegin true] ++ done ++ [ECommit true] ++ delivery_events (zlen requests) (zip requests results)) \/
   (exists e pre, ev = pre ++ error_events requests e /\
      (pre = [EBegin false] \/ pre = [EBegin true] ++ done ++ [ECommit false] \/
       exists l1 req l2, requests = l1 ++ req :: l2 /\
         pre = [EBegin true] ++ ((fun req => ETxExec (Query req) (Params req) true) <$> l1) ++
               [ETxExec (Query req) (Params req) false; ERollback]))).
Proof.
  unfold executeTransactionBatch. unfold mbind at 1, M_bind at 1, Begin, call at 1.
  destruct (db_Begin (db w)) as [d [t|e]] eqn:Eb.
  2:{ rewrite send_error_run. eexists _, _. split; [done|]. cbn. rewrite <- app_assoc. split; [done|]. right.
      exists e, [EBegin false]. eauto. }
  set (w1 := MkWorld _ _ _). destruct (tx_rows_events (zlen requests) t requests 0 w1) as (w2 & rs & ev & Hrun & Hlog & Hrs).
  unfold mbind at 1, M_bind at 1. rewrite Hrun. destruct rs as [results|[j e]].
  - destruct Hrs as (Hl & Hf & ->). unfold mbind, M_bind, Commit, call.
    destruct (tx_Commit (db w2) t) as [d2 [e|]] eqn:Ec.
    + rewrite send_error_run. eexists _, _. split; [done|]. cbn. rewrite Hlog. cbn. rewrite <- !app_assoc. split; [done|].
      right. exists e, ([EBegin true] ++ ((fun req => ETxExec (Query req) (Params req) true) <$> requests) ++ [ECommit false]).
      rewrite <- !app_assoc. split; [done|]. right. by left.
    + rewrite deliver_run. eexists _, _. split; [done|]. cbn. rewrite Hlog. cbn. rewrite <- !app_assoc. split; [done|].
      left. exists results. done.
  - destruct Hrs as (l1 & req & l2 & Hreq & -> & ->). unfold mbind, M_bind, Rollback, call.
    rewrite !send_error_run. eexists _, _. split; [done|]. cbn [add_events log db]. rewrite Hlog. cbn [log w1].
    rewrite <- !app_assoc. split; [done|]. right.
    exists e, ([EBegin true] ++ ((fun req => ETxExec (Query req) (Params req) true) <$> l1) ++
               [ETxExec (Query req) (Params req) false; ERollback]). split; [|right; right; by exists l1, req, l2].
    rewrite <- !app_assoc. cbn [app ok]. do 3 f_equal. unfold error_events. by rewrite <- fmap_app, take_drop.
Qed.


(** A combined DELETE names every request's key: the statement executed
    for a batch of identical single-key DELETEs has one placeholder in its IN
    list for each request, its parameters are the requests' first parameters
    in order, and a failure is reported to all of them. *)
Theorem batched_delete_keys req0 rest keys w :
  let requests := req0 :: rest in
  let i := Index (ToUpper (Query req0)) (str " WHERE ") in
  let key := TrimSpace (default [] (head (SplitByte (drop (Z.to_nat (i + 7)) (Query req0)) equals))) in
  let q := take (Z.to_nat i) (Query req0) ++ str " WHERE " ++ key ++ str " IN (" ++
           Join (replicate (length requests) (str "?")) (str ",") ++ str ")" in
  is_ascii (Query req0) = true -> isBatchableDelete (Query req0) = Some true ->
  mapM (fun r => head (Params r)) requests = Some keys ->
  length keys = length requests /\
  exists w' d r, executeTrueBatchedDelete requests w = Some (w', tt) /\
    db_Exec (db w) q keys = (d, r) /\
    log w' = log w ++ [EExec q keys (ok r)] ++
      match r with
      | inr e => error_events requests e
      | inl res => delivery_events (zlen requests) (zip requests
          (replicate (length requests) (MkResult (RowsAffected res) 0 (zlen requests) [] None)))
      end.
Proof.
  intros requests i key q Ha Hd Hk. split; [symmetry; by eapply length_mapM|].
  destruct (batchable_delete_where _ Ha Hd) as [Hi Hl]. fold i in Hi, Hl.
  unfold executeTrueBatchedDelete. rewrite (bind_known _ req0) by done. cbn zeta. fold i.
  erewrite bind_known by (apply slice_from_drop; lia).
  destruct (SplitByte _ equals) as [|k ks] eqn:Ek; [by apply SplitByte_ne in Ek|]. rewrite (bind_known _ k) by done.
  erewrite bind_known by (apply slice_to_take; lia).
  rewrite (bind_known _ keys) by (rewrite <- Hk; apply mapM_ext; intros r; by destruct (Params r)).
  assert (Hq : take (Z.to_nat i) (Query req0) ++ str " WHERE " ++ TrimSpace k ++ str " IN (" ++
               Join ((fun _ => str "?") <$> requests) (str ",") ++ str ")" = q).
  { subst q key. cbn [head default]. rewrite (const_fmap (fun _ => str "?") _ (str "?")); done. }
  rewrite Hq. unfold mbind, M_bind, Exec, call. destruct (db_Exec (db w) q keys) as [d r] eqn:Ex.
  assert (Hrep : forall res : WriteResult, (fun _ : nat => res) <$> seq 0 (length requests) = replicate (length requests) res)
    by (intros res; rewrite (const_fmap (fun _ => res) _ res), length_seq; done).
  unfold deliver_each. destruct r as [res|e]; eexists _, d, _.
  - fold requests. rewrite Hrep, deliver_run. split; [done|]. split; [done|]. cbn [add_events log]. by rewrite <- app_assoc.
  - rewrite send_error_run. split; [done|]. split; [done|]. cbn [add_events log]. by rewrite <- app_assoc.
Qed.
End Properties.

(** ** A scripted database

    The state is the list of the answers to come: [false] makes the call fail;
    when it is empty every call succeeds, on one row, with id 7. *)

Definition scripted {A} (x : A) (l : list bool) : list bool * (A + unit) :=
  match l with
  | false :: l => (l, inr tt)
  | _ :: l => (l, inl x)
  | [] => ([], inl x)
  end.
Definition scripted_err (l : list bool) : list bool * option unit :=
  match l with
  | false :: l => (l, Some tt)
  | _ :: l => (l, None)
  | [] => ([], None)
  end.
Definition one_row : Result := {| RowsAffected := 1; LastInsertId := 7 |}.

#[local] Existing Instance NoFloats.

#[local] Instance ScriptDB : Database := {|
  dbstate := list bool; tx := unit; stmt := unit; db_error := unit;
  db_Exec d _ _ := scripted one_row d;
  db_Begin d := scripted tt d;
  db_Prepare d _ := scripted tt d;
  tx_Exec d _ _ _ := scripted one_row d;
  tx_Prepare d _ _ := scripted tt d;
  tx_Commit d _ := scripted_err d;
  tx_Rollback d _ := d;
  stmt_Exec d _ _ := scripted one_row d;
  stmt_QueryRow d _ _ := scripted 7 d;
  stmt_Close d _ := (d, None);
  CopyIn table _ := str "COPY " ++ table;
  RegisterReaderHandler d _ _ := d;
  DeregisterReaderHandler d _ := d;
  label_ok := valid_utf8; label_ok_utf8 l Hl := Hl
|}.

#[local] Existing Instance ascii_tables.

Definition script (l : list bool) : World := MkWorld l 0 [].
Definition write (q : string) (ps : list value) (c : nat) : WriteRequest :=
  {| Query := str q; Params := ps; ResultChan := c; OnBatchComplete := true; HasReturning := false |}.
Definition mysql_manager : Manager := {| config := DefaultConfig; firstInsertIDIsFirst := true |}.

(** The driver of MariaDB reports the first id of an INSERT. *)
Example drivers : New (str "*mysql.MySQLDriver") DefaultConfig = mysql_manager /\
  firstInsertIDIsFirst (New (str "*pq.Driver") DefaultConfig) = false.
Proof. vm_compute. split; reflexivity. Qed.

(** ** Witnesses *)

Definition two_deletes : list WriteRequest :=
  [write "DELETE FROM t WHERE id = ?" [VInt Int 1] 10; write "DELETE FROM t WHERE id = ?" [VInt Int 2] 11].
Definition two_inserts : list WriteRequest :=
  [write "INSERT INTO t (a, b) VALUES (?, ?)" [VInt Int 1; VNil] 10;
   write "INSERT INTO t (a, b) VALUES (?, ?)" [VInt Int 2; VString (str "x")] 11].

Lemma two_deletes_safe : batch_safe two_deletes.
Proof.
  constructor. eexists _, _. split; [reflexivity|]. split; [reflexivity|].
  intros _. repeat constructor; discriminate.
Qed.


Lemma callbacks_follow_results_witness :
  exists w' ev, execute_requests mysql_manager two_inserts (script []) = Some (w', tt) /\
    log w' = [] ++ ev /\ callbacks_ok 2 None ev.
Proof.
  eexists. destruct (callbacks_follow_results mysql_manager two_inserts (script []) _ eq_refl) as (ev & E & C).
  exists ev. split; [reflexivity|]. split; [exact E|exact C].
Defined.


Lemma batched_delete_keys_witness : exists w' d r,
  executeTrueBatchedDelete two_deletes (script []) = Some (w', tt) /\
  db_Exec [] (str "DELETE FROM t WHERE id IN (?,?)") [VInt Int 1; VInt Int 2] = (d, r).
Proof.
  destruct (batched_delete_keys (write "DELETE FROM t WHERE id = ?" [VInt Int 1] 10)
    [write "DELETE FROM t WHERE id = ?" [VInt Int 2] 11] [VInt Int 1; VInt Int 2] (script []))
    as (_ & w' & d & r & Hr & Hx & _); [reflexivity|vm_compute; reflexivity|reflexivity|].
  exists w', d, r. split; [exact Hr|exact Hx].
Defined.

(** ** Behaviour worth knowing *)

(** When one execution of a prepared batch fails, the transaction is rolled
    back, and the requests whose own execution succeeded are still told that
    they succeeded although nothing was stored. *)
Example prepared_batch_reports_rolled_back_success :
  let q := "UPDATE t SET a = ? WHERE b = ?"%string in
  log <$> (fst <$> executePreparedBatch [write q [VInt Int 1] 10; write q [VInt Int 2] 11] (script [true; true; true; false])) =
  Some [EBegin true; EPrepare (str q) true; EStmtExec [VInt Int 1] true; EStmtExec [VInt Int 2] false; ERollback;
        ESend 10 (MkResult 1 7 2 [] None); ESend 11 (error_result (DbError tt)); EStmtClose].
Proof. reflexivity. Qed.

(** A DELETE whose WHERE has a further condition without [=] counts as a
    single-key DELETE, and the combined statement drops the condition. *)
Example delete_condition_dropped :
  let q := "DELETE FROM t WHERE id = ? AND age > 30"%string in
  log <$> (fst <$> execute_requests mysql_manager [write q [VInt Int 1] 10; write q [VInt Int 2] 11] (script [false])) =
  Some [EExec (str "DELETE FROM t WHERE id IN (?,?)") [VInt Int 1; VInt Int 2] false;
        ESend 10 (error_result (DbError tt)); ESend 11 (error_result (DbError tt))].
Proof. reflexivity. Qed.

(** A text DELETE with a literal question mark has no parameters: combining two
    of them indexes an empty slice, which ends the process. *)
Example delete_literal_panics :
  let q := "DELETE FROM t WHERE name = '?'"%string in
  execute_requests mysql_manager [write q [] 10; write q [] 11] (script []) = None.
Proof. reflexivity. Qed.

(** A combined INSERT has placeholders only: constants of the row are dropped
    and the statement has fewer values than columns. *)
Example insert_constant_dropped :
  let q := "INSERT INTO t (a, b) VALUES (?, NOW())"%string in
  log <$> (fst <$> execute_requests mysql_manager [write q [VInt Int 1] 10; write q [VInt Int 2] 11] (script [false])) =
  Some [EExec (str "INSERT INTO t (a, b) VALUES (?), (?)") [VInt Int 1; VInt Int 2] false;
        ESend 10 (error_result (DbError tt)); ESend 11 (error_result (DbError tt))].
Proof. reflexivity. Qed.

(** A statement whose 50th byte is inside a character gives a metric label that
    is not UTF-8; a metric library that rejects such labels makes the batch panic. *)
Example label_panics :
  let q := str "INSERT INTO log (message, author) VALUES ('aaaaaaa" in
  let req := {| Query := take 49 q ++ [to_byte 195; to_byte 169] ++ str "')"; Params := []; ResultChan := 10;
                OnBatchComplete := false; HasReturning := false |} in
  execute_requests mysql_manager [req] (script []) = None.
Proof. reflexivity. Qed.
