(* ===== verification/Manager.v ===== *)
(** * Package writebatch: the manager

    src/writebatch/manager.go and the beginning of [executeBatch] in
    src/writebatch/executor.go: concurrent calls of [Enqueue] put their requests
    into groups, a group's timer or a full group starts an execution of it.

    Each call and each execution is a small program; a step is one atomic action
    (an operation of the [sync.Map] of groups, the critical section of a group's
    mutex, a timer, one run of the executor).  Groups are shared by pointer, so
    they live in a heap.  The request of call number [i] is sent its result on
    channel [i]. *)

From Stdlib Require Import Ascii ZArith Lia.
From stdpp Require Import base list gmap strings numbers.
From S2P Require Import Prelude GoStrings BatchText Executor.

Open Scope Z_scope.

Section Manager.
Context `{UnicodeTables} `{Database}.

(** [hasReturningClause] *)
Definition hasReturningClause (query : bytes) : bool := Contains (ToUpper query) (str " RETURNING ").

Inductive timer_state := TimerNil | TimerArmed | TimerOff.   (* never set; running; fired or stopped *)

(** [Requests = None] is the nil slice of a group that has been executed. *)
Record BatchGroup := MkGroup {
  BatchKey : bytes;
  Requests : option (list WriteRequest);
  timer : timer_state
}.

(** Ranging over a nil slice is ranging over an empty one. *)
Definition group_reqs (g : BatchGroup) : list WriteRequest :=
  match Requests g with Some l => l | None => [] end.

(** Program points of [Enqueue]. *)
Inductive qpc :=
| QStart                      (* test m.closed *)
| QLoad                       (* m.groups.Load *)
| QStore                      (* m.groups.LoadOrStore *)
| QLock (g : nat)             (* the critical section of the group *)
| QSpawn (g : nat)            (* full: timer.Stop, go m.executeBatch *)
| QWait                       (* select on the result and the context *)
| QGot (r : WriteResult)      (* returned the result received *)
| QCancelled                  (* returned ctx.Err() *)
| QImmediate (r : WriteResult)  (* batchMs = 0: returned the result of executeImmediate *)
| QRefused.                   (* returned ErrManagerClosed *)

Record enqueue_call := MkCall {
  key : bytes;
  query : bytes;
  params : list value;
  batchMs : Z;
  callback : bool;
  qpc_of : qpc
}.

(** Program points of [executeBatch]. *)
Inductive xpc :=
| XStart (g : nat)            (* test m.closed *)
| XClosed (g : nat)           (* closed: read the requests *)
| XRefuse (l : list WriteRequest)  (* closed: send ErrManagerClosed *)
| XTake (g : nat)             (* take the requests, leave nil *)
| XDelete (g : nat) (l : list WriteRequest)  (* m.groups.CompareAndDelete *)
| XRun (l : list WriteRequest)
| XDone.

Record state := MkState {
  groups : gmap bytes nat;
  heap : list BatchGroup;
  closed : bool;
  batchCount : Z;
  calls : list enqueue_call;
  execs : list (bytes * xpc);
  world : World
}.

Variable m : Manager.

(** [executeImmediate], without the log line. *)
Definition executeImmediate (q : bytes) (ps : list value) : M WriteResult :=
  r ← Exec q ps;
  match r with
  | inr err => mret (error_result (DbError err))
  | inl result => mret (MkResult (RowsAffected result) (LastInsertId result) 0 [] None)
  end.

(** The request of call [i]. *)
Definition request (i : nat) (c : enqueue_call) : WriteRequest :=
  {| Query := query c; Params := params c; ResultChan := i; OnBatchComplete := callback c;
     HasReturning := hasReturningClause (query c) |}.

(** ** Steps *)

Definition set_pc (c : enqueue_call) (p : qpc) : enqueue_call := MkCall (key c) (query c) (params c) (batchMs c) (callback c) p.
Definition goto (s : state) (i : nat) (c : enqueue_call) (p : qpc) : list enqueue_call := <[i := set_pc c p]> (calls s).

(** The result sent on a channel. *)
Fixpoint received (i : nat) (ev : list event) : option WriteResult :=
  match ev with
  | [] => None
  | ESend c r :: ev => if decide (c = i) then Some r else received i ev
  | _ :: ev => received i ev
  end.

Definition enqueue_step (s : state) (i : nat) : option state :=
  c ← calls s !! i;
  match qpc_of c with
  | QStart =>
      if closed s then
        Some (MkState (groups s) (heap s) (closed s) (batchCount s) (goto s i c QRefused) (execs s) (world s))
      else if batchMs c =? 0 then
        '(w, r) ← executeImmediate (query c) (params c) (world s);
        '(w, _) ← notify (request i c) (BatchSize r) w;
        Some (MkState (groups s) (heap s) (closed s) (batchCount s) (goto s i c (QImmediate r)) (execs s) w)
      else
        Some (MkState (groups s) (heap s) (closed s) (batchCount s) (goto s i c QLoad) (execs s) (world s))
  | QLoad =>
      let p := match groups s !! key c with Some g => QLock g | None => QStore end in
      Some (MkState (groups s) (heap s) (closed s) (batchCount s) (goto s i c p) (execs s) (world s))
  | QStore =>
      match groups s !! key c with
      | Some g =>
          Some (MkState (groups s) (heap s) (closed s) (batchCount s) (goto s i c (QLock g)) (execs s) (world s))
      | None =>
          let g := length (heap s) in
          Some (MkState (<[key c := g]> (groups s)) (heap s ++ [MkGroup (key c) (Some []) TimerNil])
                  (closed s) (batchCount s) (goto s i c (QLock g)) (execs s) (world s))
      end
  | QLock g =>
      group ← heap s !! g;
      match Requests group with
      | None =>                              (* retry: return m.Enqueue(...) *)
          Some (MkState (groups s) (heap s) (closed s) (batchCount s) (goto s i c QStart) (execs s) (world s))
      | Some reqs =>
          let isFirst := zlen reqs =? 0 in
          let reqs := reqs ++ [request i c] in
          if isFirst then
            Some (MkState (groups s) (<[g := MkGroup (BatchKey group) (Some reqs) TimerArmed]> (heap s))
                    (closed s) (batchCount s) (goto s i c QWait) (execs s) (world s))
          else
            let h := <[g := MkGroup (BatchKey group) (Some reqs) (timer group)]> (heap s) in
            if MaxBatchSize (config m) <=? zlen reqs then
              Some (MkState (delete (key c) (groups s)) h (closed s) (batchCount s) (goto s i c (QSpawn g)) (execs s) (world s))
            else
              Some (MkState (groups s) h (closed s) (batchCount s) (goto s i c QWait) (execs s) (world s))
      end
  | QSpawn g =>
      let stop t := match t with TimerArmed => TimerOff | t => t end in
      let h := alter (fun group => MkGroup (BatchKey group) (Requests group) (stop (timer group))) g (heap s) in
      Some (MkState (groups s) h (closed s) (batchCount s) (goto s i c QWait) (execs s ++ [(key c, XStart g)]) (world s))
  | QWait =>
      r ← received i (log (world s));
      Some (MkState (groups s) (heap s) (closed s) (batchCount s) (goto s i c (QGot r)) (execs s) (world s))
  | QGot _ | QCancelled | QImmediate _ | QRefused => None
  end.

(** [<-ctx.Done()] *)
Definition cancel_step (s : state) (i : nat) : option state :=
  c ← calls s !! i;
  match qpc_of c with
  | QWait => Some (MkState (groups s) (heap s) (closed s) (batchCount s) (goto s i c QCancelled) (execs s) (world s))
  | _ => None
  end.

(** The timer of a group fires. *)
Definition fire_step (s : state) (g : nat) : option state :=
  group ← heap s !! g;
  match timer group with
  | TimerArmed =>
      Some (MkState (groups s) (<[g := MkGroup (BatchKey group) (Requests group) TimerOff]> (heap s)) (closed s)
              (batchCount s) (calls s) (execs s ++ [(BatchKey group, XStart g)]) (world s))
  | _ => None
  end.

Definition refuse (l : list WriteRequest) : M unit :=
  for_each (fun req => send req (error_result ErrManagerClosed)) l.

Definition exec_step (s : state) (e : nat) : option state :=
  '(k, p) ← execs s !! e;
  let next p := <[e := (k, p)]> (execs s) in
  match p with
  | XStart g =>
      Some (MkState (groups s) (heap s) (closed s) (batchCount s) (calls s)
              (next (if closed s then XClosed g else XTake g)) (world s))
  | XClosed g =>
      group ← heap s !! g;
      Some (MkState (groups s) (heap s) (closed s) (batchCount s) (calls s)
              (next (XRefuse (group_reqs group))) (world s))
  | XRefuse l =>
      '(w, _) ← refuse l (world s);
      Some (MkState (groups s) (heap s) (closed s) (batchCount s) (calls s) (next XDone) w)
  | XTake g =>
      group ← heap s !! g;
      Some (MkState (groups s) (<[g := MkGroup (BatchKey group) None (timer group)]> (heap s)) (closed s) (batchCount s)
              (calls s) (next (XDelete g (group_reqs group))) (world s))
  | XDelete g l =>
      let gs := if decide (groups s !! k = Some g) then delete k (groups s) else groups s in
      match l with
      | [] => Some (MkState gs (heap s) (closed s) (batchCount s) (calls s) (next XDone) (world s))
      | _ => Some (MkState gs (heap s) (closed s) (int64 (batchCount s + 1)) (calls s) (next (XRun l)) (world s))
      end
  | XRun l =>
      '(w, _) ← execute_requests m l (world s);
      Some (MkState (groups s) (heap s) (closed s) (batchCount s) (calls s) (next XDone) w)
  | XDone => None
  end.

Inductive step : state -> state -> Prop :=
| step_enqueue s c : qpc_of c = QStart ->
    step s (MkState (groups s) (heap s) (closed s) (batchCount s) (calls s ++ [c]) (execs s) (world s))
| step_progress s i s' : enqueue_step s i = Some s' -> step s s'
| step_cancel s i s' : cancel_step s i = Some s' -> step s s'
| step_fire s g s' : fire_step s g = Some s' -> step s s'
| step_exec s e s' : exec_step s e = Some s' -> step s s'
| step_close s :
    step s (MkState (groups s) (heap s) true (batchCount s) (calls s) (execs s) (world s)).

(** [New]: no group, nothing sent yet. *)
Definition init (d : dbstate) : state := MkState ∅ [] false 0 [] [] (MkWorld d 0 []).
End Manager.

Arguments state {_ _}.
Arguments enqueue_call {_ _}.
Arguments BatchGroup {_}.

(** ** Counting requests *)

Section Counting.
Context `{UnicodeTables} `{Database}.
Implicit Types (s : state) (l : list WriteRequest).

Definition exec_reqs (x : bytes * xpc) : list WriteRequest :=
  match x.2 with XDelete _ l | XRun l | XRefuse l => l | _ => [] end.

Definition occ (i : nat) l : nat := length (filter (fun r => ResultChan r = i) l).
Definition occ_sent (i : nat) s : nat := length (filter (fun c => c = i) (sent (log (world s)))).

(** Where the request of call [i] is: waiting in a group, taken by an
    execution, or answered. *)
Definition places s (i : nat) : nat :=
  (sum_list_with (fun g => occ i (group_reqs g)) (heap s) +
   sum_list_with (fun x => occ i (exec_reqs x)) (execs s) + occ_sent i s)%nat.

(** The calls that have put their request into a group. *)
Definition appended (p : qpc) : bool :=
  match p with QSpawn _ | QWait | QGot _ | QCancelled => true | _ => false end.
Definition due s (i : nat) : nat :=
  match calls s !! i with Some c => if appended (qpc_of c) then 1%nat else 0%nat | None => 0%nat end.

(** ** Lemmas *)

Lemma sum_insert {A} (f : A -> nat) (h : list A) g x y : h !! g = Some x ->
  (sum_list_with f (<[g := y]> h) + f x = sum_list_with f h + f y)%nat.
Proof.
  revert g. induction h as [|z h IH]; intros [|g] Hg; [done|done| |].
  - injection Hg as ->. change (<[0%nat := y]> (x :: h)) with (y :: h). cbn [sum_list_with]. lia.
  - change (<[S g := y]> (z :: h)) with (z :: <[g := y]> h). cbn [sum_list_with]. specialize (IH g Hg). lia.
Qed.

Lemma alter_insert {A} (f : A -> A) (h : list A) g x : h !! g = Some x -> alter f g h = <[g := f x]> h.
Proof.
  intros Hg. apply list_eq. intros j. destruct (decide (j = g)) as [->|].
  - by rewrite list_lookup_alter_eq, list_lookup_insert_eq, Hg by by eapply lookup_lt_Some.
  - by rewrite list_lookup_alter_ne, list_lookup_insert_ne.
Qed.

Lemma sum_snoc {A} (f : A -> nat) (h : list A) x : sum_list_with f (h ++ [x]) = (sum_list_with f h + f x)%nat.
Proof. rewrite sum_list_with_app. cbn. lia. Qed.

Lemma sum_lookup {A} (f : A -> nat) (h : list A) g x : h !! g = Some x -> (f x <= sum_list_with f h)%nat.
Proof.
  revert g. induction h as [|z h IH]; intros [|g] Hg; [done|done| |]; cbn [sum_list_with]; [injection Hg as ->; lia|].
  specialize (IH g Hg). lia.
Qed.

Lemma sum_pos {A} (f : A -> nat) (h : list A) : (0 < sum_list_with f h)%nat -> exists g x, h !! g = Some x /\ (0 < f x)%nat.
Proof.
  induction h as [|z h IH]; cbn; [lia|]. intros Hp. destruct (decide (0 < f z)%nat); [by exists 0%nat, z|].
  destruct IH as (g & x & ? & ?); [lia|]. by exists (S g), x.
Qed.

Lemma occ_app i l1 l2 : occ i (l1 ++ l2) = (occ i l1 + occ i l2)%nat.
Proof. unfold occ. by rewrite list.filter_app, length_app. Qed.

Lemma occ_single i r : occ i [r] = if decide (ResultChan r = i) then 1%nat else 0%nat.
Proof. unfold occ. rewrite filter_cons. by destruct (decide (ResultChan r = i)). Qed.

Lemma occ_chans i l : occ i l = length (filter (fun c => c = i) (ResultChan <$> l)).
Proof.
  unfold occ. induction l as [|r l IH]; [done|]. rewrite fmap_cons, !filter_cons.
  destruct (decide (ResultChan r = i)); cbn; by rewrite IH.
Qed.

Lemma occ_pos i l : (0 < occ i l)%nat -> exists r, r ∈ l /\ ResultChan r = i.
Proof.
  unfold occ. destruct (filter _ l) as [|r k] eqn:E; cbn; [lia|]. intros _. exists r.
  assert (Hr : r ∈ filter (fun r => ResultChan r = i) l) by (rewrite E; by left).
  apply list_elem_of_filter in Hr as [? ?]. done.
Qed.

Lemma elem_of_occ i l r : r ∈ l -> ResultChan r = i -> (0 < occ i l)%nat.
Proof.
  intros Hr Hi. unfold occ. assert (Hin : r ∈ filter (fun r => ResultChan r = i) l) by by apply list_elem_of_filter.
  destruct (filter _ l); [by apply not_elem_of_nil in Hin|]. cbn. lia.
Qed.

(** A call that moves from a point before the group to another one. *)
Lemma due_goto s i c p gs h cl n xs w j : calls s !! i = Some c ->
  due (MkState gs h cl n (goto s i c p) xs w) j = if decide (j = i) then (if appended p then 1%nat else 0%nat) else due s j.
Proof.
  intros Hi. unfold due, goto. cbn. destruct (decide (j = i)) as [->|Hne].
  - by rewrite list_lookup_insert_eq by by eapply lookup_lt_Some.
  - by rewrite list_lookup_insert_ne by done.
Qed.

Lemma due_same s i c : calls s !! i = Some c -> due s i = if appended (qpc_of c) then 1%nat else 0%nat.
Proof. intros Hi. unfold due. by rewrite Hi. Qed.
End Counting.

(** ** Well-formed states *)

Section WellFormed.
Context `{UnicodeTables} `{Database}.
Implicit Types (s : state).

(** The request is the one of a call with this key. *)
Definition from (cs : list enqueue_call) (k : bytes) (r : WriteRequest) : Prop :=
  exists c, cs !! ResultChan r = Some c /\ key c = k /\ r = request (ResultChan r) c.
Definition group_at (h : list BatchGroup) (k : bytes) (g : nat) : Prop :=
  exists grp, h !! g = Some grp /\ BatchKey grp = k.

(** The groups a program point refers to. *)
Definition qpc_group (p : qpc) : option nat := match p with QLock g | QSpawn g => Some g | _ => None end.
Definition xpc_group (p : xpc) : option nat :=
  match p with XStart g | XClosed g | XTake g | XDelete g _ => Some g | _ => None end.

(** Everything filed under a key belongs to that key, and requests carry the
    statement and the parameters of their calls. *)
Record wf s : Prop := {
  wf_groups k g : groups s !! k = Some g -> group_at (heap s) k g;
  wf_calls i c g : calls s !! i = Some c -> qpc_group (qpc_of c) = Some g -> group_at (heap s) (key c) g;
  wf_execs e k p g : execs s !! e = Some (k, p) -> xpc_group p = Some g -> group_at (heap s) k g;
  wf_group_reqs g grp r : heap s !! g = Some grp -> r ∈ group_reqs grp -> from (calls s) (BatchKey grp) r;
  wf_exec_reqs e x r : execs s !! e = Some x -> r ∈ exec_reqs x -> from (calls s) x.1 r
}.

Lemma from_goto s i c p k r : calls s !! i = Some c -> from (calls s) k r -> from (goto s i c p) k r.
Proof.
  intros Hi (c' & Hc & Hk & Hr). unfold goto. destruct (decide (ResultChan r = i)) as [<-|Hne].
  - exists (set_pc c p). rewrite list_lookup_insert_eq by by eapply lookup_lt_Some. by simplify_eq.
  - exists c'. by rewrite list_lookup_insert_ne.
Qed.

Lemma from_app cs c k r : from cs k r -> from (cs ++ [c]) k r.
Proof. intros (c' & Hc & ?). exists c'. split; [by apply lookup_app_l_Some|done]. Qed.

Lemma group_at_insert h g grp grp' k g' : h !! g = Some grp -> BatchKey grp' = BatchKey grp ->
  group_at h k g' -> group_at (<[g := grp']> h) k g'.
Proof.
  intros Hg Hk (x & Hx & Hb). destruct (decide (g' = g)) as [->|].
  - exists grp'. rewrite list_lookup_insert_eq by by eapply lookup_lt_Some. simplify_eq. done.
  - exists x. by rewrite list_lookup_insert_ne.
Qed.

Lemma group_at_app h grp k g : group_at h k g -> group_at (h ++ [grp]) k g.
Proof. intros (x & Hx & ?). exists x. split; [by apply lookup_app_l_Some|done]. Qed.

Lemma group_at_new h k g k' : g = length h -> k = k' -> group_at (h ++ [MkGroup k (Some []) TimerNil]) k' g.
Proof. intros -> ->. eexists. split; [by apply list_lookup_middle|done]. Qed.
End WellFormed.

#[export] Hint Resolve from_goto from_app group_at_insert group_at_app group_at_new : tqdb.

(** Case analysis on lookups in updated lists. *)
Ltac lookups :=
  repeat match goal with
  | E : <[_ := _]> _ !! _ = Some _ |- _ =>
      apply list_lookup_insert_Some in E as [(<- & E & _)|[? E]]; [simplify_eq|]
  | E : (_ ++ [_]) !! _ = Some _ |- _ =>
      apply lookup_app_Some in E as [E|[_ E]]; [|apply list_lookup_singleton_Some in E as [_ E]; simplify_eq]
  | E : goto _ _ _ _ !! _ = Some _ |- _ => unfold goto in E
  end.

Section WellFormedStep.
Context `{UnicodeTables} `{Database}.
Variable m : Manager.
Implicit Types (s : state).

(** A call moves to a point that refers to at most a group of its key. *)
Lemma wf_move s i c p cl n w : calls s !! i = Some c -> wf s ->
  (forall g, qpc_group p = Some g -> group_at (heap s) (key c) g) ->
  wf (MkState (groups s) (heap s) cl n (goto s i c p) (execs s) w).
Proof.
  intros Hi [Hg Hc Hx Hgr Hxr] Hp. split; cbn; eauto with tqdb.
  intros j c' g Hj Hq. lookups; eauto.
Qed.

(** A request is appended to the group of its key. *)
Lemma wf_append s i c g grp reqs gs t p : wf s -> calls s !! i = Some c -> heap s !! g = Some grp -> Requests grp = Some reqs ->
  BatchKey grp = key c -> (forall k g, gs !! k = Some g -> groups s !! k = Some g) -> (forall g', qpc_group p = Some g' -> g' = g) ->
  wf (MkState gs (<[g := MkGroup (BatchKey grp) (Some (reqs ++ [request i c])) t]> (heap s)) (closed s) (batchCount s)
        (goto s i c p) (execs s) (world s)).
Proof.
  intros [Hg Hc Hx Hgr Hxr] Hi Hh Hreq Hk Hgs Hp. split; cbn.
  - intros k g' Hk'. apply Hgs, Hg in Hk'. eauto with tqdb.
  - intros j c' g' Hj Hq. lookups; [|eauto with tqdb]. cbn in *. rewrite (Hp _ Hq).
    eapply group_at_insert; eauto. by exists grp.
  - eauto with tqdb.
  - intros g' grp' r Hl Hr. lookups; [|eauto with tqdb]. cbn in *. apply elem_of_app in Hr as [Hr|Hr%list_elem_of_singleton].
    + apply from_goto; [done|]. apply (Hgr _ _ _ Hh). unfold group_reqs. by rewrite Hreq.
    + subst r. exists (set_pc c p). unfold goto. rewrite list_lookup_insert_eq by by eapply lookup_lt_Some. done.
  - eauto with tqdb.
Qed.

Lemma wf_enqueue_step s i s' : wf s -> enqueue_step m s i = Some s' -> wf s'.
Proof.
  intros Hwf Hs. pose proof Hwf as [Hg Hc Hx Hgr Hxr]. unfold enqueue_step in Hs.
  destruct (calls s !! i) as [c|] eqn:Hi; [|done]. cbn [mbind option_bind] in Hs.
  destruct (qpc_of c) as [| | |g|g| |r| |r|] eqn:Hpc.
  - destruct (closed s); [simplify_eq; by apply wf_move|]. destruct (batchMs c =? 0).
    + destruct (executeImmediate _ _ _) as [[w r]|]; [|done]. cbn [mbind option_bind] in Hs.
      destruct (notify _ _ _) as [[w2 u]|]; [|done]. simplify_eq/=. by apply wf_move.
    + simplify_eq. by apply wf_move.
  - simplify_eq. apply wf_move; [done..|]. intros g. destruct (groups s !! key c) eqn:E; [|done].
    intros [= ->]. by apply Hg.
  - destruct (groups s !! key c) as [g|] eqn:E; simplify_eq.
    + apply wf_move; [done..|]. intros g' [= <-]. by apply Hg.
    + split; cbn.
      * intros k g. destruct (decide (k = key c)) as [->|].
        -- rewrite lookup_insert_eq. intros [= <-]. eauto with tqdb.
        -- rewrite lookup_insert_ne by done. eauto with tqdb.
      * intros j c' g Hj Hq. lookups; [|eauto with tqdb]. cbn in Hq. simplify_eq. eauto with tqdb.
      * eauto with tqdb.
      * intros g grp r Hh Hr. lookups; [eauto with tqdb|]. by apply not_elem_of_nil in Hr.
      * eauto with tqdb.
  - destruct (heap s !! g) as [grp|] eqn:Hh; [|done]. cbn [mbind option_bind] in Hs.
    destruct (Requests grp) as [reqs|] eqn:Hreq; [|simplify_eq; by apply wf_move].
    destruct (Hc i c g Hi) as (grp' & Hh' & Hk); [by rewrite Hpc|]. assert (grp' = grp) as -> by congruence.
    pose proof (fun gs t p => wf_append s i c g grp reqs gs t p Hwf Hi Hh Hreq Hk) as Hwf'.
    destruct (zlen reqs =? 0); [simplify_eq; by apply Hwf'|].
    destruct (_ <=? _); simplify_eq; [|by apply Hwf']. apply Hwf'; [|by intros g' [= <-]].
    intros k g' Hk'. by apply lookup_delete_Some in Hk' as [_ ?].
  - simplify_eq. assert (Hat : group_at (heap s) (key c) g) by (apply (Hc i); [done|by rewrite Hpc]).
    destruct Hat as (grp & Hh & Hk) eqn:Eat. clear Eat. rewrite (alter_insert _ _ _ _ Hh). split; cbn.
    + eauto with tqdb.
    + intros j c' g' Hj Hq. lookups; eauto with tqdb.
    + intros e k p g' He Hq. lookups; [eauto with tqdb|]. cbn in Hq. simplify_eq. eauto with tqdb.
    + intros g' grp' r Hl Hr. lookups; [apply from_goto; [done|]; by apply (Hgr _ _ _ Hh)|eauto with tqdb].
    + intros e x r He Hr. lookups; [eauto with tqdb|]. by apply not_elem_of_nil in Hr.
  - destruct (received _ _); [|done]. simplify_eq/=. by apply wf_move.
  - done.
  - done.
  - done.
  - done.
Qed.

Lemma wf_cancel_step s i s' : wf s -> cancel_step s i = Some s' -> wf s'.
Proof.
  intros Hwf Hs. unfold cancel_step in Hs. destruct (calls s !! i) as [c|] eqn:Hi; [|done]. cbn in Hs.
  destruct (qpc_of c); simplify_eq. by apply wf_move.
Qed.

Lemma wf_fire_step s g s' : wf s -> fire_step s g = Some s' -> wf s'.
Proof.
  intros [Hg Hc Hx Hgr Hxr] Hs. unfold fire_step in Hs. destruct (heap s !! g) as [grp|] eqn:Hh; [|done]. cbn in Hs.
  destruct (timer grp); simplify_eq. assert (Hat : group_at (heap s) (BatchKey grp) g) by by exists grp.
  split; cbn; [eauto with tqdb..| |].
  - intros e k p g' He Hq. lookups; [eauto with tqdb|]. cbn in Hq. simplify_eq. eauto with tqdb.
  - intros g' grp' r Hl Hr. lookups; [by apply (Hgr _ _ _ Hh)|eauto].
  - intros e x r He Hr. lookups; [eauto with tqdb|]. by apply not_elem_of_nil in Hr.
Qed.

(** An execution moves on: it may take the requests of its group. *)
Lemma wf_exec_move s e k p p' gs cl n w : execs s !! e = Some (k, p) -> wf s ->
  (forall k g, gs !! k = Some g -> groups s !! k = Some g) ->
  (forall g, xpc_group p' = Some g -> group_at (heap s) k g) ->
  (forall r, r ∈ exec_reqs (k, p') -> from (calls s) k r) ->
  wf (MkState gs (heap s) cl n (calls s) (<[e := (k, p')]> (execs s)) w).
Proof.
  intros He [Hg Hc Hx Hgr Hxr] Hgs Hp Hr. split; cbn; eauto with tqdb.
  - intros e' k' q g He' Hq. lookups; eauto.
  - intros e' x r He' Hin. lookups; eauto.
Qed.

Lemma wf_exec_step s e s' : wf s -> exec_step m s e = Some s' -> wf s'.
Proof.
  intros Hwf Hs. pose proof Hwf as [Hg Hc Hx Hgr Hxr]. unfold exec_step in Hs.
  destruct (execs s !! e) as [[k p]|] eqn:He; [|done]. cbn [mbind option_bind] in Hs.
  assert (Hno : forall r, r ∈ [] -> from (calls s) k r) by (intros r Hr; by apply not_elem_of_nil in Hr).
  destruct p as [g|g|l|g|g l|l|].
  - simplify_eq. eapply wf_exec_move; eauto; [|by destruct (closed s)].
    intros g' Hg'. apply (Hx _ _ _ _ He). by destruct (closed s).
  - destruct (heap s !! g) as [grp|] eqn:Hh; [|done]. simplify_eq/=. eapply wf_exec_move; eauto; [done|].
    destruct (Hx _ _ _ g He eq_refl) as (grp' & ? & <-). simplify_eq. intros r Hr. eauto.
  - destruct (refuse _ _) as [[w u]|]; [|done]. simplify_eq/=. by eapply wf_exec_move.
  - destruct (heap s !! g) as [grp|] eqn:Hh; [|done]. simplify_eq/=.
    destruct (Hx _ _ _ g He eq_refl) as (grp' & ? & <-). simplify_eq.
    assert (Hat : group_at (heap s) (BatchKey grp) g) by by exists grp.
    split; cbn; [eauto with tqdb..| |].
    + intros e' k' q g' He' Hq. lookups; [|eauto with tqdb]. cbn in Hq. simplify_eq. eauto with tqdb.
    + intros g' grp' r Hl Hr. lookups; [by apply not_elem_of_nil in Hr|eauto].
    + intros e' x r He' Hr. lookups; [by apply (Hgr _ _ _ Hh)|eauto].
  - assert (Hgs : forall k' g', (if decide (groups s !! k = Some g) then delete k (groups s) else groups s) !! k' = Some g' ->
      groups s !! k' = Some g').
    { intros k' g'. destruct (decide _); [|done]. rewrite lookup_delete_Some. by intros [_ ?]. }
    destruct l as [|r l]; simplify_eq; (eapply wf_exec_move; eauto; try done). intros r' Hr. by apply (Hxr _ _ _ He).
  - destruct (execute_requests _ _ _) as [[w u]|]; [|done]. simplify_eq/=. by eapply wf_exec_move.
  - done.
Qed.

Lemma wf_step s s' : wf s -> step m s s' -> wf s'.
Proof.
  intros Hwf Hs. destruct Hs as [s c Hq|s i s' Hs|s i s' Hs|s g s' Hs|s e s' Hs|s].
  - destruct Hwf as [Hg Hc Hx Hgr Hxr]. split; cbn; eauto with tqdb.
    intros j c' g Hj Hp. lookups; [eauto|]. by rewrite Hq in Hp.
  - by eapply wf_enqueue_step.
  - by eapply wf_cancel_step.
  - by eapply wf_fire_step.
  - by eapply wf_exec_step.
  - destruct Hwf. by split.
Qed.

Lemma wf_init d : wf (init d).
Proof. split; cbn; intros *; rewrite ?lookup_empty, ?lookup_nil; done. Qed.
End WellFormedStep.

(** ** Every request is in one place *)

(** All results of a step, from an equation that says it succeeds. *)
Ltac explode Hs :=
  unfold mbind, option_bind in Hs; cbv beta zeta iota in Hs;
  match type of Hs with
  | None = Some _ => discriminate Hs
  | Some _ = Some _ => injection Hs as <-
  | context [match ?x with _ => _ end] => destruct x eqn:?; explode Hs
  end.

Section Counted.
Context `{UnicodeTables} `{Database}.
Variable m : Manager.
Implicit Types (s : state).

(** While the manager is open no execution is on its way to refuse requests. *)
Definition refusing (p : xpc) : bool := match p with XClosed _ | XRefuse _ => true | _ => false end.

Record counted s : Prop := {
  counted_places i : places s i = due s i;
  counted_open e k p : execs s !! e = Some (k, p) -> refusing p = false
}.

(** Immediate execution sends on no channel. *)
Lemma immediate_sent q ps n req w w1 r w2 u :
  executeImmediate q ps w = Some (w1, r) -> notify req n w1 = Some (w2, u) -> sent (log w2) = sent (log w).
Proof.
  unfold executeImmediate, mbind, M_bind, Exec, call. destruct (db_Exec (db w) q ps) as [d [x|e]]; intros [= <- <-];
    unfold notify, emit; destruct (OnBatchComplete req); intros [= <- <-]; cbn [log];
    rewrite !sent_app; change (sent [_]) with (@nil nat); by rewrite ?app_nil_r.
Qed.

(** A call moves without touching groups: it stays in or out of them. *)
Lemma counted_move s i c p cl n w : calls s !! i = Some c -> counted s ->
  appended p = appended (qpc_of c) -> sent (log w) = sent (log (world s)) ->
  counted (MkState (groups s) (heap s) cl n (goto s i c p) (execs s) w).
Proof.
  intros Hi [Hp Ho] Ha Hw. split; [|done]. intros j. rewrite (due_goto _ _ _ _ _ _ _ _ _ _ _ Hi).
  unfold places, occ_sent in *. cbn. rewrite Hw, Hp. destruct (decide (j = i)) as [->|]; [|done].
  by rewrite (due_same _ _ _ Hi), Ha.
Qed.

Lemma counted_enqueue_step s i s' : wf s -> counted s -> enqueue_step m s i = Some s' -> counted s'.
Proof.
  intros Hwf Hct Hs. pose proof Hct as [Hp Ho]. unfold enqueue_step in Hs.
  destruct (calls s !! i) as [c|] eqn:Hi; [|done]. cbn [mbind option_bind] in Hs.
  destruct (qpc_of c) as [| | |g|g| |r| |r|] eqn:Hpc; try done.
  - destruct (closed s); [simplify_eq; apply counted_move; by rewrite ?Hpc|]. destruct (batchMs c =? 0).
    + destruct (executeImmediate _ _ _) as [[w r]|] eqn:E1; [|done]. cbn [mbind option_bind] in Hs.
      destruct (notify _ _ _) as [[w2 u]|] eqn:E2; [|done]. simplify_eq/=.
      apply counted_move; rewrite ?Hpc; [done..|]. by eapply immediate_sent.
    + simplify_eq. apply counted_move; by rewrite ?Hpc.
  - simplify_eq. apply counted_move; rewrite ?Hpc; [done..| |done]. by destruct (groups s !! key c).
  - destruct (groups s !! key c) as [g|] eqn:E; simplify_eq; [apply counted_move; by rewrite ?Hpc|].
    split; [|done]. intros j. rewrite (due_goto _ _ _ _ _ _ _ _ _ _ _ Hi). unfold places, occ_sent in *. cbn [heap execs world].
    rewrite sum_snoc. specialize (Hp j). cbn [group_reqs Requests]. change (occ j []) with 0%nat.
    destruct (decide (j = i)) as [->|]; [|lia]. rewrite (due_same _ _ _ Hi), Hpc in Hp. cbn in *. lia.
  - destruct (heap s !! g) as [grp|] eqn:Hh; [|done]. cbn [mbind option_bind] in Hs.
    destruct (Requests grp) as [reqs|] eqn:Hreq; [|simplify_eq; apply counted_move; by rewrite ?Hpc].
    assert (Happ : forall gs t p, appended p = true ->
      counted (MkState gs (<[g := MkGroup (BatchKey grp) (Some (reqs ++ [request i c])) t]> (heap s)) (closed s) (batchCount s)
            (goto s i c p) (execs s) (world s))).
    { intros gs t p Hap. split; [|done]. intros j. rewrite (due_goto _ _ _ _ _ _ _ _ _ _ _ Hi).
      specialize (Hp j). unfold places, occ_sent in *. cbn [heap execs world].
      pose proof (sum_insert (fun g => occ j (group_reqs g)) _ _ _
        (MkGroup (BatchKey grp) (Some (reqs ++ [request i c])) t) Hh) as Hsum.
      cbn beta in Hsum. unfold group_reqs at 2 4 in Hsum. rewrite Hreq in Hsum. cbn [Requests] in Hsum.
      rewrite occ_app, occ_single in Hsum. cbn [request ResultChan] in Hsum.
      destruct (decide (j = i)) as [->|Hne].
      - rewrite decide_True in Hsum by done. rewrite (due_same _ _ _ Hi), Hpc in Hp. rewrite Hap. cbn in *. lia.
      - rewrite decide_False in Hsum by congruence. lia. }
    destruct (zlen reqs =? 0); [simplify_eq; by apply Happ|]. destruct (_ <=? _); simplify_eq; by apply Happ.
  - simplify_eq. destruct (wf_calls _ Hwf i c g Hi) as (grp & Hh & Hk); [by rewrite Hpc|].
    rewrite (alter_insert _ _ _ _ Hh). split.
    + intros j. rewrite (due_goto _ _ _ _ _ _ _ _ _ _ _ Hi). specialize (Hp j). unfold places, occ_sent in *. cbn [heap execs world].
      match goal with |- context [<[g := ?x]> (heap s)] =>
        pose proof (sum_insert (fun g => occ j (group_reqs g)) _ _ _ x Hh) as Hsum end.
      cbn beta in Hsum. change (group_reqs (MkGroup _ (Requests grp) _)) with (group_reqs grp) in Hsum.
      rewrite sum_snoc. change (occ j (exec_reqs (key c, XStart g))) with 0%nat.
      destruct (decide (j = i)) as [->|]; [|lia]. rewrite (due_same _ _ _ Hi), Hpc in Hp. cbn in *. lia.
    + intros e k p He. cbn in He. lookups; eauto.
  - destruct (received _ _); [|done]. simplify_eq/=. apply counted_move; by rewrite ?Hpc.
Qed.

Lemma counted_cancel_step s i s' : counted s -> cancel_step s i = Some s' -> counted s'.
Proof.
  intros Hct Hs. unfold cancel_step in Hs. destruct (calls s !! i) as [c|] eqn:Hi; [|done]. cbn in Hs.
  destruct (qpc_of c) eqn:Hpc; simplify_eq. apply counted_move; by rewrite ?Hpc.
Qed.

Lemma counted_fire_step s g s' : counted s -> fire_step s g = Some s' -> counted s'.
Proof.
  intros [Hp Ho] Hs. unfold fire_step in Hs. destruct (heap s !! g) as [grp|] eqn:Hh; [|done]. cbn in Hs.
  destruct (timer grp); simplify_eq. split.
  - intros j. specialize (Hp j). unfold places, occ_sent, due in *. cbn [heap execs world calls].
    pose proof (sum_insert (fun g => occ j (group_reqs g)) _ _ _ (MkGroup (BatchKey grp) (Requests grp) TimerOff) Hh) as Hsum.
    cbn beta in Hsum. change (group_reqs (MkGroup _ (Requests grp) _)) with (group_reqs grp) in Hsum.
    rewrite sum_snoc. change (occ j (exec_reqs (BatchKey grp, XStart g))) with 0%nat. lia.
  - intros e k p He. cbn in He. lookups; eauto.
Qed.

(** An execution moves: what it holds and what is sent balance. *)
Lemma counted_exec_move s e k p p' gs h cl n w : execs s !! e = Some (k, p) -> counted s -> refusing p' = false ->
  (forall j, sum_list_with (fun g => occ j (group_reqs g)) h + occ j (exec_reqs (k, p')) +
             length (filter (fun c => c = j) (sent (log w))) =
             sum_list_with (fun g => occ j (group_reqs g)) (heap s) + occ j (exec_reqs (k, p)) + occ_sent j s)%nat ->
  counted (MkState gs h cl n (calls s) (<[e := (k, p')]> (execs s)) w).
Proof.
  intros He [Hp Ho] Hr Hbal. split.
  - intros j. specialize (Hp j). specialize (Hbal j). unfold places, occ_sent, due in *. cbn [heap execs world calls].
    pose proof (sum_insert (fun x => occ j (exec_reqs x)) _ _ _ (k, p') He) as Hsum. cbn beta in Hsum. lia.
  - intros e' k' q He'. cbn in He'. lookups; eauto.
Qed.

Lemma counted_exec_step s e s' : closed s = false -> counted s -> exec_step m s e = Some s' -> counted s'.
Proof.
  intros Hcl Hct Hs. pose proof Hct as [Hp Ho]. unfold exec_step in Hs.
  destruct (execs s !! e) as [[k p]|] eqn:He; [|done]. cbn [mbind option_bind] in Hs.
  pose proof (Ho _ _ _ He) as Hnr. destruct p as [g|g|l|g|g l|l|]; try done.
  - rewrite Hcl in Hs. simplify_eq. by eapply counted_exec_move.
  - destruct (heap s !! g) as [grp|] eqn:Hh; [|done]. simplify_eq/=. eapply counted_exec_move; [done..|].
    intros j. pose proof (sum_insert (fun g => occ j (group_reqs g)) _ _ _ (MkGroup (BatchKey grp) None (timer grp)) Hh) as Hsum.
    cbn beta in Hsum. change (group_reqs (MkGroup (BatchKey grp) None _)) with (@nil WriteRequest) in Hsum.
    cbn [exec_reqs snd]. change (occ j []) with 0%nat in *. unfold occ_sent. lia.
  - destruct l as [|r l]; simplify_eq; by eapply counted_exec_move.
  - destruct (execute_requests _ _ _) as [[w u]|] eqn:E; [|done]. simplify_eq/=. eapply counted_exec_move; [done..|].
    intros j. destruct (answers_execute_requests m l _ _ _ E) as (ev & Hlog & Hsent & _). rewrite Hlog, sent_app, Hsent.
    rewrite list.filter_app, length_app, <- occ_chans. cbn [exec_reqs snd]. change (occ j []) with 0%nat. unfold occ_sent. lia.
Qed.

Lemma closed_step s s' : step m s s' -> closed s' = false -> closed s = false.
Proof.
  intros Hs. destruct Hs as [s c Hq|s i s' Hs|s i s' Hs|s g s' Hs|s e s' Hs|s]; [done| | | | |done];
    [unfold enqueue_step in Hs|unfold cancel_step in Hs|unfold fire_step in Hs|unfold exec_step in Hs]; explode Hs; done.
Qed.

Lemma counted_step s s' : wf s -> closed s' = false -> (closed s = false -> counted s) -> step m s s' -> counted s'.
Proof.
  intros Hwf Hcl' Hct Hs. pose proof (closed_step _ _ Hs Hcl') as Hcl. specialize (Hct Hcl).
  destruct Hs as [s c Hq|s i s' Hs|s i s' Hs|s g s' Hs|s e s' Hs|s].
  - destruct Hct as [Hp Ho]. split; [|done]. intros j. specialize (Hp j). unfold places, occ_sent in *. cbn [heap execs world].
    rewrite Hp. unfold due. cbn [calls]. destruct (decide (j < length (calls s))%nat).
    + by rewrite lookup_app_l.
    + rewrite lookup_ge_None_2, lookup_app_r by lia. destruct (j - length (calls s))%nat; [cbn; by rewrite Hq|done].
  - by eapply counted_enqueue_step.
  - by eapply counted_cancel_step.
  - by eapply counted_fire_step.
  - by eapply counted_exec_step.
  - done.
Qed.

Lemma counted_init d : counted (init d).
Proof. split; [done|]. intros e k p He. by destruct e. Qed.

Lemma reach_wf d s : reach (step m) (init d) s -> wf s.
Proof. apply reach_inv; [apply wf_init|]. intros. by eapply wf_step. Qed.

Lemma reach_counted d s : reach (step m) (init d) s -> closed s = false -> counted s.
Proof.
  intros Hr. enough (wf s /\ (closed s = false -> counted s)) by tauto.
  refine (reach_inv (step m) (fun s => wf s /\ (closed s = false -> counted s)) _ _ _ _ Hr).
  - split; [apply wf_init|]. intros _. apply counted_init.
  - intros s1 s2 [Hwf Hct] Hs. split; [by eapply wf_step|]. intros Hcl. by eapply counted_step.
Qed.
End Counted.

(** ** Every waiting request has someone who will execute it *)

Section Owned.
Context `{UnicodeTables} `{Database}.
Variable m : Manager.
Implicit Types (s : state).

Definition will_take (p : xpc) (g : nat) : Prop := p = XStart g \/ p = XTake g.

(** The group's timer is running, or an execution is on its way to take the
    requests, or the call that filled the group is about to start one. *)
Definition owner (cs : list enqueue_call) (xs : list (bytes * xpc)) (t : timer_state) (g : nat) : Prop :=
  t = TimerArmed \/ (exists e k p, xs !! e = Some (k, p) /\ will_take p g) \/
  (exists i c, cs !! i = Some c /\ qpc_of c = QSpawn g).

Definition owned s : Prop := forall g grp, heap s !! g = Some grp -> group_reqs grp <> [] ->
  owner (calls s) (execs s) (timer grp) g.

Lemma owner_goto s i c p xs t g : calls s !! i = Some c -> (forall g, qpc_of c <> QSpawn g) ->
  owner (calls s) xs t g -> owner (goto s i c p) xs t g.
Proof.
  intros Hi Hn [?|[?|(j & c' & Hj & Hq)]]; [by left|by right; left|right; right]. exists j, c'. split; [|done].
  unfold goto. rewrite list_lookup_insert_ne; [done|]. intros ->. simplify_eq. by apply Hn in Hq.
Qed.

Lemma owner_goto_other s i c p xs t g g' : calls s !! i = Some c -> qpc_of c = QSpawn g' -> g <> g' ->
  owner (calls s) xs t g -> owner (goto s i c p) xs t g.
Proof.
  intros Hi Hq Hne [?|[?|(j & c' & Hj & Hq')]]; [by left|by right; left|right; right]. exists j, c'. split; [|done].
  unfold goto. rewrite list_lookup_insert_ne; [done|]. intros ->. congruence.
Qed.

Lemma owner_execs_app cs xs x t g : owner cs xs t g -> owner cs (xs ++ [x]) t g.
Proof.
  intros [?|[(e & k & p & He & Hp)|?]]; [by left| |by right; right]. right; left. exists e, k, p. split; [|done].
  by apply lookup_app_l_Some.
Qed.

Lemma owner_execs_insert cs xs e k p p' t g : xs !! e = Some (k, p) -> (will_take p g -> will_take p' g) ->
  owner cs xs t g -> owner cs (<[e := (k, p')]> xs) t g.
Proof.
  intros He Hp [?|[(e' & k' & q & He' & Hq)|?]]; [by left| |by right; right]. right; left.
  destruct (decide (e' = e)) as [->|Hne].
  - exists e, k, p'. rewrite list_lookup_insert_eq by by eapply lookup_lt_Some. simplify_eq. auto.
  - exists e', k', q. by rewrite list_lookup_insert_ne.
Qed.

Lemma owner_new_exec cs xs k t g : owner cs (xs ++ [(k, XStart g)]) t g.
Proof. right; left. exists (length xs), k, (XStart g). split; [by apply list_lookup_middle|by left]. Qed.

Lemma owned_enqueue_step s i s' : wf s -> owned s -> enqueue_step m s i = Some s' -> owned s'.
Proof.
  intros Hwf Ho Hs. unfold enqueue_step in Hs. destruct (calls s !! i) as [c|] eqn:Hi; [|done]. cbn [mbind option_bind] in Hs.
  destruct (qpc_of c) as [| | |g|g| |r| |r|] eqn:Hpc; try done.
  1,2,6: explode Hs; intros g' grp' Hg' Hne; (eapply owner_goto; [done|by rewrite Hpc|by apply Ho]).
  - explode Hs; intros g' grp' Hg' Hne; cbn [heap] in Hg'; lookups; try done;
      (eapply owner_goto; [done|by rewrite Hpc|by apply Ho]).
  - destruct (heap s !! g) as [grp|] eqn:Hh; [|done]. cbn [mbind option_bind] in Hs.
    destruct (Requests grp) as [reqs|] eqn:Hreq;
      [|simplify_eq; intros g' grp' Hg' Hne; eapply owner_goto; [done|by rewrite Hpc|by apply Ho]].
    destruct (zlen reqs =? 0) eqn:Ez.
    + simplify_eq. intros g' grp' Hg' Hne. cbn [heap] in Hg'. lookups; [by left|].
      eapply owner_goto; [done|by rewrite Hpc|by apply Ho].
    + bool_simpl. assert (Hold : owner (calls s) (execs s) (timer grp) g).
      { apply Ho; [done|]. unfold group_reqs. rewrite Hreq. by destruct reqs. }
      destruct (_ <=? _); simplify_eq; intros g' grp' Hg' Hne; cbn [heap] in Hg'; lookups;
        (eapply owner_goto; [done|by rewrite Hpc|first [done|by apply Ho]]).
  - simplify_eq. destruct (wf_calls _ Hwf i c g Hi) as (grp & Hh & Hk); [by rewrite Hpc|].
    rewrite (alter_insert _ _ _ _ Hh). intros g' grp' Hg' Hne. cbn [heap calls execs] in *. lookups; [apply owner_new_exec|].
    eapply owner_goto_other; [done|done|done|]. by apply owner_execs_app, Ho.
Qed.

Lemma owned_step s s' : wf s -> closed s' = false -> (closed s = false -> counted s /\ owned s) -> step m s s' -> owned s'.
Proof.
  intros Hwf Hcl' Hct Hs. pose proof (closed_step _ _ _ Hs Hcl') as Hcl. destruct (Hct Hcl) as [Hcn Ho].
  destruct Hs as [s c Hq|s i s' Hs|s i s' Hs|s g s' Hs|s e s' Hs|s].
  - intros g grp Hg Hne. destruct (Ho g grp Hg Hne) as [?|[?|(j & c' & Hj & Hp)]]; [by left|by right; left|right; right].
    exists j, c'. split; [by apply lookup_app_l_Some|done].
  - by eapply owned_enqueue_step.
  - unfold cancel_step in Hs. destruct (calls s !! i) as [c|] eqn:Hi; [|done]. cbn in Hs.
    destruct (qpc_of c) eqn:Hpc; simplify_eq. intros g grp Hg Hne. eapply owner_goto; [done|by rewrite Hpc|by apply Ho].
  - unfold fire_step in Hs. destruct (heap s !! g) as [grp|] eqn:Hh; [|done]. cbn in Hs. destruct (timer grp); simplify_eq.
    intros g' grp' Hg' Hne. cbn [heap calls execs] in *. lookups; [apply owner_new_exec|]. by apply owner_execs_app, Ho.
  - unfold exec_step in Hs. destruct (execs s !! e) as [[k p]|] eqn:He; [|done]. cbn [mbind option_bind] in Hs.
    pose proof (counted_open _ Hcn _ _ _ He) as Hnr. destruct p as [g|g|l|g|g l|l|]; try done.
    + rewrite Hcl in Hs. simplify_eq. intros g' grp' Hg' Hne. eapply owner_execs_insert; [done| |by apply Ho].
      unfold will_take. naive_solver.
    + destruct (heap s !! g) as [grp|] eqn:Hh; [|done]. simplify_eq/=. intros g' grp' Hg' Hne. cbn [heap calls execs] in *.
      lookups; try done. eapply owner_execs_insert; [done| |by apply Ho]. unfold will_take. naive_solver.
    + explode Hs; intros g' grp' Hg' Hne; (eapply owner_execs_insert; [done| |by apply Ho]); unfold will_take; naive_solver.
    + destruct (execute_requests _ _ _) as [[w u]|]; [|done]. simplify_eq/=. intros g' grp' Hg' Hne.
      eapply owner_execs_insert; [done| |by apply Ho]. unfold will_take. naive_solver.
  - done.
Qed.

Lemma reach_owned d s : reach (step m) (init d) s -> closed s = false -> owned s.
Proof.
  intros Hr. enough (wf s /\ (closed s = false -> counted s /\ owned s)) by tauto.
  refine (reach_inv (step m) (fun s => wf s /\ (closed s = false -> counted s /\ owned s)) _ _ _ _ Hr).
  - split; [apply wf_init|]. intros _. split; [apply counted_init|]. intros g grp Hg. by destruct g.
  - intros s1 s2 [Hwf Hct] Hs. split; [by eapply wf_step|]. intros Hcl.
    split; [|by eapply owned_step]. eapply counted_step; eauto. intros. by apply Hct.
Qed.
End Owned.

(** ** Progress *)

Section Progress.
Context `{UnicodeTables} `{Database}.
Variable m : Manager.
Implicit Types (s : state).

(** A call whose request no batch can panic on. *)
Definition safe_call (c : enqueue_call) : Prop :=
  is_ascii (query c) = true /\ params c <> [].
Definition safe s : Prop := forall i c, calls s !! i = Some c -> safe_call c.

Lemma safe_goto s i c p gs h cl n xs w : calls s !! i = Some c -> safe s -> safe (MkState gs h cl n (goto s i c p) xs w).
Proof. intros Hi Hs j c' Hj. cbn in Hj. lookups; [by apply (Hs i c)|eauto]. Qed.

Lemma from_safe s k r : safe s -> from (calls s) k r ->
  is_ascii (Query r) = true /\ Params r <> [].
Proof. intros Hs (c & Hc & _ & ->). by apply (Hs _ _ Hc). Qed.

Lemma batch_safe_of s k l : safe s -> l <> [] -> (forall r, r ∈ l -> from (calls s) k r) -> batch_safe l.
Proof.
  intros Hs Hne Hf. destruct l as [|r l]; [done|]. constructor. exists r, l. split; [done|].
  destruct (from_safe s k r Hs) as (? & _); [apply Hf; by left|]. split; [done|]. intros _.
  apply list.Forall_forall. intros r' Hr'. by apply (from_safe s k r' Hs), Hf.
Qed.

Lemma reach_one s s' : step m s s' -> reach (step m) s s'.
Proof. intros Hs. eapply reach_step; [apply reach_refl|done]. Qed.

Definition answered s (i : nat) : Prop := i ∈ sent (log (world s)).

(** From the run on. *)
Lemma run_finishes s e k l i : wf s -> safe s -> closed s = false -> execs s !! e = Some (k, XRun l) ->
  i ∈ ResultChan <$> l -> exists s', reach (step m) s s' /\ closed s' = false /\ answered s' i.
Proof.
  intros Hwf Hs Hcl He Hi. assert (l <> []) by (intros ->; by apply not_elem_of_nil in Hi).
  destruct (total_execute_requests m l (batch_safe_of s k l Hs H2 (fun r Hr => wf_exec_reqs _ Hwf _ _ r He Hr)) (world s))
    as (w & u & Hrun).
  destruct (answers_execute_requests m l _ _ _ Hrun) as (ev & Hlog & Hsent & _).
  eexists. split; [apply reach_one, (step_exec m s e)|].
  - unfold exec_step. rewrite He. cbn [mbind option_bind]. rewrite Hrun. reflexivity.
  - split; [done|]. unfold answered. cbn [world]. rewrite Hlog, sent_app, Hsent. apply elem_of_app. by right.
Qed.

Lemma delete_finishes s e k g l i : wf s -> safe s -> closed s = false -> execs s !! e = Some (k, XDelete g l) ->
  i ∈ ResultChan <$> l -> exists s', reach (step m) s s' /\ closed s' = false /\ answered s' i.
Proof.
  intros Hwf Hs Hcl He Hi. destruct l as [|r l]; [by apply not_elem_of_nil in Hi|].
  assert (Hst : exists s1, exec_step m s e = Some s1 /\ calls s1 = calls s /\ closed s1 = false /\
    execs s1 !! e = Some (k, XRun (r :: l))).
  { unfold exec_step. rewrite He. eexists. split; [reflexivity|]. cbn.
    by rewrite list_lookup_insert_eq by by eapply lookup_lt_Some. }
  destruct Hst as (s1 & Hst & Hc & Hcl1 & He1). apply step_exec in Hst.
  destruct (run_finishes s1 e k (r :: l) i) as (s2 & Hr & ? & ?); eauto using wf_step.
  { intros j c. rewrite Hc. apply Hs. }
  exists s2. split; [|done]. eapply reach_trans; [by apply reach_one|done].
Qed.

Lemma take_finishes s e k g grp i : wf s -> safe s -> closed s = false -> execs s !! e = Some (k, XTake g) ->
  heap s !! g = Some grp -> i ∈ ResultChan <$> group_reqs grp ->
  exists s', reach (step m) s s' /\ closed s' = false /\ answered s' i.
Proof.
  intros Hwf Hs Hcl He Hh Hi.
  assert (Hst : exists s1, exec_step m s e = Some s1 /\ calls s1 = calls s /\ closed s1 = false /\
    execs s1 !! e = Some (k, XDelete g (group_reqs grp))).
  { unfold exec_step. rewrite He. cbn [mbind option_bind]. rewrite Hh. eexists. split; [reflexivity|]. cbn.
    by rewrite list_lookup_insert_eq by by eapply lookup_lt_Some. }
  destruct Hst as (s1 & Hst & Hc & Hcl1 & He1). apply step_exec in Hst.
  destruct (delete_finishes s1 e k g (group_reqs grp) i) as (s2 & Hr & ? & ?); eauto using wf_step.
  { intros j c. rewrite Hc. apply Hs. }
  exists s2. split; [|done]. eapply reach_trans; [by apply reach_one|done].
Qed.

Lemma start_finishes s e k g grp i : wf s -> safe s -> closed s = false -> execs s !! e = Some (k, XStart g) ->
  heap s !! g = Some grp -> i ∈ ResultChan <$> group_reqs grp ->
  exists s', reach (step m) s s' /\ closed s' = false /\ answered s' i.
Proof.
  intros Hwf Hs Hcl He Hh Hi.
  assert (Hst : exists s1, exec_step m s e = Some s1 /\ calls s1 = calls s /\ closed s1 = false /\ heap s1 = heap s /\
    execs s1 !! e = Some (k, XTake g)).
  { unfold exec_step. rewrite He. cbn [mbind option_bind]. rewrite Hcl. eexists. split; [reflexivity|]. cbn.
    by rewrite list_lookup_insert_eq by by eapply lookup_lt_Some. }
  destruct Hst as (s1 & Hst & Hc & Hcl1 & Hh1 & He1). apply step_exec in Hst.
  destruct (take_finishes s1 e k g grp i) as (s2 & Hr & ? & ?); eauto using wf_step.
  { intros j c. rewrite Hc. apply Hs. }
  { by rewrite Hh1. }
  exists s2. split; [|done]. eapply reach_trans; [by apply reach_one|done].
Qed.

(** An owned group is executed. *)
Lemma owner_finishes s g grp i : wf s -> safe s -> closed s = false -> heap s !! g = Some grp ->
  owner (calls s) (execs s) (timer grp) g -> i ∈ ResultChan <$> group_reqs grp ->
  exists s', reach (step m) s s' /\ closed s' = false /\ answered s' i.
Proof.
  intros Hwf Hs Hcl Hh [Ht|[(e & k & p & He & [-> | ->])|(j & c & Hj & Hq)]] Hi.
  - assert (Hst : fire_step s g = Some (MkState (groups s) (<[g := MkGroup (BatchKey grp) (Requests grp) TimerOff]> (heap s))
      (closed s) (batchCount s) (calls s) (execs s ++ [(BatchKey grp, XStart g)]) (world s))).
    { unfold fire_step. rewrite Hh. cbn. by rewrite Ht. }
    apply (step_fire m) in Hst. edestruct start_finishes as (s2 & Hr & ? & ?);
      [by eapply wf_step| | |by apply list_lookup_middle|by apply list_lookup_insert_eq, (lookup_lt_Some _ _ _ Hh)|exact Hi|].
    + exact Hs.
    + exact Hcl.
    + exists s2. split; [|done]. eapply reach_trans; [by apply reach_one|done].
  - by eapply start_finishes.
  - by eapply take_finishes.
  - pose proof (wf_calls _ Hwf j c g Hj) as Hat. rewrite Hq in Hat. destruct (Hat eq_refl) as (grp' & ? & _). simplify_eq.
    assert (Hst : exists h, enqueue_step m s j = Some (MkState (groups s) h (closed s) (batchCount s)
      (goto s j c QWait) (execs s ++ [(key c, XStart g)]) (world s)) /\
      exists grp', h !! g = Some grp' /\ group_reqs grp' = group_reqs grp).
    { unfold enqueue_step. rewrite Hj. cbn [mbind option_bind]. rewrite Hq. eexists. split; [reflexivity|].
      rewrite (alter_insert _ _ _ _ Hh). rewrite list_lookup_insert_eq by by eapply lookup_lt_Some. by eexists. }
    destruct Hst as (h & Hst & grp' & Hg' & Hreqs). apply step_progress in Hst.
    edestruct start_finishes as (s2 & Hr & ? & ?); [by eapply wf_step|by apply safe_goto|exact Hcl| |exact Hg'|by rewrite Hreqs|].
    + by apply list_lookup_middle.
    + exists s2. split; [|done]. eapply reach_trans; [by apply reach_one|done].
Qed.
End Progress.

(** ** Properties *)

Section Properties.
Context `{UnicodeTables} `{Database}.
Variable m : Manager.
Implicit Types (s : state).

(** Where the request of a call is found. *)
Lemma located s i c : wf s -> counted s -> calls s !! i = Some c -> appended (qpc_of c) = true ->
  answered s i \/
  (exists e k p, execs s !! e = Some (k, p) /\ request i c ∈ exec_reqs (k, p)) \/
  (exists g grp, heap s !! g = Some grp /\ request i c ∈ group_reqs grp).
Proof.
  intros Hwf Hct Hi Ha. pose proof (counted_places _ Hct i) as Hp. rewrite (due_same _ _ _ Hi), Ha in Hp. unfold places in Hp.
  assert (Hr : forall r k, ResultChan r = i -> from (calls s) k r -> r = request i c).
  { intros r k Hri (c' & Hc & _ & ->). cbn in *. by simplify_eq. }
  destruct (decide (0 < occ_sent i s)%nat) as [Hs|Hs].
  { left. unfold answered. unfold occ_sent in Hs. destruct (filter _ _) as [|x l] eqn:E; [cbn in Hs; lia|].
    assert (Hx : x ∈ filter (fun c => c = i) (sent (log (world s)))) by (rewrite E; by left).
    apply list_elem_of_filter in Hx as [-> ?]. done. }
  destruct (decide (0 < sum_list_with (fun x => occ i (exec_reqs x)) (execs s))%nat) as [Hx|Hx].
  { right; left. apply sum_pos in Hx as (e & [k p] & He & (r & Hin & Hri)%occ_pos).
    exists e, k, p. split; [done|]. by rewrite <- (Hr r k Hri (wf_exec_reqs _ Hwf _ _ _ He Hin)). }
  right; right. destruct (sum_pos (fun g => occ i (group_reqs g)) (heap s)) as (g & grp & Hg & (r & Hin & Hri)%occ_pos); [lia|].
  exists g, grp. split; [done|]. by rewrite <- (Hr r _ Hri (wf_group_reqs _ Hwf _ _ _ Hg Hin)).
Qed.


(** C38. A batch holds requests of one batch key only, each the statement and
    parameters of its own call, and no request twice. *)
Theorem batch_homogeneous (d : dbstate) s e k l :
  reach (step m) (init d) s -> closed s = false -> execs s !! e = Some (k, XRun l) ->
  NoDup (ResultChan <$> l) /\
  forall r, r ∈ l -> exists c, calls s !! ResultChan r = Some c /\ key c = k /\ r = request (ResultChan r) c.
Proof.
  intros Hr Hcl He. split; [|intros r Hin; by apply (wf_exec_reqs _ (reach_wf m d s Hr) _ _ _ He Hin)].
  apply NoDup_alt. intros a b x Ha Hb. apply list_lookup_fmap_Some in Ha as (ra & -> & Ha).
  apply list_lookup_fmap_Some in Hb as (rb & Eb & Hb). destruct (decide (a = b)); [done|exfalso].
  assert (Hone : (occ (ResultChan ra) l <= 1)%nat).
  { pose proof (counted_places _ (reach_counted m d s Hr Hcl) (ResultChan ra)) as Hp. unfold places, due in Hp.
    pose proof (sum_lookup (fun x => occ (ResultChan ra) (exec_reqs x)) _ _ _ He) as Hl. cbn [exec_reqs snd] in Hl.
    destruct (calls s !! ResultChan ra) as [c|]; [destruct (appended (qpc_of c))|]; lia. }
  assert (Hsplit : forall (l : list WriteRequest) a b ra rb, (a < b)%nat -> l !! a = Some ra -> l !! b = Some rb ->
    ResultChan ra = ResultChan rb -> (2 <= occ (ResultChan ra) l)%nat).
  { clear. intros l a b ra rb Hab Ha Hb E. rewrite <- (take_drop b l), occ_app.
    assert (0 < occ (ResultChan ra) (take b l))%nat.
    { apply (elem_of_occ _ _ ra); [|done]. apply list_elem_of_lookup. exists a. by rewrite lookup_take_lt. }
    assert (0 < occ (ResultChan ra) (drop b l))%nat; [|lia].
    apply (elem_of_occ _ _ rb); [|done]. apply list_elem_of_lookup. exists 0%nat. by rewrite lookup_drop, Nat.add_0_r. }
  destruct (decide (a < b)%nat).
  - pose proof (Hsplit l a b ra rb l0 Ha Hb Eb). lia.
  - assert (b < a)%nat as Hba by lia. pose proof (Hsplit l b a rb ra Hba Hb Ha (eq_sym Eb)). rewrite <- Eb in *. lia.
Qed.

End Properties.

(** ** Schedules

    A schedule names who moves: call [i], the timer of group [g], execution [e]. *)

Section Schedules.
Context `{UnicodeTables} `{Database}.
Variable m : Manager.
Implicit Types (s : state).

Inductive turn := Call (i : nat) | Timer (g : nat) | Execution (e : nat).

Definition take_turn s (t : turn) : option state :=
  match t with
  | Call i => enqueue_step m s i
  | Timer g => fire_step s g
  | Execution e => exec_step m s e
  end.

Fixpoint schedule s (ts : list turn) : option state :=
  match ts with
  | [] => Some s
  | t :: ts => s ← take_turn s t; schedule s ts
  end.

Lemma schedule_reach s ts : forall s', schedule s ts = Some s' -> reach (step m) s s'.
Proof.
  revert s. induction ts as [|t ts IH]; intros s s'; cbn; [intros [= ->]; apply reach_refl|].
  destruct (take_turn s t) as [s1|] eqn:E; [cbn; intros Hs|done].
  eapply reach_trans; [apply reach_one|by apply IH]. destruct t; cbn in E; eauto using step.
Qed.

(** Calls that begin together. *)
Definition begun (d : dbstate) (cs : list enqueue_call) : state :=
  MkState ∅ [] false 0 cs [] (MkWorld d 0 []).

Lemma begun_reach d cs : Forall (fun c => qpc_of c = QStart) cs -> reach (step m) (init d) (begun d cs).
Proof.
  induction cs as [|c cs IH] using rev_ind; [constructor|]. intros [Hcs Hc]%list.Forall_app.
  eapply reach_step; [by apply IH|]. apply (step_enqueue m (begun d cs) c). by inversion Hc.
Qed.
End Schedules.

#[local] Existing Instance ascii_tables.
#[local] Existing Instance NoFloats.
#[local] Existing Instance ScriptDB.

(** Two identical INSERTs and a third one with the same key. *)
Definition w_call (z : Z) : enqueue_call :=
  MkCall (str "INSERT INTO t (a) VALUES (?)") (str "INSERT INTO t (a) VALUES (?)") [VInt Int z] 10 true QStart.
Definition w_db : @dbstate NoFloats ScriptDB := [].
Definition w_begun : state := begun w_db [w_call 1; w_call 2; w_call 3].

(** Two calls have joined a group, the third has not begun. *)
Definition w_joined : list turn := [Call 0; Call 0; Call 0; Call 0; Call 1; Call 1; Call 1].
(** Their batch has been taken by the timer's execution and is about to run. *)
Definition w_taken : list turn := w_joined ++ [Timer 0; Execution 0; Execution 0; Execution 0].

Definition w_state (ts : list turn) : state := default w_begun (schedule mysql_manager w_begun ts).

Lemma w_state_reach ts : match schedule mysql_manager w_begun ts with Some _ => true | None => false end = true ->
  reach (step mysql_manager) (init w_db) (w_state ts).
Proof.
  unfold w_state. destruct (schedule mysql_manager w_begun ts) as [s|] eqn:E; [intros _; cbn|done].
  eapply reach_trans; [apply (begun_reach mysql_manager w_db)|by eapply schedule_reach]. repeat constructor.
Qed.


Lemma batch_homogeneous_witness :
  exists l, execs (w_state w_taken) !! 0%nat = Some (str "INSERT INTO t (a) VALUES (?)", XRun l) /\
    (ResultChan <$> l) = [0%nat; 1%nat] /\ NoDup (ResultChan <$> l).
Proof.
  eexists. split; [reflexivity|]. split; [reflexivity|].
  refine (proj1 (batch_homogeneous mysql_manager w_db (w_state w_taken) 0 (str "INSERT INTO t (a) VALUES (?)") _ _ _ _)).
  - apply w_state_reach. reflexivity.
  - reflexivity.
  - reflexivity.
Defined.

Lemma w_safe_call z p : safe_call (set_pc (w_call z) p).
Proof.
  split; [reflexivity|discriminate].
Qed.


(** ** Behaviour worth knowing *)

(** The first request of a group is not compared with the limit: with a maximum
    batch size of one, two requests still end up in one batch. *)
Example max_batch_size_one :
  let one := {| config := {| MaxBatchSize := 1; UseCopy := false |}; firstInsertIDIsFirst := true |} in
  (fun s => (execs s !! 0%nat : option (bytes * xpc)) ≫= fun x => Some (length (exec_reqs x))) <$>
    schedule one w_begun (w_joined ++ [Call 1; Execution 0; Execution 0; Execution 0]) = Some (Some 2%nat).
Proof. reflexivity. Qed.

(** A limit of two is exceeded when a call has looked the group up before it
    became full: all three requests run in one batch. *)
Example max_batch_size_exceeded :
  let two := {| config := {| MaxBatchSize := 2; UseCopy := false |}; firstInsertIDIsFirst := true |} in
  (fun s => (execs s !! 0%nat : option (bytes * xpc)) ≫= fun x => Some (length (exec_reqs x))) <$>
    schedule two w_begun [Call 0; Call 0; Call 0; Call 0; Call 2; Call 2; Call 1; Call 1; Call 1; Call 2; Call 1; Execution 0;
                          Execution 0; Execution 0] = Some (Some 3%nat).
Proof. reflexivity. Qed.

(** Closing loses a request: one that joins its group after the refused
    execution has read it is never answered (here the timer has fired, every
    execution is over and call 1 still waits). *)
Example closed_manager_loses_request :
  let s1 := w_state [Call 0; Call 0; Call 0; Call 0; Call 1; Call 1; Timer 0] in
  let s2 := MkState (groups s1) (heap s1) true (batchCount s1) (calls s1) (execs s1) (world s1) in
  (fun s => (sent (log (world s)), (qpc_of <$> calls s !! 1%nat, timer <$> heap s !! 0%nat), snd <$> execs s)) <$>
    schedule mysql_manager s2 [Execution 0; Execution 0; Execution 0; Call 1] =
  Some ([0%nat], (Some QWait, Some TimerOff), [XDone]).
Proof. reflexivity. Qed.
