(* ===== verification/Sha1.v ===== *)
(** * SHA-1

    [sha1.Sum] and [hex.EncodeToString] of the Go library, with which both
    proxies make the cache key of a prepared execution. *)

From Stdlib Require Import Ascii ZArith Lia.
From stdpp Require Import base list strings numbers.
From S2P Require Import Prelude.

Open Scope Z_scope.

(** ** Words of 32 bits *)

Definition add32 (x y : Z) : Z := uint32 (x + y).
Definition not32 (x : Z) : Z := Z.lxor x (2 ^ 32 - 1).
Definition rotl (n x : Z) : Z := Z.lor (uint32 (Z.shiftl x n)) (Z.shiftr x (32 - n)).

(** ** Blocks *)

(** The message, a one bit, zeros and the length in bits, in blocks of 64 bytes. *)
Definition padding (len : nat) : bytes :=
  to_byte 0x80 :: replicate ((119 - len mod 64) mod 64) (to_byte 0) ++ be_enc 8 (8 * Z.of_nat len).

Fixpoint words (n : nat) (s : bytes) : list Z :=
  match n with
  | O => []
  | S n => be_dec (take 4 s) :: words n (drop 4 s)
  end.

(** The 80 words of a block, the last one first. *)
Fixpoint schedule (n : nat) (rev_w : list Z) : list Z :=
  match n with
  | O => rev_w
  | S n =>
      let at_ i := nth i rev_w 0 in
      schedule n (rotl 1 (Z.lxor (Z.lxor (Z.lxor (at_ 2%nat) (at_ 7%nat)) (at_ 13%nat)) (at_ 15%nat)) :: rev_w)
  end.

Record digest := MkDigest { h0 : Z; h1 : Z; h2 : Z; h3 : Z; h4 : Z }.

Definition round (t : nat) (d : digest) (w : Z) : digest :=
  let '(MkDigest a b c d' e) := d in
  let '(f, k) :=
    if (t <? 20)%nat then (Z.lor (Z.land b c) (Z.land (not32 b) d'), 0x5A827999)
    else if (t <? 40)%nat then (Z.lxor (Z.lxor b c) d', 0x6ED9EBA1)
    else if (t <? 60)%nat then (Z.lor (Z.lor (Z.land b c) (Z.land b d')) (Z.land c d'), 0x8F1BBCDC)
    else (Z.lxor (Z.lxor b c) d', 0xCA62C1D6) in
  MkDigest (add32 (add32 (add32 (add32 (rotl 5 a) f) e) k) w) a (rotl 30 b) c d'.

Fixpoint rounds (t : nat) (d : digest) (ws : list Z) : digest :=
  match ws with
  | [] => d
  | w :: ws => rounds (S t) (round t d w) ws
  end.

Definition block (d : digest) (s : bytes) : digest :=
  let r := rounds 0 d (rev (schedule 64 (rev (words 16 s)))) in
  MkDigest (add32 (h0 d) (h0 r)) (add32 (h1 d) (h1 r)) (add32 (h2 d) (h2 r)) (add32 (h3 d) (h3 r)) (add32 (h4 d) (h4 r)).

Fixpoint blocks (n : nat) (d : digest) (s : bytes) : digest :=
  match n with
  | O => d
  | S n => blocks n (block d (take 64 s)) (drop 64 s)
  end.

Definition initial : digest := MkDigest 0x67452301 0xEFCDAB89 0x98BADCFE 0x10325476 0xC3D2E1F0.

(** [sha1.Sum(data)] *)
Definition sha1 (data : bytes) : bytes :=
  let padded := data ++ padding (length data) in
  let '(MkDigest a b c d e) := blocks (length padded / 64) initial padded in
  be_enc 4 a ++ be_enc 4 b ++ be_enc 4 c ++ be_enc 4 d ++ be_enc 4 e.

(** [hex.EncodeToString] *)
Definition hex_digit (z : Z) : byte := to_byte (if z <? 10 then 48 + z else 87 + z).
Definition hex (s : bytes) : bytes := concat ((fun b => [hex_digit (bval b / 16); hex_digit (bval b mod 16)]) <$> s).

Definition sha1_hex (data : bytes) : bytes := hex (sha1 data).

(** ** Lemmas *)

Lemma length_sha1 data : length (sha1 data) = 20%nat.
Proof. unfold sha1. destruct (blocks _ _ _). by rewrite !length_app, !length_be_enc. Qed.

Lemma length_hex s : length (hex s) = (2 * length s)%nat.
Proof. unfold hex. induction s as [|b s IH]; [done|]. rewrite fmap_cons. cbn [concat length app]. rewrite IH. lia. Qed.

Lemma length_sha1_hex data : length (sha1_hex data) = 40%nat.
Proof. unfold sha1_hex. by rewrite length_hex, length_sha1. Qed.

(** The padded message is a whole number of blocks. *)
Lemma padded_blocks data : (length (data ++ padding (length data)) mod 64 = 0)%nat.
Proof.
  unfold padding. rewrite length_app. cbn [length]. rewrite length_app, length_replicate, length_be_enc.
  set (n := length data). pose proof (Nat.div_mod_eq n 64). pose proof (Nat.mod_upper_bound n 64 ltac:(lia)).
  pose proof (Nat.div_mod_eq (119 - n mod 64) 64). pose proof (Nat.mod_upper_bound (119 - n mod 64) 64 ltac:(lia)).
  apply Nat.Div0.mod_divides. exists (n / 64 + (if Nat.ltb (n mod 64) 56 then 1 else 2))%nat.
  destruct (Nat.ltb_spec (n mod 64) 56).
  - replace ((119 - n mod 64) mod 64)%nat with (55 - n mod 64)%nat; [lia|].
    apply (Nat.mod_unique _ _ 1); lia.
  - replace ((119 - n mod 64) mod 64)%nat with (119 - n mod 64)%nat; [lia|]. symmetry. apply Nat.mod_small. lia.
Qed.

(** ** Test vectors of the standard *)

Example sha1_abc : sha1_hex (str "abc") = str "a9993e364706816aba3e25717850c26c9cd0d89d".
Proof. vm_compute. reflexivity. Qed.

Example sha1_empty : sha1_hex [] = str "da39a3ee5e6b4b0d3255bfef95601890afd80709".
Proof. vm_compute. reflexivity. Qed.

Example sha1_two_blocks : sha1_hex (str "abcdbcdecdefdefgefghfghighijhijkijkljklmklmnlmnomnopnopq") =
  str "84983e441c3bd26ebaae4aa1f95129e5e54670f1".
Proof. vm_compute. reflexivity. Qed.
