(* ===== verification/Services.v ===== *)
(** * What the sessions of both proxies call

    The query cache, the write batch manager and the metrics as a session sees
    them.  The package cache keeps what [CacheLaws] states (MariaServe,
    [CacheModel]), the package writebatch what [BatchLaws] states (Batching,
    [BatchModel]). *)

From Stdlib Require Import ZArith Lia.
From stdpp Require Import base list gmap.
From S2P Require Import Prelude GoStrings BatchText Metrics Executor Parser Cache Effects.

Open Scope Z_scope.

(** The cache as one connection sees it: what other connections do to it
    happens inside these operations. *)
Class CacheService := {
  cache : Type;
  cache_Get : cache -> bytes -> cache * option (bytes * Z);
  cache_GetOrWait : cache -> bytes -> cache * (option (bytes * Z) * bool);   (* the hit, waited *)
  cache_SetAndNotify : cache -> bytes -> bytes -> Z -> cache;
  cache_CancelInflight : cache -> bytes -> cache;
  cache_Set : cache -> bytes -> bytes -> Z -> cache
}.

Class BatchService `{Database} := {
  manager : Type;
  Enqueue : manager -> bytes -> bytes -> list value -> Z -> manager * WriteResult
}.

(** What a session relies on: an entry that was just stored is served. *)
Class CacheLaws `{CacheService} := {
  holds : cache -> bytes -> bytes -> Prop;
  holds_set q k v ttl : 0 < ttl -> holds (cache_SetAndNotify q k v ttl) k v;
  holds_get q k v : holds q k v -> exists q', cache_Get q k = (q', Some (v, FlagFresh)) /\ holds q' k v
}.

(** What a session relies on of a manager that no other call is using, over a
    database in a known state: the write is executed once, and its result is the
    database's.  [batched_alone] is the size of the batch it was executed in. *)
Definition batched_alone (batchMs : Z) : Z := if batchMs =? 0 then 0 else 1.

Definition write_result `{Database} (batchMs : Z) (r : Result + db_error) : WriteResult :=
  match r with
  | inl r => MkResult (RowsAffected r) (LastInsertId r) (batched_alone batchMs) [] None
  | inr e => error_result (DbError e)
  end.

Class BatchLaws `{BatchService} := {
  managed : manager -> dbstate -> Prop;
  Enqueue_alone m d key q ps batchMs d' r : managed m d -> is_ascii q = true -> db_Exec d q ps = (d', r) ->
    exists m', Enqueue m key q ps batchMs = (m', write_result batchMs r) /\ managed m' d'
}.

(** [time.Duration(parsed.TTL) * time.Second] *)
Definition ttl_of (p : ParsedQuery) : Z := int64 (TTL p * 1000000000).

Section Metrics.
Context {W E : Type} `{Database}.
Abbreviation M := (Effects.M W E).

(** [metrics.C.WithLabelValues(labels...)] *)
Definition metric (c : collector) (labels : list bytes) : M unit :=
  if WithLabelValues label_ok c labels then mret tt else crash.

Lemma metric_run c ls (w : W) : length ls = length (label_names c) -> forallb label_ok ls = true -> metric c ls w = (w, Done tt).
Proof. intros Hn Hl. unfold metric. by rewrite WithLabelValues_run. Qed.

Lemma respects_metric (R : relation W) `{!PreOrder R} c ls : Effects.respects R (metric c ls).
Proof. unfold metric. destruct (WithLabelValues _ _ _); [by apply respects_ret|by apply respects_crash]. Qed.
End Metrics.

(** ** A concrete environment

    A cache without expiry and a batch manager that writes one row. *)

#[local] Existing Instance NoFloats.
#[local] Existing Instance ScriptDB.

#[local] Instance TestCache : CacheService := {|
  cache := gmap bytes bytes;
  cache_Get q k := (q, (fun v => (v, FlagFresh)) <$> (q !! k));
  cache_GetOrWait q k := (q, ((fun v => (v, FlagFresh)) <$> (q !! k), false));
  cache_SetAndNotify q k v ttl := if 0 <? ttl then <[k := v]> q else q;
  cache_CancelInflight q k := q;
  cache_Set q k v ttl := if 0 <? ttl then <[k := v]> q else q
|}.

#[local] Instance TestBatch : BatchService := {|
  manager := unit;
  Enqueue m _ _ _ _ := (m, MkResult 1 0 1 [] None)
|}.
