(* ===== verification/Batching.v ===== *)
(** * Package writebatch: the service the sessions call

    The manager and the executor of src/writebatch implement what the sessions
    rely on: [BatchModel] runs one call of [Enqueue] in the transition system of
    Manager, with the timer and the execution it starts, and keeps [BatchLaws].
    MariaBatch has what a session answers under these laws. *)

From Stdlib Require Import Ascii ZArith Lia.
From stdpp Require Import base list gmap strings numbers.
From S2P Require Import Prelude GoStrings BatchText Metrics Services Executor Manager.

Open Scope Z_scope.

(** ** One call of Enqueue *)

Section Alone.
Context `{UnicodeTables} `{Database}.
Variable m : Manager.
Implicit Types (s : state).

(** The turns of a call that begins in [s]: it is refused or executed at once,
    or its request waits in a new group until the timer starts an execution. *)
Definition call_turns s (batchMs : Z) : list turn :=
  let i := length (calls s) in
  if closed s || (batchMs =? 0) then [Call i]
  else repeat (Call i) 4 ++ [Timer (length (heap s))] ++ repeat (Execution (length (execs s))) 4 ++ [Call i].

Definition call_result (p : qpc) : WriteResult :=
  match p with
  | QGot r | QImmediate r => r
  | QRefused => error_result ErrManagerClosed
  | _ => error_result CtxError
  end.

Definition started s (c : enqueue_call) : state :=
  MkState (groups s) (heap s) (closed s) (batchCount s) (calls s ++ [c]) (execs s) (world s).

(** [m.Enqueue] when no other call moves meanwhile; an execution that panics
    ends the process, and here leaves the state as it was. *)
Definition enqueue_alone s (k q : bytes) (ps : list value) (batchMs : Z) : state * WriteResult :=
  match schedule m (started s (MkCall k q ps batchMs true QStart)) (call_turns s batchMs) with
  | Some s' => (s', match calls s' !! length (calls s) with Some c => call_result (qpc_of c) | None => error_result CtxError end)
  | None => (s, error_result CtxError)
  end.

(** An open manager without groups, and the results sent belong to its calls. *)
Record idle s (d : dbstate) : Prop := {
  idle_open : closed s = false;
  idle_groups : groups s = ∅;
  idle_db : db (world s) = d;
  idle_sent : Forall (fun i => (i < length (calls s))%nat) (sent (log (world s)))
}.

Lemma snoc_lookup {A} (l : list A) x : (l ++ [x]) !! length l = Some x.
Proof. apply list_lookup_middle. done. Qed.
Lemma snoc_insert {A} (l : list A) x y : <[length l := y]> (l ++ [x]) = l ++ [y].
Proof. rewrite insert_app_r_alt by lia. by rewrite Nat.sub_diag. Qed.

Lemma received_none i ev : Forall (fun j => (j < i)%nat) (sent ev) -> received i ev = None.
Proof.
  induction ev as [|e ev IH]; [done|]. destruct e; cbn [received]; try (exact IH). intros Hs. apply list.Forall_cons in Hs as [Hc Hs].
  rewrite decide_False by lia. by apply IH.
Qed.

Lemma received_app i ev ev' : received i ev = None -> received i (ev ++ ev') = received i ev'.
Proof.
  induction ev as [|e ev IH]; [done|]. destruct e; cbn [received app]; try (exact IH). by destruct (decide _).
Qed.

(** A batch of one request. *)
Lemma execute_one (req : WriteRequest) w d' r : is_ascii (Executor.Query req) = true ->
  db_Exec (db w) (Executor.Query req) (Params req) = (d', r) ->
  execute_requests m [req] w =
    Some (MkWorld d' (loadDataHandlerSeq w)
      (log w ++ [EExec (Executor.Query req) (Params req) (ok r); ESend (ResultChan req) (write_result 1 r)]), tt).
Proof.
  intros Ha He. unfold execute_requests.
  destruct (truncateQuery_total (Executor.Query req) 50) as [l Hl]; [done|].
  assert (Hla : valid_utf8 l = true) by (apply is_ascii_valid_utf8; eapply (is_ascii_truncateQuery _ 50); [lia|done..]).
  destruct (getQueryType_total (Executor.Query req)) as (t & Ht & Hta). apply is_ascii_valid_utf8 in Hta.
  assert (Hw : forall c x v, valid_utf8 x = true -> length (label_names c) = 1%nat -> with_label c x v = Some (v, tt)).
  { intros c x v Hx Hc. unfold with_label. rewrite WithLabelValues_run; [done|by rewrite Hc|]. cbn [forallb]. by rewrite label_ok_utf8. }
  change (index [req] 0) with (Some req). unfold mbind, M_bind, or_panic, mret, M_ret. rewrite Hl, Ht, !Hw by done.
  change (zlen [req] =? 1) with true. cbv iota. unfold executeSingle, executeWrite, Exec, call, send, emit, mbind, M_bind, mret, M_ret.
  rewrite He. destruct r; rewrite !Hw by done; cbn; by rewrite <- app_assoc.
Qed.

Lemma schedule_cons s t s1 ts : take_turn m s t = Some s1 -> schedule m s (t :: ts) = schedule m s1 ts.
Proof. intros E. cbn [schedule]. by rewrite E. Qed.

Ltac look := cbn -[executeImmediate execute_requests]; rewrite ?snoc_lookup, ?snoc_insert, ?lookup_empty, ?lookup_insert_eq.
Ltac turn E := etrans; [apply schedule_cons; cbn [take_turn]; unfold enqueue_step, fire_step, exec_step, goto, set_pc;
  look; look; rewrite ?E; look; look; reflexivity|].

(** The request waits in a group of its own until the timer starts its batch. *)
Lemma batched_turns h n cs xs w k q ps ms d' r : ms <> 0 -> is_ascii q = true -> db_Exec (db w) q ps = (d', r) ->
  Forall (fun i => (i < length cs)%nat) (sent (log w)) ->
  let s := MkState ∅ h false n cs xs w in
  schedule m (started s (MkCall k q ps ms true QStart)) (call_turns s ms) =
    Some (MkState ∅ (h ++ [MkGroup k None TimerOff]) false (int64 (n + 1)) (cs ++ [MkCall k q ps ms true (QGot (write_result 1 r))])
      (xs ++ [(k, XDone)])
      (MkWorld d' (loadDataHandlerSeq w) (log w ++ [EExec q ps (ok r); ESend (length cs) (write_result 1 r)]))).
Proof.
  intros Hms%Z.eqb_neq Ha He Hs s. unfold started, call_turns, s. cbn [groups heap closed batchCount calls execs world orb].
  rewrite Hms. cbn [repeat app]. do 7 turn Hms.
  assert (Hk : (if decide (Some (length h) = Some (length h)) then delete k (<[k := length h]> ∅ : gmap bytes nat) else <[k := length h]> ∅) = ∅).
  { rewrite decide_True by done. by rewrite delete_insert_eq, delete_empty. }
  turn Hk. match goal with |- context [XRun [?req]] => pose proof (execute_one req w d' r Ha He) as Hx end.
  turn Hx.
  assert (Hr : received (length cs) (log w ++ [EExec q ps (ok r); ESend (length cs) (write_result 1 r)]) = Some (write_result 1 r)).
  { rewrite received_app by by apply received_none. cbn. by rewrite decide_True. }
  turn Hr. reflexivity.
Qed.

Lemma immediate_turns h n cs xs w k q ps d' r : db_Exec (db w) q ps = (d', r) ->
  let s := MkState ∅ h false n cs xs w in
  schedule m (started s (MkCall k q ps 0 true QStart)) (call_turns s 0) =
    Some (MkState ∅ h false n (cs ++ [MkCall k q ps 0 true (QImmediate (write_result 0 r))]) xs
      (MkWorld d' (loadDataHandlerSeq w) (log w ++ [EExec q ps (ok r); ECallback (length cs) 0]))).
Proof.
  intros He s.
  assert (Hx : executeImmediate q ps w = Some (MkWorld d' (loadDataHandlerSeq w) (log w ++ [EExec q ps (ok r)]), write_result 0 r)).
  { unfold executeImmediate, Exec, call, mbind, M_bind, mret, M_ret. rewrite He. by destruct r. }
  assert (Hb : BatchSize (write_result 0 r) = 0) by by destruct r.
  unfold started, call_turns, s. turn Hx. rewrite Hb. cbn [schedule]. by rewrite <- app_assoc.
Qed.

(** A call of an idle manager, which may be executed at once. *)
Lemma enqueue_alone_idle s d k q ps ms d' r : idle s d -> is_ascii q = true -> db_Exec d q ps = (d', r) ->
  exists s', enqueue_alone s k q ps ms = (s', write_result ms r) /\ idle s' d' /\ reach (step m) s s'.
Proof.
  intros [Ho Hg Hd Hs] Ha He. destruct s as [gs h cl n cs xs w]. cbn in Ho, Hg, Hd, Hs. subst.
  assert (Hreach : forall s', schedule m (started (MkState ∅ h false n cs xs w) (MkCall k q ps ms true QStart))
      (call_turns (MkState ∅ h false n cs xs w) ms) = Some s' -> reach (step m) (MkState ∅ h false n cs xs w) s').
  { intros s' E. eapply reach_trans; [|by eapply schedule_reach]. apply reach_one. by apply step_enqueue. }
  assert (Hlt : Forall (fun i => (i < S (length cs))%nat) (sent (log w))) by (eapply list.Forall_impl; [exact Hs|]; intros; cbn in *; lia).
  unfold enqueue_alone. destruct (Z.eq_dec ms 0) as [->|Hms].
  - rewrite (immediate_turns h n cs xs w k q ps d' r He) in *. eexists. split; [cbn; rewrite snoc_lookup; reflexivity|].
    split; [|by apply Hreach]. split; [done|done|done|]. cbn. rewrite length_app, Nat.add_1_r. unfold sent. rewrite omap_app.
    apply list.Forall_app. by split.
  - rewrite (batched_turns h n cs xs w k q ps ms d' r Hms Ha He Hs) in *. eexists. split.
    + cbn. rewrite snoc_lookup. cbn. unfold write_result, batched_alone. by rewrite (proj2 (Z.eqb_neq _ _) Hms).
    + split; [|by apply Hreach]. split; [done|done|done|]. cbn. rewrite length_app, Nat.add_1_r. unfold sent. rewrite omap_app.
      apply list.Forall_app. split; [done|]. cbn. repeat constructor.
Qed.

(** ** The manager as a service *)

Definition BatchModel : BatchService := {|
  manager := state;
  Enqueue := enqueue_alone
|}.

(** The package writebatch keeps the promise the sessions rely on: a call of an
    idle manager is a run of its transition system, in which the write is
    executed once, and the manager is idle again. *)
#[local] Instance BatchModelLaws : @BatchLaws _ _ BatchModel.
Proof.
  refine (@Build_BatchLaws _ _ BatchModel (fun s d => idle s d) _).
  intros s d k q ps ms d' r Hi Ha He. destruct (enqueue_alone_idle s d k q ps ms d' r Hi Ha He) as (s' & E & Hs & _). by exists s'.
Defined.

Lemma init_idle d : idle (init d) d.
Proof. by split. Qed.
End Alone.
