(* ===== verification/MariaWire.v ===== *)
(** * Package mariadb: the wire protocol

    The parts of src/mariadb/mariadb.go that read and write bytes: packet
    framing, collecting a backend's response, renumbering it for the client,
    decoding the parameters of a prepared statement, splitting a text query
    into statements.

    A connection is the sequence of bytes not yet read; a read that asks for
    more than there is fails (the peer closed or timed out).  The MySQL driver
    is a third-party package: its helpers are the class [Driver]. *)

From Stdlib Require Import Ascii ZArith Lia.
From stdpp Require Import base list gmap strings numbers.
From S2P Require Import Prelude GoStrings BatchText.

Open Scope Z_scope.

(** The result of code that can fail or panic. *)
Inductive result (A : Type) :=
| Ok (x : A)
| Err
| Panic.
Arguments Ok {A}.
Arguments Err {A}.
Arguments Panic {A}.

Definition panic_on_none {A} (o : option A) : result A := match o with Some x => Ok x | None => Panic end.

#[export] Instance result_ret : MRet result := fun A x => Ok x.
#[export] Instance result_bind : MBind result := fun A B k r =>
  match r with Ok x => k x | Err => Err | Panic => Panic end.

(** ** The driver's helpers *)

Record handshake_response := HandshakeResponse {
  hr_Capability : Z; hr_User : bytes; hr_Auth : bytes; hr_DB : bytes
}.

(** The commands of the protocol the proxy knows. *)
Inductive command :=
| ComQuit | ComInitDB | ComQuery | ComFieldList | ComPing
| ComStmtPrepare | ComStmtExecute | ComStmtClose | ComStmtReset.

Class Driver := {
  command_code : command -> Z;    (* mysql.ComQuit, mysql.ComInitDB, ... *)
  lenenc_size : bytes -> Z;       (* the third result of mysql.ReadLengthEncodedInteger *)
  StatusMoreResultsExists : Z;
  StatusInTrans : Z;
  StatusInAutocommit : Z;
  ClientSSL : Z;
  ClientDeprecateEOF : Z;
  WriteOKPacket (rows id status capability : Z) : bytes;
  WriteErrorPacket (code : Z) (state message : bytes) (capability : Z) : bytes;
  WriteEOFPacket (status capability : Z) : bytes;
  WriteHandshakeV10 (connID : Z) (salt : bytes) (capability status : Z) : bytes;
  ParseHandshakeResponse : bytes -> option handshake_response
}.

(** What the protocol says of them. *)
Class DriverLaws `{Driver} := {
  lenenc : Z -> bytes;            (* the encoding of an integer *)
  lenenc_size_enc n rest : 0 <= n < 2 ^ 64 -> lenenc_size (lenenc n ++ rest) = zlen (lenenc n);
  command_code_inj c c' : command_code c = command_code c' -> c = c';
  command_code_byte c : 0 <= command_code c < 256;
  more_results_bit : StatusMoreResultsExists = 8;
  in_trans_bit : StatusInTrans = 1;
  WriteOKPacket_enc rows id status capability : 0 <= rows < 2 ^ 64 -> 0 <= id < 2 ^ 64 -> 0 <= status < 2 ^ 16 ->
    exists rest, WriteOKPacket rows id status capability = to_byte 0 :: lenenc rows ++ lenenc id ++ le_enc 2 status ++ rest
}.

(** ** Framing *)

(** [binary.LittleEndian.PutUint32(header, uint32(n)); header[3] = seq]:
    three bytes of length and the sequence number. *)
Definition header (n : Z) (seq : Z) : bytes := take 3 (le_enc 4 (uint32 n)) ++ [to_byte seq].
Definition frame (seq : Z) (payload : bytes) : bytes := header (zlen payload) seq ++ payload.

(** [io.ReadFull] *)
Definition read_full (n : Z) (input : bytes) : option (bytes * bytes) :=
  if n <=? zlen input then Some (take (Z.to_nat n) input, drop (Z.to_nat n) input) else None.

(** [int(uint32(h[0]) | uint32(h[1])<<8 | uint32(h[2])<<16)] *)
Definition header_length (h : bytes) : Z := le_dec (take 3 h).

(** [readPacket] and [readBackendPacket]: the sequence number, the payload and
    what is left. *)
Definition read_packet (input : bytes) : option (Z * bytes * bytes) :=
  '(h, input) ← read_full 4 input;
  seq ← h !! 3%nat;
  '(payload, input) ← read_full (header_length h) input;
  Some (bval seq, payload, input).

(** [writePacket] and [writeBackendPacket] send the payload under the next
    sequence number, which wraps at 256. *)
Definition next_seq (seq : Z) : Z := uint8 (seq + 1).
Definition write_packet (seq : Z) (payload : bytes) : Z * bytes := (next_seq seq, frame (next_seq seq) payload).

Section Responses.
Context `{Driver}.

(** ** Collecting a response *)

(** The offset of the status flags of an OK packet whose affected rows start at [off]. *)
Definition ok_status_offset (packet : bytes) (off : Z) : result Z :=
  rows ← panic_on_none (slice_from packet off);
  let off := off + lenenc_size rows in
  id ← panic_on_none (slice_from packet off);
  mret (off + lenenc_size id).

(** [binary.LittleEndian.Uint16(packet[off:])] *)
Definition uint16_at (packet : bytes) (off : Z) : result Z :=
  s ← panic_on_none (slice_from packet off);
  match s with
  | a :: b :: _ => Ok (le_dec [a; b])
  | _ => Panic
  end.

Definition more_results (status : Z) : bool := negb (Z.land status StatusMoreResultsExists =? 0).

(** What the loop does after a packet: stop, or go on with this number of
    EOF packets seen. *)
Inductive verdict := Stop | Continue (eofCount : Z).

(** The switch on the first byte.  [stmt] distinguishes [execBackendResponse]
    from [execBackendQuery]; [first] says that this is the first packet. *)
Definition packet_verdict (stmt first : bool) (eofCount : Z) (packet : bytes) : result verdict :=
  match packet with
  | [] => Ok (Continue eofCount)
  | h :: _ =>
      if bval h =? 0x00 then
        if (if stmt then negb (eofCount =? 1) else eofCount =? 0) then
          off ← ok_status_offset packet 1;
          if off + 2 <=? zlen packet then
            status ← uint16_at packet off;
            if more_results status then mret (Continue 0) else mret Stop
          else mret Stop
        else mret (Continue eofCount)
      else if bval h =? 0xFF then mret Stop
      else if (bval h =? 0xFB) && stmt then
        if first then mret Stop else mret (Continue eofCount)
      else if bval h =? 0xFE then
        if zlen packet <? 9 then
          let eofCount := eofCount + 1 in
          if 2 <=? eofCount then
            if 5 <=? zlen packet then
              status ← uint16_at packet 3;
              if more_results status then mret (Continue 0) else mret Stop
            else mret Stop
          else mret (Continue eofCount)
        else mret (Continue eofCount)
      else mret (Continue eofCount)
  end.

(** The read loop: the response collected, the last sequence number and the
    bytes left.  Every packet takes at least four bytes of input. *)
Fixpoint collect (fuel : nat) (stmt first : bool) (eofCount : Z) (response input : bytes) : result (bytes * Z * bytes) :=
  match fuel with
  | O => Err
  | S fuel =>
      match read_packet input with
      | None => Err
      | Some (seq, packet, input) =>
          let response := response ++ header (zlen packet) seq ++ packet in
          v ← packet_verdict stmt first eofCount packet;
          match v with
          | Stop => Ok (response, seq, input)
          | Continue eofCount => collect fuel stmt false eofCount response input
          end
      end
  end.

Definition collect_response (stmt : bool) (input : bytes) : result (bytes * Z * bytes) :=
  collect (S (length input)) stmt true 0 [] input.

(** ** Forwarding a response *)

(** The loop that renumbers the packets: the new bytes, the last sequence
    number and the position of the last packet. *)
Fixpoint renumber (fuel : nat) (seq pos last : Z) (resp : bytes) : result (bytes * Z * Z) :=
  match fuel with
  | O => Err
  | S fuel =>
      if pos <? zlen resp then
        if zlen resp <? pos + 4 then Ok (resp, seq, last)
        else
          h ← panic_on_none (slice resp pos (pos + 4));
          let seq := next_seq seq in
          renumber fuel seq (pos + (4 + header_length h)) pos (<[Z.to_nat (pos + 3) := to_byte seq]> resp)
      else Ok (resp, seq, last)
  end.

(** [binary.LittleEndian.PutUint16(packet[off:], v)] *)
Definition put_uint16 (packet : bytes) (off v : Z) : bytes :=
  <[Z.to_nat (off + 1) := to_byte (v / 256)]> (<[Z.to_nat off := to_byte v]> packet).

(** Set the more-results flag of the last packet. *)
Definition flag_more (resp : bytes) (last : Z) : result bytes :=
  if last <? zlen resp then
    packet ← panic_on_none (slice_from resp last);
    if 4 <? zlen packet then
      h ← panic_on_none (index packet 4);
      if bval h =? 0x00 then
        off ← ok_status_offset packet 5;
        if off + 2 <=? zlen packet then
          status ← uint16_at packet off;
          mret (put_uint16 resp (last + off) (Z.lor status (uint16 StatusMoreResultsExists)))
        else mret resp
      else if bval h =? 0xFE then
        if 9 <=? zlen packet then
          status ← uint16_at packet 7;
          mret (put_uint16 resp (last + 7) (Z.lor status (uint16 StatusMoreResultsExists)))
        else mret resp
      else mret resp
    else mret resp
  else mret resp.

(** [forwardBackendResponse]: the bytes written to the client and the last
    sequence number used. *)
Definition forward_response (seq : Z) (response : bytes) (moreResults : bool) : result (bytes * Z) :=
  '(resp, seq, last) ← renumber (S (length response)) seq 0 0 response;
  resp ← (if moreResults then flag_more resp last else mret resp);
  mret (resp, seq).
End Responses.

(** ** Parameters of a prepared statement *)

Definition decodeLengthEncodedInt (data : bytes) : option (Z * Z) :=
  match data with
  | [] => Some (0, 0)
  | h :: t =>
      if bval h =? 0xFB then Some (0, 1)
      else if bval h =? 0xFC then
        if zlen data <? 3 then Some (0, 0)
        else b1 ← index data 1; b2 ← index data 2; Some (Z.lor (bval b1) (Z.shiftl (bval b2) 8), 3)
      else if bval h =? 0xFD then
        if zlen data <? 4 then Some (0, 0)
        else b1 ← index data 1; b2 ← index data 2; b3 ← index data 3;
             Some (Z.lor (Z.lor (bval b1) (Z.shiftl (bval b2) 8)) (Z.shiftl (bval b3) 16), 4)
      else if bval h =? 0xFE then
        if zlen data <? 9 then Some (0, 0)
        else d ← slice data 1 9; Some (le_dec d, 9)
      else Some (bval h, 1)
  end.

Section Params.
Context `{GoValues}.

(** A fixed-width integer. *)
Definition decode_int (data : bytes) (pos width : Z) (unsigned : bool) (signed : Z -> Z) : result (value * Z) :=
  if zlen data <? pos + width then Err
  else
    d ← panic_on_none (slice data pos (pos + width));
    if unsigned then Ok (VInt Uint64 (le_dec d), pos + width)
    else Ok (VInt Int64 (signed (le_dec d)), pos + width).

Definition decodeParamValue (data : bytes) (pos : Z) (fieldType : Z) (unsigned : bool) : result (value * Z) :=
  if fieldType =? 0x01 then decode_int data pos 1 unsigned int8
  else if fieldType =? 0x02 then decode_int data pos 2 unsigned int16
  else if fieldType =? 0x03 then decode_int data pos 4 unsigned int32
  else if fieldType =? 0x08 then decode_int data pos 8 unsigned int64
  else if (fieldType =? 0xFE) || (fieldType =? 0xFD) then
    rest ← panic_on_none (slice_from data pos);
    '(strLen, n) ← panic_on_none (decodeLengthEncodedInt rest);
    if n =? 0 then Err
    else
      let pos := pos + n in
      let len := int64 strLen in                 (* int(strLen) *)
      if zlen data <? int64 (pos + len) then Err
      else
        s ← panic_on_none (slice data pos (int64 (pos + len)));
        Ok (VString s, int64 (pos + len))
  else Err.

(** The loop over the parameters [i .. numParams - 1]. *)
Fixpoint decode_values (n : nat) (i : Z) (data nullBitmap : bytes) (paramTypes : option bytes) (pos : Z) : result (list value) :=
  match n with
  | O => Ok []
  | S n =>
      b ← panic_on_none (index nullBitmap (i / 8));
      if negb (Z.land (bval b) (Z.shiftl 1 (i mod 8)) =? 0) then
        vs ← decode_values n (i + 1) data nullBitmap paramTypes pos;
        Ok (VNil :: vs)
      else
        match paramTypes with
        | None => Err
        | Some types =>
            t ← panic_on_none (index types (i * 2));
            u ← panic_on_none (index types (i * 2 + 1));
            '(v, pos) ← decodeParamValue data pos (bval t) (bval u =? 0x80);
            vs ← decode_values n (i + 1) data nullBitmap paramTypes pos;
            Ok (v :: vs)
        end
  end.

(** [query] is the parsed query, whose question marks are counted. *)
Definition decodeStmtParams (data query : bytes) : result (list value) :=
  if zlen data <? 10 then Err
  else
    let numParams := Z.of_nat (CountByte query question) in
    if numParams =? 0 then Ok []
    else
      let nullBitmapLen := (numParams + 7) / 8 in
      if zlen data <? 10 + nullBitmapLen then Err
      else
        nullBitmap ← panic_on_none (slice data 9 (9 + nullBitmapLen));
        let pos := 9 + nullBitmapLen in
        if zlen data <=? pos then Err
        else
          newParamsBound ← panic_on_none (index data pos);
          let pos := pos + 1 in
          if bval newParamsBound =? 1 then
            let typesLen := numParams * 2 in
            if zlen data <? pos + typesLen then Err
            else
              paramTypes ← panic_on_none (slice data pos (pos + typesLen));
              decode_values (Z.to_nat numParams) 0 data nullBitmap (Some paramTypes) (pos + typesLen)
          else decode_values (Z.to_nat numParams) 0 data nullBitmap None pos.
End Params.

(** ** Splitting a text query into statements *)

Record split_state := Split { inQuote : bool; quoteChar : Z; escaped : bool }.

Definition is_quote_char (r : Z) : bool := (r =? 39) || (r =? 34) || (r =? 96).

(** One rune, neither escaped nor a backslash: the quote state after it. *)
Definition quote_step (st : split_state) (r : Z) : split_state :=
  if is_quote_char r then
    if negb (inQuote st) then Split true r false
    else if r =? quoteChar st then Split false (quoteChar st) false
    else st
  else st.

(** The statement collected so far is added when it is not blank. *)
Definition add_query (current : bytes) (queries : list bytes) : list bytes :=
  let q := TrimSpace current in if decide (q = []) then queries else queries ++ [q].

Fixpoint split_loop (cs : list chunk) (st : split_state) (current : bytes) (queries : list bytes) : list bytes :=
  match cs with
  | [] => add_query current queries
  | c :: cs =>
      let r := rune c in
      if escaped st then split_loop cs (Split (inQuote st) (quoteChar st) false) (current ++ encode_rune r) queries
      else if r =? 92 then split_loop cs (Split (inQuote st) (quoteChar st) true) (current ++ encode_rune r) queries
      else
        let st := quote_step st r in
        if (r =? 59) && negb (inQuote st) then split_loop cs st [] (add_query current queries)
        else split_loop cs st (current ++ encode_rune r) queries
  end.

Definition splitQueries (query : bytes) : list bytes := split_loop (runes query) (Split false 0 false) [] [].

(** ** Lemmas: framing *)

Lemma header_cons n seq : exists a b c, header n seq = [a; b; c; to_byte seq] /\ le_dec [a; b; c] = n mod 2 ^ 24.
Proof.
  unfold header. cbn [le_enc take app]. eexists _, _, _. split; [reflexivity|].
  pose proof (le_dec_enc 3 (uint32 n)) as E. cbn [le_enc] in E. rewrite E. change (256 ^ Z.of_nat 3) with (2 ^ 24). unfold uint32.
  apply Z.mod_mod_divide. exists (2 ^ 8). reflexivity.
Qed.

Lemma length_header n seq : length (header n seq) = 4%nat.
Proof. destruct (header_cons n seq) as (a & b & c & -> & _). done. Qed.

Lemma header_length_header n seq : header_length (header n seq) = n mod 2 ^ 24.
Proof. destruct (header_cons n seq) as (a & b & c & -> & <-). done. Qed.

Lemma read_full_app (a b : bytes) : read_full (zlen a) (a ++ b) = Some (a, b).
Proof.
  unfold read_full. rewrite zlen_app. pose proof (zlen_nonneg b). replace (zlen a <=? zlen a + zlen b) with true by lia.
  unfold zlen. rewrite Nat2Z.id, take_app_length, drop_app_length. done.
Qed.

(** A packet is small when its length fits the three bytes of the header. *)
Definition small (payload : bytes) : bool := zlen payload <? 2 ^ 24.

Lemma read_packet_frame seq payload rest : small payload = true ->
  read_packet (frame seq payload ++ rest) = Some (seq mod 256, payload, rest).
Proof.
  unfold small. intros Hs. bool_simpl. unfold read_packet, frame. rewrite <- app_assoc.
  pose proof (read_full_app (header (zlen payload) seq) (payload ++ rest)) as E.
  unfold zlen at 1 in E. rewrite length_header in E. change (Z.of_nat 4) with 4 in E. rewrite E. cbn [mbind option_bind].
  rewrite header_length_header, Z.mod_small by (split; [apply zlen_nonneg|done]).
  destruct (header_cons (zlen payload) seq) as (a & b & c & -> & _). cbn [lookup list_lookup mbind option_bind].
  rewrite read_full_app. cbn. by rewrite bval_to_byte.
Qed.

(** ** Lemmas: responses *)

(** Packets with the sequence numbers they were sent under. *)
Abbreviation packet := (Z * bytes)%type.
Definition frames (ps : list packet) : bytes := concat ((fun '(seq, p) => frame seq p) <$> ps).
Definition packets_ok (ps : list packet) : Prop := Forall (fun x => 0 <= x.1 < 256 /\ small x.2 = true) ps.

Lemma frames_cons seq p ps : frames ((seq, p) :: ps) = frame seq p ++ frames ps.
Proof. done. Qed.

Lemma frames_app ps1 ps2 : frames (ps1 ++ ps2) = frames ps1 ++ frames ps2.
Proof. unfold frames. by rewrite fmap_app, concat_app. Qed.

Section ResponseLemmas.
Context `{DriverLaws}.

(** The grammar of responses.  [more] is the flag that another result follows. *)
Definition ok_packet (more : bool) (p : bytes) : Prop := exists rows id status rest,
  p = to_byte 0 :: lenenc rows ++ lenenc id ++ le_enc 2 status ++ rest /\
  0 <= rows < 2 ^ 64 /\ 0 <= id < 2 ^ 64 /\ 0 <= status < 2 ^ 16 /\ Z.testbit status 3 = more.
Definition err_packet (p : bytes) : Prop := exists t, p = to_byte 0xFF :: t.
Definition eof_packet (more : bool) (p : bytes) : Prop := exists warnings status,
  p = to_byte 0xFE :: le_enc 2 warnings ++ le_enc 2 status /\ 0 <= status < 2 ^ 16 /\ Z.testbit status 3 = more.

(** Column counts and definitions; rows. *)
Definition def_packet (p : bytes) : Prop := exists h t, p = h :: t /\
  bval h <> 0x00 /\ bval h <> 0xFB /\ bval h <> 0xFF /\ (bval h = 0xFE -> 9 <= zlen p).
Definition row_packet (p : bytes) : Prop := forall h t, p = h :: t -> bval h <> 0xFF /\ (bval h = 0xFE -> 9 <= zlen p).

Inductive response : list packet -> Prop :=
| response_ok s p : ok_packet false p -> response [(s, p)]
| response_err s p : err_packet p -> response [(s, p)]
| response_ok_more s p ps : ok_packet true p -> response ps -> response ((s, p) :: ps)
| response_rows defs s1 e1 rows s2 e2 : Forall (fun x => def_packet x.2) defs -> Forall (fun x => row_packet x.2) rows ->
    (exists b, eof_packet b e1) -> eof_packet false e2 -> response (defs ++ (s1, e1) :: rows ++ [(s2, e2)])
| response_rows_more defs s1 e1 rows s2 e2 ps : Forall (fun x => def_packet x.2) defs -> Forall (fun x => row_packet x.2) rows ->
    (exists b, eof_packet b e1) -> eof_packet true e2 -> response ps ->
    response (defs ++ (s1, e1) :: rows ++ (s2, e2) :: ps).

Lemma more_results_testbit status : more_results status = Z.testbit status 3.
Proof.
  unfold more_results. rewrite more_results_bit. destruct (Z.testbit status 3) eqn:E.
  - apply negb_true_iff, Z.eqb_neq. intros Hz. apply (f_equal (fun z => Z.testbit z 3)) in Hz.
    rewrite Z.land_spec, E in Hz. done.
  - apply negb_false_iff, Z.eqb_eq. apply Z.bits_inj'. intros n Hn. rewrite Z.land_spec, Z.bits_0.
    destruct (decide (n = 3)) as [->|]; [by rewrite E|]. change 8 with (2 ^ 3). rewrite Z.pow2_bits_false by done. apply andb_false_r.
Qed.

Lemma uint16_at_app pre status rest : 0 <= status < 2 ^ 16 ->
  uint16_at (pre ++ le_enc 2 status ++ rest) (zlen pre) = Ok status.
Proof.
  intros Hs. unfold uint16_at. rewrite slice_from_app. cbn [panic_on_none mbind result_bind]. cbn [le_enc app].
  pose proof (le_dec_enc 2 status) as E. cbn [le_enc] in E. rewrite E. by rewrite Z.mod_small.
Qed.

(** The status flags of an OK packet after [pre]. *)
Lemma ok_status_offset_spec pre rows id rest : 0 <= rows < 2 ^ 64 -> 0 <= id < 2 ^ 64 ->
  ok_status_offset (pre ++ lenenc rows ++ lenenc id ++ rest) (zlen pre) = Ok (zlen (pre ++ lenenc rows ++ lenenc id)).
Proof.
  intros Hr Hi. unfold ok_status_offset. rewrite slice_from_app. cbn [panic_on_none mbind result_bind].
  rewrite lenenc_size_enc by done. rewrite <- zlen_app, app_assoc, slice_from_app. cbn [panic_on_none mbind result_bind].
  rewrite lenenc_size_enc by done. rewrite <- zlen_app, <- app_assoc. done.
Qed.

Lemma verdict_ok stmt first more p : ok_packet more p ->
  packet_verdict stmt first 0 p = Ok (if more then Continue 0 else Stop).
Proof.
  intros (rows & id & status & rest & -> & Hr & Hi & Hs & Hm). unfold packet_verdict.
  change (bval (to_byte 0) =? 0) with true. replace (if stmt then negb (0 =? 1) else 0 =? 0) with true by by destruct stmt.
  change (to_byte 0 :: lenenc rows ++ ?x) with ([to_byte 0] ++ lenenc rows ++ x). change 1 with (zlen [to_byte 0]) at 1.
  rewrite ok_status_offset_spec by done. cbn [mbind result_bind].
  set (pre := [to_byte 0] ++ lenenc rows ++ lenenc id).
  assert (E : [to_byte 0] ++ lenenc rows ++ lenenc id ++ le_enc 2 status ++ rest = pre ++ le_enc 2 status ++ rest)
    by (subst pre; by rewrite <- !app_assoc).
  rewrite E, !zlen_app. pose proof (zlen_nonneg rest). change (zlen (le_enc 2 status)) with 2.
  replace (zlen pre + 2 <=? zlen pre + (2 + zlen rest)) with true by lia.
  rewrite uint16_at_app by done. cbn [mbind result_bind]. rewrite more_results_testbit, Hm. by destruct more.
Qed.

Lemma verdict_err stmt first n p : err_packet p -> packet_verdict stmt first n p = Ok Stop.
Proof. intros (t & ->). done. Qed.

Lemma verdict_eof stmt first n more p : eof_packet more p -> 0 <= n ->
  packet_verdict stmt first n p = Ok (if 1 <=? n then (if more then Continue 0 else Stop) else Continue (n + 1)).
Proof.
  intros (w & status & -> & Hs & Hm) Hn. unfold packet_verdict.
  change (bval (to_byte 254) =? 0) with false. change (bval (to_byte 254) =? 255) with false.
  change (bval (to_byte 254) =? 251) with false. change (bval (to_byte 254) =? 254) with true. cbn [andb].
  change (zlen (to_byte 254 :: le_enc 2 w ++ le_enc 2 status)) with 5. change (5 <? 9) with true. change (5 <=? 5) with true.
  cbv iota zeta. destruct (1 <=? n) eqn:E; bool_simpl.
  - replace (2 <=? n + 1) with true by lia. change 3 with (zlen (to_byte 254 :: le_enc 2 w)).
    change (to_byte 254 :: le_enc 2 w ++ le_enc 2 status) with ((to_byte 254 :: le_enc 2 w) ++ le_enc 2 status).
    rewrite <- (app_nil_r (le_enc 2 status)), uint16_at_app by done. cbn [mbind result_bind].
    rewrite more_results_testbit, Hm. by destruct more.
  - by replace (2 <=? n + 1) with false by lia.
Qed.

Lemma verdict_def stmt first n p : def_packet p -> packet_verdict stmt first n p = Ok (Continue n).
Proof.
  intros (h & t & -> & HZ & HB & HF & HE). unfold packet_verdict.
  replace (bval h =? 0) with false by lia. replace (bval h =? 255) with false by lia. replace (bval h =? 251) with false by lia.
  cbn [andb]. destruct (bval h =? 254) eqn:E; [|done]. bool_simpl. specialize (HE E).
  by replace (zlen (h :: t) <? 9) with false by lia.
Qed.

Lemma verdict_row stmt p : row_packet p -> packet_verdict stmt false 1 p = Ok (Continue 1).
Proof.
  intros Hp. destruct p as [|h t]; [done|]. destruct (Hp h t eq_refl) as [HF HE]. unfold packet_verdict.
  destruct (bval h =? 0); [by destruct stmt|]. replace (bval h =? 255) with false by lia.
  destruct ((bval h =? 251) && stmt); [done|]. destruct (bval h =? 254) eqn:E; [|done]. bool_simpl. specialize (HE E).
  by replace (zlen (h :: t) <? 9) with false by lia.
Qed.

(** One packet that does not end the response. *)
Lemma collect_step fuel stmt first n acc s p n' input : 0 <= s < 256 -> small p = true ->
  packet_verdict stmt first n p = Ok (Continue n') ->
  collect (S fuel) stmt first n acc (frame s p ++ input) = collect fuel stmt false n' (acc ++ frame s p) input.
Proof.
  intros Hs Hp Hv. cbn [collect]. rewrite read_packet_frame by done. rewrite Z.mod_small by done. rewrite Hv. done.
Qed.

Lemma collect_stop fuel stmt first n acc s p input : 0 <= s < 256 -> small p = true ->
  packet_verdict stmt first n p = Ok Stop ->
  collect (S fuel) stmt first n acc (frame s p ++ input) = Ok (acc ++ frame s p, s, input).
Proof.
  intros Hs Hp Hv. cbn [collect]. rewrite read_packet_frame by done. rewrite Z.mod_small by done. rewrite Hv. done.
Qed.

Lemma collect_defs stmt defs input : packets_ok defs -> Forall (fun x => def_packet x.2) defs -> forall fuel first acc,
  exists first', collect (length defs + fuel) stmt first 0 acc (frames defs ++ input) =
    collect fuel stmt first' 0 (acc ++ frames defs) input.
Proof.
  induction defs as [|[s p] defs IH]; intros Hok Hd fuel first acc; [exists first; by rewrite app_nil_r|].
  inversion_clear Hok as [|? ? [Hs Hp] Hok']. apply list.Forall_cons in Hd as [Hdp Hd'].
  destruct (IH Hok' Hd' fuel false (acc ++ frame s p)) as [f E]. exists f.
  cbn [length Nat.add]. rewrite frames_cons, <- app_assoc, (collect_step _ _ _ _ _ _ _ 0); [|done|done|by apply verdict_def].
  by rewrite E, app_assoc.
Qed.

Lemma collect_rows stmt rows input : packets_ok rows -> Forall (fun x => row_packet x.2) rows -> forall fuel acc,
  collect (length rows + fuel) stmt false 1 acc (frames rows ++ input) = collect fuel stmt false 1 (acc ++ frames rows) input.
Proof.
  induction rows as [|[s p] rows IH]; intros Hok Hd fuel acc; [by rewrite app_nil_r|].
  inversion_clear Hok as [|? ? [Hs Hp] Hok']. apply list.Forall_cons in Hd as [Hdp Hd'].
  cbn [length Nat.add]. rewrite frames_cons, <- app_assoc, (collect_step _ _ _ _ _ _ _ 1); [|done|done|by apply verdict_row].
  by rewrite IH, <- app_assoc by done.
Qed.

(** Column definitions, the first EOF and the rows. *)
Lemma collect_result_set stmt defs s1 e1 rows input fuel first acc :
  packets_ok (defs ++ (s1, e1) :: rows) -> Forall (fun x => def_packet x.2) defs -> Forall (fun x => row_packet x.2) rows ->
  (exists b, eof_packet b e1) ->
  collect (length (defs ++ (s1, e1) :: rows) + fuel) stmt first 0 acc (frames (defs ++ (s1, e1) :: rows) ++ input) =
  collect fuel stmt false 1 (acc ++ frames (defs ++ (s1, e1) :: rows)) input.
Proof.
  intros Hok Hd Hr [b He]. apply list.Forall_app in Hok as [Hokd Hok]. apply list.Forall_cons in Hok as [[Hs Hp] Hokr].
  replace (length (defs ++ (s1, e1) :: rows) + fuel)%nat with (length defs + (S (length rows) + fuel))%nat
    by (rewrite length_app; cbn; lia).
  rewrite frames_app, frames_cons, <- !app_assoc.
  destruct (collect_defs stmt defs (frame s1 e1 ++ frames rows ++ input) Hokd Hd (S (length rows) + fuel)%nat first acc) as [f ->].
  cbn [Nat.add]. rewrite (collect_step _ _ _ _ _ _ _ 1); [|done|done|by rewrite (verdict_eof _ _ _ _ _ He)].
  rewrite collect_rows by done. by rewrite <- !app_assoc.
Qed.

Lemma collect_spec stmt ps input : packets_ok ps -> response ps -> forall fuel first acc, (length ps <= fuel)%nat ->
  exists s, collect fuel stmt first 0 acc (frames ps ++ input) = Ok (acc ++ frames ps, s, input).
Proof.
  intros Hok Hr. revert Hok. induction Hr as [s p Hp|s p Hp|s p ps Hp Hr IH|defs s1 e1 rows s2 e2 Hd Hrw He1 He2|defs s1 e1 rows s2 e2 ps Hd Hrw He1 He2 Hr IH];
    intros Hok fuel first acc Hf.
  - apply list.Forall_cons in Hok as [[Hs Hsm] _]. destruct fuel as [|fuel]; [cbn in Hf; lia|]. exists s.
    rewrite frames_cons. cbn [frames fmap list_fmap concat]. rewrite app_nil_r. apply collect_stop; [done|done|by rewrite (verdict_ok _ _ false)].
  - apply list.Forall_cons in Hok as [[Hs Hsm] _]. destruct fuel as [|fuel]; [cbn in Hf; lia|]. exists s.
    rewrite frames_cons. cbn [frames fmap list_fmap concat]. rewrite app_nil_r. apply collect_stop; [done|done|by apply verdict_err].
  - inversion_clear Hok as [|? ? [Hs Hsm] Hok']. destruct fuel as [|fuel]; [cbn in Hf; lia|].
    destruct (IH Hok' fuel false (acc ++ frame s p)) as [s' E]; [cbn in Hf; lia|]. exists s'.
    rewrite frames_cons, <- app_assoc, (collect_step _ _ _ _ _ _ _ 0); [|done|done|by rewrite (verdict_ok _ _ true)].
    by rewrite E, <- app_assoc.
  - replace (defs ++ (s1, e1) :: rows ++ [(s2, e2)]) with ((defs ++ (s1, e1) :: rows) ++ [(s2, e2)]) in * by by rewrite <- app_assoc.
    apply list.Forall_app in Hok as [Hok Hl]. apply list.Forall_cons in Hl as [[Hs Hsm] _]. rewrite length_app in Hf. cbn [length] in Hf.
    replace fuel with (length (defs ++ (s1, e1) :: rows) + S (fuel - S (length (defs ++ (s1, e1) :: rows))))%nat by lia.
    exists s2. rewrite frames_app, <- app_assoc, collect_result_set by done.
    rewrite frames_cons. cbn [frames fmap list_fmap concat]. rewrite app_nil_r, (app_assoc acc).
    apply collect_stop; [done|done|by rewrite (verdict_eof _ _ _ _ _ He2)].
  - replace (defs ++ (s1, e1) :: rows ++ (s2, e2) :: ps) with ((defs ++ (s1, e1) :: rows) ++ (s2, e2) :: ps) in * by by rewrite <- app_assoc.
    apply list.Forall_app in Hok as [Hok Hl]. inversion_clear Hl as [|? ? [Hs Hsm] Hok']. rewrite length_app in Hf. cbn [length] in Hf.
    set (k := (fuel - S (length (defs ++ (s1, e1) :: rows)))%nat).
    replace fuel with (length (defs ++ (s1, e1) :: rows) + S k)%nat by lia.
    destruct (IH Hok' k false ((acc ++ frames (defs ++ (s1, e1) :: rows)) ++ frame s2 e2)) as [s' E]; [lia|]. exists s'.
    rewrite frames_app, <- app_assoc, collect_result_set by done.
    rewrite frames_cons, <- app_assoc, (collect_step _ _ _ _ _ _ _ 0); [|done|done|by rewrite (verdict_eof _ _ _ _ _ He2)].
    rewrite E. by rewrite <- !app_assoc.
Qed.

(** A packet that was read is put back as it was, byte for byte. *)
Lemma read_packet_exact input s p rest : read_packet input = Some (s, p, rest) ->
  input = frame s p ++ rest /\ 0 <= s < 256 /\ small p = true.
Proof.
  unfold read_packet, read_full. destruct (4 <=? zlen input) eqn:E4; [|done]. cbn [mbind option_bind]. bool_simpl.
  change (Z.to_nat 4) with 4%nat. unfold zlen in E4.
  destruct input as [|a [|b [|c [|d t]]]]; cbn in E4; try lia. cbn [take drop lookup list_lookup mbind option_bind].
  rewrite take_0, drop_0. change (header_length [a; b; c; d]) with (le_dec [a; b; c]). pose proof (le_dec_bound [a; b; c]) as Hr.
  change (256 ^ zlen [a; b; c]) with (2 ^ 24) in Hr.
  destruct (le_dec [a; b; c] <=? zlen t) eqn:El; [|done]. cbn [mbind option_bind]. bool_simpl. intros [= <- <- <-].
  set (n := Z.to_nat (le_dec [a; b; c])).
  assert (Hn : zlen (take n t) = le_dec [a; b; c]) by (unfold zlen in *; rewrite length_take; lia).
  change (bval a + 256 * (bval b + 256 * (bval c + 256 * 0))) with (le_dec [a; b; c]). fold n. split; [|split; [apply bval_range|unfold small; rewrite Hn; lia]].
  unfold frame, header. rewrite Hn. unfold uint32. rewrite Z.mod_small by lia.
  pose proof (le_enc_dec [a; b; c]) as E3. cbn [length le_enc] in E3. cbn [le_enc take]. rewrite E3, to_byte_bval.
  cbn [app]. by rewrite take_drop.
Qed.

Lemma collect_exact fuel : forall stmt first n acc input response s rest,
  collect fuel stmt first n acc input = Ok (response, s, rest) -> response ++ rest = acc ++ input.
Proof.
  induction fuel as [|fuel IH]; intros stmt first n acc input response s rest; [done|]. cbn [collect].
  destruct (read_packet input) as [[[s0 p] i]|] eqn:E; [|done]. apply read_packet_exact in E as (-> & _).
  destruct (packet_verdict stmt first n p) as [[|n']| |]; cbn [mbind result_bind]; [| |done..].
  - intros [= <- <- <-]. by rewrite <- !app_assoc.
  - intros Hc. apply IH in Hc. rewrite Hc. by rewrite <- !app_assoc.
Qed.

Lemma length_frames ps : (length ps <= length (frames ps))%nat.
Proof.
  induction ps as [|[s p] ps IH]; [done|]. rewrite frames_cons, length_app. unfold frame. rewrite length_app, length_header. cbn. lia.
Qed.
End ResponseLemmas.

(** ** Lemmas: renumbering *)

Fixpoint renum (seq : Z) (ps : list packet) : list packet :=
  match ps with
  | [] => []
  | (_, p) :: ps => (next_seq seq, p) :: renum (next_seq seq) ps
  end.

Definition last_seq (seq : Z) (ps : list packet) : Z := foldl (fun s _ => next_seq s) seq ps.

(** Where the last packet starts. *)
Fixpoint last_pos (pos last : Z) (ps : list packet) : Z :=
  match ps with
  | [] => last
  | (s, p) :: ps => last_pos (pos + zlen (frame s p)) pos ps
  end.

Lemma zlen_header n seq : zlen (header n seq) = 4.
Proof. unfold zlen. by rewrite length_header. Qed.

Lemma zlen_frame s p : zlen (frame s p) = 4 + zlen p.
Proof. unfold frame. by rewrite zlen_app, zlen_header. Qed.

Lemma insert_seq (pre p t : bytes) s s' :
  <[Z.to_nat (zlen pre + 3) := to_byte s']> (pre ++ frame s p ++ t) = pre ++ frame s' p ++ t.
Proof.
  replace (Z.to_nat (zlen pre + 3)) with (length pre + 3)%nat by (unfold zlen; lia).
  rewrite insert_app_r. reflexivity.
Qed.

Lemma renumber_spec ps : Forall (fun x => small x.2 = true) ps -> forall fuel seq pre last, (length ps < fuel)%nat ->
  renumber fuel seq (zlen pre) last (pre ++ frames ps) =
  Ok (pre ++ frames (renum seq ps), last_seq seq ps, last_pos (zlen pre) last ps).
Proof.
  induction ps as [|[s p] ps IH]; intros Hsm fuel seq pre last Hf; destruct fuel as [|fuel]; try lia; cbn [renumber].
  - change (frames (renum seq [])) with (@nil ascii). change (frames []) with (@nil ascii). by rewrite app_nil_r, Z.ltb_irrefl.
  - apply list.Forall_cons in Hsm as [Hp Hsm]. rewrite frames_cons.
    assert (Hz : zlen (pre ++ frame s p ++ frames ps) = zlen pre + (4 + zlen p + zlen (frames ps)))
      by (rewrite !zlen_app, zlen_frame; lia).
    pose proof (zlen_nonneg p). pose proof (zlen_nonneg (frames ps)). rewrite Hz.
    replace (zlen pre <? _) with true by lia. replace (_ <? zlen pre + 4) with false by lia.
    assert (Hsl : slice (pre ++ frame s p ++ frames ps) (zlen pre) (zlen pre + 4) = Some (header (zlen p) s)).
    { unfold frame. rewrite <- app_assoc, <- (zlen_header (zlen p) s). apply slice_app. }
    rewrite Hsl. cbn [panic_on_none mbind result_bind]. rewrite header_length_header, insert_seq.
    unfold small in Hp. cbn in Hp. bool_simpl. rewrite Z.mod_small by lia.
    replace (zlen pre + (4 + zlen p)) with (zlen (pre ++ frame (next_seq seq) p)) by (rewrite zlen_app, zlen_frame; lia).
    rewrite app_assoc, IH; [|done|cbn in Hf; lia]. cbn [renum last_seq last_pos foldl]. rewrite frames_cons, <- app_assoc.
    do 2 f_equal. f_equal. by rewrite zlen_app, !zlen_frame.
Qed.

Lemma renum_payloads seq ps : (renum seq ps).*2 = ps.*2.
Proof. revert seq. induction ps as [|[s p] ps IH]; intros seq; [done|]. cbn [renum]. by rewrite !fmap_cons, IH. Qed.

Lemma next_seq_mod s n : 0 <= n -> next_seq ((s + n) mod 256) = (s + (n + 1)) mod 256.
Proof. intros. unfold next_seq, uint8. rewrite Z.add_mod_idemp_l by done. f_equal. lia. Qed.

Lemma renum_seqs ps : forall seq i x, renum seq ps !! i = Some x -> x.1 = (seq + 1 + Z.of_nat i) mod 256.
Proof.
  induction ps as [|[s p] ps IH]; intros seq i x; [done|]. destruct i as [|i]; cbn [renum].
  - intros [= <-]. cbn. unfold next_seq, uint8. f_equal. lia.
  - intros Hx. apply IH in Hx. rewrite Hx. unfold next_seq, uint8. rewrite <- Z.add_assoc, Z.add_mod_idemp_l by done. f_equal. lia.
Qed.

Lemma forward_response_frames `{Driver} seq ps : Forall (fun x => small x.2 = true) ps ->
  forward_response seq (frames ps) false = Ok (frames (renum seq ps), last_seq seq ps).
Proof.
  intros Hsm. unfold forward_response. pose proof (length_frames ps).
  rewrite (renumber_spec ps Hsm (S (length (frames ps))) seq []) by lia. done.
Qed.

Lemma last_pos_snoc ps s p : forall pos last, last_pos pos last (ps ++ [(s, p)]) = pos + zlen (frames ps).
Proof.
  induction ps as [|[s' p'] ps IH]; intros pos last; cbn [app last_pos]; [unfold zlen; cbn; lia|].
  rewrite IH, frames_cons, zlen_app. lia.
Qed.

Lemma renum_snoc ps s p : forall seq, renum seq (ps ++ [(s, p)]) = renum seq ps ++ [(last_seq seq (ps ++ [(s, p)]), p)].
Proof. induction ps as [|[s' p'] ps IH]; intros seq; [done|]. cbn [app renum last_seq foldl]. by rewrite IH. Qed.

Lemma zlen_frames_renum ps : forall seq, zlen (frames (renum seq ps)) = zlen (frames ps).
Proof.
  induction ps as [|[s p] ps IH]; intros seq; [done|]. cbn [renum]. by rewrite !frames_cons, !zlen_app, !zlen_frame, IH.
Qed.

Lemma put_uint16_app (pre rest : bytes) st v : put_uint16 (pre ++ le_enc 2 st ++ rest) (zlen pre) v = pre ++ le_enc 2 v ++ rest.
Proof.
  unfold put_uint16. replace (Z.to_nat (zlen pre)) with (length pre + 0)%nat by (unfold zlen; lia).
  replace (Z.to_nat (zlen pre + 1)) with (length pre + 1)%nat by (unfold zlen; lia). rewrite !insert_app_r. reflexivity.
Qed.

Section FlagMore.
Context `{DriverLaws}.

(** The more-results flag is set in the last packet and nothing else changes. *)
Lemma flag_more_eof pre s w st : 0 <= st < 2 ^ 16 ->
  flag_more (pre ++ frame s (to_byte 0xFE :: le_enc 2 w ++ le_enc 2 st)) (zlen pre) =
  Ok (pre ++ frame s (to_byte 0xFE :: le_enc 2 w ++ le_enc 2 (Z.lor st 8))).
Proof.
  intros Hst. set (h := header 5 s). set (e := to_byte 0xFE :: le_enc 2 w).
  assert (Hf : forall x, frame s (to_byte 0xFE :: le_enc 2 w ++ le_enc 2 x) = (h ++ e) ++ le_enc 2 x ++ [])
    by (intros x; rewrite app_nil_r, <- app_assoc; done).
  rewrite !Hf. unfold flag_more. rewrite zlen_app.
  assert (Hz : zlen ((h ++ e) ++ le_enc 2 st ++ []) = 9) by reflexivity. rewrite Hz.
  replace (zlen pre <? zlen pre + 9) with true by lia. rewrite slice_from_app. cbn [panic_on_none mbind result_bind]. rewrite Hz.
  change (index ((h ++ e) ++ le_enc 2 st ++ []) 4) with (Some (to_byte 0xFE)). cbn [panic_on_none mbind result_bind].
  change (4 <? 9) with true. change (9 <=? 9) with true. change (bval (to_byte 254) =? 0) with false.
  change (bval (to_byte 254) =? 254) with true. cbv iota. change 7 with (zlen (h ++ e)) at 1.
  rewrite uint16_at_app by done. cbn [mbind result_bind]. rewrite more_results_bit. change (uint16 8) with 8.
  change 7 with (zlen (h ++ e)). rewrite <- zlen_app, app_assoc, put_uint16_app, <- app_assoc. done.
Qed.

Lemma flag_more_ok pre s rows id st rest : 0 <= rows < 2 ^ 64 -> 0 <= id < 2 ^ 64 -> 0 <= st < 2 ^ 16 ->
  let p x := to_byte 0 :: lenenc rows ++ lenenc id ++ le_enc 2 x ++ rest in
  flag_more (pre ++ frame s (p st)) (zlen pre) = Ok (pre ++ frame s (p (Z.lor st 8))).
Proof.
  intros Hr Hi Hst p. set (h := header (zlen (p st)) s). set (e := h ++ [to_byte 0]).
  assert (Hf : forall x, frame s (p x) = e ++ lenenc rows ++ lenenc id ++ le_enc 2 x ++ rest).
  { intros x. subst e h. unfold frame. rewrite <- app_assoc. f_equal. f_equal. subst p. cbn beta. unfold zlen. cbn [length].
    by rewrite !length_app, !length_le_enc. }
  rewrite !Hf. set (q := e ++ lenenc rows ++ lenenc id).
  assert (Hq : forall x, e ++ lenenc rows ++ lenenc id ++ le_enc 2 x ++ rest = q ++ le_enc 2 x ++ rest)
    by (intros x; subst q; by rewrite <- !app_assoc).
  unfold flag_more. rewrite zlen_app. pose proof (zlen_nonneg (lenenc rows)). pose proof (zlen_nonneg (lenenc id)).
  pose proof (zlen_nonneg rest). assert (He : zlen e = 5) by reflexivity.
  assert (Hz : zlen (e ++ lenenc rows ++ lenenc id ++ le_enc 2 st ++ rest) = zlen q + (2 + zlen rest)) by (rewrite Hq, !zlen_app; done).
  assert (Hqz : 5 <= zlen q) by (subst q; rewrite !zlen_app, He; lia).
  rewrite Hz. replace (zlen pre <? _) with true by lia. rewrite slice_from_app. cbn [panic_on_none mbind result_bind]. rewrite Hz.
  replace (4 <? _) with true by lia.
  assert (Hi4 : index (e ++ lenenc rows ++ lenenc id ++ le_enc 2 st ++ rest) 4 = Some (to_byte 0)) by reflexivity.
  rewrite Hi4. cbn [panic_on_none mbind result_bind]. change (bval (to_byte 0) =? 0) with true. cbv iota. rewrite <- He.
  rewrite ok_status_offset_spec by done. cbn [mbind result_bind]. fold q. rewrite Hq.
  replace (zlen q + 2 <=? _) with true by lia. rewrite uint16_at_app by done. cbn [mbind result_bind].
  rewrite more_results_bit. change (uint16 8) with 8. rewrite Hq, <- zlen_app, app_assoc, put_uint16_app, <- app_assoc. done.
Qed.
End FlagMore.

(** ** Parameters as a client sends them

    The encoding of COM_STMT_EXECUTE by the protocol's documentation, the
    reference for the decoder. *)

Inductive param :=
| PNull
| PInt (width : nat) (unsigned : bool) (z : Z)
| PString (s : bytes).

Definition type_code (p : param) : Z :=
  match p with
  | PInt 1 _ _ => 0x01 | PInt 2 _ _ => 0x02 | PInt 4 _ _ => 0x03 | PInt _ _ _ => 0x08
  | PNull => 0x06 | PString _ => 0xFD
  end.
Definition type_bytes (p : param) : bytes :=
  [to_byte (type_code p); to_byte (match p with PInt _ true _ => 0x80 | _ => 0 end)].

Definition lenenc_bytes (n : Z) : bytes :=
  if n <? 251 then [to_byte n]
  else if n <? 2 ^ 16 then to_byte 0xFC :: le_enc 2 n
  else if n <? 2 ^ 24 then to_byte 0xFD :: le_enc 3 n
  else to_byte 0xFE :: le_enc 8 n.

Definition value_bytes (p : param) : bytes :=
  match p with
  | PNull => []
  | PInt w _ z => le_enc w z
  | PString s => lenenc_bytes (zlen s) ++ s
  end.

Definition is_null (p : param) : bool := match p with PNull => true | _ => false end.

(** Bit [i mod 8] of byte [i / 8] of the bitmap says that parameter [i] is NULL. *)
Definition bitmap_byte (nulls : nat -> bool) : byte :=
  to_byte (foldr (fun b acc => if nulls b then Z.setbit acc (Z.of_nat b) else acc) 0 (seq 0 8)).
Definition null_at (ps : list param) (i : nat) : bool := match ps !! i with Some p => is_null p | None => false end.
Definition bitmap (ps : list param) : bytes :=
  (fun j => bitmap_byte (fun b => null_at ps (8 * j + b))) <$> seq 0 ((length ps + 7) / 8).

Definition execute_data (stmtID flags : Z) (ps : list param) : bytes :=
  le_enc 4 stmtID ++ [to_byte flags] ++ le_enc 4 1 ++ bitmap ps ++ [to_byte 1] ++
  concat (type_bytes <$> ps) ++ concat (value_bytes <$> ps).

(** Integers of the protocol's widths in their range, strings that fit in memory. *)
Definition param_ok (p : param) : bool :=
  match p with
  | PNull => true
  | PInt w true z => ((w =? 1) || (w =? 2) || (w =? 4) || (w =? 8))%nat && (0 <=? z) && (z <? 256 ^ Z.of_nat w)
  | PInt w false z => ((w =? 1) || (w =? 2) || (w =? 4) || (w =? 8))%nat &&
      (- (256 ^ Z.of_nat w / 2) <=? z) && (z <? 256 ^ Z.of_nat w / 2)
  | PString s => zlen s <? 2 ^ 62
  end.

Definition param_value `{GoValues} (p : param) : value :=
  match p with
  | PNull => VNil
  | PInt _ true z => VInt Uint64 z
  | PInt _ false z => VInt Int64 z
  | PString s => VString s
  end.

(** ** Lemmas: bits *)

Lemma land_pow2 s k : 0 <= k -> (Z.land s (Z.shiftl 1 k) =? 0) = negb (Z.testbit s k).
Proof.
  intros Hk. rewrite Z.shiftl_1_l. destruct (Z.testbit s k) eqn:E; cbn [negb].
  - apply Z.eqb_neq. intros Hz. apply (f_equal (fun z => Z.testbit z k)) in Hz.
    rewrite Z.land_spec, E, Z.pow2_bits_true, Z.bits_0 in Hz by done. done.
  - apply Z.eqb_eq. apply Z.bits_inj'. intros n Hn. rewrite Z.land_spec, Z.bits_0.
    destruct (decide (n = k)) as [->|]; [by rewrite E|]. rewrite Z.pow2_bits_false by done. apply andb_false_r.
Qed.

Lemma testbit_fold (nulls : nat -> bool) l (k : nat) :
  Z.testbit (foldr (fun b acc => if nulls b then Z.setbit acc (Z.of_nat b) else acc) 0 l) (Z.of_nat k) =
  existsb (fun b => nulls b && Nat.eqb b k) l.
Proof.
  induction l as [|b l IH]; cbn [foldr existsb]; [apply Z.bits_0|]. destruct (nulls b); cbn [andb orb]; [|done].
  rewrite Z.setbit_eqb, IH by lia. f_equal. destruct (Nat.eqb b k) eqn:E.
  - apply Nat.eqb_eq in E. subst. apply Z.eqb_refl.
  - apply Nat.eqb_neq in E. apply Z.eqb_neq. lia.
Qed.

Lemma bitmap_byte_bit nulls k : (k < 8)%nat -> Z.testbit (bval (bitmap_byte nulls)) (Z.of_nat k) = nulls k.
Proof.
  intros Hk. unfold bitmap_byte. rewrite bval_to_byte. change 256 with (2 ^ 8). rewrite Z.mod_pow2_bits_low by lia.
  rewrite testbit_fold. apply eq_true_iff_eq. rewrite existsb_exists. split.
  - intros (b & _ & Hb). apply andb_true_iff in Hb as [Hb E]. apply Nat.eqb_eq in E. by subst.
  - intros Hn. exists k. split; [apply in_seq; lia|]. by rewrite Hn, Nat.eqb_refl.
Qed.

Lemma bitmap_index ps (i : nat) : (i < length ps)%nat ->
  exists b, index (bitmap ps) (Z.of_nat i / 8) = Some b /\
    (Z.land (bval b) (Z.shiftl 1 (Z.of_nat i mod 8)) =? 0) = negb (null_at ps i).
Proof.
  intros Hi. exists (bitmap_byte (fun b => null_at ps (8 * (i / 8) + b))).
  assert (Hd : Z.of_nat i / 8 = Z.of_nat (i / 8)) by by rewrite Nat2Z.inj_div.
  assert (Hm : Z.of_nat i mod 8 = Z.of_nat (i mod 8)) by by rewrite Nat2Z.inj_mod.
  split.
  - rewrite Hd. unfold index. replace (0 <=? Z.of_nat (i / 8)) with true by lia. rewrite Nat2Z.id. unfold bitmap.
    rewrite list_lookup_fmap, lookup_seq_lt; [done|]. apply Nat.Div0.div_lt_upper_bound.
    pose proof (Nat.div_mod (length ps + 7) 8). pose proof (Nat.mod_upper_bound (length ps + 7) 8). lia.
  - rewrite Hm, land_pow2 by lia. pose proof (Nat.mod_upper_bound i 8). rewrite bitmap_byte_bit by lia.
    by rewrite <- Nat.div_mod.
Qed.

Lemma length_bitmap ps : zlen (bitmap ps) = (zlen ps + 7) / 8.
Proof. unfold zlen, bitmap. rewrite length_fmap, length_seq, Nat2Z.inj_div. f_equal. lia. Qed.

(** ** Lemmas: decoding *)

Lemma lor_shift a b k : 0 <= k -> 0 <= a < 2 ^ k -> Z.lor a (Z.shiftl b k) = a + b * 2 ^ k.
Proof.
  intros Hk Ha. rewrite <- (Z.shiftl_mul_pow2 b k) by done. assert (Hl : Z.land a (Z.shiftl b k) = 0).
  { apply Z.bits_inj'. intros n Hn. rewrite Z.land_spec, Z.bits_0. destruct (decide (n < k)).
    - rewrite Z.shiftl_spec_low by done. apply andb_false_r.
    - rewrite <- (Z.mod_small a (2 ^ k)) by done. rewrite Z.mod_pow2_bits_high by lia. done. }
  rewrite Z.add_nocarry_lxor, Z.lxor_lor by done. done.
Qed.

Lemma index_app {A} (a : list A) x b : index (a ++ [x] ++ b) (zlen a) = Some x.
Proof.
  unfold index. pose proof (zlen_nonneg a). replace (0 <=? zlen a) with true by lia.
  unfold zlen. rewrite Nat2Z.id. by apply list_lookup_middle.
Qed.

Lemma index_1 {A} (x a : A) l : index (x :: a :: l) 1 = Some a.
Proof. done. Qed.

Lemma index_2 {A} (x y a : A) l : index (x :: y :: a :: l) 2 = Some a.
Proof. done. Qed.

Lemma index_3 {A} (x y z a : A) l : index (x :: y :: z :: a :: l) 3 = Some a.
Proof. done. Qed.

Lemma decode_lenenc n rest : 0 <= n < 2 ^ 64 ->
  decodeLengthEncodedInt (lenenc_bytes n ++ rest) = Some (n, zlen (lenenc_bytes n)).
Proof.
  intros Hn. unfold lenenc_bytes. pose proof (zlen_nonneg rest).
  destruct (n <? 251) eqn:E1; bool_simpl.
  { cbn [app decodeLengthEncodedInt]. rewrite bval_to_byte, Z.mod_small by lia.
    replace (n =? 251) with false by lia. replace (n =? 252) with false by lia. replace (n =? 253) with false by lia.
    by replace (n =? 254) with false by lia. }
  destruct (n <? 2 ^ 16) eqn:E2; bool_simpl.
  { cbn [le_enc app decodeLengthEncodedInt]. rewrite !zlen_cons. replace (1 + (1 + (1 + zlen rest)) <? 3) with false by lia.
    change (bval (to_byte 252) =? 251) with false. change (bval (to_byte 252) =? 252) with true.
    rewrite index_1, index_2, ?index_3. cbn [mbind option_bind]. rewrite !bval_to_byte. rewrite lor_shift by (try lia; apply Z.mod_pos_bound; lia).
    do 2 f_equal. rewrite (Z.mod_small (n / 256)) by (split; [apply Z.div_pos; lia|apply Z.div_lt_upper_bound; lia]).
    pose proof (Z.div_mod n 256). lia. }
  destruct (n <? 2 ^ 24) eqn:E3; bool_simpl.
  { cbn [le_enc app decodeLengthEncodedInt]. rewrite !zlen_cons. replace (1 + (1 + (1 + (1 + zlen rest))) <? 4) with false by lia.
    change (bval (to_byte 253) =? 251) with false. change (bval (to_byte 253) =? 252) with false.
    change (bval (to_byte 253) =? 253) with true.
    rewrite index_1, index_2, ?index_3. cbn [mbind option_bind]. rewrite !bval_to_byte.
    pose proof (Z.mod_pos_bound n 256). pose proof (Z.mod_pos_bound (n / 256) 256).
    rewrite (lor_shift (n mod 256)) by lia. rewrite lor_shift by lia.
    do 2 f_equal. rewrite (Z.mod_small (n / 256 / 256)).
    - pose proof (Z.div_mod n 256). pose proof (Z.div_mod (n / 256) 256). lia.
    - split; [repeat apply Z.div_pos; lia|]. repeat (apply Z.div_lt_upper_bound; [lia|]). lia. }
  change (to_byte 254 :: le_enc 8 n) with ([to_byte 254] ++ le_enc 8 n). rewrite <- app_assoc.
  assert (Hz : zlen ([to_byte 254] ++ le_enc 8 n ++ rest) = 9 + zlen rest)
    by (rewrite !zlen_app; change (zlen [to_byte 254]) with 1; change (zlen (le_enc 8 n)) with 8; lia).
  cbn [app decodeLengthEncodedInt]. change (bval (to_byte 254) =? 251) with false. change (bval (to_byte 254) =? 252) with false.
  change (bval (to_byte 254) =? 253) with false. change (bval (to_byte 254) =? 254) with true.
  cbn [app] in Hz. rewrite Hz. replace (9 + zlen rest <? 9) with false by lia.
  change (to_byte 254 :: le_enc 8 n ++ rest) with ([to_byte 254] ++ le_enc 8 n ++ rest).
  pose proof (slice_app [to_byte 254] (le_enc 8 n) rest) as Hs. change (zlen [to_byte 254] + zlen (le_enc 8 n)) with 9 in Hs.
  change (zlen [to_byte 254]) with 1 in Hs. rewrite Hs. cbn [mbind option_bind]. rewrite le_dec_enc.
  change (256 ^ Z.of_nat 8) with (2 ^ 64). by rewrite Z.mod_small.
Qed.

Section DecodeLemmas.
Context `{GoValues}.

Lemma decode_int_app pre w u z rest signed :
  decode_int (pre ++ le_enc w z ++ rest) (zlen pre) (Z.of_nat w) u signed =
  Ok (if u then VInt Uint64 (z mod 256 ^ Z.of_nat w) else VInt Int64 (signed (z mod 256 ^ Z.of_nat w)), zlen pre + Z.of_nat w).
Proof.
  unfold decode_int. rewrite !zlen_app. pose proof (zlen_nonneg rest).
  assert (Hw : zlen (le_enc w z) = Z.of_nat w) by (unfold zlen; by rewrite length_le_enc). rewrite Hw.
  replace (_ <? zlen pre + Z.of_nat w) with false by lia.
  rewrite <- Hw at 1. rewrite slice_app. cbn [panic_on_none mbind result_bind]. rewrite le_dec_enc. by destruct u.
Qed.

Lemma wrap_id bits z : 0 < bits -> - 2 ^ (bits - 1) <= z < 2 ^ (bits - 1) ->
  (z mod 2 ^ bits + 2 ^ (bits - 1)) mod 2 ^ bits - 2 ^ (bits - 1) = z.
Proof.
  intros Hb Hz. assert (2 ^ bits = 2 * 2 ^ (bits - 1)) by (rewrite <- Z.pow_succ_r by lia; f_equal; lia).
  rewrite Z.add_mod_idemp_l by lia. rewrite Z.mod_small by lia. lia.
Qed.

Lemma decode_value_app pre p rest : param_ok p = true -> is_null p = false -> zlen (pre ++ value_bytes p ++ rest) < 2 ^ 62 ->
  decodeParamValue (pre ++ value_bytes p ++ rest) (zlen pre) (bval (to_byte (type_code p)))
    (bval (to_byte (match p with PInt _ true _ => 0x80 | _ => 0 end)) =? 0x80) =
  Ok (param_value p, zlen (pre ++ value_bytes p)).
Proof.
  intros Hp Hn Hmax. destruct p as [|w u z|s]; [done| |].
  - assert (Hl : zlen (pre ++ value_bytes (PInt w u z)) = zlen pre + Z.of_nat w)
      by (rewrite zlen_app; unfold zlen at 2; cbn [value_bytes]; by rewrite length_le_enc).
    rewrite Hl. assert (Hu : (bval (to_byte (if u then 0x80 else 0)) =? 0x80) = u) by by destruct u.
    change (match PInt w u z with PInt _ true _ => 0x80 | _ => 0 end) with (if u then 0x80 else 0). rewrite Hu. clear Hu.
    assert (Hw : (w = 1 \/ w = 2 \/ w = 4 \/ w = 8)%nat).
    { destruct u; cbn in Hp; bool_simpl; repeat (apply orb_true_iff in Hp as [Hp|Hp] || apply orb_true_iff in H0 as [H0|H0]); bool_simpl;
        match goal with E : (_ =? _)%nat = true |- _ => apply Nat.eqb_eq in E; subst end; auto. }
    destruct Hw as [-> |[-> |[-> | ->]]]; destruct u; cbn -[Z.pow Z.div Z.mul] in Hp; bool_simpl;
      repeat match goal with
      | E : context [256 ^ ?w / 2] |- _ => let v := eval vm_compute in (256 ^ w / 2) in change (256 ^ w / 2) with v in E
      | E : context [256 ^ ?w] |- _ => let v := eval vm_compute in (256 ^ w) in change (256 ^ w) with v in E
      end;
      unfold decodeParamValue; cbn [type_code value_bytes];
      match goal with |- context [bval (to_byte ?c)] => change (bval (to_byte c)) with c end; cbn [Z.eqb Pos.eqb];
      (match goal with |- decode_int (_ ++ le_enc ?w _ ++ _) _ _ _ _ = _ => rewrite (decode_int_app pre w) end);
      cbn [param_value]; do 3 f_equal; try (apply Z.mod_small; change (256 ^ Z.of_nat 1) with 256; lia).
    + apply (wrap_id 8); lia.
    + apply (wrap_id 16); lia.
    + apply (wrap_id 32); lia.
    + apply (wrap_id 64); lia.
  - cbn [value_bytes type_code param_value] in *. unfold decodeParamValue. change (bval (to_byte 253)) with 253. cbn [Z.eqb Pos.eqb orb].
    rewrite slice_from_app. cbn [panic_on_none mbind result_bind]. rewrite <- app_assoc.
    cbn in Hp. bool_simpl. pose proof (zlen_nonneg s). pose proof (zlen_nonneg pre). pose proof (zlen_nonneg rest).
    rewrite decode_lenenc by lia. cbn [panic_on_none mbind result_bind].
    assert (Hpos : 0 < zlen (lenenc_bytes (zlen s))).
    { unfold lenenc_bytes. repeat destruct (_ <? _); cbn [le_enc]; rewrite ?zlen_cons; unfold zlen; cbn; lia. }
    replace (zlen (lenenc_bytes (zlen s)) =? 0) with false by lia. rewrite !zlen_app in Hmax.
    rewrite (int64_id (zlen s)) by (unfold MinInt64, MaxInt64; lia).
    rewrite int64_id by (unfold MinInt64, MaxInt64; lia). rewrite !zlen_app.
    replace (_ <? zlen pre + zlen (lenenc_bytes (zlen s)) + zlen s) with false by lia.
    rewrite app_assoc, <- zlen_app, slice_app. cbn [panic_on_none mbind result_bind]. do 2 f_equal. rewrite zlen_app. lia.
Qed.

Lemma type_index ps1 p ps2 :
  index (concat (type_bytes <$> ps1 ++ p :: ps2)) (zlen ps1 * 2) = Some (to_byte (type_code p)) /\
  index (concat (type_bytes <$> ps1 ++ p :: ps2)) (zlen ps1 * 2 + 1) =
    Some (to_byte (match p with PInt _ true _ => 0x80 | _ => 0 end)).
Proof.
  assert (Hl : length (concat (type_bytes <$> ps1)) = (2 * length ps1)%nat).
  { induction ps1 as [|q ps1 IH]; [done|]. rewrite fmap_cons. cbn [concat length]. rewrite length_app, IH. cbn. lia. }
  rewrite fmap_app, concat_app, fmap_cons. cbn [concat]. unfold index, zlen.
  replace (0 <=? Z.of_nat (length ps1) * 2) with true by lia. replace (0 <=? Z.of_nat (length ps1) * 2 + 1) with true by lia.
  replace (Z.to_nat (Z.of_nat (length ps1) * 2)) with (2 * length ps1)%nat by lia.
  replace (Z.to_nat (Z.of_nat (length ps1) * 2 + 1)) with (S (2 * length ps1)) by lia.
  rewrite <- Hl. set (t := concat (type_bytes <$> ps1)).
  rewrite (lookup_app_r t _ (length t)), (lookup_app_r t _ (S (length t))) by lia.
  replace (S (length t) - length t)%nat with 1%nat by lia. rewrite Nat.sub_diag. split; reflexivity.
Qed.

Lemma decode_values_spec ps : Forall (fun p => param_ok p = true) ps -> forall ps2 ps1 pre,
  ps = ps1 ++ ps2 -> zlen (pre ++ concat (value_bytes <$> ps2)) < 2 ^ 62 ->
  decode_values (length ps2) (zlen ps1) (pre ++ concat (value_bytes <$> ps2)) (bitmap ps)
    (Some (concat (type_bytes <$> ps))) (zlen pre) = Ok (param_value <$> ps2).
Proof.
  intros Hok. induction ps2 as [|p ps2 IH]; intros ps1 pre Hps Hmax; [done|]. cbn [length decode_values].
  assert (Hp : ps !! length ps1 = Some p) by (rewrite Hps; by apply list_lookup_middle).
  destruct (bitmap_index ps (length ps1)) as (b & Hb & Hbit); [by eapply lookup_lt_Some|].
  change (Z.of_nat (length ps1)) with (zlen ps1) in *. rewrite Hb. cbn [panic_on_none mbind result_bind].
  rewrite Hbit, negb_involutive. unfold null_at. rewrite Hp. rewrite fmap_cons in *. cbn [concat] in *.
  assert (Hnext : zlen ps1 + 1 = zlen (ps1 ++ [p])) by (rewrite zlen_app; done).
  assert (Hps' : ps = (ps1 ++ [p]) ++ ps2) by by rewrite <- app_assoc.
  destruct (is_null p) eqn:En.
  - assert (p = PNull) as -> by by destruct p. cbn [value_bytes app] in *. rewrite Hnext, (IH (ps1 ++ [PNull])) by done. done.
  - destruct (type_index ps1 p ps2) as [Ht Hu]. rewrite <- Hps in Ht, Hu. rewrite Ht, Hu. cbn [panic_on_none mbind result_bind].
    rewrite decode_value_app; [|exact (list.Forall_lookup_1 _ _ _ _ Hok Hp)|done|done]. cbn [mbind result_bind].
    rewrite Hnext, app_assoc, (IH (ps1 ++ [p])); [done|done|]. by rewrite <- app_assoc.
Qed.
End DecodeLemmas.

(** ** Lemmas: splitting *)

(** Scanning a text from outside quotes to outside quotes, meeting no
    semicolon there. *)
Fixpoint scan (cs : list chunk) (st : split_state) : option split_state :=
  match cs with
  | [] => Some st
  | c :: cs =>
      let r := rune c in
      if escaped st then scan cs (Split (inQuote st) (quoteChar st) false)
      else if r =? 92 then scan cs (Split (inQuote st) (quoteChar st) true)
      else
        let st := quote_step st r in
        if (r =? 59) && negb (inQuote st) then None else scan cs st
  end.

Definition recode (cs : list chunk) : bytes := concat ((fun c => encode_rune (rune c)) <$> cs).

Lemma split_scan cs cs' : forall st st' current queries, scan cs st = Some st' ->
  split_loop (cs ++ cs') st current queries = split_loop cs' st' (current ++ recode cs) queries.
Proof.
  unfold recode. induction cs as [|c cs IH]; intros st st' current queries Hs; cbn [scan app split_loop] in *.
  - injection Hs as ->. by rewrite app_nil_r.
  - rewrite fmap_cons. cbn [concat]. destruct (escaped st); [by rewrite (IH _ _ _ _ Hs), app_assoc|].
    destruct (rune c =? 92); [by rewrite (IH _ _ _ _ Hs), app_assoc|].
    destruct ((rune c =? 59) && _); [done|]. by rewrite (IH _ _ _ _ Hs), app_assoc.
Qed.

(** A statement: quotes are closed and its text is valid UTF-8 without
    surrounding white space. *)
Definition statement (s : bytes) : Prop :=
  s <> [] /\ TrimSpace s = s /\ valid_utf8 s = true /\
  forall q, exists q', scan (runes s) (Split false q false) = Some (Split false q' false).

Definition semicolon : byte := ";"%char.

Lemma runes_semicolon s t : runes (s ++ semicolon :: t) = runes s ++ ascii_chunk semicolon :: runes t.
Proof.
  rewrite runes_app_boundary by (vm_compute; reflexivity). rewrite runes_ascii_cons by (vm_compute; reflexivity). done.
Qed.

Lemma split_statements ss : Forall statement ss -> ss <> [] -> forall q queries,
  split_loop (runes (Join ss [semicolon])) (Split false q false) [] queries = queries ++ ss.
Proof.
  induction 1 as [|s ss (Hne & Ht & Hv & Hs) Hf IH]; [done|]. intros _ q queries. destruct (Hs q) as [q' Hscan].
  assert (Hadd : forall qs, add_query s qs = qs ++ [s]) by (intros qs; unfold add_query; by rewrite Ht, decide_False).
  destruct ss as [|s2 ss].
  - cbn [Join]. rewrite <- (app_nil_r (runes s)), (split_scan _ _ _ _ _ _ Hscan). cbn [app split_loop].
    unfold recode. by rewrite valid_utf8_encode, Hadd.
  - change (Join (s :: s2 :: ss) [semicolon]) with (s ++ [semicolon] ++ Join (s2 :: ss) [semicolon]). cbn [app].
    rewrite runes_semicolon, (split_scan _ _ _ _ _ _ Hscan). cbn [split_loop]. unfold recode. rewrite valid_utf8_encode by done.
    change (rune (ascii_chunk semicolon)) with 59. cbn [escaped]. change (59 =? 92) with false. change (59 =? 59) with true.
    change (quote_step (Split false q' false) 59) with (Split false q' false). cbn [inQuote negb andb app].
    rewrite IH by done. by rewrite Hadd, <- app_assoc.
Qed.

(** ** Properties *)

Section Properties.
Context `{DriverLaws}.

(** A packet written is the packet read: a payload shorter than 16 MiB is
    framed so that the reader gets the same payload and sequence number and
    nothing of what follows. *)
Theorem frame_roundtrip seq payload rest : small payload = true ->
  let '(seq', bytes_written) := write_packet seq payload in
  read_packet (bytes_written ++ rest) = Some (seq', payload, rest) /\ seq' = (seq + 1) mod 256.
Proof.
  intros Hs. cbn [write_packet]. split; [|done]. rewrite read_packet_frame by done.
  unfold next_seq, uint8. by rewrite Z.mod_mod.
Qed.

(** C18. The proxy is transparent for responses: from a backend stream that
    starts with any well-formed response (OK, error, result set, or a chain of
    them), exactly that response is read and the rest of the stream is left;
    and forwarding it gives the client the same payloads in the same order,
    numbered consecutively after the sequence number of its request. *)
Theorem response_transparent stmt seq ps rest : packets_ok ps -> response ps ->
  (exists s, collect_response stmt (frames ps ++ rest) = Ok (frames ps, s, rest)) /\
  (exists s, forward_response seq (frames ps) false = Ok (frames (renum seq ps), s)) /\
  (renum seq ps).*2 = ps.*2 /\
  forall i x, renum seq ps !! i = Some x -> x.1 = (seq + 1 + Z.of_nat i) mod 256.
Proof.
  intros Hok Hr. split; [|split; [|split]].
  - unfold collect_response. apply (collect_spec stmt ps rest Hok Hr). rewrite length_app. pose proof (length_frames ps). lia.
  - eexists. apply forward_response_frames. eapply list.Forall_impl; [exact Hok|]. by intros x [_ ?].
  - apply renum_payloads.
  - apply renum_seqs.
Qed.

(** Between the statements of a multi-statement query the client is told
    that another result follows: forwarding a response that ends in an EOF or
    OK packet with that request sets the flag in the status of the last packet
    and changes no other byte of any payload. *)
Theorem forward_sets_more_results seq ps s w rows id st tail :
  Forall (fun x => small x.2 = true) ps -> 0 <= st < 2 ^ 16 -> 0 <= rows < 2 ^ 64 -> 0 <= id < 2 ^ 64 ->
  let eof x := to_byte 0xFE :: le_enc 2 w ++ le_enc 2 x in
  let okp x := to_byte 0 :: lenenc rows ++ lenenc id ++ le_enc 2 x ++ tail in
  small (okp st) = true ->
  (exists n, forward_response seq (frames (ps ++ [(s, eof st)])) true =
     Ok (frames (renum seq ps ++ [(n, eof (Z.lor st 8))]), n)) /\
  (exists n, forward_response seq (frames (ps ++ [(s, okp st)])) true =
     Ok (frames (renum seq ps ++ [(n, okp (Z.lor st 8))]), n)).
Proof.
  intros Hsm Hst Hr Hi eof okp Hok.
  assert (Hgen : forall p p', small p = true ->
    (forall pre n, flag_more (pre ++ frame n p) (zlen pre) = Ok (pre ++ frame n p')) ->
    exists n, forward_response seq (frames (ps ++ [(s, p)])) true = Ok (frames (renum seq ps ++ [(n, p')]), n)).
  { intros p p' Hp Hfl. exists (last_seq seq (ps ++ [(s, p)])). unfold forward_response.
    pose proof (length_frames (ps ++ [(s, p)])).
    rewrite (renumber_spec (ps ++ [(s, p)]) ltac:(by apply list.Forall_app; split; [|repeat constructor])
               (S (length (frames (ps ++ [(s, p)])))) seq []) by lia.
    cbn [mbind result_bind app]. rewrite last_pos_snoc, renum_snoc, !frames_app. change (zlen (@nil ascii)) with 0.
    rewrite Z.add_0_l, <- (zlen_frames_renum ps seq), !frames_cons. change (frames []) with (@nil ascii).
    rewrite !app_nil_r, Hfl. done. }
  split; apply Hgen; [done| |done|]; intros pre n; [by apply flag_more_eof|by apply flag_more_ok].
Qed.

(** C30. The decoder of prepared-statement parameters inverts the protocol's
    encoding: for any parameters (NULLs, integers of every width and
    signedness, strings of any length), the values decoded are the ones sent. *)
Theorem decodeStmtParams_encode `{GoValues} stmtID flags query ps :
  ps <> [] -> CountByte query question = length ps -> Forall (fun p => param_ok p = true) ps ->
  zlen (execute_data stmtID flags ps) < 2 ^ 62 ->
  decodeStmtParams (execute_data stmtID flags ps) query = Ok (param_value <$> ps).
Proof.
  intros Hne Hc Hok Hmax. unfold decodeStmtParams. rewrite Hc. change (Z.of_nat (length ps)) with (zlen ps).
  set (hd := le_enc 4 stmtID ++ [to_byte flags] ++ le_enc 4 1).
  assert (Hd : execute_data stmtID flags ps = hd ++ bitmap ps ++ [to_byte 1] ++ concat (type_bytes <$> ps) ++ concat (value_bytes <$> ps))
    by (subst hd; unfold execute_data; by rewrite <- !app_assoc).
  rewrite Hd in *. assert (Hhd : zlen hd = 9) by reflexivity.
  assert (Htl : zlen (concat (type_bytes <$> ps)) = zlen ps * 2).
  { clear. induction ps as [|p ps IH]; [done|]. rewrite fmap_cons. cbn [concat]. rewrite zlen_app, IH, zlen_cons.
    change (zlen (type_bytes p)) with 2. lia. }
  pose proof (zlen_nonneg (concat (value_bytes <$> ps))) as Hv.
  assert (Hps : 0 < zlen ps) by (destruct ps; [done|rewrite zlen_cons; pose proof (zlen_nonneg ps); lia]).
  assert (Hb : 1 <= (zlen ps + 7) / 8) by (apply Z.div_le_lower_bound; lia).
  assert (Hz : zlen (hd ++ bitmap ps ++ [to_byte 1] ++ concat (type_bytes <$> ps) ++ concat (value_bytes <$> ps)) =
    9 + ((zlen ps + 7) / 8 + (1 + (zlen ps * 2 + zlen (concat (value_bytes <$> ps))))))
    by (rewrite !zlen_app, Hhd, length_bitmap, Htl; done).
  rewrite Hz. replace (_ <? 10) with false by lia. replace (zlen ps =? 0) with false by lia.
  replace (_ <? 10 + (zlen ps + 7) / 8) with false by lia.
  assert (Hsl : slice (hd ++ bitmap ps ++ [to_byte 1] ++ concat (type_bytes <$> ps) ++ concat (value_bytes <$> ps))
    9 (9 + (zlen ps + 7) / 8) = Some (bitmap ps)) by (rewrite <- length_bitmap, <- Hhd; apply slice_app).
  rewrite Hsl. cbn [panic_on_none mbind result_bind].
  match goal with |- context [?n <=? 9 + (zlen ps + 7) / 8] =>
    replace (n <=? 9 + (zlen ps + 7) / 8) with false by (try rewrite Hz; lia) end.
  assert (Hidx : index (hd ++ bitmap ps ++ [to_byte 1] ++ concat (type_bytes <$> ps) ++ concat (value_bytes <$> ps))
    (9 + (zlen ps + 7) / 8) = Some (to_byte 1)).
  { rewrite <- length_bitmap, <- Hhd, <- zlen_app, app_assoc. apply index_app. }
  rewrite Hidx. cbn [panic_on_none mbind result_bind]. change (bval (to_byte 1) =? 1) with true. cbv iota.
  match goal with |- context [?n <? 9 + (zlen ps + 7) / 8 + 1 + zlen ps * 2] =>
    replace (n <? 9 + (zlen ps + 7) / 8 + 1 + zlen ps * 2) with false by lia end.
  set (pre := hd ++ bitmap ps ++ [to_byte 1]).
  assert (Hpre : zlen pre = 9 + (zlen ps + 7) / 8 + 1) by (subst pre; rewrite !zlen_app, length_bitmap, Hhd; change (zlen [to_byte 1]) with 1; lia).
  assert (Hshape : hd ++ bitmap ps ++ [to_byte 1] ++ concat (type_bytes <$> ps) ++ concat (value_bytes <$> ps) =
    pre ++ concat (type_bytes <$> ps) ++ concat (value_bytes <$> ps)) by (subst pre; by rewrite <- !app_assoc).
  rewrite Hshape in *. rewrite <- Hpre, <- Htl, slice_app. cbn [panic_on_none mbind result_bind].
  rewrite <- zlen_app, app_assoc. unfold zlen at 1. rewrite Nat2Z.id.
  apply (decode_values_spec ps Hok ps [] (pre ++ concat (type_bytes <$> ps))); [done|]. rewrite <- app_assoc, Hz. lia.
Qed.
End Properties.


(** ** Witnesses *)

(** A driver with the protocol's encodings (and a handshake reduced to the user). *)
#[local] Instance PlainDriver : Driver := {|
  command_code c := match c with
    | ComQuit => 0x01 | ComInitDB => 0x02 | ComQuery => 0x03 | ComFieldList => 0x04 | ComPing => 0x0E
    | ComStmtPrepare => 0x16 | ComStmtExecute => 0x17 | ComStmtClose => 0x19 | ComStmtReset => 0x1A
    end;
  lenenc_size b := match b with
    | [] => 1
    | h :: _ => if bval h =? 0xFC then 3 else if bval h =? 0xFD then 4 else if bval h =? 0xFE then 9 else 1
    end;
  StatusMoreResultsExists := 8;
  StatusInTrans := 1;
  StatusInAutocommit := 2;
  ClientSSL := 2 ^ 11;
  ClientDeprecateEOF := 2 ^ 24;
  WriteOKPacket rows id status _ := to_byte 0 :: lenenc_bytes rows ++ lenenc_bytes id ++ le_enc 2 status ++ le_enc 2 0;
  WriteErrorPacket code state message _ := to_byte 0xFF :: le_enc 2 code ++ state ++ message;
  WriteEOFPacket status _ := to_byte 0xFE :: le_enc 2 0 ++ le_enc 2 status;
  WriteHandshakeV10 connID salt _ _ := to_byte 10 :: le_enc 4 connID ++ salt;
  ParseHandshakeResponse b := Some (HandshakeResponse 0 b [] [])
|}.

#[local] Instance PlainDriverLaws : DriverLaws.
Proof.
  refine {| lenenc := lenenc_bytes |}; [|by intros [] []|by intros []|done|done|].
  - intros n rest Hn. unfold lenenc_bytes. destruct (n <? 251) eqn:E; bool_simpl.
    { cbn [app lenenc_size PlainDriver]. rewrite bval_to_byte, Z.mod_small by lia.
      replace (n =? 252) with false by lia. replace (n =? 253) with false by lia. replace (n =? 254) with false by lia. done. }
    destruct (n <? 2 ^ 16); [done|]. destruct (n <? 2 ^ 24); done.
  - intros. eexists. reflexivity.
Defined.

Lemma frame_roundtrip_witness :
  small (str "SELECT 1") = true /\
  (let '(seq', bytes_written) := write_packet 255 (str "SELECT 1") in
   read_packet (bytes_written ++ str "rest") = Some (seq', str "SELECT 1", str "rest") /\ seq' = (255 + 1) mod 256).
Proof. split; [reflexivity|]. apply (frame_roundtrip 255 (str "SELECT 1") (str "rest")). reflexivity. Defined.

(** A result set of one column and one row, then an OK packet. *)
Definition sample_response : list (Z * bytes) :=
  [(1, [to_byte 1]); (2, str "def"); (3, to_byte 0xFE :: le_enc 2 0 ++ le_enc 2 2);
   (4, to_byte 1 :: str "x"); (5, to_byte 0xFE :: le_enc 2 0 ++ le_enc 2 10);
   (6, to_byte 0 :: lenenc_bytes 300 ++ lenenc_bytes 7 ++ le_enc 2 2 ++ le_enc 2 0)].

Lemma sample_response_ok : packets_ok sample_response /\ response sample_response.
Proof.
  split; [repeat constructor; done|].
  apply (response_rows_more [(1, [to_byte 1]); (2, str "def")] 3 _ [(4, to_byte 1 :: str "x")] 5 _
    [(6, to_byte 0 :: lenenc_bytes 300 ++ lenenc_bytes 7 ++ le_enc 2 2 ++ le_enc 2 0)]).
  - apply list.Forall_cons_2; [|apply list.Forall_cons_2; [|apply list.Forall_nil_2]];
      (eexists _, _; split; [reflexivity|]; vm_compute; repeat split; discriminate).
  - apply list.Forall_cons_2; [|apply list.Forall_nil_2]. intros ? ? [= <- <-]. vm_compute. repeat split; discriminate.
  - exists false, 0, 2. done.
  - exists 0, 10. done.
  - apply response_ok. exists 300, 7, 2, (le_enc 2 0). done.
Qed.

Lemma response_transparent_witness :
  packets_ok sample_response /\ response sample_response /\
  (exists s, collect_response true (frames sample_response ++ str "rest") = Ok (frames sample_response, s, str "rest")).
Proof.
  destruct sample_response_ok as [Hok Hr]. split; [done|split; [done|]].
  apply (response_transparent true 0 sample_response (str "rest") Hok Hr).
Defined.

Lemma forward_sets_more_results_witness :
  exists n, forward_response 0 (frames (take 4 sample_response ++ [(5, to_byte 0xFE :: le_enc 2 0 ++ le_enc 2 2)])) true =
    Ok (frames (renum 0 (take 4 sample_response) ++ [(n, to_byte 0xFE :: le_enc 2 0 ++ le_enc 2 10)]), n).
Proof.
  refine (proj1 (forward_sets_more_results 0 (take 4 sample_response) 5 0 1 1 2 [] _ _ _ _ _)); [repeat constructor|lia..|reflexivity].
Defined.

#[local] Existing Instance NoFloats.

Lemma decodeStmtParams_encode_witness :
  decodeStmtParams (execute_data 1 0 [PInt 8 true 7; PNull; PString (str "abc"); PInt 1 false (-5)])
    (str "INSERT INTO t VALUES (?, ?, ?, ?)") = Ok [VInt Uint64 7; VNil; VString (str "abc"); VInt Int64 (-5)].
Proof.
  apply (decodeStmtParams_encode 1 0 (str "INSERT INTO t VALUES (?, ?, ?, ?)") [PInt 8 true 7; PNull; PString (str "abc"); PInt 1 false (-5)]);
    [done|reflexivity|repeat constructor|reflexivity].
Defined.


(** ** Observations *)

(** Splitting re-encodes the text rune by rune: a byte that is not UTF-8 (a
    binary literal, a latin1 connection) reaches the backend as U+FFFD. *)
Example splitQueries_replaces_bytes :
  splitQueries (str "SELECT '" ++ [to_byte 0xE9] ++ str "'") =
  [str "SELECT '" ++ [to_byte 0xEF; to_byte 0xBF; to_byte 0xBD] ++ str "'"].
Proof. vm_compute. reflexivity. Qed.

(** A string parameter whose length is announced as 2^64 - 1: the conversion to
    int makes it -1, the bound check passes and the slice expression panics. *)
Example decodeParamValue_panics : decodeParamValue (to_byte 0xFE :: le_enc 8 (2 ^ 64 - 1)) 0 0xFD false = Panic.
Proof. vm_compute. reflexivity. Qed.

(** A payload of 16 MiB is announced with length zero: it is not split. *)
Example header_overflows : header (2 ^ 24) 0 = header 0 0.
Proof. vm_compute. reflexivity. Qed.

(** A first packet that asks for a local file does not end the response of a
    text query, so the request is never forwarded to the client. *)
Example local_infile_not_returned :
  collect_response false (frame 1 (to_byte 0xFB :: str "data.csv")) = Err /\
  collect_response true (frame 1 (to_byte 0xFB :: str "data.csv")) =
    Ok (frame 1 (to_byte 0xFB :: str "data.csv"), 1, []).
Proof. split; vm_compute; reflexivity. Qed.
