(* ===== verification/MariaConn.v ===== *)
(** * Package mariadb: a client connection

    The session of one client (src/mariadb/mariadb.go, [clientConn]): the
    handshake, the command loop, the choice of a backend, transactions, the
    cache, prepared statements and batched writes.

    A handler runs in the monad of Effects.  What a handler calls is a parameter: the backends (class [Network]), the query cache (class
    [CacheService], implemented by the package cache), the write batch manager
    (class [BatchService], implemented by the package writebatch).  Packets to
    the backends, uses of the cache's flights and enqueued writes are logged. *)

From Stdlib Require Import Ascii ZArith Lia.
From stdpp Require Import base list gmap strings numbers.
From coqutil Require Import Datatypes.RecordSetters.
From S2P Require Import Prelude GoStrings BatchText Metrics Executor Parser Replica Cache Config Effects Sha1 Services MariaWire.
Import DoubleBraceUpdate.

Open Scope Z_scope.

(** ** What the session calls *)

(** A connection the driver opens: it fails, or the server sends a challenge
    that the [HandleAuth] callback answers. *)
Inductive login (peer : Type) := Rejected | NoRawConn | LoggedIn (p : peer).
Arguments Rejected {peer}.
Arguments NoRawConn {peer}.
Arguments LoggedIn {peer}.

Class Network := {
  peer : Type;
  (** Writing to a backend: [None] is a write error; otherwise the bytes the
      backend sends in return. *)
  peer_write : peer -> bytes -> option (peer * bytes);
  (** The [n]-th connection: network, address, database; the plugin, the salt,
      the capabilities, and what follows for a user and an answer. *)
  connect : nat -> bytes -> bytes -> bytes -> option (bytes * bytes * Z * (bytes -> bytes -> login peer))
}.

Section Session.
Context `{Ut : UnicodeTables} `{Dr : Driver} `{Nw : Network} `{Cs : CacheService} `{Gv : GoValues} `{Da : !Database} `{Bs : !BatchService}.

(** ** State *)

Inductive error :=
| EOF
| IOError                              (* a read, write or dial that failed *)
| BadHandshake
| NoRawConnection
| NoBackendPool (db : bytes)
| Malformed
| UnknownStatement (stmtID : Z)
| Unsupported (cmd : Z)
| BatchError (e : Executor.error).

(** [e.Error()] *)
Variable error_text : error -> bytes.

Record clientConn := MkConn {
  backend : option peer;
  backendPool : option nat;            (* a location in the heap of pools *)
  connID : Z;
  capability : Z;
  status : Z;
  sequence : Z;
  backendSeq : Z;
  salt : bytes;
  db : bytes;
  user : bytes;
  auth : bytes;
  rawAuthPkt : bytes;
  backendAddr : bytes;
  backendName : bytes;
  lastQueryBackend : bytes;
  lastQueryShard : bytes;
  lastQueryCacheHit : bool;
  lastBatchSize : Z;
  preparedStatements : gmap Z ParsedQuery;
  inTransaction : bool
}.

Record Proxy := MkProxy {
  pconfig : ProxyConfig;
  ppools : pools;
  writeBatch : option manager
}.

Inductive event :=
| EDial (addr : bytes)
| EWrite (addr : bytes) (payload : bytes)   (* a packet to the backend at this address *)
| EClose                                    (* the backend connection is closed *)
| ELead (key : bytes)                       (* GetOrWait made this session the leader of a flight *)
| ENotify (key : bytes)
| ECancel (key : bytes)
| EEnqueue (key query : bytes) (params : list value).

Record world := MkSession {
  conn : clientConn;
  client_in : bytes;                   (* what the client has sent and was not read *)
  client_out : bytes;                  (* what was written to the client *)
  client_writes : list bool;           (* whether the next writes succeed; they do from then on *)
  backend_in : bytes;                  (* what the backend has sent and was not read *)
  dials : nat;
  proxy : Proxy;
  pool_heap : list Pool;
  qcache : cache;
  trace : list event
}.

Abbreviation M := (Effects.M world error).
Abbreviation respects := (@Effects.respects world error _).

Definition self {A} (f : clientConn -> A) : M A := fun w => (w, Done (f (conn w))).
Definition update (f : clientConn -> clientConn) : M unit := fun w => (w {{ conn ::= f }}, Done tt).
Definition emit (e : event) : M unit := modify (fun w => w {{ trace ::= fun t => t ++ [e] }}).

(** ** Packets to and from the client *)

(** [c.conn.Write] *)
Definition client_write (data : bytes) : M unit := fun w =>
  match client_writes w with
  | false :: rest => (w {{ client_writes := rest }}, Fail IOError)
  | [] => (w {{ client_out ::= fun out => out ++ data }}, Done tt)
  | true :: rest => (w {{ client_writes := rest; client_out ::= fun out => out ++ data }}, Done tt)
  end.

Definition writePacket (payload : bytes) : M unit :=
  update (fun c => c {{ sequence := next_seq (sequence c) }});;
  seq ← self sequence;
  client_write (frame seq payload).

(** [io.ReadFull] returns [io.EOF] when nothing was read. *)
Definition read_error (input : bytes) : error := if decide (input = []) then EOF else IOError.

Definition readPacket : M bytes := fun w =>
  match read_full 4 (client_in w) with
  | None => (w {{ client_in := [] }}, Fail (read_error (client_in w)))
  | Some (h, rest) =>
      let w := w {{ client_in := rest; conn -> sequence := bval (default Ascii.zero (h !! 3%nat)) }} in
      match read_full (header_length h) rest with
      | None => (w {{ client_in := [] }}, Fail (read_error rest))
      | Some (payload, rest) => (w {{ client_in := rest }}, Done payload)
      end
  end.

(** [status |= mysql.StatusMoreResultsExists] when more results follow. *)
Definition with_more (st : Z) (moreResults : bool) : Z :=
  if moreResults then Z.lor st StatusMoreResultsExists else st.

Definition writeOKWithRowsAndID (affectedRows lastInsertID : Z) (moreResults : bool) : M unit :=
  update (fun c => c {{ sequence := next_seq (sequence c) }});;
  c ← self id;
  client_write (frame (sequence c)
    (WriteOKPacket (uint64 affectedRows) (uint64 lastInsertID) (with_more (status c) moreResults) (capability c))).

Definition writeOKWithInfo (moreResults : bool) : M unit :=
  update (fun c => c {{ sequence := next_seq (sequence c) }});;
  c ← self id;
  client_write (frame (sequence c) (WriteOKPacket 0 0 (with_more (status c) moreResults) (capability c))).
Definition writeOK : M unit := writeOKWithInfo false.

Definition writeError (e : error) : M unit :=
  update (fun c => c {{ sequence := next_seq (sequence c) }});;
  c ← self id;
  client_write (frame (sequence c) (WriteErrorPacket 1105 (str "HY000") (error_text e) (capability c))).

Definition writeEOF : M unit :=
  update (fun c => c {{ sequence := next_seq (sequence c) }});;
  c ← self id;
  client_write (frame (sequence c) (WriteEOFPacket (status c) (capability c))).

(** The response is copied, so what the cache holds does not change. *)
Definition forwardBackendResponse (response : bytes) (moreResults : bool) : M unit :=
  seq ← self sequence;
  match forward_response seq response moreResults with
  | Ok (resp, seq) => update (fun c => c {{ sequence := seq }});; client_write resp
  | Err => fail IOError
  | Panic => crash
  end.

(** ** Packets to and from the backend *)

Definition resetBackend : M unit :=
  b ← self backend;
  (match b with Some _ => emit EClose | None => mret tt end);;
  modify (fun w => w {{ backend_in := [] }});;
  update (fun c => c {{ backend := None; backendAddr := []; backendName := [] }}).

(** A method of a nil connection panics. *)
Definition writeBackendPacket (payload : bytes) : M unit :=
  update (fun c => c {{ backendSeq := next_seq (backendSeq c) }});;
  c ← self id;
  p ← or_crash (backend c);
  emit (EWrite (backendAddr c) payload);;
  match peer_write p (frame (backendSeq c) payload) with
  | None => resetBackend;; fail IOError
  | Some (p, reply) =>
      update (fun c => c {{ backend := Some p }});;
      modify (fun w => w {{ backend_in ::= fun i => i ++ reply }})
  end.

Definition readBackendPacket : M bytes :=
  c ← self id;
  _ ← or_crash (backend c);
  input ← get backend_in;
  match read_full 4 input with
  | None => resetBackend;; fail IOError
  | Some (h, rest) =>
      update (fun c => c {{ backendSeq := bval (default Ascii.zero (h !! 3%nat)) }});;
      match read_full (header_length h) rest with
      | None => resetBackend;; fail IOError
      | Some (payload, rest) => modify (fun w => w {{ backend_in := rest }});; mret payload
      end
  end.

(** The read loop of [execBackendQuery] and [execBackendResponse], which is
    [MariaWire.collect] on what the backend sends. *)
Definition read_response (stmt : bool) : M bytes :=
  c ← self id;
  _ ← or_crash (backend c);
  input ← get backend_in;
  match collect_response stmt input with
  | Ok (response, seq, rest) =>
      update (fun c => c {{ backendSeq := seq }});;
      modify (fun w => w {{ backend_in := rest }});;
      mret response
  | Err => resetBackend;; fail IOError
  | Panic => crash
  end.

Definition com (c : command) (data : bytes) : bytes := to_byte (command_code c) :: data.

(** A command starts a new sequence: 255 wraps to 0 on the write. *)
Definition send_command (c : command) (data : bytes) : M unit :=
  update (fun c => c {{ backendSeq := 255 }});;
  writeBackendPacket (com c data).

Definition execBackendResponse : M bytes := read_response true.
Definition execBackendQuery (query : bytes) : M bytes :=
  send_command ComQuery query;;
  read_response false.

(** ** Connecting *)

Definition writeServerGreeting : M unit :=
  c ← self id;
  update (fun c => c {{ sequence := 255 }});;
  writePacket (WriteHandshakeV10 (connID c) (salt c) (capability c) (status c)).

Definition readClientAuth : M unit :=
  packet ← readPacket;
  match ParseHandshakeResponse packet with
  | None => fail BadHandshake
  | Some hr =>
      update (fun c => c {{ capability := hr_Capability hr; user := hr_User hr; auth := hr_Auth hr;
                            db := hr_DB hr; rawAuthPkt := packet }})
  end.

(** The [HandleAuth] callback: the answer to the server's challenge. *)
Definition handle_auth (plugin newSalt : bytes) (serverCapabilities : Z) : M bytes :=
  u ← self user;
  if decide (u = []) then
    update (fun c => c {{ salt := newSalt;
      capability := Z.ldiff serverCapabilities (Z.lor ClientSSL ClientDeprecateEOF) }});;
    writeServerGreeting;;
    readClientAuth;;
    self auth
  else
    writePacket (to_byte 0xFE :: plugin ++ [to_byte 0] ++ newSalt);;
    readPacket.

Definition dialAndAuth (addr : bytes) : M peer :=
  let '(network, dialAddr) := dial_target addr in
  u ← self user;
  name ← self db;
  n ← get dials;
  modify (fun w => w {{ dials := S n }});;
  emit (EDial addr);;
  match connect n network dialAddr name with
  | None => fail IOError
  | Some (plugin, newSalt, serverCapabilities, answer) =>
      response ← handle_auth plugin newSalt serverCapabilities;
      u' ← self user;
      match answer u' response with
      | Rejected => fail IOError
      | LoggedIn raw => (if decide (u = []) then writeOK else mret tt);; mret raw
      | NoRawConn => (if decide (u = []) then writeOK else mret tt);; fail NoRawConnection
      end
  end.

Definition ensureBackendConn (addr name : bytes) (pool : option nat) : M unit :=
  c ← self id;
  if bool_decide (addr = backendAddr c) && bool_decide (is_Some (backend c)) then mret tt
  else
    newBackend ← dialAndAuth addr;
    b ← self backend;
    (match b with Some _ => emit EClose | None => mret tt end);;
    modify (fun w => w {{ backend_in := [] }});;
    update (fun c => c {{ backend := Some newBackend; backendPool := pool; backendAddr := addr; backendName := name }}).

(** Reading the primary of the pool at a location; a nil pool panics. *)
Definition primary_of (loc : option nat) : M bytes :=
  h ← get pool_heap;
  p ← or_crash (l ← loc; h !! l);
  mret (GetPrimary p).

Definition ensureBackend (name : bytes) : M unit :=
  p ← get proxy;
  let shardName := shard_of (pconfig p) name in
  match target_pool (pconfig p) (ppools p) name with
  | None => fail (NoBackendPool name)
  | Some targetPool =>
      update (fun c => c {{ lastQueryShard := shardName }});;
      c ← self id;
      if bool_decide (backendPool c = Some targetPool) && bool_decide (is_Some (backend c)) then mret tt
      else
        addr ← primary_of (Some targetPool);
        ensureBackendConn addr (str "primary") (Some targetPool)
  end.

(** ** Text queries *)

Definition queryTypeLabel (t : QueryType) : bytes :=
  match t with
  | QuerySelect => str "select"
  | QueryInsert => str "insert"
  | QueryUpdate => str "update"
  | QueryDelete => str "delete"
  | QueryUnknown => str "unknown"
  end.

Definition use_query (name : bytes) : bytes := str "USE `" ++ name ++ str "`".

Definition handleBegin (moreResults : bool) : M unit :=
  _ ← execBackendQuery (str "BEGIN");
  update (fun c => c {{ status := Z.lor (status c) StatusInTrans; inTransaction := true }});;
  writeOKWithInfo moreResults.

Definition handleCommit (moreResults : bool) : M unit :=
  _ ← execBackendQuery (str "COMMIT");
  update (fun c => c {{ status := Z.ldiff (status c) StatusInTrans; inTransaction := false }});;
  writeOKWithInfo moreResults.

Definition handleRollback (moreResults : bool) : M unit :=
  _ ← execBackendQuery (str "ROLLBACK");
  update (fun c => c {{ status := Z.ldiff (status c) StatusInTrans; inTransaction := false }});;
  writeOKWithInfo moreResults.

(** The client's packets are forwarded up to the empty one that ends the
    file.  Every packet takes four bytes of what the client sends. *)
Fixpoint infile_loop (fuel : nat) : M unit :=
  match fuel with
  | O => fail IOError
  | S fuel =>
      packet ← readPacket;
      writeBackendPacket packet;;
      if zlen packet =? 0 then mret tt else infile_loop fuel
  end.

Definition handleLocalInfile (initialResponse : bytes) (moreResults : bool) : M unit :=
  forwardBackendResponse initialResponse moreResults;;
  input ← get client_in;
  infile_loop (S (length input));;
  finalResponse ← execBackendResponse;
  forwardBackendResponse finalResponse moreResults.

(** [len(response) >= 5 && response[4] == h] *)
Definition first_byte_is (response : bytes) (h : Z) : bool :=
  match response !! 4%nat with Some b => bval b =? h | None => false end.

Definition status_query (backend shard : bytes) (batchSize : Z) : bytes :=
  let query := str "SELECT 'Backend' AS `Variable_name`, '" ++ backend ++
               str "' AS `Value` UNION ALL SELECT 'Shard', '" ++ shard ++ str "'" in
  if 0 <? batchSize then query ++ str " UNION ALL SELECT 'LastBatchSize', '" ++ Itoa batchSize ++ str "'" else query.

Definition handleShowTQDBStatus (moreResults : bool) : M unit :=
  ensureBackend [];;
  c ← self id;
  p ← get proxy;
  let backend := if decide (lastQueryBackend c = []) then str "none" else lastQueryBackend c in
  let shard := if decide (lastQueryShard c = []) then Default (pconfig p) else lastQueryShard c in
  response ← execBackendQuery (status_query backend shard (lastBatchSize c));
  forwardBackendResponse response moreResults.

(** ** Batched writes *)

Definition executeImmediateWrite (query file lineStr queryType : bytes) (moreResults : bool) : M unit :=
  loc ← self backendPool;
  addr ← primary_of loc;
  ensureBackendConn addr (str "primary") loc;;
  response ← execBackendQuery query;
  metric DatabaseQueries [str "primary"];;
  metric QueryTotal [file; lineStr; queryType; str "false"];;
  metric QueryLatency [file; lineStr; queryType];;
  update (fun c => c {{ lastQueryBackend := str "primary"; lastQueryCacheHit := false }});;
  forwardBackendResponse response moreResults.

(** [c.proxy.writeBatch.Enqueue]; the callback it is given is [batchCallback]. *)
Definition enqueue (key query : bytes) (params : list value) (batchMs : Z) : M WriteResult :=
  p ← get proxy;
  m ← or_crash (writeBatch p);
  emit (EEnqueue key query params);;
  let '(m, r) := Enqueue m key query params batchMs in
  modify (fun w => w {{ proxy -> writeBatch := Some m }});;
  mret r.

(** The callback runs when the session's mutex is free: between statements. *)
Definition batchCallback (batchSize : Z) (w : world) : world := w {{ conn -> lastBatchSize := batchSize }}.

Definition batch_done (r : WriteResult) (moreResults : bool) : M unit :=
  update (fun c => c {{ lastQueryBackend := str "write-batch"; lastQueryCacheHit := false;
                        lastBatchSize := BatchSize r }});;
  writeOKWithRowsAndID (AffectedRows r) (LastInsertID r) moreResults.

Definition handleBatchedWrite (query : bytes) (batchMs : Z) (file lineStr queryType : bytes) (moreResults : bool) : M unit :=
  let parsed := Parse query in
  r ← enqueue (GetBatchKey parsed) query [] batchMs;
  metric QueryTotal [file; lineStr; queryType; str "false"];;
  metric QueryLatency [file; lineStr; queryType];;
  match Error r with
  | Some ErrManagerClosed | Some ErrTimeout => executeImmediateWrite query file lineStr queryType moreResults
  | Some e => writeError (BatchError e)
  | None => batch_done r moreResults
  end.

(** ** One statement *)

(** A cached response is served. *)
Definition serve_cached (from response : bytes) (moreResults : bool) : M unit :=
  update (fun c => c {{ lastQueryBackend := from; lastQueryCacheHit := true }});;
  forwardBackendResponse response moreResults.

Definition cache_get (key : bytes) : M (option (bytes * Z)) := fun w =>
  let '(q, r) := cache_Get (qcache w) key in (w {{ qcache := q }}, Done r).

(** The leader of a flight is who neither hit nor waited. *)
Definition cache_get_or_wait (key : bytes) : M (option (bytes * Z) * bool) :=
  q ← get qcache;
  let '(q, r) := cache_GetOrWait q key in
  modify (fun w => w {{ qcache := q }});;
  (match r with (None, false) => emit (ELead key) | _ => mret tt end);;
  mret r.

Definition set_and_notify (key value : bytes) (ttl : Z) : M unit :=
  emit (ENotify key);; modify (fun w => w {{ qcache ::= fun q => cache_SetAndNotify q key value ttl }}).
Definition cancel_inflight (key : bytes) : M unit :=
  emit (ECancel key);; modify (fun w => w {{ qcache ::= fun q => cache_CancelInflight q key }}).

(** A hit is counted and served. *)
Definition serve_hit (file lineStr queryType from cached : bytes) (moreResults : bool) : M bool :=
  metric CacheHits [file; lineStr];;
  metric QueryTotal [file; lineStr; queryType; str "true"];;
  metric QueryLatency [file; lineStr; queryType];;
  serve_cached from cached moreResults;;
  mret true.

(** A miss, or the first access to a stale entry: wait for the session that is
    fetching the statement, or become that session. *)
Definition join_flight (parsed : ParsedQuery) (file lineStr : bytes) (moreResults : bool) : M bool :=
  metric CacheMisses [file; lineStr];;
  '(hit, waited) ← cache_get_or_wait (Query parsed);
  match hit, waited with
  | Some (cached, _), true =>
      metric CacheHits [file; lineStr];;
      serve_cached (str "cache") cached moreResults;;
      mret true
  | _, _ => mret false
  end.

(** The cache lookup: [true] when the statement was answered from the cache. *)
Definition lookup_cache (parsed : ParsedQuery) (file lineStr queryType : bytes) (moreResults : bool) : M bool :=
  hit ← cache_get (Query parsed);
  match hit with
  | Some (cached, flags) =>
      if flags =? Cache.FlagFresh then serve_hit file lineStr queryType (str "cache") cached moreResults
      else if flags =? Cache.FlagStale then serve_hit file lineStr queryType (str "cache (stale)") cached moreResults
      else join_flight parsed file lineStr moreResults
  | None => join_flight parsed file lineStr moreResults
  end.

(** [c.backendPool.GetReplica()], which moves the round-robin index. *)
Definition get_replica (loc : option nat) : M (bytes * bytes) :=
  h ← get pool_heap;
  l ← or_crash loc;
  p ← or_crash (h !! l);
  '(p, r) ← or_crash (GetReplica p);
  modify (fun w => w {{ pool_heap := <[l := p]> h }});;
  mret r.

(** The backend of a statement: a replica for a cacheable read outside a
    transaction, the primary for everything else. *)
Definition choose_backend (parsed : ParsedQuery) : M (bytes * bytes) :=
  c ← self id;
  addr ← primary_of (backendPool c);
  if IsCacheable parsed && (Z.land (status c) StatusInTrans =? 0)
  then get_replica (backendPool c) else mret (addr, str "primary").

(** The response of the backend called [name]. *)
Definition deliver (parsed : ParsedQuery) (file lineStr queryType : bytes) (moreResults : bool) (name response : bytes) : M unit :=
  if first_byte_is response 0xFB then handleLocalInfile response moreResults
  else
    metric DatabaseQueries [name];; metric QueryTotal [file; lineStr; queryType; str "false"];; metric QueryLatency [file; lineStr; queryType];;
    update (fun c => c {{ lastQueryBackend := name; lastQueryCacheHit := false }});;
    (if IsCacheable parsed then set_and_notify (Query parsed) response (ttl_of parsed) else mret tt);;
    forwardBackendResponse response moreResults.

(** The statement is sent to a backend. *)
Definition run_on_backend (parsed : ParsedQuery) (file lineStr queryType : bytes) (moreResults : bool) : M unit :=
  '(addr, name) ← choose_backend parsed;
  pool ← self backendPool;
  r ← catch (ensureBackendConn addr name pool;; execBackendQuery (Query parsed));
  match r with
  | inr e => (if IsCacheable parsed then cancel_inflight (Query parsed) else mret tt);; fail e
  | inl response => deliver parsed file lineStr queryType moreResults name response
  end.

(** The shard of a qualified table name. *)
Definition route_fqn (parsed : ParsedQuery) : M unit :=
  c ← self id;
  if bool_decide (DB parsed <> []) && bool_decide (DB parsed <> db c) then
    ensureBackend (DB parsed);;
    update (fun c => c {{ db := DB parsed }})
  else mret tt.

Definition handle_use (dbName : bytes) (moreResults : bool) : M unit :=
  ensureBackend dbName;;
  update (fun c => c {{ db := dbName }});;
  _ ← execBackendQuery (use_query dbName);
  writeOKWithInfo moreResults.

(** What a statement is, in the order the code tests it. *)
Inductive statement_kind := SUse (dbName : bytes) | SBegin | SCommit | SRollback | SStatus | SOther.

Definition classify (query : bytes) : statement_kind :=
  let queryUpper := TrimSuffix (ToUpper (TrimSpace query)) (str ";") in
  let use := if HasPrefix queryUpper (str "USE ") then Fields query !! 1%nat else None in
  match use with
  | Some part => SUse (Trim part (str "`;"))
  | None =>
      if bool_decide (queryUpper = str "BEGIN") || bool_decide (queryUpper = str "START TRANSACTION") then SBegin
      else if bool_decide (queryUpper = str "COMMIT") then SCommit
      else if bool_decide (queryUpper = str "ROLLBACK") then SRollback
      else if bool_decide (queryUpper = str "SHOW TQDB STATUS") then SStatus
      else SOther
  end.

Definition handleSingleQuery (query : bytes) (originalParsed : ParsedQuery) (moreResults : bool) : M unit :=
  let parsed := if decide (query = Query originalParsed) then originalParsed else Parse query in
  let file := if decide (File parsed = []) then str "unknown" else File parsed in
  let line := if 0 <? Line parsed then Line parsed else Line originalParsed in
  let lineStr := Itoa line in
  let queryType := queryTypeLabel (Type_ parsed) in
  route_fqn parsed;;
  match classify (Query parsed) with
  | SUse dbName => handle_use dbName moreResults
  | SBegin => handleBegin moreResults
  | SCommit => handleCommit moreResults
  | SRollback => handleRollback moreResults
  | SStatus => handleShowTQDBStatus moreResults
  | SOther =>
      c ← self id;
      p ← get proxy;
      if bool_decide (is_Some (writeBatch p)) && negb (inTransaction c) && IsWritable parsed && IsBatchable parsed
      then handleBatchedWrite (Query parsed) (BatchMs parsed) file lineStr queryType moreResults
      else
        answered ← (if IsCacheable parsed then lookup_cache parsed file lineStr queryType moreResults else mret false);
        if (answered : bool) then mret tt else run_on_backend parsed file lineStr queryType moreResults
  end.

(** The statements of a query, in order, up to the first that fails. *)
Fixpoint run_statements (stmts : list bytes) (parsed : ParsedQuery) : M unit :=
  match stmts with
  | [] => mret tt
  | stmt :: rest =>
      handleSingleQuery stmt parsed (negb (bool_decide (rest = [])));;
      run_statements rest parsed
  end.

Definition handleQuery (query : bytes) : M unit :=
  let parsed := Parse query in
  run_statements (splitQueries (Query parsed)) parsed.

(** ** Prepared statements *)

(** One more packet of the backend, with the header it came with. *)
Definition append_packet (acc : bytes) : M bytes :=
  p ← readBackendPacket;
  seq ← self backendSeq;
  mret (acc ++ frame seq p).

Fixpoint append_packets (n : nat) (acc : bytes) : M bytes :=
  match n with
  | O => mret acc
  | S n => acc ← append_packet acc; append_packets n acc
  end.

(** Definitions of parameters or columns, and the EOF packet after them. *)
Definition append_definitions (n : Z) (acc : bytes) : M bytes :=
  if 0 <? n then acc ← append_packets (Z.to_nat n) acc; append_packet acc else mret acc.

(** A statement the backend accepted: it is recorded, and the definitions of its
    parameters and columns are read. *)
Definition prepare_ok (query response fullResponse : bytes) : M bytes :=
  stmtID ← or_crash (le_dec <$> slice response 1 5);
  numCols ← or_crash (le_dec <$> slice response 5 7);
  numParams ← or_crash (le_dec <$> slice response 7 9);
  update (fun c => c {{ preparedStatements ::= fun m => <[stmtID := Parse query]> m }});;
  fullResponse ← append_definitions numParams fullResponse;
  append_definitions numCols fullResponse.

Definition handlePrepare (query : bytes) : M unit :=
  send_command ComStmtPrepare query;;
  response ← readBackendPacket;
  seq ← self backendSeq;
  let fullResponse := frame seq response in
  fullResponse ←
    (match response with
     | h :: _ => if bval h =? 0x00 then prepare_ok query response fullResponse else mret fullResponse
     | [] => mret fullResponse
     end);
  forwardBackendResponse fullResponse false.

(** A manager that is closed or timed out makes the session execute the
    statement on its own backend. *)
Definition handleBatchedPreparedExecute (data : bytes) (parsed : ParsedQuery) (params : list value) : M unit :=
  let file := File parsed in
  let lineStr := Itoa (Line parsed) in
  let queryType := queryTypeLabel (Type_ parsed) in
  r ← enqueue (GetBatchKey parsed) (Query parsed) params (BatchMs parsed);
  metric QueryTotal [file; lineStr; queryType; str "false"];;
  metric QueryLatency [file; lineStr; queryType];;
  match Error r with
  | Some ErrManagerClosed | Some ErrTimeout =>
      send_command ComStmtExecute data;;
      response ← execBackendResponse;
      update (fun c => c {{ lastQueryBackend := backendName c; lastQueryCacheHit := false }});;
      forwardBackendResponse response false
  | Some e => writeError (BatchError e)
  | None => batch_done r false
  end.

Definition cache_key (name : bytes) (parsed : ParsedQuery) (data : bytes) : bytes :=
  str "ps:" ++ sha1_hex (name ++ Query parsed ++ drop 4 data).

Definition cache_set (key value : bytes) (ttl : Z) : M unit :=
  modify (fun w => w {{ qcache ::= fun q => cache_Set q key value ttl }}).

(** Execution on the backend; [key] is the cache key, if there is one. *)
Definition execute_on_backend (data : bytes) (parsed : ParsedQuery) (key : option bytes) : M unit :=
  send_command ComStmtExecute data;;
  response ← execBackendResponse;
  if first_byte_is response 0xFB then handleLocalInfile response false
  else
    (match key with
     | Some k => if first_byte_is response 0xFF then mret tt else cache_set k response (ttl_of parsed)
     | None => mret tt
     end);;
    update (fun c => c {{ lastQueryBackend := backendName c; lastQueryCacheHit := false }});;
    forwardBackendResponse response false.

Definition handleExecute (data : bytes) : M unit :=
  if zlen data <? 4 then fail Malformed
  else
    let stmtID := le_dec (take 4 data) in
    c ← self id;
    p ← get proxy;
    match preparedStatements c !! stmtID with
    | None => fail (UnknownStatement stmtID)
    | Some parsed =>
        let direct :=
          if IsCacheable parsed then
            let key := cache_key (db c) parsed data in
            hit ← cache_get key;
            match hit with
            | Some (cached, _) => serve_cached (str "cache") cached false
            | None => execute_on_backend data parsed (Some key)
            end
          else execute_on_backend data parsed None in
        if bool_decide (is_Some (writeBatch p)) && negb (inTransaction c) && IsWritable parsed && IsBatchable parsed then
          match decodeStmtParams data (Query parsed) with
          | Ok params => handleBatchedPreparedExecute data parsed params
          | Err => direct
          | Panic => crash
          end
        else direct
    end.

Definition handleStmtClose (data : bytes) : M unit :=
  (if 4 <=? zlen data
   then update (fun c => c {{ preparedStatements ::= delete (le_dec (take 4 data)) }})
   else mret tt);;
  send_command ComStmtClose data.

(** The packet read has no header, and is forwarded as if it had one. *)
Definition handleStmtReset (data : bytes) : M unit :=
  send_command ComStmtReset data;;
  response ← readBackendPacket;
  forwardBackendResponse response false.

(** ** The command loop *)

Definition handle_init_db (dbName : bytes) : M unit :=
  ensureBackend dbName;;
  update (fun c => c {{ db := dbName }});;
  _ ← execBackendQuery (use_query dbName);
  writeOK.

Definition dispatch (cmd : Z) (data : bytes) : M unit :=
  if cmd =? command_code ComQuit then fail EOF
  else if cmd =? command_code ComInitDB then handle_init_db data
  else if cmd =? command_code ComFieldList then writeEOF
  else if cmd =? command_code ComPing then writeOK
  else if cmd =? command_code ComQuery then handleQuery data
  else if cmd =? command_code ComStmtPrepare then handlePrepare data
  else if cmd =? command_code ComStmtExecute then handleExecute data
  else if cmd =? command_code ComStmtClose then handleStmtClose data
  else if cmd =? command_code ComStmtReset then handleStmtReset data
  else fail (Unsupported cmd).

(** One packet of the client: [false] when the loop ends because nothing can
    be read.  An error is reported to the client, and the error of that report
    is ignored. *)
Definition serve_packet : M bool :=
  r ← catch readPacket;
  match r with
  | inr _ => mret false
  | inl [] => mret true
  | inl (cmd :: data) =>
      r ← catch (dispatch (bval cmd) data);
      (match r with
       | inr e => _ ← catch (writeError e); mret tt
       | inl _ => mret tt
       end);;
      update (fun c => c {{ sequence := 0 }});;
      mret true
  end.

(** Every iteration that does not end the loop takes at least four bytes of
    what the client sends. *)
Fixpoint run_loop (fuel : nat) : M unit :=
  match fuel with
  | O => mret tt
  | S fuel => more ← serve_packet; if (more : bool) then run_loop fuel else mret tt
  end.

Definition run : M unit :=
  input ← get client_in;
  run_loop (S (length input)).

(** ** A new connection *)

Definition new_conn (p : Proxy) (n : Z) : clientConn := {|
  backend := None; backendPool := ppools p !! Default (pconfig p); connID := n;
  capability := 0; status := StatusInAutocommit; sequence := 0; backendSeq := 0;
  salt := []; db := []; user := []; auth := []; rawAuthPkt := [];
  backendAddr := []; backendName := [];
  lastQueryBackend := []; lastQueryShard := []; lastQueryCacheHit := false; lastBatchSize := 0;
  preparedStatements := ∅; inTransaction := false
|}.

Definition handleConnection (n : Z) : M unit :=
  p ← get proxy;
  modify (fun w => w {{ conn := new_conn p n; backend_in := [] }});;
  addr ← primary_of (ppools p !! Default (pconfig p));
  r ← catch (dialAndAuth addr);
  match r with
  | inr _ => mret tt
  | inl b =>
      update (fun c => c {{ backend := Some b; backendAddr := addr; backendName := str "primary" }});;
      c ← self id;
      (if decide (db c = []) then mret tt else _ ← catch (execBackendQuery (use_query (db c))); mret tt);;
      run
  end.

Definition New (pcfg : ProxyConfig) (ps : pools) : Proxy := MkProxy pcfg ps None.

(** [UpdateConfig] happens between two steps of the session. *)
Definition UpdateConfig (cfg : ProxyConfig) (ps : pools) (p : Proxy) : Proxy := MkProxy cfg ps (writeBatch p).

(** ** What every command keeps

    [session_step w w']: the packets read are the first of those the client
    sent, the client's stream and the trace only grow, the pools keep their
    places, primaries and replicas, and the two transaction flags agree after
    the command if they did before. *)

Definition flags_agree (c : clientConn) : Prop := inTransaction c = negb (Z.land (status c) StatusInTrans =? 0).
Definition pool_addresses (h : list Pool) : list (bytes * list bytes) := (fun p => (primary p, replicas p)) <$> h.

Record session_step (w w' : world) : Prop := {
  step_in : client_in w' `suffix_of` client_in w;
  step_out : client_out w `prefix_of` client_out w';
  step_trace : trace w `prefix_of` trace w';
  step_pools : pool_addresses (pool_heap w') = pool_addresses (pool_heap w);
  step_config : pconfig (proxy w') = pconfig (proxy w) /\ ppools (proxy w') = ppools (proxy w);
  step_flags : flags_agree (conn w) -> flags_agree (conn w')
}.

#[global] Instance session_step_preorder : PreOrder session_step.
Proof.
  split.
  - intros w. split; try done; auto.
  - intros w1 w2 w3 [] []. split; try (by etrans); [|tauto]. split; etrans; try apply step_config1; apply step_config0.
Qed.

Section Respects.
Context (R : relation world) `{!PreOrder R}.

Lemma respects_self {A} (f : clientConn -> A) : respects R (self f).
Proof. intros w. cbn. reflexivity. Qed.
End Respects.

(** Steps that change only the connection, and steps that change none of what
    [session_step] speaks about. *)
Lemma respects_update f : (forall c, flags_agree c -> flags_agree (f c)) -> respects session_step (update f).
Proof. intros Hf w. destruct w. split; cbn; try done. apply Hf. Qed.

Lemma respects_modify f :
  (forall w, client_in (f w) = client_in w /\ client_out (f w) = client_out w /\ trace (f w) = trace w /\
     pool_heap (f w) = pool_heap w /\ pconfig (proxy (f w)) = pconfig (proxy w) /\
     ppools (proxy (f w)) = ppools (proxy w) /\ conn (f w) = conn w) ->
  respects session_step (modify f).
Proof.
  intros Hf w. cbn. destruct (Hf w) as (E1 & E2 & E3 & E4 & E5 & E6 & E7).
  split; [by rewrite E1|by rewrite E2|by rewrite E3|by rewrite E4|by split|by rewrite E7].
Qed.

Lemma respects_emit e : respects session_step (emit e).
Proof. intros w. destruct w. split; cbn; try done. by apply prefix_app_r. Qed.

Lemma respects_client_write data : respects session_step (client_write data).
Proof.
  intros w. destruct w. unfold client_write. cbn. destruct client_writes0 as [|[] ?]; split; cbn; try done; by apply prefix_app_r.
Qed.

Lemma read_full_suffix n (i a b : bytes) : read_full n i = Some (a, b) -> b `suffix_of` i.
Proof. unfold read_full. destruct (n <=? zlen i); [|done]. intros [= <- <-]. apply suffix_drop. Qed.

Lemma respects_readPacket : respects session_step readPacket.
Proof.
  intros w. destruct w. unfold readPacket. cbn. destruct (read_full 4 client_in0) as [[h rest]|] eqn:E; cbn.
  - apply read_full_suffix in E. destruct (read_full (header_length h) rest) as [[pl rest']|] eqn:E'; split; cbn; try done.
    + apply read_full_suffix in E'. by etrans.
    + apply suffix_nil.
  - split; cbn; try done. apply suffix_nil.
Qed.

Lemma respects_cache_get key : respects session_step (cache_get key).
Proof. intros w. destruct w. unfold cache_get. cbn. destruct (cache_Get _ _). split; done. Qed.

Lemma GetReplica_loop_addresses n : forall p p' r, GetReplica_loop n p = Some (p', r) ->
  primary p' = primary p /\ replicas p' = replicas p.
Proof.
  induction n as [|n IH]; intros p p' r Hg; cbn in Hg; [by injection Hg as <- _|].
  destruct (index (replicas p) (Replica.current p)); [|done]. destruct (healthy_at _ _); [by injection Hg as <- _|].
  apply IH in Hg. done.
Qed.

Lemma GetReplica_addresses p p' r : GetReplica p = Some (p', r) -> primary p' = primary p /\ replicas p' = replicas p.
Proof.
  unfold GetReplica. destruct (_ =? 0); [by intros [= <- _]|].
  destruct (GetReplica_loop _ p) as [[q [x|]]|] eqn:E; [| |done]; intros [= <- _]; by eapply GetReplica_loop_addresses.
Qed.

Lemma respects_get_replica loc : respects session_step (get_replica loc).
Proof.
  intros w. unfold get_replica, get, mbind, session_bind. destruct loc as [l|]; [|reflexivity]. cbn [or_crash mret session_ret].
  destruct (pool_heap w !! l) as [p|] eqn:Hl; [|reflexivity]. cbn [or_crash mret session_ret].
  destruct (GetReplica p) as [[p' r]|] eqn:Hg; [|reflexivity].
  destruct w as [c ci co cw bi d px h q t]. cbn in *. split; cbn; try done. unfold pool_addresses, constant. rewrite list_fmap_insert.
  apply list_insert_id. rewrite list_lookup_fmap, Hl. cbn. destruct (GetReplica_addresses _ _ _ Hg) as [-> ->]. done.
Qed.
End Session.

Abbreviation M := (Effects.M world error).
Abbreviation respects := (@Effects.respects world error _).

#[export] Hint Resolve respects_ret respects_fail respects_crash respects_get respects_self respects_or_crash respects_metric
  respects_emit respects_client_write respects_readPacket respects_cache_get respects_get_replica : tqdb.

(** Goes through the binds and branches of a handler. *)
Ltac respects_auto :=
  repeat (intros; cbv beta zeta; first
    [ solve [eauto 2 with tqdb typeclass_instances]
    | apply respects_bind; [apply _| |]
    | apply respects_catch
    | apply respects_update; (solve [intros []; done])
    | apply respects_modify; (solve [intros []; cbn; repeat split])
    | match goal with
      | |- respects _ (match ?x with _ => _ end) => destruct x
      end ]).

Section Steps.
Context `{Ut : UnicodeTables} `{Dr : Driver} `{Nw : Network} `{Cs : CacheService} `{Gv : GoValues} `{Da : !Database} `{Bs : !BatchService}.
Variable error_text : error -> bytes.

(** Every operation is a [session_step]. *)
Lemma step_writePacket p : respects session_step (writePacket p).
Proof. unfold writePacket. respects_auto. Qed.
Hint Resolve step_writePacket : tqdb.
Lemma step_writeOKWithRowsAndID a b m : respects session_step (writeOKWithRowsAndID a b m).
Proof. unfold writeOKWithRowsAndID. respects_auto. Qed.
Hint Resolve step_writeOKWithRowsAndID : tqdb.
Lemma step_writeOKWithInfo m : respects session_step (writeOKWithInfo m).
Proof. unfold writeOKWithInfo. respects_auto. Qed.
Hint Resolve step_writeOKWithInfo : tqdb.
Lemma step_writeError e : respects session_step (writeError error_text e).
Proof. unfold writeError. respects_auto. Qed.
Hint Resolve step_writeError : tqdb.
Lemma step_writeEOF : respects session_step (writeEOF).
Proof. unfold writeEOF. respects_auto. Qed.
Hint Resolve step_writeEOF : tqdb.
Lemma step_forwardBackendResponse r m : respects session_step (forwardBackendResponse r m).
Proof. unfold forwardBackendResponse. respects_auto. Qed.
Hint Resolve step_forwardBackendResponse : tqdb.
Lemma step_resetBackend : respects session_step (resetBackend).
Proof. unfold resetBackend. respects_auto. Qed.
Hint Resolve step_resetBackend : tqdb.
Lemma step_writeBackendPacket p : respects session_step (writeBackendPacket p).
Proof. unfold writeBackendPacket. respects_auto. Qed.
Hint Resolve step_writeBackendPacket : tqdb.
Lemma step_readBackendPacket : respects session_step (readBackendPacket).
Proof. unfold readBackendPacket. respects_auto. Qed.
Hint Resolve step_readBackendPacket : tqdb.
Lemma step_read_response b : respects session_step (read_response b).
Proof. unfold read_response. respects_auto. Qed.
Hint Resolve step_read_response : tqdb.
Lemma step_send_command c d : respects session_step (send_command c d).
Proof. unfold send_command. respects_auto. Qed.
Hint Resolve step_send_command : tqdb.
Lemma step_execBackendResponse : respects session_step (execBackendResponse).
Proof. unfold execBackendResponse. respects_auto. Qed.
Hint Resolve step_execBackendResponse : tqdb.
Lemma step_execBackendQuery q : respects session_step (execBackendQuery q).
Proof. unfold execBackendQuery. respects_auto. Qed.
Hint Resolve step_execBackendQuery : tqdb.
Lemma step_writeServerGreeting : respects session_step (writeServerGreeting).
Proof. unfold writeServerGreeting. respects_auto. Qed.
Hint Resolve step_writeServerGreeting : tqdb.
Lemma step_readClientAuth : respects session_step (readClientAuth).
Proof. unfold readClientAuth. respects_auto. Qed.
Hint Resolve step_readClientAuth : tqdb.
Lemma step_handle_auth p s c : respects session_step (handle_auth p s c).
Proof. unfold handle_auth. respects_auto. Qed.
Hint Resolve step_handle_auth : tqdb.
Lemma step_writeOK : respects session_step (writeOK).
Proof. unfold writeOK. respects_auto. Qed.
Hint Resolve step_writeOK : tqdb.
Lemma step_dialAndAuth a : respects session_step (dialAndAuth a).
Proof. unfold dialAndAuth. respects_auto. Qed.
Hint Resolve step_dialAndAuth : tqdb.
Lemma step_ensureBackendConn a n p : respects session_step (ensureBackendConn a n p).
Proof. unfold ensureBackendConn. respects_auto. Qed.
Hint Resolve step_ensureBackendConn : tqdb.
Lemma step_primary_of l : respects session_step (primary_of l).
Proof. unfold primary_of. respects_auto. Qed.
Hint Resolve step_primary_of : tqdb.
Lemma step_ensureBackend n : respects session_step (ensureBackend n).
Proof. unfold ensureBackend. respects_auto. Qed.
Hint Resolve step_ensureBackend : tqdb.

Context `{!DriverLaws}.

Lemma flags_begin c : flags_agree (c {{ status := Z.lor (status c) StatusInTrans; inTransaction := true }}).
Proof.
  destruct c. unfold flags_agree. cbn. unfold constant. rewrite in_trans_bit. symmetry. apply negb_true_iff, Z.eqb_neq.
  intros E. apply (f_equal (fun z => Z.testbit z 0)) in E. rewrite Z.land_spec, Z.lor_spec, orb_true_r in E. done.
Qed.

Lemma flags_end c : flags_agree (c {{ status := Z.ldiff (status c) StatusInTrans; inTransaction := false }}).
Proof.
  destruct c. unfold flags_agree. cbn. unfold constant. rewrite in_trans_bit. symmetry. apply negb_false_iff, Z.eqb_eq.
  apply Z.bits_inj'. intros n Hn. rewrite Z.land_spec, Z.ldiff_spec, Z.bits_0. destruct (Z.testbit _ n), (Z.testbit 1 n); done.
Qed.

Lemma step_begin : respects session_step (update (fun c => c {{ status := Z.lor (status c) StatusInTrans; inTransaction := true }})).
Proof. apply respects_update. intros c _. apply flags_begin. Qed.
Lemma step_end : respects session_step (update (fun c => c {{ status := Z.ldiff (status c) StatusInTrans; inTransaction := false }})).
Proof. apply respects_update. intros c _. apply flags_end. Qed.
Hint Resolve step_begin step_end : tqdb.

Lemma step_handleBegin m : respects session_step (handleBegin m).
Proof. unfold handleBegin. respects_auto. Qed.
Hint Resolve step_handleBegin : tqdb.
Lemma step_handleCommit m : respects session_step (handleCommit m).
Proof. unfold handleCommit. respects_auto. Qed.
Hint Resolve step_handleCommit : tqdb.
Lemma step_handleRollback m : respects session_step (handleRollback m).
Proof. unfold handleRollback. respects_auto. Qed.
Hint Resolve step_handleRollback : tqdb.
Lemma step_infile_loop n : respects session_step (infile_loop n).
Proof. induction n as [|n IH]; cbn [infile_loop]; respects_auto. Qed.
Hint Resolve step_infile_loop : tqdb.
Lemma step_handleLocalInfile r m : respects session_step (handleLocalInfile r m).
Proof. unfold handleLocalInfile. respects_auto. Qed.
Hint Resolve step_handleLocalInfile : tqdb.
Lemma step_handleShowTQDBStatus m : respects session_step (handleShowTQDBStatus m).
Proof. unfold handleShowTQDBStatus. respects_auto. Qed.
Hint Resolve step_handleShowTQDBStatus : tqdb.
Lemma step_executeImmediateWrite q f l t m : respects session_step (executeImmediateWrite q f l t m).
Proof. unfold executeImmediateWrite. respects_auto. Qed.
Hint Resolve step_executeImmediateWrite : tqdb.
Lemma step_enqueue k q p b : respects session_step (enqueue k q p b).
Proof. unfold enqueue. respects_auto. Qed.
Hint Resolve step_enqueue : tqdb.
Lemma step_batch_done r m : respects session_step (batch_done r m).
Proof. unfold batch_done. respects_auto. Qed.
Hint Resolve step_batch_done : tqdb.
Lemma step_handleBatchedWrite q b f l t m : respects session_step (handleBatchedWrite error_text q b f l t m).
Proof. unfold handleBatchedWrite. respects_auto. Qed.
Hint Resolve step_handleBatchedWrite : tqdb.
Lemma step_serve_cached f r m : respects session_step (serve_cached f r m).
Proof. unfold serve_cached. respects_auto. Qed.
Hint Resolve step_serve_cached : tqdb.
Lemma step_cache_get_or_wait k : respects session_step (cache_get_or_wait k).
Proof. unfold cache_get_or_wait. respects_auto. Qed.
Hint Resolve step_cache_get_or_wait : tqdb.
Lemma step_set_and_notify k v t : respects session_step (set_and_notify k v t).
Proof. unfold set_and_notify. respects_auto. Qed.
Hint Resolve step_set_and_notify : tqdb.
Lemma step_cancel_inflight k : respects session_step (cancel_inflight k).
Proof. unfold cancel_inflight. respects_auto. Qed.
Hint Resolve step_cancel_inflight : tqdb.
Lemma step_serve_hit f l t n r m : respects session_step (serve_hit f l t n r m).
Proof. unfold serve_hit. respects_auto. Qed.
Hint Resolve step_serve_hit : tqdb.
Lemma step_join_flight p f l m : respects session_step (join_flight p f l m).
Proof. unfold join_flight. respects_auto. Qed.
Hint Resolve step_join_flight : tqdb.
Lemma step_lookup_cache p f l t m : respects session_step (lookup_cache p f l t m).
Proof. unfold lookup_cache. respects_auto. Qed.
Hint Resolve step_lookup_cache : tqdb.
Lemma step_choose_backend p : respects session_step (choose_backend p).
Proof. unfold choose_backend. respects_auto. Qed.
Hint Resolve step_choose_backend : tqdb.
Lemma step_deliver p f l t m n r : respects session_step (deliver p f l t m n r).
Proof. unfold deliver. respects_auto. Qed.
Hint Resolve step_deliver : tqdb.
Lemma step_run_on_backend p f l t m : respects session_step (run_on_backend p f l t m).
Proof. unfold run_on_backend. respects_auto. Qed.
Hint Resolve step_run_on_backend : tqdb.
Lemma step_route_fqn p : respects session_step (route_fqn p).
Proof. unfold route_fqn. respects_auto. Qed.
Hint Resolve step_route_fqn : tqdb.
Lemma step_handle_use d m : respects session_step (handle_use d m).
Proof. unfold handle_use. respects_auto. Qed.
Hint Resolve step_handle_use : tqdb.
Lemma step_handleSingleQuery q p m : respects session_step (handleSingleQuery error_text q p m).
Proof. unfold handleSingleQuery. respects_auto. Qed.
Hint Resolve step_handleSingleQuery : tqdb.
Lemma step_run_statements ss p : respects session_step (run_statements error_text ss p).
Proof. induction ss as [|q ss IH]; cbn [run_statements]; respects_auto. Qed.
Hint Resolve step_run_statements : tqdb.
Lemma step_append_packet acc : respects session_step (append_packet acc).
Proof. unfold append_packet. respects_auto. Qed.
Hint Resolve step_append_packet : tqdb.
Lemma step_append_packets n : forall acc, respects session_step (append_packets n acc).
Proof. induction n as [|n IH]; intros acc; cbn [append_packets]; respects_auto. Qed.
Hint Resolve step_append_packets : tqdb.
Lemma step_append_definitions n acc : respects session_step (append_definitions n acc).
Proof. unfold append_definitions. respects_auto. Qed.
Hint Resolve step_append_definitions : tqdb.
Lemma step_prepare_ok q r f : respects session_step (prepare_ok q r f).
Proof. unfold prepare_ok. respects_auto. Qed.
Hint Resolve step_prepare_ok : tqdb.
Lemma step_handlePrepare q : respects session_step (handlePrepare q).
Proof. unfold handlePrepare. respects_auto. Qed.
Hint Resolve step_handlePrepare : tqdb.
Lemma step_handleBatchedPreparedExecute d p v : respects session_step (handleBatchedPreparedExecute error_text d p v).
Proof. unfold handleBatchedPreparedExecute. respects_auto. Qed.
Hint Resolve step_handleBatchedPreparedExecute : tqdb.
Lemma step_cache_set k v t : respects session_step (cache_set k v t).
Proof. unfold cache_set. respects_auto. Qed.
Hint Resolve step_cache_set : tqdb.
Lemma step_execute_on_backend d p k : respects session_step (execute_on_backend d p k).
Proof. unfold execute_on_backend. respects_auto. Qed.
Hint Resolve step_execute_on_backend : tqdb.
Lemma step_handleExecute d : respects session_step (handleExecute error_text d).
Proof. unfold handleExecute. respects_auto. Qed.
Hint Resolve step_handleExecute : tqdb.
Lemma step_handleStmtClose d : respects session_step (handleStmtClose d).
Proof. unfold handleStmtClose. respects_auto. Qed.
Hint Resolve step_handleStmtClose : tqdb.
Lemma step_handleStmtReset d : respects session_step (handleStmtReset d).
Proof. unfold handleStmtReset. respects_auto. Qed.
Hint Resolve step_handleStmtReset : tqdb.
Lemma step_handle_init_db d : respects session_step (handle_init_db d).
Proof. unfold handle_init_db. respects_auto. Qed.
Hint Resolve step_handle_init_db : tqdb.
Lemma step_handleQuery q : respects session_step (handleQuery error_text q).
Proof. unfold handleQuery. respects_auto. Qed.
Hint Resolve step_handleQuery : tqdb.
Lemma step_dispatch c d : respects session_step (dispatch error_text c d).
Proof. unfold dispatch. respects_auto. Qed.
Hint Resolve step_dispatch : tqdb.

Lemma step_serve_packet : respects session_step (serve_packet error_text).
Proof. unfold serve_packet. respects_auto. Qed.
Hint Resolve step_serve_packet : tqdb.

Lemma step_run_loop n : respects session_step (run_loop error_text n).
Proof. induction n as [|n IH]; cbn [run_loop]; respects_auto. Qed.

(** A packet that is served shortens what is left of the client's stream. *)
Lemma serve_packet_shorter w w' : serve_packet error_text w = (w', Done true) ->
  (length (client_in w') < length (client_in w))%nat.
Proof.
  unfold serve_packet, mbind, session_bind at 1, catch at 1. intros Hs.
  destruct (readPacket w) as [w1 [pkt|e|]] eqn:Hr; [|done..].
  assert (Hlt : (length (client_in w1) < length (client_in w))%nat).
  { revert Hr. unfold readPacket, read_full. destruct w; cbn. destruct (4 <=? zlen client_in0) eqn:E4; [|done]. bool_simpl.
    unfold zlen in E4. destruct (_ <=? _); [|done]. intros [= <- _]. cbn. unfold constant. rewrite length_drop, length_drop. lia. }
  assert (Hst : session_step w1 w').
  { destruct pkt as [|cmd data]; [by injection Hs as <-|].
    pose proof (f_equal fst Hs) as E. cbn [fst] in E. rewrite <- E. clear E Hs.
    match goal with |- session_step _ (?m w1).1 => enough (respects session_step m) as Hm by apply Hm end. respects_auto. }
  pose proof (suffix_length _ _ (step_in _ _ Hst)). lia.
Qed.

(** The loop ends because nothing is left to read, never for lack of fuel. *)
Lemma serve_packet_ends w w' : serve_packet error_text w = (w', Done false) -> client_in w' = [].
Proof.
  unfold serve_packet, mbind, session_bind at 1, catch at 1. intros Hs.
  destruct (readPacket w) as [w1 [pkt|e|]] eqn:Hr; [|injection Hs as <-|done].
  - exfalso. destruct pkt as [|cmd data]; [done|]. revert Hs. unfold session_bind, catch.
    destruct (dispatch error_text (bval cmd) data w1) as [w2 [[]|e|]]; [done| |done].
    destruct (writeError error_text e w2) as [w3 [[]|e'|]]; done.
  - revert Hr. unfold readPacket. destruct w; cbn. destruct (read_full 4 client_in0) as [[h rest]|]; cbn.
    + destruct (read_full _ rest) as [[]|]; [done|]. by intros [= <- _].
    + by intros [= <- _].
Qed.

Lemma serve_packet_total w : exists w' b, serve_packet error_text w = (w', Done b) \/ serve_packet error_text w = (w', Crash).
Proof.
  unfold serve_packet, mbind, session_bind, catch. destruct (readPacket w) as [w1 [pkt|e|]]; [|by eexists _, false; left|by eexists _, true; right].
  destruct pkt as [|cmd data]; [by eexists _, true; left|].
  destruct (dispatch error_text (bval cmd) data w1) as [w2 [[]|e|]]; [by eexists _, true; left| |by eexists _, true; right].
  destruct (writeError error_text e w2) as [w3 [[]|e'|]];
    [by eexists _, true; left|by eexists _, true; left|by eexists _, true; right].
Qed.

Lemma run_loop_reads n : forall w, (length (client_in w) < n)%nat ->
  exists w', (run_loop error_text n w = (w', Done tt) /\ client_in w' = []) \/ run_loop error_text n w = (w', Crash).
Proof.
  induction n as [|n IH]; intros w Hn; [lia|]. cbn [run_loop]. unfold mbind, session_bind.
  destruct (serve_packet_total w) as (w1 & b & [E|E]); rewrite E; [|by exists w1; right].
  destruct b; [|exists w1; left; split; [done|by eapply serve_packet_ends]].
  apply IH. apply serve_packet_shorter in E. lia.
Qed.
End Steps.

#[export] Hint Resolve step_writePacket step_writeOKWithRowsAndID step_writeOKWithInfo step_writeError step_writeEOF step_forwardBackendResponse
  step_resetBackend step_writeBackendPacket step_readBackendPacket step_read_response step_send_command step_execBackendResponse
  step_execBackendQuery step_writeServerGreeting step_readClientAuth step_handle_auth step_writeOK step_dialAndAuth
  step_ensureBackendConn step_primary_of step_ensureBackend step_begin step_end step_handleBegin
  step_handleCommit step_handleRollback step_infile_loop step_handleLocalInfile step_handleShowTQDBStatus step_executeImmediateWrite
  step_enqueue step_batch_done step_handleBatchedWrite step_serve_cached step_cache_get_or_wait step_set_and_notify
  step_cancel_inflight step_serve_hit step_join_flight step_lookup_cache step_choose_backend step_deliver step_run_on_backend step_route_fqn step_handle_use step_handleSingleQuery
  step_run_statements step_append_packet step_append_packets step_append_definitions step_prepare_ok step_handlePrepare step_handleBatchedPreparedExecute
  step_cache_set step_execute_on_backend step_handleExecute step_handleStmtClose step_handleStmtReset step_handle_init_db
  step_handleQuery step_dispatch step_serve_packet step_run_loop : tqdb.

(** ** Properties *)

Section Properties.
Context `{Ut : UnicodeTables} `{Dr : Driver} `{Nw : Network} `{Cs : CacheService} `{Gv : GoValues} `{Da : !Database} `{Bs : !BatchService}.
Context `{!DriverLaws}.
Variable error_text : error -> bytes.

(** C19. Every command, whatever it is and however it ends (an error, a backend
    that closes the connection, a client that stops reading): what is read is
    a prefix of what the client sent, the client's stream and the trace only
    grow, no pool changes its place or its addresses, the configuration is the
    one before, and the two flags of a transaction - the one that keeps
    statements on the primary and the one that keeps writes out of batches -
    still agree. *)
Theorem dispatch_keeps_session cmd data w : session_step w (dispatch error_text cmd data w).1.
Proof. apply step_dispatch. apply _. Qed.

(** C20. The command loop ends, and only when nothing is left to read: every
    packet the client sent has been dispatched, unless the program crashed;
    and the two transaction flags agree at the end if they did at the start. *)
Theorem run_serves_everything w : exists w',
  (run error_text w = (w', Done tt) /\ client_in w' = [] \/ run error_text w = (w', Crash)) /\ session_step w w'.
Proof.
  destruct (run_loop_reads error_text (S (length (client_in w))) w) as [w' Hw]; [lia|]. exists w'. split; [exact Hw|].
  pose proof (step_run_loop error_text (S (length (client_in w))) w) as Hs. destruct Hw as [[E _]|E]; by rewrite E in Hs.
Qed.
End Properties.

(** ** A concrete environment

    Servers that answer a query with a result set when it begins with SELECT,
    with an error when it begins with BAD, with the packets of an accepted
    statement when it is to be prepared, and with OK otherwise; an address
    [down] that cannot be reached. *)

#[local] Existing Instance ascii_tables.
#[local] Existing Instance NoFloats.
#[local] Existing Instance ScriptDB.
#[local] Existing Instance PlainDriver.
#[local] Existing Instance PlainDriverLaws.

Definition ok_reply : list (Z * bytes) := [(1, WriteOKPacket 1 0 2 0)].
Definition error_reply : list (Z * bytes) := [(1, WriteErrorPacket 1064 (str "#42000") (str "bad") 0)].
Definition prepare_reply : list (Z * bytes) :=
  [(1, to_byte 0 :: le_enc 4 7 ++ le_enc 2 0 ++ le_enc 2 1 ++ le_enc 3 0); (2, str "def"); (3, WriteEOFPacket 2 0)].

Definition server_reply (data : bytes) : list (Z * bytes) :=
  if bool_decide (data !! 4%nat = Some (to_byte (command_code ComStmtPrepare))) then prepare_reply
  else if HasPrefix (drop 5 data) (str "SELECT") then sample_response
  else if HasPrefix (drop 5 data) (str "BAD") then error_reply
  else ok_reply.

#[local] Instance TestNet : Network := {|
  peer := unit;
  peer_write p data := Some (p, frames (server_reply data));
  connect n network addr name :=
    if bool_decide (addr = str "down") then None else Some (str "plugin", str "salt", 0, fun _ _ => LoggedIn tt)
|}.

#[local] Existing Instance TestCache.
#[local] Existing Instance TestBatch.

(** A session connected to the backend at [addr] of a pool with the primary
    [primary] and the replica [replica]. *)
Definition test_config : ProxyConfig :=
  MkProxyConfig [] [] (str "main") ∅ (<[str "shop" := str "second"]> ∅) {| Config.MaxBatchSize := 10; Config.UseCopy := false |}.
Definition test_conn (addr : bytes) : clientConn := {|
  backend := Some tt; backendPool := Some O; connID := 1; capability := 0; status := 2; sequence := 0; backendSeq := 0;
  salt := []; db := []; user := str "me"; auth := []; rawAuthPkt := []; backendAddr := addr; backendName := [];
  lastQueryBackend := []; lastQueryShard := []; lastQueryCacheHit := false; lastBatchSize := 0;
  preparedStatements := ∅; inTransaction := false
|}.
Definition test_session (addr input : bytes) : world := {|
  conn := test_conn addr; client_in := input; client_out := []; client_writes := []; backend_in := []; dials := O;
  proxy := MkProxy test_config (<[str "main" := O]> (<[str "second" := 1%nat]> ∅)) None;
  pool_heap := [NewPool (str "primary") [str "replica"]; NewPool (str "other") []];
  qcache := ∅; trace := []
|}.
Definition no_text (e : error) : bytes := [].

(** A client that sends a ping and a query. *)
Definition test_input : bytes :=
  frame 0 [to_byte (command_code ComPing)] ++ frame 0 (com ComQuery (str "SELECT 1")).

Lemma dispatch_keeps_session_witness :
  flags_agree (conn (dispatch no_text (command_code ComQuery) (str "START TRANSACTION") (test_session (str "primary") [])).1).
Proof.
  apply (step_flags _ _ (dispatch_keeps_session no_text (command_code ComQuery) (str "START TRANSACTION") (test_session (str "primary") []))).
  reflexivity.
Defined.

Lemma run_serves_everything_witness : exists w',
  (run no_text (test_session (str "primary") test_input) = (w', Done tt) /\ client_in w' = [] \/
   run no_text (test_session (str "primary") test_input) = (w', Crash)) /\
  session_step (test_session (str "primary") test_input) w'.
Proof. apply (run_serves_everything no_text (test_session (str "primary") test_input)). Defined.
