(* ===== verification/MariaFlow.v ===== *)
(** * Package mariadb: where statements go

    Theorems about the session of src/mariadb/mariadb.go: on which backend a
    statement runs, and that a flight of the cache is always ended.  What the
    client is answered is in MariaServe. *)

From Stdlib Require Import Ascii ZArith Lia.
From stdpp Require Import base list gmap strings numbers.
From coqutil Require Import Datatypes.RecordSetters.
From S2P Require Import Prelude GoStrings BatchText Metrics Executor Parser Replica Cache Config Effects Services MariaWire MariaConn.
Import DoubleBraceUpdate.

Open Scope Z_scope.

Abbreviation M := (Effects.M world error).
Abbreviation respects := (@Effects.respects world error _).

(** Unfolds the monad and evaluates. *)
Ltac session_eval :=
  unfold update, self, get, or_crash, emit, modify, fail, crash, mbind, session_bind, mret, session_ret; cbn; unfold constant.

(** ** Relations on sessions *)

Section Flow.
Context `{Ut : UnicodeTables} `{Dr : Driver} `{Nw : Network} `{Cs : CacheService} `{Gv : GoValues} `{Da : !Database} `{Bs : !BatchService}.
Variable error_text : error -> bytes.

(** The backend connection of a session, and its status flags. *)
Definition link (c : clientConn) : option peer * option nat * bytes * Z := (backend c, backendPool c, backendAddr c, status c).

(** Events that neither send a packet to a backend nor touch a flight. *)
Definition quiet_event (e : event) : bool :=
  match e with EDial _ | EClose | EEnqueue _ _ _ => true | _ => false end.
Definition flight_event (e : event) : bool :=
  match e with ELead _ | ENotify _ | ECancel _ => true | _ => false end.

(** The events added between two states satisfy [P]. *)
Definition events_in (P : event -> Prop) (w w' : world) : Prop := exists evs, trace w' = trace w ++ evs /\ Forall P evs.

#[global] Instance events_in_preorder P : PreOrder (events_in P).
Proof.
  split.
  - intros w. exists []. by rewrite app_nil_r.
  - intros w1 w2 w3 (e1 & E1 & H1) (e2 & E2 & H2). exists (e1 ++ e2).
    rewrite E2, E1, <- app_assoc. split; [done|]. by apply list.Forall_app.
Qed.

Lemma events_in_weaken (P P' : event -> Prop) w w' : (forall e, P e -> P' e) -> events_in P w w' -> events_in P' w w'.
Proof. intros HP (evs & E & Hev). exists evs. split; [done|]. by eapply list.Forall_impl. Qed.

(** What a relation has to allow for the steps that do not talk to a backend,
    and for all steps. *)
Class Local (R : relation world) := {
  local_pre :: PreOrder R;
  local_update f : (forall c, link (f c) = link c) -> respects R (update f);
  local_modify f : (forall w, trace (f w) = trace w /\ conn (f w) = conn w) -> respects R (modify f);
  local_emit e : quiet_event e = true -> respects R (emit e)
}.
Class Talking (R : relation world) := {
  talking_local :: Local R;
  talking_reset : respects R resetBackend;
  talking_write p : respects R (writeBackendPacket p)
}.

(** The connection is kept. *)
Definition same_link (w w' : world) : Prop :=
  link (conn w') = link (conn w) /\ events_in (fun e => quiet_event e = true) w w'.

#[global] Instance same_link_local : Local same_link.
Proof.
  split.
  - split; [intros w; split; [done|reflexivity]|]. intros w1 w2 w3 [E1 H1] [E2 H2]. split; [by rewrite E2|by etrans].
  - intros f Hf w. destruct w. split; cbn; [apply Hf|]. exists []. cbn. by rewrite app_nil_r.
  - intros f Hf w. destruct (Hf w) as [E1 E2]. cbn. split; [by rewrite E2|]. exists []. by rewrite app_nil_r.
  - intros e He w. destruct w. split; [done|]. exists [e]. cbn. split; [done|]. by constructor.
Qed.

(** The session is on the backend at [A] of the pool at [L], or has none, and
    packets go to [A] only. *)
Definition on_link (A : option bytes) (L : option nat) (w : world) : Prop :=
  backendPool (conn w) = L /\ (backend (conn w) = None \/ A = Some (backendAddr (conn w))).
Definition goes_to (A : option bytes) (e : event) : Prop := match e with EWrite a _ => A = Some a | _ => True end.
Definition stays (A : option bytes) (L : option nat) (w w' : world) : Prop :=
  on_link A L w -> on_link A L w' /\ events_in (goes_to A) w w'.

#[global] Instance stays_talking A L : Talking (stays A L).
Proof.
  split; [split| |].
  - split; [intros w ?; by split|]. intros w1 w2 w3 H1 H2 I1. destruct (H1 I1) as [I2 E2]. destruct (H2 I2) as [I3 E3].
    split; [done|by etrans].
  - intros f Hf w [I1 I2]. destruct w. specialize (Hf conn). cbn in *. unfold link in Hf. injection Hf as E1 E2 E3 _.
    split; [split; cbn|].
    + by rewrite E2.
    + by rewrite E1, E3.
    + exists []. cbn. by rewrite app_nil_r.
  - intros f Hf w I. destruct (Hf w) as [E1 E2]. cbn. split; [by unfold on_link; rewrite E2|]. exists []. by rewrite app_nil_r.
  - intros e He w I. destruct w. split; [done|]. exists [e]. cbn. split; [done|]. constructor; [by destruct e|constructor].
  - intros w I. destruct w as [c ? ? ? ? ? ? ? ? t]. destruct c. unfold on_link in *. cbn in *.
    destruct backend as [p|]; cbn.
    + split; [by split; [apply I|left]|]. exists [EClose]. by repeat constructor.
    + split; [by split; [apply I|left]|]. exists []. cbn. unfold constant. by rewrite app_nil_r.
  - intros payload w I. destruct w as [c ? ? ? ? ? ? ? ? t]. destruct c. unfold on_link, writeBackendPacket, resetBackend in *.
    cbn in I. session_eval. destruct backend as [p|]; cbn.
    + destruct I as [I1 [?|I2]]; [done|]. destruct (peer_write p _) as [[p' reply]|]; cbn.
      * split; [by split; [|right]|]. eexists. split; [reflexivity|]. by repeat constructor.
      * split; [by split; [|left]|]. unfold constant. rewrite <- app_assoc. eexists. split; [reflexivity|]. by repeat constructor.
    + split; [done|]. exists []. cbn. by rewrite app_nil_r.
Qed.

(** No flight is touched. *)
Definition no_flights : relation world := events_in (fun e => flight_event e = false).

#[global] Instance no_flights_talking : Talking no_flights.
Proof.
  split; [split| |].
  - apply _.
  - intros f Hf w. destruct w. exists []. cbn. by rewrite app_nil_r.
  - intros f Hf w. destruct (Hf w) as [E1 E2]. exists []. cbn. by rewrite E1, app_nil_r.
  - intros e He w. destruct w. exists [e]. cbn. split; [done|]. constructor; [by destruct e|constructor].
  - intros w. destruct w as [c ? ? ? ? ? ? ? ? t]. destruct c. cbn. destruct backend; cbn.
    + exists [EClose]. by repeat constructor.
    + exists []. cbn. unfold constant. by rewrite app_nil_r.
  - intros payload w. destruct w as [c ? ? ? ? ? ? ? ? t]. destruct c. unfold writeBackendPacket, resetBackend. session_eval.
    destruct backend as [p|]; cbn.
    + destruct (peer_write p _) as [[p' reply]|]; cbn; unfold constant; rewrite <- ?app_assoc; eexists; (split; [reflexivity|]); by repeat constructor.
    + exists []. cbn. by rewrite app_nil_r.
Qed.
End Flow.

(** Goes through the binds and branches of a handler for any such relation. *)
Ltac flow_auto :=
  repeat (intros; cbv beta zeta; first
    [ solve [eauto 4 with flow typeclass_instances]
    | apply respects_bind; [apply _| |]
    | apply respects_catch
    | apply respects_or_crash; apply _
    | apply local_update; (solve [intros []; done])
    | apply local_modify; (solve [intros []; cbn; repeat split])
    | apply local_emit; done
    | match goal with
      | |- respects _ (match ?x with _ => _ end) => destruct x
      end ]).

Create HintDb flow.
Create HintDb dry.
#[export] Hint Resolve respects_ret respects_fail respects_crash respects_get respects_self respects_or_crash
  respects_metric talking_reset talking_write : flow.

Section LocalSteps.
Context `{Ut : UnicodeTables} `{Dr : Driver} `{Nw : Network} `{Cs : CacheService} `{Gv : GoValues} `{Da : !Database} `{Bs : !BatchService}.
Variable error_text : error -> bytes.
Context (R : relation world) `{!Local R}.

Lemma local_client_write data : respects R (client_write data).
Proof.
  intros w. unfold client_write. destruct (client_writes w) as [|[] rest].
  - change (R w (modify (E := error) (fun w => w {{ client_out ::= fun out => out ++ data }}) w).1). apply local_modify. by intros [].
  - change (R w (modify (E := error) (fun w => w {{ client_writes := rest; client_out ::= fun out => out ++ data }}) w).1).
    apply local_modify. by intros [].
  - change (R w (modify (E := error) (fun w => w {{ client_writes := rest }}) w).1). apply local_modify. by intros [].
Qed.
Hint Resolve local_client_write : flow.

Lemma local_readPacket : respects R readPacket.
Proof.
  intros w. unfold readPacket. destruct (read_full 4 (client_in w)) as [[h rest]|]; cbn [fst].
  - set (w1 := w {{ client_in := rest; conn -> sequence := bval (default Ascii.zero (h !! 3%nat)) }}).
    assert (H1 : R w w1).
    { etrans; [apply (local_modify (fun w => w {{ client_in := rest }})); by intros []|].
      apply (local_update (fun c => c {{ sequence := bval (default Ascii.zero (h !! 3%nat)) }})). by intros []. }
    destruct (read_full (header_length h) rest) as [[pl rest']|]; (etrans; [exact H1|]).
    + exact (local_modify (fun w => w {{ client_in := rest' }}) ltac:(by intros []) w1).
    + exact (local_modify (fun w => w {{ client_in := [] }}) ltac:(by intros []) w1).
  - exact (local_modify (fun w => w {{ client_in := [] }}) ltac:(by intros []) w).
Qed.
Hint Resolve local_readPacket : flow.

Lemma local_cache_get key : respects R (cache_get key).
Proof.
  intros w. unfold cache_get. destruct (cache_Get (qcache w) key) as [q r].
  exact (local_modify (fun w => w {{ qcache := q }}) ltac:(by intros []) w).
Qed.
Hint Resolve local_cache_get : flow.

Lemma local_writePacket p : respects R (writePacket p).
Proof. unfold writePacket. flow_auto. Qed.
Hint Resolve local_writePacket : flow.
Lemma local_writeOKWithRowsAndID a b m : respects R (writeOKWithRowsAndID a b m).
Proof. unfold writeOKWithRowsAndID. flow_auto. Qed.
Hint Resolve local_writeOKWithRowsAndID : flow.
Lemma local_writeOKWithInfo m : respects R (writeOKWithInfo m).
Proof. unfold writeOKWithInfo. flow_auto. Qed.
Hint Resolve local_writeOKWithInfo : flow.
Lemma local_writeOK : respects R (writeOK).
Proof. unfold writeOK. flow_auto. Qed.
Hint Resolve local_writeOK : flow.
Lemma local_writeError e : respects R (writeError error_text e).
Proof. unfold writeError. flow_auto. Qed.
Hint Resolve local_writeError : flow.
Lemma local_forwardBackendResponse r m : respects R (forwardBackendResponse r m).
Proof. unfold forwardBackendResponse. flow_auto. Qed.
Hint Resolve local_forwardBackendResponse : flow.
Lemma local_writeServerGreeting : respects R (writeServerGreeting).
Proof. unfold writeServerGreeting. flow_auto. Qed.
Hint Resolve local_writeServerGreeting : flow.
Lemma local_readClientAuth : respects R (readClientAuth).
Proof. unfold readClientAuth. flow_auto. Qed.
Hint Resolve local_readClientAuth : flow.
Lemma local_handle_auth p s c : respects R (handle_auth p s c).
Proof. unfold handle_auth. flow_auto. Qed.
Hint Resolve local_handle_auth : flow.
Lemma local_dialAndAuth a : respects R (dialAndAuth a).
Proof. unfold dialAndAuth. flow_auto. Qed.
Hint Resolve local_dialAndAuth : flow.
Lemma local_primary_of l : respects R (primary_of l).
Proof. unfold primary_of. flow_auto. Qed.
Hint Resolve local_primary_of : flow.
Lemma local_get_replica l : respects R (get_replica l).
Proof. unfold get_replica. flow_auto. Qed.
Hint Resolve local_get_replica : flow.
Lemma local_enqueue k q p b : respects R (enqueue k q p b).
Proof. unfold enqueue. flow_auto. Qed.
Hint Resolve local_enqueue : flow.
Lemma local_batch_done r m : respects R (batch_done r m).
Proof. unfold batch_done. flow_auto. Qed.
Hint Resolve local_batch_done : flow.
Lemma local_serve_cached f r m : respects R (serve_cached f r m).
Proof. unfold serve_cached. flow_auto. Qed.
Hint Resolve local_serve_cached : flow.
End LocalSteps.

#[export] Hint Resolve local_client_write local_readPacket local_cache_get local_writePacket local_writeOKWithRowsAndID local_writeOKWithInfo local_writeOK local_writeError local_forwardBackendResponse local_writeServerGreeting local_readClientAuth local_handle_auth local_dialAndAuth local_primary_of local_get_replica local_enqueue local_batch_done local_serve_cached : flow.

Section TalkingSteps.
Context `{Ut : UnicodeTables} `{Dr : Driver} `{Nw : Network} `{Cs : CacheService} `{Gv : GoValues} `{Da : !Database} `{Bs : !BatchService}.
Context (R : relation world) `{!Talking R}.

Lemma talking_readBackendPacket : respects R (readBackendPacket).
Proof. unfold readBackendPacket. flow_auto. Qed.
Hint Resolve talking_readBackendPacket : flow.
Lemma talking_read_response b : respects R (read_response b).
Proof. unfold read_response. flow_auto. Qed.
Hint Resolve talking_read_response : flow.
Lemma talking_send_command c d : respects R (send_command c d).
Proof. unfold send_command. flow_auto. Qed.
Hint Resolve talking_send_command : flow.
Lemma talking_execBackendResponse : respects R (execBackendResponse).
Proof. unfold execBackendResponse. flow_auto. Qed.
Hint Resolve talking_execBackendResponse : flow.
Lemma talking_execBackendQuery q : respects R (execBackendQuery q).
Proof. unfold execBackendQuery. flow_auto. Qed.
Hint Resolve talking_execBackendQuery : flow.
Lemma talking_infile_loop n : respects R (infile_loop n).
Proof. induction n as [|n IH]; cbn [infile_loop]; flow_auto. Qed.
Hint Resolve talking_infile_loop : flow.
Lemma talking_handleLocalInfile r m : respects R (handleLocalInfile r m).
Proof. unfold handleLocalInfile. flow_auto. Qed.
Hint Resolve talking_handleLocalInfile : flow.
End TalkingSteps.

#[export] Hint Resolve talking_infile_loop talking_handleLocalInfile talking_readBackendPacket talking_read_response talking_send_command talking_execBackendResponse talking_execBackendQuery : flow.

(** ** Which backend a statement runs on *)

Section Routing.
Context `{Ut : UnicodeTables} `{Dr : Driver} `{Nw : Network} `{Cs : CacheService} `{Gv : GoValues} `{Da : !Database} `{Bs : !BatchService}.
Variable error_text : error -> bytes.

Abbreviation quiet := (fun e => quiet_event e = true).

(** Connecting sends no packet of the session. *)
Definition still (w w' : world) : Prop := status (conn w') = status (conn w) /\ events_in quiet w w'.

Lemma same_link_still {A} (m : M A) : respects same_link m -> respects still m.
Proof. intros Hm w. destruct (Hm w) as [E Hev]. unfold link in E. by injection E as _ _ _ E. Qed.

#[local] Instance still_preorder : PreOrder still.
Proof.
  split; [intros w; split; [done|reflexivity]|]. intros w1 w2 w3 [E1 H1] [E2 H2]. split; [congruence|by etrans].
Qed.

Lemma ensureBackendConn_flow addr name L w w' r : ensureBackendConn addr name L w = (w', r) ->
  still w w' /\ (backendPool (conn w) = L -> backendPool (conn w') = L) /\
  (r = Done tt -> backendAddr (conn w') = addr).
Proof.
  unfold ensureBackendConn, self, mbind, session_bind, id.
  destruct (bool_decide (addr = _) && _) eqn:E; bool_simpl.
  { intros [= <- <-]. split; [reflexivity|]. split; [done|]. intros _. done. }
  pose proof (local_dialAndAuth same_link addr w) as [Hl Hev]. unfold link in Hl. injection Hl as E1 E2 E3 E4.
  destruct (dialAndAuth addr w) as [w1 [b|e|]]; cbn [fst] in *; [|intros [= <- <-]; by (split; [split; [congruence|done]|]; split; [congruence|])..].
  destruct w1 as [c ? ? ? ? ? ? ? ? t]. destruct c. cbn in *. intros Hr.
  assert (Hw : conn w' = MkConn (Some b) L connID capability status sequence backendSeq salt db user auth rawAuthPkt addr name
      lastQueryBackend lastQueryShard lastQueryCacheHit lastBatchSize preparedStatements inTransaction /\
      (trace w' = t \/ trace w' = t ++ [EClose])).
  { revert Hr. destruct backend; session_eval; intros [= <- <-]; cbn; unfold constant; auto. }
  destruct Hw as [Hc Ht]. unfold still. rewrite Hc. cbn. split; [split; [congruence|]|done].
  etrans; [exact Hev|]. destruct Ht as [Ht|Ht]; [exists []|exists [EClose]]; cbn; rewrite Ht, ?app_nil_r; by repeat constructor.
Qed.

Lemma still_ensureBackendConn addr name L : respects still (ensureBackendConn addr name L).
Proof. intros w. destruct (ensureBackendConn addr name L w) as [w' r] eqn:E. by apply ensureBackendConn_flow in E as [? _]. Qed.

Lemma still_ensureBackend name : respects still (ensureBackend name).
Proof.
  unfold ensureBackend. apply respects_bind; [apply _|apply respects_get, _|]. intros p. cbv zeta.
  destruct (target_pool _ _ _) as [l|]; [|apply respects_fail, _].
  apply respects_bind; [apply _|apply same_link_still, local_update; by intros []|]. intros _.
  apply respects_bind; [apply _|apply respects_self, _|]. intros c. destruct (_ && _); [apply respects_ret, _|].
  apply respects_bind; [apply _|exact (same_link_still _ (local_primary_of same_link _))|]. intros addr. apply still_ensureBackendConn.
Qed.

Lemma still_route_fqn parsed : respects still (route_fqn parsed).
Proof.
  unfold route_fqn. apply respects_bind; [apply _|apply respects_self, _|]. intros c.
  destruct (_ && _); [|apply respects_ret, _]. apply respects_bind; [apply _|apply still_ensureBackend|].
  intros _. apply same_link_still, local_update. by intros [].
Qed.

(** The address of the primary of the pool at a location. *)
Definition primary_at (h : list Pool) (L : option nat) : option bytes := primary <$> (l ← L; h !! l).

(** [w'] is reached with packets to the primary of the session's pool only. *)
Definition to_primary (w w' : world) : Prop :=
  backendPool (conn w') = backendPool (conn w) /\ events_in (goes_to (primary_at (pool_heap w) (backendPool (conn w)))) w w'.

Lemma goes_to_quiet A e : quiet_event e = true -> goes_to A e.
Proof. by destruct e. Qed.

(** Switching to the primary and then going on. *)
Lemma ensure_then {B} name A L (k : M B) w : primary_at (pool_heap w) (backendPool (conn w)) = Some A ->
  backendPool (conn w) = L -> respects (stays (Some A) L) k -> to_primary w ((ensureBackendConn A name L;; k) w).1.
Proof.
  intros HA HL Hk. unfold mbind, session_bind. destruct (ensureBackendConn A name L w) as [w1 r] eqn:E.
  apply ensureBackendConn_flow in E as ([_ Hev] & Hpool & Hdone). specialize (Hpool HL).
  assert (H1 : to_primary w w1).
  { split; [congruence|]. eapply events_in_weaken; [|exact Hev]. intros e. apply goes_to_quiet. }
  destruct r as [[]|e|]; [|done..]. destruct (Hk w1) as [[Hp _] Hev2].
  { split; [done|right; by rewrite Hdone]. }
  split; [congruence|]. etrans; [apply H1|]. by rewrite HA.
Qed.

Lemma to_primary_crash {A} w L (k : bytes -> M A) : L = backendPool (conn w) ->
  (forall a, primary_at (pool_heap w) L = Some a -> to_primary w (k a w).1) ->
  to_primary w ((primary_of L ≫= k) w).1.
Proof.
  intros -> Hk. unfold primary_of, get, mbind, session_bind, primary_at in *.
  destruct (backendPool (conn w)) as [l|]; cbn in *; [|split; [done|reflexivity]].
  destruct (pool_heap w !! l) as [p|]; cbn in *; [by apply Hk|split; [done|reflexivity]].
Qed.

Lemma to_primary_trans w1 w2 w3 : pool_addresses (pool_heap w2) = pool_addresses (pool_heap w1) ->
  to_primary w1 w2 -> to_primary w2 w3 -> to_primary w1 w3.
Proof.
  intros Hh [E1 H1] [E2 H2]. split; [congruence|]. etrans; [exact H1|]. rewrite E1 in H2.
  assert (Hp : primary_at (pool_heap w2) (backendPool (conn w1)) = primary_at (pool_heap w1) (backendPool (conn w1))).
  { unfold primary_at. destruct (backendPool (conn w1)) as [l|]; [|done]. cbn.
    apply (f_equal (lookup l)) in Hh. unfold pool_addresses in Hh. rewrite !list_lookup_fmap in Hh.
    destruct (pool_heap w2 !! l), (pool_heap w1 !! l); cbn in *; congruence. }
  by rewrite Hp in H2.
Qed.

Lemma same_link_primary w w' : same_link w w' -> to_primary w w'.
Proof.
  intros [E Hev]. unfold link in E. split; [congruence|]. eapply events_in_weaken; [|exact Hev]. intros e. apply goes_to_quiet.
Qed.

Lemma primary_executeImmediateWrite q f l t m w : to_primary w (executeImmediateWrite q f l t m w).1.
Proof.
  unfold executeImmediateWrite. unfold self at 1, mbind at 1, session_bind at 1.
  apply to_primary_crash; [done|]. intros a Ha. apply ensure_then; [done|done|]. flow_auto.
Qed.

(** The steps that send no packet to a backend, flights included. *)
Definition no_packet (e : event) : Prop := match e with EWrite _ _ => False | _ => True end.
Definition kept (w w' : world) : Prop := link (conn w') = link (conn w) /\ events_in no_packet w w'.

#[local] Instance kept_local : Local kept.
Proof.
  split.
  - split; [intros w; split; [done|reflexivity]|]. intros w1 w2 w3 [E1 H1] [E2 H2]. split; [by rewrite E2|by etrans].
  - intros f Hf w. destruct w. split; cbn; [apply Hf|]. exists []. cbn. by rewrite app_nil_r.
  - intros f Hf w. destruct (Hf w) as [E1 E2]. cbn. split; [by rewrite E2|]. exists []. by rewrite app_nil_r.
  - intros e He w. destruct w. split; [done|]. exists [e]. cbn. split; [done|]. constructor; [by destruct e|constructor].
Qed.

Lemma kept_primary w w' : kept w w' -> to_primary w w'.
Proof.
  intros [E Hev]. unfold link in E. split; [congruence|]. eapply events_in_weaken; [|exact Hev]. by intros [].
Qed.

Lemma kept_emit e : no_packet e -> respects kept (emit e).
Proof. intros He w. destruct w. split; [done|]. exists [e]. cbn. split; [done|]. by constructor. Qed.

Lemma kept_cache_get_or_wait k : respects kept (cache_get_or_wait k).
Proof.
  unfold cache_get_or_wait. apply respects_bind; [apply _|apply respects_get, _|]. intros q. destruct (cache_GetOrWait q k) as [q' r].
  apply respects_bind; [apply _|apply local_modify; by intros []|]. intros _.
  apply respects_bind; [apply _| |intros; apply respects_ret, _]. destruct r as [[?|] []]; try apply respects_ret, _.
  by apply kept_emit.
Qed.
Hint Resolve kept_cache_get_or_wait : flow.

Lemma kept_lookup_cache p f l t m : respects kept (lookup_cache p f l t m).
Proof. unfold lookup_cache, serve_hit, join_flight. flow_auto. Qed.

Lemma to_primary_bind {A B} (m : M A) (k : A -> M B) w : respects session_step m -> to_primary w (m w).1 ->
  (forall x w1, m w = (w1, Done x) -> to_primary w1 (k x w1).1) -> to_primary w ((m ≫= k) w).1.
Proof.
  intros Hs Hm Hk. specialize (Hs w). unfold mbind, session_bind. destruct (m w) as [w1 [x|e|]] eqn:E; cbn [fst] in *; [|done..].
  eapply to_primary_trans; [apply step_pools, Hs|done|by apply Hk].
Qed.

Lemma primary_handleBatchedWrite q b f l t m w : to_primary w (handleBatchedWrite error_text q b f l t m w).1.
Proof.
  unfold handleBatchedWrite. cbv zeta. apply to_primary_bind; [apply step_enqueue|apply same_link_primary, local_enqueue, _|].
  intros r w1 _. apply to_primary_bind; [eauto with tqdb typeclass_instances|apply same_link_primary, respects_metric, _|]. intros _ w2 _.
  apply to_primary_bind; [eauto with tqdb typeclass_instances|apply same_link_primary, respects_metric, _|]. intros _ w3 _.
  destruct (Error r) as [[]|]; try apply primary_executeImmediateWrite; apply same_link_primary; try apply local_writeError, _.
  apply local_batch_done, _.
Qed.

Lemma ensure_then_on {B} name A L (k : M B) w w' x : backendPool (conn w) = L -> respects (stays (Some A) L) k ->
  (ensureBackendConn A name L;; k) w = (w', Done x) -> on_link (Some A) L w'.
Proof.
  intros HL Hk. unfold mbind, session_bind. destruct (ensureBackendConn A name L w) as [w1 [[]|e|]] eqn:E; [|done..].
  apply ensureBackendConn_flow in E as (_ & Hpool & Hdone). intros Hr. specialize (Hk w1). rewrite Hr in Hk.
  apply Hk. split; [by apply Hpool|right; by rewrite Hdone].
Qed.

Lemma stays_deliver A L parsed f l t m n r : respects (stays A L) (deliver parsed f l t m n r).
Proof.
  unfold deliver. flow_auto. intros w Hon. destruct w. split; [done|]. eexists. split; [reflexivity|]. by repeat constructor.
Qed.

Lemma choose_primary parsed w : IsCacheable parsed && (Z.land (status (conn w)) StatusInTrans =? 0) = false ->
  choose_backend parsed w =
    match primary_at (pool_heap w) (backendPool (conn w)) with
    | Some a => (w, Done (a, str "primary"))
    | None => (w, Crash)
    end.
Proof.
  intros Hc. unfold choose_backend, primary_of, self, get, id, primary_at, mbind, session_bind, mret, session_ret. rewrite Hc.
  destruct (backendPool (conn w)) as [l|]; [|done]. cbn. by destruct (pool_heap w !! l).
Qed.

Lemma primary_run_on_backend parsed f l t m w :
  IsCacheable parsed && (Z.land (status (conn w)) StatusInTrans =? 0) = false ->
  to_primary w (run_on_backend parsed f l t m w).1.
Proof.
  intros Hc. unfold run_on_backend, self. unfold mbind at 1, session_bind at 1. rewrite choose_primary by done.
  destruct (primary_at (pool_heap w) (backendPool (conn w))) as [a|] eqn:Ha; [|split; [done|reflexivity]].
  unfold mbind at 1, session_bind at 1. set (L := backendPool (conn w)) in *.
  assert (Hexec : respects (stays (Some a) L) (execBackendQuery (Parser.Query parsed))) by flow_auto.
  assert (Hstep : respects session_step (ensureBackendConn a (str "primary") L;; execBackendQuery (Parser.Query parsed)))
    by (apply respects_bind; [apply _|apply step_ensureBackendConn|intros; apply step_execBackendQuery]).
  pose proof (ensure_then (str "primary") a L _ w Ha eq_refl Hexec) as Hp. specialize (Hstep w).
  unfold catch, mbind at 1, session_bind at 1.
  destruct ((ensureBackendConn a (str "primary") L;; execBackendQuery (Parser.Query parsed)) w) as [w1 [x|e|]] eqn:E;
    cbn [fst] in *; [| |done].
  - apply (ensure_then_on (str "primary") a L _ w w1 x eq_refl Hexec) in E.
    destruct (stays_deliver (Some a) L parsed f l t m (str "primary") x w1 E) as [[HL2 _] Hev]. destruct Hp as [HL1 Hev1].
    split; [by rewrite HL2|]. etrans; [exact Hev1|]. subst L. by rewrite Ha.
  - eapply to_primary_trans; [apply step_pools, Hstep|exact Hp|]. apply kept_primary.
    match goal with |- kept _ (?k w1).1 => enough (respects kept k) as Hk by apply Hk end.
    apply respects_bind; [apply _| |intros; apply respects_fail, _]. destruct (IsCacheable parsed); [|apply respects_ret, _].
    unfold cancel_inflight. apply respects_bind; [apply _|by apply kept_emit|]. intros _. apply local_modify. by intros [].
Qed.

(** The addresses of the packets, in terms of the last state. *)
Lemma to_primary_events w w1 w' : events_in quiet w w1 -> to_primary w1 w' -> session_step w1 w' ->
  exists evs, trace w' = trace w ++ evs /\
    forall a p, EWrite a p ∈ evs -> exists l pool,
      backendPool (conn w') = Some l /\ pool_heap w' !! l = Some pool /\ a = primary pool.
Proof.
  intros (e1 & T1 & Q1) [HL (e2 & T2 & Q2)] Hstep. exists (e1 ++ e2). rewrite T2, T1, <- app_assoc. split; [done|].
  intros a p Hin. apply elem_of_app in Hin as [Hin|Hin].
  - rewrite list.Forall_forall in Q1. by specialize (Q1 _ Hin).
  - rewrite list.Forall_forall in Q2. specialize (Q2 _ Hin). cbn in Q2. unfold primary_at in Q2.
    destruct (backendPool (conn w1)) as [l|] eqn:EL; [|done]. cbn in Q2. pose proof (step_pools _ _ Hstep) as Hh.
    apply (f_equal (lookup l)) in Hh. unfold pool_addresses in Hh. rewrite !list_lookup_fmap in Hh.
    destruct (pool_heap w1 !! l) as [p1|]; [|done]. destruct (pool_heap w' !! l) as [p2|] eqn:E2; [|done]. cbn in *.
    exists l, p2. split; [done|]. split; [done|]. congruence.
Qed.

(** The cache, then the backend. *)
Definition cache_then_backend (parsed : ParsedQuery) (file lineStr queryType : bytes) (more : bool) : M unit :=
  answered ← (if IsCacheable parsed then lookup_cache parsed file lineStr queryType more else mret false);
  if (answered : bool) then mret tt else run_on_backend parsed file lineStr queryType more.

Lemma primary_cache_then_backend parsed f l t m w :
  IsCacheable parsed = false \/ Z.land (status (conn w)) StatusInTrans <> 0 ->
  to_primary w (cache_then_backend parsed f l t m w).1.
Proof.
  intros Hc. unfold cache_then_backend. destruct (IsCacheable parsed) eqn:Hca.
  - destruct Hc as [|Hc]; [done|]. pose proof (kept_lookup_cache parsed f l t m w) as Hk.
    apply to_primary_bind; [apply step_lookup_cache|by apply kept_primary|].
    intros b w2 E. destruct b; [apply kept_primary, respects_ret, _|]. apply primary_run_on_backend.
    rewrite E in Hk. destruct Hk as [El _]. unfold link in El. injection El as _ _ _ El. rewrite El.
    apply andb_false_iff. right. by apply Z.eqb_neq.
  - apply primary_run_on_backend. by rewrite Hca.
Qed.

Lemma still_then {A} (m : M A) (k : A -> M unit) w : respects still m ->
  (forall x w1, m w = (w1, Done x) -> status (conn w1) = status (conn w) -> to_primary w1 (k x w1).1 /\ session_step w1 (k x w1).1) ->
  exists w1, events_in quiet w w1 /\ to_primary w1 ((m ≫= k) w).1 /\ session_step w1 ((m ≫= k) w).1.
Proof.
  intros Hm Hk. destruct (Hm w) as [Hst Hev]. unfold mbind, session_bind.
  destruct (m w) as [w1 [x|e|]] eqn:E; cbn [fst] in *; exists w1; (split; [done|]); [by apply Hk| |];
    (split; [split; [done|reflexivity]|reflexivity]).
Qed.

End Routing.

(** ** Commands to a backend *)

Section Commands.
Context `{Ut : UnicodeTables} `{Dr : Driver} `{Nw : Network} `{Cs : CacheService} `{Gv : GoValues} `{Da : !Database} `{Bs : !BatchService}.

(** The state after a command was sent and [reply] came in. *)
Definition sent (c : command) (d : bytes) (p' : peer) (reply : bytes) (w : world) : world :=
  w {{ conn -> backendSeq := 0; conn -> backend := Some p'; backend_in ::= fun i => i ++ reply;
       trace ::= fun t => t ++ [EWrite (backendAddr (conn w)) (com c d)] }}.

Lemma send_command_run c d w :
  match backend (conn w) with
  | None => (send_command c d w).2 = Crash
  | Some p =>
      match peer_write p (frame 0 (com c d)) with
      | None => (send_command c d w).2 = Fail IOError
      | Some (p', reply) => send_command c d w = (sent c d p' reply w, Done tt)
      end
  end.
Proof.
  destruct w as [cc ci co cw bi dl px h qc t]. destruct cc as [[p|] ?]; [|reflexivity]. cbn [conn backend].
  destruct (peer_write p (frame 0 (com c d))) as [[p' reply]|] eqn:E;
    unfold send_command, writeBackendPacket, update, self, emit, modify, or_crash, fail, mbind, session_bind, mret, session_ret;
    cbn -[peer_write frame com]; unfold constant; change (next_seq 255) with 0; rewrite E; reflexivity.
Qed.

(** The state after a response was read. *)
Definition received (seq : Z) (rest : bytes) (w : world) : world := w {{ conn -> backendSeq := seq; backend_in := rest }}.

Lemma read_response_run stmt w p : backend (conn w) = Some p ->
  match collect_response stmt (backend_in w) with
  | Ok (response, seq, rest) => read_response stmt w = (received seq rest w, Done response)
  | Err => (read_response stmt w).2 = Fail IOError
  | Panic => (read_response stmt w).2 = Crash
  end.
Proof.
  destruct w as [cc ci co cw bi dl px h qc t]. destruct cc. cbn [conn MariaConn.backend backend_in]. intros ->.
  destruct (collect_response stmt bi) as [[[r s] rest]| |] eqn:E;
    unfold read_response, update, self, get, emit, modify, or_crash, fail, mbind, session_bind, mret, session_ret;
    cbn -[collect_response]; rewrite E; reflexivity.
Qed.

(** A text query that is answered: what was read is the beginning of what the
    backend sent. *)
Lemma exec_query_inv q w w' response : execBackendQuery q w = (w', Done response) ->
  exists p p' reply seq rest, backend (conn w) = Some p /\ peer_write p (frame 0 (com ComQuery q)) = Some (p', reply) /\
    backend_in w ++ reply = response ++ rest /\ w' = received seq rest (sent ComQuery q p' reply w).
Proof.
  intros Hx. unfold execBackendQuery, mbind, session_bind in Hx. pose proof (send_command_run ComQuery q w) as Hs.
  destruct (backend (conn w)) as [p|] eqn:Hb; [|by destruct (send_command ComQuery q w) as [? []]].
  destruct (peer_write p (frame 0 (com ComQuery q))) as [[p' reply]|] eqn:Hp; [|by destruct (send_command ComQuery q w) as [? []]].
  rewrite Hs in Hx.
  pose proof (read_response_run false (sent ComQuery q p' reply w) p' ltac:(by destruct w as [[]])) as Hr.
  assert (Hi : backend_in (sent ComQuery q p' reply w) = backend_in w ++ reply) by by destruct w as [[]].
  destruct (collect_response false _) as [[[r s] rest]| |] eqn:Hc.
  - rewrite Hr in Hx. injection Hx as <- <-. unfold collect_response in Hc. apply collect_exact in Hc. cbn [app] in Hc. rewrite Hi in Hc.
    exists p, p', reply, s, rest. by repeat split.
  - by rewrite Hx in Hr.
  - by rewrite Hx in Hr.
Qed.
End Commands.

(** ** Flights of the cache *)

Section Flights.
Context `{Ut : UnicodeTables} `{Dr : Driver} `{Nw : Network} `{Cs : CacheService} `{Gv : GoValues} `{Da : !Database} `{Bs : !BatchService}.
Variable error_text : error -> bytes.

(** The flights that are open after some events. *)
Fixpoint open_after (evs : list event) (open : gset bytes) : gset bytes :=
  match evs with
  | [] => open
  | ELead k :: evs => open_after evs ({[k]} ∪ open)
  | ENotify k :: evs | ECancel k :: evs => open_after evs (open ∖ {[k]})
  | _ :: evs => open_after evs open
  end.

Lemma open_after_app e1 e2 : forall s, open_after (e1 ++ e2) s = open_after e2 (open_after e1 s).
Proof. induction e1 as [|[] e1 IH]; intros s; cbn [open_after app]; auto. Qed.

Lemma open_after_none evs : Forall (fun e => flight_event e = false) evs -> forall s, open_after evs s = s.
Proof. induction 1 as [|e evs He Hevs IH]; intros s; [done|]. destruct e; cbn in *; try done; apply IH. Qed.

Lemma no_error_metric c ls : no_error (metric (W := world) (E := error) c ls).
Proof. intros w w' e. unfold metric. by destruct (WithLabelValues _ _ _). Qed.
Lemma no_error_primary_of L : no_error (primary_of L).
Proof. unfold primary_of. apply no_error_bind; [done|]. intros h. apply no_error_bind; [apply no_error_or_crash|done]. Qed.
Lemma no_error_get_replica L : no_error (get_replica L).
Proof.
  unfold get_replica. apply no_error_bind; [done|]. intros h. apply no_error_bind; [apply no_error_or_crash|]. intros l.
  apply no_error_bind; [apply no_error_or_crash|]. intros p. apply no_error_bind; [apply no_error_or_crash|]. by intros [].
Qed.

(** Nothing that the backend sent is left to read. *)
Definition dry (w w' : world) : Prop := backend_in w = [] -> backend_in w' = [].
#[local] Instance dry_preorder : PreOrder dry.
Proof. split; [by intros ? ?|]. intros w1 w2 w3 H1 H2 ?. auto. Qed.
Lemma dry_update f : respects dry (update f).
Proof. intros [] Hw. exact Hw. Qed.
Lemma dry_modify f : (forall w, backend_in (f w) = backend_in w \/ backend_in (f w) = []) -> respects dry (modify f).
Proof. intros Hf w Hw. cbn. destruct (Hf w) as [->| ->]; done. Qed.
Lemma dry_client_write d : respects dry (client_write d).
Proof. intros w. unfold client_write. destruct w; cbn. destruct client_writes as [|[] ?]; intros Hw; exact Hw. Qed.
Lemma dry_readPacket : respects dry readPacket.
Proof.
  intros w. unfold readPacket. destruct w; cbn. destruct (read_full 4 client_in) as [[h rest]|]; [|intros Hw; exact Hw]. cbn.
  destruct (read_full _ rest) as [[]|]; intros Hw; exact Hw.
Qed.
Lemma dry_cache_get k : respects dry (cache_get k).
Proof. intros w. unfold cache_get. destruct w; cbn. destruct (cache_Get _ _). intros Hw; exact Hw. Qed.
End Flights.

#[export] Hint Resolve dry_client_write dry_readPacket dry_cache_get : dry.
#[export] Hint Resolve respects_ret respects_fail respects_crash respects_get respects_self respects_metric : dry.

Ltac dry_auto :=
  repeat (intros; cbv beta zeta; first
    [ solve [eauto 3 with dry typeclass_instances]
    | apply respects_bind; [apply _| |]
    | apply respects_catch
    | apply respects_or_crash; apply _
    | apply dry_update
    | apply dry_modify; (solve [intros []; cbn; auto])
    | match goal with
      | |- respects _ (match ?x with _ => _ end) => destruct x
      end ]).

Section FlightsClosed.
Context `{Ut : UnicodeTables} `{Dr : Driver} `{Nw : Network} `{Cs : CacheService} `{Gv : GoValues} `{Da : !Database} `{Bs : !BatchService}.
Variable error_text : error -> bytes.
#[local] Existing Instance dry_preorder.

Lemma dry_dialAndAuth a : respects dry (dialAndAuth a).
Proof.
  unfold dialAndAuth, handle_auth, writeServerGreeting, readClientAuth, writePacket, writeOK, writeOKWithInfo, emit. dry_auto.
Qed.
Hint Resolve dry_dialAndAuth : dry.
Lemma dry_ensureBackendConn a n p : respects dry (ensureBackendConn a n p).
Proof. unfold ensureBackendConn, emit. dry_auto. Qed.
Hint Resolve dry_ensureBackendConn : dry.
Lemma dry_route_fqn p : respects dry (route_fqn p).
Proof. unfold route_fqn, ensureBackend, primary_of. dry_auto. Qed.
Lemma dry_lookup_cache p f l t m : respects dry (lookup_cache p f l t m).
Proof. unfold lookup_cache, serve_hit, join_flight, serve_cached, forwardBackendResponse, cache_get_or_wait, emit. dry_auto. Qed.

(** No backend asks for a local file in answer to a text query. *)
Definition no_infile : Prop := forall p q p' reply,
  peer_write p (frame 0 (com ComQuery q)) = Some (p', reply) -> first_byte_is reply 0xFB = false.

Lemma first_byte_prefix r rest : first_byte_is (r ++ rest) 0xFB = false -> first_byte_is r 0xFB = false.
Proof.
  unfold first_byte_is. destruct (decide (4 < length r)%nat) as [Hl|Hl].
  - by rewrite lookup_app_l.
  - by rewrite (lookup_ge_None_2 r 4) by lia.
Qed.

Lemma exec_no_infile q w w' response : no_infile -> backend_in w = [] ->
  execBackendQuery q w = (w', Done response) -> first_byte_is response 0xFB = false.
Proof.
  intros Hn Hdry Hx. apply exec_query_inv in Hx as (p & p' & reply & s & rest & _ & Hp & Hr & _). rewrite Hdry in Hr. cbn in Hr. subst.
  eapply first_byte_prefix, Hn, Hp.
Qed.

Lemma no_flights_choose p : respects no_flights (choose_backend p).
Proof. unfold choose_backend. flow_auto. Qed.
Lemma no_error_choose p : no_error (choose_backend p).
Proof.
  unfold choose_backend. apply no_error_bind; [done|]. intros c. apply no_error_bind; [apply no_error_primary_of|]. intros a.
  destruct (_ && _); [apply no_error_get_replica|done].
Qed.
Lemma dry_choose p : respects dry (choose_backend p).
Proof. unfold choose_backend, primary_of, get_replica. dry_auto. Qed.
Lemma no_flights_ensureBackendConn a n L : respects no_flights (ensureBackendConn a n L).
Proof.
  intros w. destruct (still_ensureBackendConn a n L w) as [_ Hev]. eapply events_in_weaken; [|exact Hev]. by intros [].
Qed.
Hint Resolve no_flights_ensureBackendConn : flow.

(** The events of a computation around the one that ends a flight. *)
Definition ends (k : bytes) (w w' : world) : Prop := exists e1 e e2, trace w' = trace w ++ e1 ++ e :: e2 /\
  (e = ENotify k \/ e = ECancel k) /\ Forall (fun e => flight_event e = false) (e1 ++ e2).

Lemma ends_app k w0 w1 w2 w3 : no_flights w0 w1 -> ends k w1 w2 -> no_flights w2 w3 -> ends k w0 w3.
Proof.
  intros (a & Ta & Ha) (e1 & e & e2 & Te & He & Hq) (b & Tb & Hb). exists (a ++ e1), e, (e2 ++ b).
  rewrite Tb, Te, Ta. split; [by rewrite <- !app_assoc|]. split; [done|].
  rewrite !list.Forall_app in *. tauto.
Qed.

(** [m] ends the flight [k], unless it crashes. *)
Definition concludes {A} (k : bytes) (m : M A) : Prop := forall w w' o, m w = (w', o) -> o <> Crash -> ends k w w'.

Lemma concludes_after {A B} key (m : M A) (k : A -> M B) : respects no_flights m -> no_error m ->
  (forall x, concludes key (k x)) -> concludes key (m ≫= k).
Proof.
  intros Hm He Hk w w' o Hb Ho. apply bind_inv in Hb as [(e & Hf & _)|(x & w1 & Hm1 & Hk1)]; [by apply He in Hf| |done].
  specialize (Hm w). rewrite Hm1 in Hm. eapply ends_app; [exact Hm|by eapply Hk|reflexivity].
Qed.

Lemma concludes_then {A B} key (m : M A) (k : A -> M B) : concludes key m -> (forall x, respects no_flights (k x)) ->
  concludes key (m ≫= k).
Proof.
  intros Hm Hk w w' o Hb Ho. apply bind_inv in Hb as [(e & Hf & ->)|(x & w1 & Hm1 & Hk1)]; [by eapply Hm| |done].
  eapply ends_app; [reflexivity|by eapply Hm|]. specialize (Hk x w1). by rewrite Hk1 in Hk.
Qed.

Lemma concludes_cancel k : concludes k (cancel_inflight k).
Proof. intros [] w' o [= <- <-] _. exists [], (ECancel k), []. repeat split; [by right|constructor]. Qed.
Lemma concludes_notify k v ttl : concludes k (set_and_notify k v ttl).
Proof. intros [] w' o [= <- <-] _. exists [], (ENotify k), []. repeat split; [by left|constructor]. Qed.

Lemma concludes_deliver parsed f l t m n r : first_byte_is r 0xFB = false -> IsCacheable parsed = true ->
  concludes (Parser.Query parsed) (deliver parsed f l t m n r).
Proof.
  intros Hfb Hc. unfold deliver. rewrite Hfb, Hc.
  do 3 (apply concludes_after; [apply respects_metric, _|apply no_error_metric|intros _]).
  apply concludes_after; [apply local_update; by intros []|done|intros _].
  apply concludes_then; [apply concludes_notify|]. intros _. flow_auto.
Qed.

(** A cacheable statement that reaches a backend ends the flight of its key. *)
Lemma run_on_backend_ends parsed f l t m w w' o : no_infile -> backend_in w = [] -> IsCacheable parsed = true ->
  run_on_backend parsed f l t m w = (w', o) -> o <> Crash -> ends (Parser.Query parsed) w w'.
Proof.
  intros Hn Hdry Hc Hr Ho. unfold run_on_backend in Hr. rewrite Hc in Hr.
  apply bind_inv in Hr as [(e & Hf & _)|([addr name] & w1 & Ha & Hr)]; [by apply no_error_choose in Hf| |done].
  pose proof (no_flights_choose parsed w) as H1. pose proof (dry_choose parsed w Hdry) as D1. rewrite Ha in H1, D1. cbn [fst] in *.
  unfold self in Hr. unfold mbind at 1, session_bind at 1, catch in Hr. unfold mbind at 1, session_bind at 1 in Hr.
  set (L := backendPool (conn w1)) in *.
  assert (H2 : respects no_flights (ensureBackendConn addr name L;; execBackendQuery (Parser.Query parsed))).
  { apply respects_bind; [apply _|apply no_flights_ensureBackendConn|]. intros _. flow_auto. }
  specialize (H2 w1).
  destruct ((ensureBackendConn addr name L;; execBackendQuery (Parser.Query parsed)) w1) as [w2 [x|e|]] eqn:E; cbn [fst] in *.
  - apply (ends_app _ w w2 w' w'); [by etrans| |reflexivity]. refine (concludes_deliver _ _ _ _ _ _ _ _ Hc _ _ _ Hr Ho).
    apply bind_inv in E as [(? & _ & ?)|([] & w3 & He & Hx)]; [done| |done].
    pose proof (dry_ensureBackendConn addr name L w1 D1) as D2. rewrite He in D2. by eapply exec_no_infile.
  - apply (ends_app _ w w2 w' w'); [by etrans| |reflexivity].
    refine (concludes_then (Parser.Query parsed) (cancel_inflight _) _ (concludes_cancel _) _ _ _ _ Hr Ho).
    intros _. apply respects_fail, _.
  - by injection Hr as <- <-.
Qed.

Lemma get_or_wait_flights k w : exists w1 r, cache_get_or_wait k w = (w1, Done r) /\
  (no_flights w w1 \/ (r = (None, false) /\ trace w1 = trace w ++ [ELead k])).
Proof.
  destruct w as [c ci co cw bi d px h q t]. unfold cache_get_or_wait, get, modify, emit, mbind, session_bind, mret, session_ret. cbn.
  destruct (cache_GetOrWait q k) as [q' [[hit|] []]]; cbn; (eexists _, _; split; [reflexivity|]); [left..|right; done];
    exists []; cbn; by rewrite app_nil_r.
Qed.

(** The flights after a lookup: none was touched, or this session leads one. *)
Definition may_lead (k : bytes) (w w1 : world) (o : outcome error bool) : Prop :=
  no_flights w w1 \/ (o = Done false /\ exists w0, no_flights w w0 /\ trace w1 = trace w0 ++ [ELead k]).

Lemma may_lead_after k w0 w w1 o : no_flights w0 w -> may_lead k w w1 o -> may_lead k w0 w1 o.
Proof.
  intros H0 [H1|(Ho & w2 & H2 & Ht)]; [left; by etrans|right]. split; [done|]. exists w2. split; [by etrans|done].
Qed.

Lemma join_flight_leads parsed f l m w w1 o : join_flight parsed f l m w = (w1, o) -> o <> Crash ->
  may_lead (Parser.Query parsed) w w1 o.
Proof.
  intros Hr Ho. apply bind_inv in Hr as [(e & Hf & ->)|([] & w3 & Hm & Hr)]; [by apply no_error_metric in Hf| |done].
  pose proof (respects_metric (E := error) no_flights CacheMisses [f; l] w) as H3. rewrite Hm in H3. apply (may_lead_after _ w w3); [exact H3|].
  destruct (get_or_wait_flights (Parser.Query parsed) w3) as (w4 & r & E & Hfl). unfold mbind, session_bind in Hr. rewrite E in Hr.
  destruct Hfl as [Hfl|[-> Hfl]]; [left|right].
  - etrans; [exact Hfl|]. destruct r as [[[v fl]|] []]; [|by injection Hr as <- <-..].
    pose proof (ltac:(flow_auto) : respects no_flights (metric CacheHits [f; l];; serve_cached (str "cache") v m;; mret true)) as H5.
    specialize (H5 w4). unfold mbind, session_bind in H5. by rewrite Hr in H5.
  - injection Hr as <- <-. split; [done|]. by exists w3.
Qed.

Lemma lookup_cache_leads parsed f l t m w w1 o : lookup_cache parsed f l t m w = (w1, o) -> o <> Crash ->
  may_lead (Parser.Query parsed) w w1 o.
Proof.
  intros Hl Ho. apply bind_inv in Hl as [(e & Hf & ->)|(hit & w2 & Hg & Hl)]; [| |done].
  { exfalso. revert Hf. unfold cache_get. by destruct (cache_Get _ _). }
  pose proof (local_cache_get no_flights (Parser.Query parsed) w) as H1. rewrite Hg in H1. apply (may_lead_after _ w w2); [exact H1|].
  assert (Hserve : forall from v, respects no_flights (serve_hit f l t from v m)) by (intros; unfold serve_hit; flow_auto).
  destruct hit as [[v flags]|]; [|by eapply join_flight_leads].
  destruct (flags =? FlagFresh); [left|destruct (flags =? FlagStale); [left|by eapply join_flight_leads]];
    [specialize (Hserve (str "cache") v w2)|specialize (Hserve (str "cache (stale)") v w2)]; by rewrite Hl in Hserve.
Qed.

(** No flight is left open by the events between two states. *)
Definition all_closed (w w' : world) : Prop := exists evs, trace w' = trace w ++ evs /\ open_after evs ∅ = ∅.

Lemma no_flights_closed w w' : no_flights w w' -> all_closed w w'.
Proof. intros (evs & Ht & Hev). exists evs. split; [done|]. by rewrite open_after_none. Qed.

Lemma ends_closed (k : bytes) evs0 w0 w w' : trace w = trace w0 ++ evs0 -> open_after evs0 ∅ ⊆ ({[k]} : gset bytes) -> ends k w w' ->
  all_closed w0 w'.
Proof.
  intros Ht Ho (e1 & e & e2 & Te & He & Hq). apply list.Forall_app in Hq as [H1 H2].
  exists (evs0 ++ e1 ++ e :: e2). rewrite Te, Ht, <- app_assoc. split; [done|]. rewrite !open_after_app.
  rewrite (open_after_none e1) by done. destruct He as [-> | ->]; cbn [open_after]; rewrite open_after_none by done; set_solver.
Qed.

Lemma cache_then_backend_closes parsed f l t m w w' o : no_infile -> backend_in w = [] ->
  cache_then_backend parsed f l t m w = (w', o) -> o <> Crash -> all_closed w w'.
Proof.
  intros Hn Hdry Hr Ho. unfold cache_then_backend in Hr. destruct (IsCacheable parsed) eqn:Hc.
  - apply bind_inv in Hr as [(e & Hf & ->)|(b & w1 & Hl & Hr)]; [| |done].
    { apply no_flights_closed. by destruct (lookup_cache_leads _ _ _ _ _ _ _ _ Hf ltac:(done)) as [?|[? _]]. }
    pose proof (dry_lookup_cache parsed f l t m w Hdry) as D1. rewrite Hl in D1. cbn [fst] in D1.
    destruct (lookup_cache_leads _ _ _ _ _ _ _ _ Hl ltac:(done)) as [(evs & Ht & Hev)|([= ->] & w0 & (evs & Ht0 & Hev) & Ht)].
    + destruct b; [injection Hr as <- <-; apply no_flights_closed; by exists evs|].
      eapply (ends_closed (Parser.Query parsed) evs); [done|by rewrite open_after_none|by eapply run_on_backend_ends].
    + eapply (ends_closed (Parser.Query parsed) (evs ++ [ELead (Parser.Query parsed)])); [by rewrite Ht, Ht0, <- app_assoc| |by eapply run_on_backend_ends].
      rewrite open_after_app, (open_after_none evs) by done. cbn. set_solver.
  - apply no_flights_closed. assert (Hx : respects no_flights (run_on_backend parsed f l t m)).
    { unfold run_on_backend, deliver. rewrite Hc. apply respects_bind; [apply _|apply no_flights_choose|]. intros [a n].
      apply respects_bind; [apply _|apply respects_self, _|]. intros L.
      apply respects_bind; [apply _| |intros [r|e]; flow_auto].
      apply respects_catch, respects_bind; [apply _|apply no_flights_ensureBackendConn|]. intros _. flow_auto. }
    specialize (Hx w). by replace (run_on_backend parsed f l t m w) with (w', o) in Hx.
Qed.

Lemma no_flights_control parsed q f l t m w : no_flights w (handleBatchedWrite error_text q (BatchMs parsed) f l t m w).1.
Proof.
  unfold handleBatchedWrite, executeImmediateWrite. match goal with |- no_flights w (?k w).1 => enough (respects no_flights k) as Hk by apply Hk end.
  flow_auto.
Qed.
Lemma no_flights_ensureBackend n : respects no_flights (ensureBackend n).
Proof.
  intros w. destruct (still_ensureBackend n w) as [_ Hev]. eapply events_in_weaken; [|exact Hev]. by intros [].
Qed.
Hint Resolve no_flights_ensureBackend : flow.
Lemma no_flights_route parsed : respects no_flights (route_fqn parsed).
Proof.
  intros w. destruct (still_route_fqn parsed w) as [_ Hev]. eapply events_in_weaken; [|exact Hev]. by intros [].
Qed.

Lemma all_closed_after w0 w w' : no_flights w0 w -> all_closed w w' -> all_closed w0 w'.
Proof.
  intros (e1 & T1 & H1) (e2 & T2 & H2). exists (e1 ++ e2). rewrite T2, T1, <- app_assoc. split; [done|].
  by rewrite open_after_app, (open_after_none e1).
Qed.

End FlightsClosed.

(** ** Witnesses *)

#[local] Existing Instance ascii_tables.
#[local] Existing Instance NoFloats.
#[local] Existing Instance ScriptDB.
#[local] Existing Instance PlainDriver.
#[local] Existing Instance TestNet.
#[local] Existing Instance TestCache.
#[local] Existing Instance TestBatch.

Definition insert_query : bytes := str "INSERT INTO t VALUES (1)".
Definition cached_query : bytes := str "/* ttl:5 */ SELECT 1".


Lemma test_no_infile : no_infile.
Proof.
  intros p q p' reply [= _ <-]. unfold server_reply.
  destruct (bool_decide _); [vm_compute; reflexivity|]. destruct (HasPrefix _ _); [vm_compute; reflexivity|].
  destruct (HasPrefix _ _); vm_compute; reflexivity.
Qed.

(** A cacheable read whose backend answers. *)
Definition flight_session : world := test_session (str "replica") [].

Lemma flight_session_done : exists w',
  handleSingleQuery no_text (Parser.Query (Parse cached_query)) (Parse cached_query) false flight_session = (w', Done tt).
Proof.
  destruct (handleSingleQuery _ _ _ _ _) as [w' o] eqn:E. exists w'. f_equal. apply (f_equal snd) in E. cbn [snd] in E. rewrite <- E.
  reflexivity.
Qed.

