(* ===== verification/MariaServe.v ===== *)
(** * Package mariadb: what the client is answered

    Theorems about whole statements of src/mariadb/mariadb.go: the client gets
    the backend's response, a response that one session stored in the cache is
    what other sessions are served, preparing a statement makes it known to the
    session.  [CacheModel] shows that the cache of the package cache keeps the
    promises these theorems rely on. *)

From Stdlib Require Import Ascii ZArith Lia.
From stdpp Require Import base list gmap strings numbers.
From coqutil Require Import Datatypes.RecordSetters.
From S2P Require Import Prelude GoStrings BatchText Metrics Executor Parser Replica Cache Config Effects Services MariaWire MariaConn MariaFlow.
Import DoubleBraceUpdate.

Open Scope Z_scope.

Abbreviation M := (Effects.M world error).
Abbreviation respects := (@Effects.respects world error _).

(** ** Steps that succeed *)

Section Runs.
Context `{Ut : UnicodeTables} `{Dr : Driver} `{Nw : Network} `{Cs : CacheService} `{Gv : GoValues} `{Da : !Database} `{Bs : !BatchService}.
Variable error_text : error -> bytes.

Lemma ensureBackendConn_here name L w : is_Some (backend (conn w)) -> ensureBackendConn (backendAddr (conn w)) name L w = (w, Done tt).
Proof.
  intros Hb. unfold ensureBackendConn, self, mbind, session_bind, id. rewrite !bool_decide_eq_true_2 by done. done.
Qed.

Lemma exec_query_run q w p p' reply response seq rest : backend (conn w) = Some p ->
  peer_write p (frame 0 (com ComQuery q)) = Some (p', reply) ->
  collect_response false (backend_in w ++ reply) = Ok (response, seq, rest) ->
  execBackendQuery q w = (received seq rest (sent ComQuery q p' reply w), Done response).
Proof.
  intros Hb Hp Hc. pose proof (send_command_run ComQuery q w) as Hs. rewrite Hb, Hp in Hs.
  unfold execBackendQuery. rewrite (bind_run _ _ _ _ _ Hs).
  pose proof (read_response_run false (sent ComQuery q p' reply w) p' ltac:(by destruct w as [[]])) as Hr.
  replace (backend_in (sent ComQuery q p' reply w)) with (backend_in w ++ reply) in Hr by by destruct w as [[]].
  by rewrite Hc in Hr.
Qed.

(** The state after a response was written to the client. *)
Definition answered (out : bytes) (seq : Z) (w : world) : world :=
  w {{ conn -> sequence := seq; client_out ::= fun o => o ++ out }}.

Lemma forward_run ps w : Forall (fun x => small x.2 = true) ps -> client_writes w = [] ->
  forwardBackendResponse (frames ps) false w =
    (answered (frames (renum (sequence (conn w)) ps)) (last_seq (sequence (conn w)) ps) w, Done tt).
Proof.
  intros Hs Hw. unfold forwardBackendResponse, self, mbind, session_bind. rewrite forward_response_frames by done.
  destruct w as [[] ? ? ? ? ? ? ? ? ?]. cbn in Hw. subst. reflexivity.
Qed.
End Runs.

Section Answers.
Context `{Ut : UnicodeTables} `{Dr : Driver} `{Nw : Network} `{Cs : CacheService} `{Gv : GoValues} `{Da : !Database} `{Bs : !BatchService}.
Context `{!DriverLaws} `{!CacheLaws}.
Variable error_text : error -> bytes.

(** A response of the protocol does not look like a request for a local file. *)
Lemma response_first_byte ps : response ps -> first_byte_is (frames ps) 0xFB = false.
Proof.
  assert (Hf : forall s h t ps', bval h <> 0xFB -> first_byte_is (frames ((s, h :: t) :: ps')) 0xFB = false).
  { intros s h t ps' Hh. rewrite frames_cons. unfold frame. destruct (header_cons (zlen (h :: t)) s) as (a & b & c & -> & _).
    unfold first_byte_is. cbn. by apply Z.eqb_neq. }
  assert (Heof : forall b e, eof_packet b e -> exists t, e = to_byte 0xFE :: t) by (intros b e (? & ? & -> & _); eauto).
  destruct 1 as [s p (? & ? & ? & ? & -> & _)|s p (t & ->)|s p ps (? & ? & ? & ? & -> & _) _|defs s1 e1 rows s2 e2 Hd _ [b He1] _|defs s1 e1 rows s2 e2 ps Hd _ [b He1] _ _];
    try (apply Hf; vm_compute; discriminate).
  all: apply Heof in He1 as [t ->]; destruct Hd as [|[s p] defs (h & t' & E & _ & Hh & _) _]; cbn in *; subst;
    apply Hf; first [done|vm_compute; discriminate].
Qed.

Lemma packets_small ps : packets_ok ps -> Forall (fun x : Z * bytes => small x.2 = true) ps.
Proof. intros Hok. eapply list.Forall_impl; [exact Hok|]. by intros x [_ ?]. Qed.

(** The names of a statement in the metrics. *)
Definition labels_ok (parsed orig : ParsedQuery) : bool :=
  let file := if decide (File parsed = []) then str "unknown" else File parsed in
  let line := Itoa (if 0 <? Line parsed then Line parsed else Line orig) in
  forallb label_ok [file; line; queryTypeLabel (Type_ parsed); str "true"; str "false"; str "primary"].

Lemma route_here parsed w : DB parsed = [] -> route_fqn parsed w = (w, Done tt).
Proof.
  intros Hdb. unfold route_fqn, self, mbind, session_bind. rewrite (bool_decide_eq_false_2 (DB parsed <> [])); [done|]. by intros [].
Qed.

(** A response that is delivered is stored. *)
Lemma forward_keeps_cache r m w : qcache (forwardBackendResponse r m w).1 = qcache w.
Proof.
  unfold forwardBackendResponse, self, mbind, session_bind. destruct (forward_response _ _ _) as [[x y]| |]; [|done..].
  unfold update, client_write. destruct w as [? ? ? cw ? ? ? ? ? ?]. cbn. by destruct cw as [|[] ?].
Qed.

Lemma deliver_holds parsed f l t more name r w w' o : IsCacheable parsed = true -> 0 < ttl_of parsed ->
  first_byte_is r 0xFB = false -> deliver parsed f l t more name r w = (w', o) -> o <> Crash ->
  holds (qcache w') (Parser.Query parsed) r.
Proof.
  intros Hca Httl Hfb Hd Ho. unfold deliver in Hd. rewrite Hfb, Hca in Hd.
  do 4 (apply bind_inv in Hd as [(e & Hf & _)|([] & ? & _ & Hd)]; [by first [done|apply no_error_metric in Hf]| |done]).
  apply bind_inv in Hd as [(e & Hf & _)|([] & w5 & Hn & Hd)]; [done| |done].
  pose proof (forward_keeps_cache r more w5) as Hq. rewrite Hd in Hq. cbn [fst] in Hq. rewrite Hq.
  match type of Hn with _ ?w4 = _ => destruct w4 end. injection Hn as <-. by apply holds_set.
Qed.

(** A statement of the session's own database that is neither a command for the
    session, nor batched, nor cached. *)
Definition plain_statement (w : world) (parsed : ParsedQuery) : Prop :=
  classify (Parser.Query parsed) = SOther /\ DB parsed = [] /\ IsCacheable parsed = false /\
  (writeBatch (proxy w) = None \/ inTransaction (conn w) = true \/ IsBatchable parsed = false).

(** A query answered with a well-formed response leaves nothing unread. *)
Lemma exec_response_run q w p p' ps : backend (conn w) = Some p -> backend_in w = [] ->
  peer_write p (frame 0 (com ComQuery q)) = Some (p', frames ps) -> packets_ok ps -> response ps ->
  exists s, execBackendQuery q w = (received s [] (sent ComQuery q p' (frames ps) w), Done (frames ps)).
Proof.
  intros Hb Hin Hw Hok Hr.
  edestruct (collect_spec false ps [] Hok Hr (S (length (frames ps))) true []) as [s Hc]; [pose proof (length_frames ps); lia|].
  exists s. apply (exec_query_run _ w p); [done|done|]. rewrite app_nil_r in Hc. rewrite Hin. exact Hc.
Qed.

(** A response is delivered: counted, stored if the statement is cacheable, and
    forwarded. *)
Definition delivered (parsed : ParsedQuery) (name : bytes) (ps : list (Z * bytes)) (w : world) : world :=
  let w := w {{ conn -> lastQueryBackend := name; conn -> lastQueryCacheHit := false }} in
  let w := if IsCacheable parsed
           then w {{ trace ::= fun t => t ++ [ENotify (Parser.Query parsed)];
                     qcache ::= fun q => cache_SetAndNotify q (Parser.Query parsed) (frames ps) (ttl_of parsed) }}
           else w in
  answered (frames (renum (sequence (conn w)) ps)) (last_seq (sequence (conn w)) ps) w.

Lemma deliver_response_run parsed f l t name ps w :
  forallb label_ok [name; f; l; t; str "false"] = true -> packets_ok ps -> response ps -> client_writes w = [] ->
  deliver parsed f l t false name (frames ps) w = (delivered parsed name ps w, Done tt).
Proof.
  intros Hlab Hok Hr Hw. cbn [forallb] in Hlab. bool_simpl. unfold deliver, delivered. rewrite response_first_byte by done.
  do 3 rewrite (bind_run (metric _ _) _ w w tt) by (apply metric_run; [reflexivity|]; cbn [forallb]; by repeat (apply andb_true_intro; split)).
  erewrite (bind_run (update _)) by reflexivity. apply packets_small in Hok.
  destruct (IsCacheable parsed); erewrite bind_run by reflexivity; rewrite forward_run by (try done; by destruct w as [[]]);
    by destruct w as [[]].
Qed.

(** The state after a plain statement: the backend was asked and its response
    delivered. *)
Lemma statement_run w orig p p' ps : plain_statement w orig -> labels_ok orig orig = true ->
  backend (conn w) = Some p -> primary_at (pool_heap w) (backendPool (conn w)) = Some (backendAddr (conn w)) ->
  backend_in w = [] -> client_writes w = [] ->
  peer_write p (frame 0 (com ComQuery (Parser.Query orig))) = Some (p', frames ps) -> packets_ok ps -> response ps ->
  exists s, handleSingleQuery error_text (Parser.Query orig) orig false w =
    (delivered orig (str "primary") ps (received s [] (sent ComQuery (Parser.Query orig) p' (frames ps) w)), Done tt).
Proof.
  intros (Hcl & Hdb & Hca & Hbt) Hlab Hb Hprim Hin Hcw Hw Hok Hr.
  unfold labels_ok in Hlab. cbn [forallb] in Hlab. bool_simpl.
  unfold handleSingleQuery. cbv zeta. rewrite decide_True by done. rewrite Hcl.
  rewrite (bind_run _ _ _ _ _ (route_here orig w Hdb)). unfold self, get, id, mbind at 1 2, session_bind at 1 2.
  replace (bool_decide (is_Some (writeBatch (proxy w))) && negb (inTransaction (conn w)) && IsWritable orig && IsBatchable orig) with false.
  2: { symmetry. destruct Hbt as [->|[->| ->]]; rewrite ?andb_false_r; done. }
  rewrite Hca. unfold mbind at 1, session_bind at 1, mret at 1, session_ret at 1. unfold run_on_backend.
  rewrite (bind_run (choose_backend orig) _ w w (backendAddr (conn w), str "primary"))
    by (rewrite choose_primary by (by rewrite Hca); by rewrite Hprim).
  unfold self, mbind at 1, session_bind at 1.
  destruct (exec_response_run (Parser.Query orig) w p p' ps Hb Hin Hw Hok Hr) as [s Hx].
  erewrite (bind_run (catch _))
    by (unfold catch; rewrite (bind_run _ _ _ _ _ (ensureBackendConn_here _ _ _ (ltac:(by rewrite Hb)))); by rewrite Hx).
  cbv beta iota. rewrite deliver_response_run; [|cbn [forallb]; by repeat (apply andb_true_intro; split)|done|done|by destruct w as [[]]].
  by exists s.
Qed.

(** C6. The session is transparent: a statement that is neither batched nor
    cached is sent to the primary as it is, once, and the client gets exactly
    the packets the backend answered, in order, numbered after the number of its
    own packet; and the connection to the backend is left with nothing unread,
    so that the next response is not mixed up with this one. *)
Theorem statement_transparent w orig p p' ps : plain_statement w orig -> labels_ok orig orig = true ->
  backend (conn w) = Some p -> primary_at (pool_heap w) (backendPool (conn w)) = Some (backendAddr (conn w)) ->
  backend_in w = [] -> client_writes w = [] ->
  peer_write p (frame 0 (com ComQuery (Parser.Query orig))) = Some (p', frames ps) -> packets_ok ps -> response ps ->
  exists w', handleSingleQuery error_text (Parser.Query orig) orig false w = (w', Done tt) /\
    client_out w' = client_out w ++ frames (renum (sequence (conn w)) ps) /\
    trace w' = trace w ++ [EWrite (backendAddr (conn w)) (com ComQuery (Parser.Query orig))] /\
    backend (conn w') = Some p' /\ backend_in w' = [].
Proof.
  intros Hpl Hlab Hb Hprim Hin Hcw Hw Hok Hr. pose proof Hpl as (_ & _ & Hca & _).
  destruct (statement_run w orig p p' ps Hpl Hlab Hb Hprim Hin Hcw Hw Hok Hr) as [s E]. rewrite E.
  eexists. split; [reflexivity|]. unfold delivered. rewrite Hca. destruct w as [[] ? ? ? ? ? ? ? ? ?]. cbn in *. subst. done.
Qed.

(** A read with a lifetime that is not a command for the session. *)
Definition cacheable_statement (parsed : ParsedQuery) : Prop :=
  classify (Parser.Query parsed) = SOther /\ DB parsed = [] /\ IsCacheable parsed = true.


(** ** Prepared statements *)

Lemma readBackendPacket_run w p s pl rest : backend (conn w) = Some p -> 0 <= s < 256 -> small pl = true ->
  backend_in w = frame s pl ++ rest -> readBackendPacket w = (received s rest w, Done pl).
Proof.
  intros Hb Hs Hp Hin. pose proof (read_packet_frame s pl rest Hp) as Hr. unfold read_packet in Hr.
  rewrite Z.mod_small in Hr by done.
  unfold readBackendPacket, self, get, or_crash, update, modify, mbind, session_bind, mret, session_ret, id.
  rewrite Hb, Hin. destruct (read_full 4 (frame s pl ++ rest)) as [[h i]|]; [|done]. cbn [mbind option_bind] in Hr.
  destruct (h !! 3%nat) as [b|] eqn:Eh; [|done]. cbn [mbind option_bind] in Hr. cbn [default].
  destruct (read_full (header_length h) i) as [[pl' i']|]; [|done]. cbn [mbind option_bind] in Hr. injection Hr as Es -> ->.
  unfold received. rewrite <- Es. by destruct w as [[]].
Qed.

Lemma append_packet_run acc w p s pl rest : backend (conn w) = Some p -> 0 <= s < 256 -> small pl = true ->
  backend_in w = frame s pl ++ rest -> append_packet acc w = (received s rest w, Done (acc ++ frame s pl)).
Proof.
  intros Hb Hs Hp Hin. unfold append_packet. erewrite bind_run by (by eapply readBackendPacket_run). by destruct w as [[]].
Qed.

Lemma append_packets_run ps rest : packets_ok ps -> forall acc w p, backend (conn w) = Some p ->
  backend_in w = frames ps ++ rest ->
  exists s, append_packets (length ps) acc w = (received s rest w, Done (acc ++ frames ps)).
Proof.
  induction ps as [|[s pl] ps IH]; intros Hok acc w p Hb Hin.
  - exists (backendSeq (conn w)). cbn [length append_packets]. rewrite app_nil_r. cbn in Hin. unfold received. rewrite <- Hin.
    by destruct w as [[]].
  - inversion_clear Hok as [|? ? [Hs Hp] Hok']. rewrite frames_cons, <- app_assoc in Hin. cbn [length append_packets].
    erewrite bind_run by (by eapply append_packet_run).
    destruct (IH Hok' (acc ++ frame s pl) (received s (frames ps ++ rest) w) p) as [s' E]; [by destruct w as [[]]..|].
    exists s'. cbn [fst snd]. rewrite E, frames_cons, app_assoc. by destruct w as [[]].
Qed.

(** Definitions of [n] parameters or columns: as many packets and an EOF, or none. *)
Definition definitions (n : Z) (ps : list (Z * bytes)) : Prop := zlen ps = if 0 <? n then n + 1 else 0.

Lemma append_definitions_run n ps rest acc w p : 0 <= n -> definitions n ps -> packets_ok ps -> backend (conn w) = Some p ->
  backend_in w = frames ps ++ rest ->
  exists s, append_definitions n acc w = (received s rest w, Done (acc ++ frames ps)).
Proof.
  intros Hn Hd Hok Hb Hin. unfold append_definitions, definitions, zlen in *. destruct (0 <? n) eqn:E; bool_simpl.
  - destruct ps as [|x ps _] using rev_ind; [cbn in Hd; lia|]. rewrite length_app in Hd. cbn [length] in Hd.
    apply list.Forall_app in Hok as [Hok Hx]. apply list.Forall_cons in Hx as [[Hs Hp] _]. destruct x as [s pl]. cbn in Hs, Hp.
    replace (Z.to_nat n) with (length ps) by lia. rewrite frames_app, frames_cons in *. change (frames []) with (@nil ascii) in *.
    rewrite app_nil_r in *. rewrite <- app_assoc in Hin.
    destruct (append_packets_run ps (frame s pl ++ rest) Hok acc w p Hb Hin) as [s1 E1].
    rewrite (bind_run _ _ _ _ _ E1). exists s. erewrite append_packet_run; [|by destruct w as [[]]..]. rewrite app_assoc. by destruct w as [[]].
  - destruct ps; [|cbn in Hd; lia]. exists (backendSeq (conn w)). rewrite app_nil_r. cbn in Hin. unfold received. rewrite <- Hin.
    by destruct w as [[]].
Qed.

(** An integer inside a packet. *)
Lemma dec_at (pre : bytes) n z rest i j : 0 <= z < 256 ^ Z.of_nat n -> zlen pre = i -> j = i + Z.of_nat n ->
  (le_dec <$> slice (pre ++ le_enc n z ++ rest) i j) = Some z.
Proof.
  intros Hz <- ->. replace (Z.of_nat n) with (zlen (le_enc n z)) by (unfold zlen; by rewrite length_le_enc).
  rewrite slice_app. cbn [fmap option_fmap option_map]. by rewrite le_dec_enc, Z.mod_small.
Qed.

Lemma prepare_ok_run w p q s stmtID numCols numParams tail params cols rest :
  let ok := to_byte 0 :: le_enc 4 stmtID ++ le_enc 2 numCols ++ le_enc 2 numParams ++ tail in
  0 <= stmtID < 2 ^ 32 -> 0 <= numCols < 2 ^ 16 -> 0 <= numParams < 2 ^ 16 ->
  definitions numParams params -> definitions numCols cols -> packets_ok params -> packets_ok cols ->
  backend (conn w) = Some p -> backend_in w = frames params ++ frames cols ++ rest ->
  exists n, prepare_ok q ok (frame s ok) w =
    (received n rest (w {{ conn -> preparedStatements ::= fun m => <[stmtID := Parse q]> m }}),
     Done (frames ((s, ok) :: params ++ cols))).
Proof.
  intros ok Hid Hnc Hnp Hpar Hcol Hokp Hokc Hb Hin. unfold prepare_ok.
  assert (S1 : (le_dec <$> slice ok 1 5) = Some stmtID) by by apply (dec_at [to_byte 0] 4).
  assert (S2 : (le_dec <$> slice ok 5 7) = Some numCols) by by apply (dec_at (to_byte 0 :: le_enc 4 stmtID) 2).
  assert (S3 : (le_dec <$> slice ok 7 9) = Some numParams) by by apply (dec_at (to_byte 0 :: le_enc 4 stmtID ++ le_enc 2 numCols) 2).
  rewrite S1, S2, S3. cbn [or_crash]. do 3 (rewrite (bind_run (mret _) _ _ _ _ eq_refl); cbv beta).
  set (w2 := w {{ conn -> preparedStatements ::= fun m => <[stmtID := Parse q]> m }}).
  rewrite (bind_run (update _) _ w w2 tt eq_refl).
  destruct (append_definitions_run numParams params (frames cols ++ rest) (frame s ok) w2 p) as [n2 R2];
    [lia|done|done|by destruct w as [[]]..|]. rewrite (bind_run _ _ _ _ _ R2).
  destruct (append_definitions_run numCols cols rest (frame s ok ++ frames params) (received n2 (frames cols ++ rest) w2) p) as [n3 R3];
    [lia|done|done|by destruct w as [[]]..|]. exists n3. rewrite R3, frames_cons, frames_app, app_assoc. by destruct w as [[]].
Qed.

(** C34. Preparing a statement: when the backend accepts it, the session knows
    the statement under the backend's number, with the hints of its text; the
    client gets the backend's answer with the definitions of all parameters and
    columns, renumbered; and nothing is left unread. *)
Theorem prepare_registers w q p p' s stmtID numCols numParams tail params cols :
  backend (conn w) = Some p -> backend_in w = [] -> client_writes w = [] ->
  0 <= stmtID < 2 ^ 32 -> 0 <= numCols < 2 ^ 16 -> 0 <= numParams < 2 ^ 16 ->
  let ok := to_byte 0 :: le_enc 4 stmtID ++ le_enc 2 numCols ++ le_enc 2 numParams ++ tail in
  let ps := (s, ok) :: params ++ cols in
  packets_ok ps -> definitions numParams params -> definitions numCols cols ->
  peer_write p (frame 0 (com ComStmtPrepare q)) = Some (p', frames ps) ->
  exists w', handlePrepare q w = (w', Done tt) /\
    preparedStatements (conn w') = <[stmtID := Parse q]> (preparedStatements (conn w)) /\
    client_out w' = client_out w ++ frames (renum (sequence (conn w)) ps) /\
    backend_in w' = [].
Proof.
  intros Hb Hin Hcw Hid Hnc Hnp ok ps Hok Hpar Hcol Hw. pose proof (packets_small _ Hok) as Hsm.
  inversion_clear Hok as [|? ? [Hs Hp] Hok']. apply list.Forall_app in Hok' as [Hokp Hokc]. cbn [fst snd] in Hs, Hp.
  pose proof (send_command_run ComStmtPrepare q w) as Hsend. rewrite Hb, Hw in Hsend.
  unfold handlePrepare. rewrite (bind_run _ _ _ _ _ Hsend).
  set (w1 := sent ComStmtPrepare q p' (frames ps) w).
  assert (H1 : backend (conn w1) = Some p' /\ backend_in w1 = frame s ok ++ frames params ++ frames cols ++ [] /\
    client_writes w1 = [] /\ client_out w1 = client_out w /\ sequence (conn w1) = sequence (conn w) /\
    preparedStatements (conn w1) = preparedStatements (conn w)).
  { subst w1 ps. rewrite frames_cons, frames_app, app_nil_r. destruct w as [[] ? ? ? ? ? ? ? ? ?]. cbn in *. subst. done. }
  clearbody w1. clear Hsend. destruct H1 as (E1 & E2 & E3 & E4 & E5 & E6).
  rewrite (bind_run _ _ _ _ _ (readBackendPacket_run w1 p' s ok _ E1 Hs Hp E2)).
  rewrite (bind_run (self backendSeq) _ _ _ _ eq_refl). cbv zeta.
  assert (Hbs : backendSeq (conn (received s (frames params ++ frames cols ++ []) w1)) = s) by by destruct w1 as [[]].
  rewrite Hbs. clear Hbs. subst ok. cbv iota. change (bval (to_byte 0) =? 0) with true. cbv iota.
  destruct (prepare_ok_run (received s (frames params ++ frames cols ++ []) w1) p' q s stmtID numCols numParams tail params cols [])
    as [n R]; [done|done|done|done|done|done|done|by destruct w1 as [[]]..|].
  rewrite (bind_run _ _ _ _ _ R). eexists. split; [apply forward_run; [exact Hsm|by destruct w1 as [[]]]|].
  rewrite <- E4, <- E5, <- E6. by destruct w1 as [[]].
Qed.
End Answers.

(** ** The cache keeps its promises

    The operations of the package cache, each run to its end by a session that
    is alone (a waiter that nobody wakes times out), satisfy [CacheLaws]
    whenever the store below satisfies [StoreLaws]. *)

Section CacheModel.
Context `{St : Store} `{!StoreLaws}.

Fixpoint run_alone (n : nat) (c : Cache) (key : bytes) (p : pc) : Cache * pc :=
  match n with
  | O => (c, p)
  | S n => match call_step true c key p with Next c p => run_alone n c key p | _ => (c, p) end
  end.

Definition GetOrWait_alone (c : Cache) (key : bytes) : Cache * (option (bytes * Z) * bool) :=
  let '(c, p) := run_alone 4 c key GStart in
  (c, match p with
      | GHit v flags waited => (Some (v, flags), waited)
      | GLead _ => (None, false)
      | _ => (None, true)
      end).

Definition CacheModel : CacheService := {|
  Services.cache := Cache;
  cache_Get := Get;
  cache_GetOrWait := GetOrWait_alone;
  cache_SetAndNotify c k v ttl := (run_alone 3 c k (NStore v ttl)).1;
  cache_CancelInflight c k := (run_alone 2 c k NTake).1;
  cache_Set := Set_
|}.

(** Notifying leaves the entries as they are. *)
Lemma notify_entries n c k f : entries (run_alone n c k (NClose f)).1 = entries c /\ entries (run_alone n c k NTake).1 = entries c.
Proof.
  revert c k f. induction n as [|n IH]; intros c k f; [done|]. cbn [run_alone call_step]. split.
  - destruct (close_flight c f) as [c'|] eqn:E; [|done]. unfold close_flight in E. destruct (decide _); [done|]. injection E as <-.
    by destruct n.
  - unfold LoadAndDelete. destruct (inflight c !! k) as [f'|]; [by destruct (IH (MkCache (entries c) (delete k (inflight c)) (closed c) (next c)) k f') as [-> _]|].
    by destruct n.
Qed.

Lemma set_fresh (c : Cache) k v ttl : 0 < ttl -> fresh (entries (run_alone 3 c k (NStore v ttl)).1) k v.
Proof.
  intros Ht. change (run_alone 3 c k (NStore v ttl)) with (run_alone 2 (Set_ c k v ttl) k NTake).
  rewrite (proj2 (notify_entries 2 _ k O)). unfold Set_. replace (0 <? ttl) with true by lia. by apply fresh_set.
Qed.

Lemma get_fresh (c : Cache) k v : fresh (entries c) k v -> exists c', Get c k = (c', Some (v, FlagFresh)) /\ fresh (entries c') k v.
Proof. intros Hf. unfold Get. destruct (fresh_get _ _ _ Hf) as (s & E & Hs). rewrite E. eexists. by split. Qed.

(** The package cache keeps the promise the sessions rely on: what
    SetAndNotify stores with a positive lifetime is what the next Get returns,
    as fresh, whatever flights are open and whatever was stored before. *)
Theorem cache_serves_what_was_set (c : Cache) k v ttl : 0 < ttl ->
  exists c', cache_Get (CacheService := CacheModel) (cache_SetAndNotify (CacheService := CacheModel) c k v ttl) k =
    (c', Some (v, FlagFresh)) /\ fresh (entries c') k v.
Proof.
  intros Ht. by apply get_fresh, set_fresh.
Qed.
End CacheModel.

#[local] Instance CacheModelLaws `{St : Store} `{!StoreLaws} : @CacheLaws CacheModel.
Proof.
  refine (@Build_CacheLaws CacheModel (fun (c : Cache) k v => fresh (entries c) k v) _ _); [apply set_fresh|apply get_fresh].
Defined.

(** ** Witnesses *)

#[local] Existing Instance TimedStore.
#[local] Existing Instance TimedStoreLaws.

Lemma cache_serves_what_was_set_witness :
  let c := MkCache (Timed 0 ∅) ∅ ∅ O in
  exists c', cache_Get (CacheService := CacheModel (St := TimedStore))
      (cache_SetAndNotify (CacheService := CacheModel (St := TimedStore)) c (str "k") (str "v") 5) (str "k") = (c', Some (str "v", FlagFresh)) /\
    fresh (StoreLaws := TimedStoreLaws) (entries c') (str "k") (str "v").
Proof. exact (cache_serves_what_was_set (St := TimedStore) (MkCache (Timed 0 ∅) ∅ ∅ O) (str "k") (str "v") 5 eq_refl). Defined.

#[local] Existing Instance ascii_tables.
#[local] Existing Instance NoFloats.
#[local] Existing Instance ScriptDB.
#[local] Existing Instance PlainDriver.
#[local] Existing Instance PlainDriverLaws.
#[local] Existing Instance TestNet.
#[local] Existing Instance TestCache.
#[local] Existing Instance TestBatch.

#[local] Instance TestCacheLaws : CacheLaws.
Proof.
  refine {| holds := fun (q : cache) k v => (q : gmap bytes bytes) !! k = Some v |}.
  - intros q k v ttl Ht. cbn. replace (0 <? ttl) with true by lia. apply lookup_insert_eq.
  - intros q k v Hq. exists q. cbn. rewrite Hq. done.
Defined.

Definition select_query : bytes := str "SELECT 1".

Lemma statement_transparent_witness :
  let w := test_session (str "primary") [] in
  exists w', handleSingleQuery no_text select_query (Parse select_query) false w = (w', Done tt) /\
    client_out w' = client_out w ++ frames (renum 0 sample_response).
Proof.
  destruct (statement_transparent no_text (test_session (str "primary") []) (Parse select_query) tt tt sample_response)
    as (w' & E & Ho & _).
  - split; [vm_compute; reflexivity|]. split; [vm_compute; reflexivity|]. split; [vm_compute; reflexivity|by left].
  - vm_compute. reflexivity.
  - reflexivity.
  - reflexivity.
  - reflexivity.
  - reflexivity.
  - vm_compute. reflexivity.
  - apply sample_response_ok.
  - apply sample_response_ok.
  - exists w'. exact (conj E Ho).
Defined.

(** The session that fetched the result set. *)
Definition fetcher : world * outcome error unit :=
  deliver (Parse (str "/* ttl:5 */ SELECT 1")) (str "unknown") (str "0") (str "select") false (str "primary") (frames sample_response)
    (test_session (str "primary") []).

Lemma fetcher_done : fetcher.2 = Done tt.
Proof. reflexivity. Qed.


Lemma prepare_registers_witness :
  let w := test_session (str "primary") [] in
  let q := str "INSERT INTO t VALUES (?)" in
  exists w', handlePrepare q w = (w', Done tt) /\ preparedStatements (conn w') = <[7 := Parse q]> ∅ /\
    client_out w' = frames (renum 0 prepare_reply).
Proof.
  destruct (prepare_registers (test_session (str "primary") []) (str "INSERT INTO t VALUES (?)") tt tt 1 7 0 1 (le_enc 3 0)
    [(2, str "def"); (3, WriteEOFPacket 2 0)] []) as (w' & E & Hp & Ho & _).
  - reflexivity.
  - reflexivity.
  - reflexivity.
  - lia.
  - lia.
  - lia.
  - repeat (apply list.Forall_cons_2; [split; [cbn [fst]; lia|reflexivity]|]). apply list.Forall_nil_2.
  - reflexivity.
  - reflexivity.
  - reflexivity.
  - exists w'. exact (conj E (conj Hp Ho)).
Defined.
