(* ===== verification/MariaRuns.v ===== *)
(** * Package mariadb: sessions that were run

    Runs of the session model in the concrete environment of MariaConn, each an
    observation about src/mariadb/mariadb.go that a reader of the code or the
    documentation might not expect. *)

From Stdlib Require Import Ascii ZArith Lia.
From stdpp Require Import base list gmap strings numbers.
From coqutil Require Import Datatypes.RecordSetters.
From S2P Require Import Prelude GoStrings BatchText Metrics Executor Parser Replica Cache Config Effects Services MariaWire MariaConn.
Import DoubleBraceUpdate.

Open Scope Z_scope.

#[local] Existing Instance ascii_tables.
#[local] Existing Instance NoFloats.
#[local] Existing Instance ScriptDB.
#[local] Existing Instance PlainDriver.
#[local] Existing Instance TestNet.
#[local] Existing Instance TestCache.
#[local] Existing Instance TestBatch.

Abbreviation query_on addr q := (dispatch no_text (command_code ComQuery) q (test_session addr [])).

Definition crashed {A} (r : world * outcome error A) : bool := match r.2 with Crash => true | _ => false end.

(** The packets a session sent to backends. *)
Definition packets_sent (w : world) : list (bytes * bytes) :=
  omap (fun e => match e with EWrite a p => Some (a, p) | _ => None end) (trace w).

(** A query whose backend has to be switched, with the client's answer to the
    authentication request of the new backend. *)
Definition switching (q : bytes) : bytes := frame 0 (com ComQuery q) ++ frame 1 (str "secret").

(** A transaction that starts while the session is connected to a replica: BEGIN
    runs on the replica, the write goes to the primary over a new connection,
    outside of any transaction, and the ROLLBACK that should undo it follows. *)
Example transaction_begins_on_replica :
  packets_sent (run no_text (test_session (str "primary")
    (switching (str "/* ttl:5 */ SELECT 1") ++ frame 0 (com ComQuery (str "BEGIN")) ++
     switching (str "INSERT INTO t VALUES (1)") ++ frame 0 (com ComQuery (str "ROLLBACK"))))).1 =
  [(str "replica", com ComQuery (str "SELECT 1")); (str "replica", com ComQuery (str "BEGIN"));
   (str "primary", com ComQuery (str "INSERT INTO t VALUES (1)")); (str "primary", com ComQuery (str "ROLLBACK"))].
Proof. vm_compute. reflexivity. Qed.

(** A session whose backend connection failed: a command that does not reconnect
    (a transaction command, preparing a statement) uses the nil connection. *)
Example lost_backend_panics :
  crashed (dispatch no_text (command_code ComQuery) (str "COMMIT") (resetBackend (test_session (str "primary") [])).1) = true.
Proof. vm_compute. reflexivity. Qed.

(** A statement of a multi-statement query that fails does not stop the others,
    although an error packet ends the answer: the client gets packets it does
    not expect. *)
Example statements_after_an_error :
  client_out (query_on (str "primary") (str "BAD; SELECT 1")).1 =
  frames (renum 0 (error_reply ++ sample_response)).
Proof. vm_compute. reflexivity. Qed.

(** The answer to COM_STMT_RESET is forwarded without its header: its first four
    bytes are taken for one. *)
Example reset_answer_unframed :
  client_out (dispatch no_text (command_code ComStmtReset) (le_enc 4 7) (test_session (str "primary") [])).1 =
  <[3%nat := to_byte 1]> (WriteOKPacket 1 0 2 0).
Proof. vm_compute. reflexivity. Qed.

(** A file name in a hint that is not UTF-8 is not a valid label: counting the
    query panics. *)
Example file_label_panics :
  crashed (query_on (str "primary") (str "/* file:" ++ [to_byte 0xFF] ++ str " */ INSERT INTO t VALUES (1)")) = true.
Proof. vm_compute. reflexivity. Qed.

(** The semicolon at the end of a query makes the statement differ from the
    query that was parsed, so it is parsed again without its hint: the result is
    not cached. *)
Example trailing_semicolon_drops_hint :
  qcache (run no_text (test_session (str "primary") (switching (str "/* ttl:5 */ SELECT 1")))).1 =
    <[str "SELECT 1" := frames sample_response]> ∅ /\
  qcache (run no_text (test_session (str "primary") (switching (str "/* ttl:5 */ SELECT 1;")))).1 = ∅.
Proof. split; vm_compute; reflexivity. Qed.

(** Errors of text queries are cached, unlike those of prepared statements. *)
Example error_is_cached :
  qcache (run no_text (test_session (str "primary") (switching (str "/* ttl:5 */ BAD SELECT 1")))).1 =
    <[str "BAD SELECT 1" := frames error_reply]> ∅.
Proof. vm_compute. reflexivity. Qed.

(** Sessions on different databases share an entry: the key is the text. *)
Example cache_ignores_database :
  let w := (run no_text (test_session (str "primary") (switching (str "/* ttl:5 */ SELECT name FROM users")))).1 in
  let other := (test_session (str "other") []) {{ conn -> db := str "shop"; conn -> backendPool := Some 1%nat; qcache := qcache w }} in
  let w' := (dispatch no_text (command_code ComQuery) (str "/* ttl:5 */ SELECT name FROM users") other).1 in
  client_out w' = frames (renum 0 sample_response) /\ packets_sent w' = [].
Proof. vm_compute. split; reflexivity. Qed.

(** COM_QUIT is answered with an error packet. *)
Example quit_is_answered :
  client_out (run no_text (test_session (str "primary") (frame 0 [to_byte (command_code ComQuit)]))).1 =
  frame 1 (WriteErrorPacket 1105 (str "HY000") [] 0).
Proof. vm_compute. reflexivity. Qed.
