(* ===== verification/MariaSession.v ===== *)
(** * Package mariadb: a session refines a direct connection

    The abstract specification of a session of text queries: a client that talks
    to the primary over one connection, except that the answers to BEGIN, COMMIT
    and ROLLBACK are an OK packet with the transaction flag.  A session of
    statements that are neither cached nor batched refines it, and inside a
    transaction also statements with a batch hint go to the primary over that
    connection, in their order. *)

From Stdlib Require Import Ascii ZArith Lia.
From stdpp Require Import base list gmap strings numbers.
From coqutil Require Import Datatypes.RecordSetters.
From S2P Require Import Prelude GoStrings BatchText Metrics Executor Parser Replica Cache Config Effects Services MariaWire MariaConn MariaFlow MariaServe.
Import DoubleBraceUpdate.

Open Scope Z_scope.

Section Specification.
Context `{Ut : UnicodeTables} `{Dr : Driver} `{Nw : Network} `{Cs : CacheService} `{Gv : GoValues} `{Da : !Database} `{Bs : !BatchService}.
Context `{!DriverLaws}.

(** ** The specification *)

(** What the backend is asked for a statement. *)
Definition backend_query (q : bytes) : bytes :=
  match classify q with
  | SBegin => str "BEGIN"
  | SCommit => str "COMMIT"
  | SRollback => str "ROLLBACK"
  | _ => q
  end.

(** The status flags and the transaction after a statement. *)
Definition next_status (st : Z) (q : bytes) : Z :=
  match classify q with
  | SBegin => Z.lor st StatusInTrans
  | SCommit | SRollback => Z.ldiff st StatusInTrans
  | _ => st
  end.
Definition next_trans (tr : bool) (q : bytes) : bool :=
  match classify q with
  | SBegin => true
  | SCommit | SRollback => false
  | _ => tr
  end.

(** What the client gets when the backend answered [ps]. *)
Definition direct_answer (cap st : Z) (q : bytes) (ps : list (Z * bytes)) : bytes :=
  match classify q with
  | SBegin | SCommit | SRollback => frame 1 (WriteOKPacket 0 0 (next_status st q) cap)
  | _ => frames (renum 0 ps)
  end.

(** A connection to [p] that is asked the statements [qs] one after the other. *)
Inductive direct_session (cap : Z) : peer -> Z -> list bytes -> peer -> bytes -> Prop :=
| direct_end p st : direct_session cap p st [] p []
| direct_query p st q qs p1 ps p2 out :
    peer_write p (frame 0 (com ComQuery (backend_query q))) = Some (p1, frames ps) -> packets_ok ps -> response ps ->
    direct_session cap p1 (next_status st q) qs p2 out ->
    direct_session cap p st (q :: qs) p2 (direct_answer cap st q ps ++ out).

(** A query of one statement that stays in the database of the session, is not a
    USE or a status command and is not cached; it is batched only outside of
    transactions. *)
Definition text_ok (tr : bool) (text : bytes) : bool :=
  let p := Parse text in
  bool_decide (splitQueries (Parser.Query p) = [Parser.Query p]) && bool_decide (DB p = []) &&
  match classify (Parser.Query p) with SUse _ | SStatus => false | _ => true end &&
  negb (IsCacheable p) && (tr || negb (IsBatchable p)) && valid_utf8 text && small (com ComQuery text).

Fixpoint texts_ok (tr : bool) (texts : list bytes) : bool :=
  match texts with
  | [] => true
  | text :: texts => text_ok tr text && texts_ok (next_trans tr (Parser.Query (Parse text))) texts
  end.

Definition statements (texts : list bytes) : list bytes := (fun text => Parser.Query (Parse text)) <$> texts.
Definition text_packets (texts : list bytes) : bytes := concat ((fun text => frame 0 (com ComQuery text)) <$> texts).

(** The specification for a statement of a known kind. *)
Ltac kind_of E H :=
  unfold direct_answer, next_status, next_trans, backend_query in H |- *; rewrite ?E in H; rewrite ?E.

(** ** One packet of the client *)

Variable error_text : error -> bytes.

(** The session is connected to [p], its primary, and nothing is unread. *)
Record connected (p : peer) (w : world) : Prop := {
  cn_backend : backend (conn w) = Some p;
  cn_primary : primary_at (pool_heap w) (backendPool (conn w)) = Some (backendAddr (conn w));
  cn_unread : backend_in w = [];
  cn_writes : client_writes w = []
}.

Lemma text_labels text : valid_utf8 text = true -> labels_ok (Parse text) (Parse text) = true.
Proof.
  intros Hv%Parse_file_valid. unfold labels_ok. cbv zeta.
  assert (Hf : valid_utf8 (if decide (File (Parse text) = []) then str "unknown" else File (Parse text)) = true) by by destruct (decide _).
  cbn [forallb]. rewrite !label_ok_utf8; try done; [by destruct (Type_ _)|apply is_ascii_valid_utf8, is_ascii_Itoa].
Qed.

Lemma readPacket_run w payload rest : small payload = true -> client_in w = frame 0 payload ++ rest ->
  readPacket w = (w {{ client_in := rest; conn -> sequence := 0 }}, Done payload).
Proof.
  intros Hp Hin. pose proof (read_packet_frame 0 payload rest Hp) as Hr. unfold read_packet in Hr.
  unfold readPacket. rewrite Hin. destruct (read_full 4 (frame 0 payload ++ rest)) as [[h i]|]; [|done]. cbn [mbind option_bind] in Hr.
  destruct (h !! 3%nat) as [b|] eqn:Eh; [|done]. cbn [mbind option_bind] in Hr.
  destruct (read_full (header_length h) i) as [[pl' i']|]; [|done]. cbn [mbind option_bind] in Hr. injection Hr as Es -> ->.
  destruct w as [[]]. cbn in *. by rewrite Es.
Qed.

(** What a statement leaves behind, up to what is read of the client. *)
Record statement_served (q : bytes) (p1 : peer) (ps : list (Z * bytes)) (w w' : world) : Prop := {
  ss_connected : connected p1 w';
  ss_addr : backendAddr (conn w') = backendAddr (conn w);
  ss_capability : capability (conn w') = capability (conn w);
  ss_status : status (conn w') = next_status (status (conn w)) q;
  ss_trans : inTransaction (conn w') = next_trans (inTransaction (conn w)) q;
  ss_in : client_in w' = client_in w;
  ss_out : client_out w' = client_out w ++ direct_answer (capability (conn w)) (status (conn w)) q ps;
  ss_trace : trace w' = trace w ++ [EWrite (backendAddr (conn w)) (com ComQuery (backend_query q))]
}.

(** BEGIN, COMMIT or ROLLBACK, which the proxy answers itself. *)
Lemma command_served q cmd f g w p p1 ps : connected p w -> sequence (conn w) = 0 ->
  backend_query q = cmd -> f (status (conn w)) = next_status (status (conn w)) q -> g = next_trans (inTransaction (conn w)) q ->
  direct_answer (capability (conn w)) (status (conn w)) q ps =
    frame 1 (WriteOKPacket 0 0 (next_status (status (conn w)) q) (capability (conn w))) ->
  peer_write p (frame 0 (com ComQuery cmd)) = Some (p1, frames ps) -> packets_ok ps -> response ps ->
  exists w', (_ ← execBackendQuery cmd; update (fun c => c {{ status := f (status c); inTransaction := g }});; writeOKWithInfo false) w =
    (w', Done tt) /\ statement_served q p1 ps w w'.
Proof.
  intros [Hb Hpr Hin Hcw] Hseq Hq Hf Hg Ha Hw Hps Hr. destruct (exec_response_run cmd w p p1 ps Hb Hin Hw Hps Hr) as [s Hx].
  rewrite (bind_run _ _ _ _ _ Hx). clear Hx. unfold writeOKWithInfo, client_write.
  do 3 (erewrite bind_run by reflexivity).
  destruct w as [[] ? ? ? ? ? ? ? ? ?]. cbn -[frame com WriteOKPacket] in *. subst.
  eexists. split; [reflexivity|]. split; cbn -[frame com WriteOKPacket]; rewrite ?Ha, ?Hf; by try split.
Qed.

Lemma single_served text w p p1 ps : let q := Parser.Query (Parse text) in
  text_ok (inTransaction (conn w)) text = true -> connected p w -> sequence (conn w) = 0 ->
  peer_write p (frame 0 (com ComQuery (backend_query q))) = Some (p1, frames ps) -> packets_ok ps -> response ps ->
  exists w', handleSingleQuery error_text q (Parse text) false w = (w', Done tt) /\ statement_served q p1 ps w w'.
Proof.
  intros q Hok Hc Hseq Hw Hps Hr. unfold text_ok in Hok. cbv zeta in Hok. fold q in Hok. bool_simpl.
  destruct (classify q) as [d| | | | |] eqn:Ecl; [done| | | |done|].
  4: { unfold backend_query in Hw. rewrite Ecl in Hw. pose proof Hc as [Hb Hpr Hin Hcw].
    destruct (statement_run error_text w (Parse text) p p1 ps) as [s E]; try done; [|by apply text_labels|].
    { split; [done|]. split; [done|]. split; [done|]. right. by apply orb_prop in H3 as [?|?%negb_true_iff]; [left|right]. }
    exists (delivered (Parse text) (str "primary") ps (received s [] (sent ComQuery q p1 (frames ps) w))). split; [exact E|].
    unfold delivered. rewrite H4. unfold received, sent, answered.
    destruct w as [[] ? ? ? ? ? ? ? ? ?]. cbn in *. subst.
    split; cbn; unfold next_status, next_trans, direct_answer, backend_query; rewrite ?Ecl; done. }
  all: unfold handleSingleQuery; cbv zeta; rewrite decide_True by done; rewrite (bind_run _ _ _ _ _ (route_here _ w H6));
    change (Parser.Query (Parse text)) with q; rewrite Ecl.
  - eapply (command_served q (str "BEGIN") (fun st => Z.lor st StatusInTrans)); try done; by kind_of Ecl Hw.
  - eapply (command_served q (str "COMMIT") (fun st => Z.ldiff st StatusInTrans)); try done; by kind_of Ecl Hw.
  - eapply (command_served q (str "ROLLBACK") (fun st => Z.ldiff st StatusInTrans)); try done; by kind_of Ecl Hw.
Qed.

Lemma other_command c c' : c <> c' -> (command_code c =? command_code c') = false.
Proof. intros Hc. apply Z.eqb_neq. by intros ?%command_code_inj. Qed.

Lemma dispatch_text text w : dispatch error_text (command_code ComQuery) text w = handleQuery error_text text w.
Proof. unfold dispatch. by rewrite !other_command, Z.eqb_refl by done. Qed.

Lemma packet_served text rest w p p1 ps : let q := Parser.Query (Parse text) in
  text_ok (inTransaction (conn w)) text = true -> connected p w -> client_in w = frame 0 (com ComQuery text) ++ rest ->
  peer_write p (frame 0 (com ComQuery (backend_query q))) = Some (p1, frames ps) -> packets_ok ps -> response ps ->
  exists w', serve_packet error_text w = (w', Done true) /\ statement_served q p1 ps (w {{ client_in := rest }}) w'.
Proof.
  intros q Hok Hc Hin Hw Hps Hr. set (w0 := w {{ client_in := rest; conn -> sequence := 0 }}).
  assert (Hsp : splitQueries q = [q] /\ small (com ComQuery text) = true) by (unfold text_ok in Hok; cbv zeta in Hok; by bool_simpl).
  destruct (single_served text w0 p p1 ps) as (w1 & E & Hs); [by destruct w as [[]]|by destruct Hc, w as [[]]|by destruct w as [[]]|done..|].
  fold q in E, Hs. exists (w1 {{ conn -> sequence := 0 }}). split.
  - unfold serve_packet. erewrite bind_run by (unfold catch; rewrite (readPacket_run w (com ComQuery text) rest); [reflexivity|apply Hsp|exact Hin]).
    unfold com. cbv iota beta. rewrite bval_to_byte, Z.mod_small by apply command_code_byte.
    erewrite bind_run.
    2: { unfold catch. rewrite dispatch_text. unfold handleQuery. cbv zeta. fold q. rewrite (proj1 Hsp). cbn [run_statements].
      rewrite bool_decide_eq_true_2 by done. cbn [negb]. erewrite bind_run by exact E. reflexivity. }
    reflexivity.
  - destruct Hs as [[] ? ? ? ? ? ? ?]. by destruct w as [[]], w1 as [[]].
Qed.

(** ** Sessions *)

Definition session_writes (addr : bytes) (texts : list bytes) : list event :=
  (fun q => EWrite addr (com ComQuery (backend_query q))) <$> statements texts.

Lemma texts_served texts : forall w n p p' out,
  texts_ok (inTransaction (conn w)) texts = true -> connected p w -> client_in w = text_packets texts ->
  direct_session (capability (conn w)) p (status (conn w)) (statements texts) p' out ->
  exists w', run_loop error_text (length texts + n) w = run_loop error_text n w' /\
    connected p' w' /\ client_in w' = [] /\ client_out w' = client_out w ++ out /\
    trace w' = trace w ++ session_writes (backendAddr (conn w)) texts.
Proof.
  induction texts as [|text texts IH]; intros w n p p' out Hok Hc Hin Hd.
  - inversion Hd; subst. exists w. rewrite !app_nil_r. done.
  - cbn [texts_ok] in Hok. bool_simpl. inversion Hd as [|? ? ? ? p1 ps ? out2 Hw Hps Hr Hd']; subst.
    destruct (packet_served text (text_packets texts) w p p1 ps) as (w1 & E & [Hc1 Ha1 Hcap1 Hst1 Htr1 Hin1 Hout1 Ht1]); try done.
    assert (Hcw : conn (w {{ client_in := text_packets texts }}) = conn w /\ client_out (w {{ client_in := text_packets texts }}) = client_out w /\
      trace (w {{ client_in := text_packets texts }}) = trace w /\ client_in (w {{ client_in := text_packets texts }}) = text_packets texts) by by destruct w.
    destruct Hcw as (Ec & Eo & Et & Ei). rewrite Ec in *. rewrite Eo in Hout1. rewrite Et in Ht1. rewrite Ei in Hin1.
    destruct (IH w1 n p1 p' out2) as (w2 & E2 & Hc2 & Hin2 & Hout2 & Ht2); [by rewrite Htr1|done|done|by rewrite Hcap1, Hst1|].
    exists w2. rewrite <- E2. cbn [length Nat.add run_loop]. rewrite (bind_run _ _ _ _ _ E). split; [done|]. split; [done|]. split; [done|].
    rewrite Hout2, Hout1, Ht2, Ht1, Ha1, <- !app_assoc. done.
Qed.

Lemma length_text_packets texts : (length texts <= length (text_packets texts))%nat.
Proof.
  induction texts as [|t texts IH]; [done|]. unfold text_packets. rewrite fmap_cons. cbn [concat length]. rewrite length_app.
  unfold text_packets in IH. unfold frame at 1. rewrite length_app. unfold com at 2. cbn [length]. lia.
Qed.

End Specification.

(** ** A concrete session *)

#[local] Existing Instance ascii_tables.
#[local] Existing Instance NoFloats.
#[local] Existing Instance ScriptDB.
#[local] Existing Instance PlainDriver.
#[local] Existing Instance PlainDriverLaws.
#[local] Existing Instance TestNet.
#[local] Existing Instance TestCache.
#[local] Existing Instance TestBatch.

(** A transaction with a write that has a batch hint. *)
Definition some_texts : list bytes :=
  [str "SELECT 1"; str "begin"; str "/* batch:10 */ INSERT INTO t VALUES (1)"; str "COMMIT"; str "BAD query"].

Definition some_answers : bytes :=
  frames (renum 0 sample_response) ++ frame 1 (WriteOKPacket 0 0 3 0) ++ frames (renum 0 ok_reply) ++
  frame 1 (WriteOKPacket 0 0 2 0) ++ frames (renum 0 error_reply).

Lemma ok_reply_ok : packets_ok ok_reply /\ response ok_reply.
Proof. split; [repeat constructor; done|]. apply response_ok. by eexists 1, 0, 2, _. Qed.

Lemma error_reply_ok : packets_ok error_reply /\ response error_reply.
Proof. split; [repeat constructor; done|]. apply response_err. by eexists. Qed.

Lemma some_session : direct_session 0 tt 2 (statements some_texts) tt some_answers.
Proof.
  assert (E : forall st q qs ps out, packets_ok ps -> response ps -> server_reply (frame 0 (com ComQuery (backend_query q))) = ps ->
    direct_session 0 tt (next_status st q) qs tt out -> direct_session 0 tt st (q :: qs) tt (direct_answer 0 st q ps ++ out)).
  { intros st q qs ps out Hps Hr Hs Hd. eapply direct_query; [|done..]. cbn -[frame com server_reply]. by rewrite Hs. }
  assert (Ho : some_answers = direct_answer 0 2 (str "SELECT 1") sample_response ++ direct_answer 0 2 (str "begin") ok_reply ++
    direct_answer 0 3 (str "INSERT INTO t VALUES (1)") ok_reply ++ direct_answer 0 3 (str "COMMIT") ok_reply ++
    direct_answer 0 2 (str "BAD query") error_reply ++ []) by (vm_compute; reflexivity).
  assert (Hq : statements some_texts = [str "SELECT 1"; str "begin"; str "INSERT INTO t VALUES (1)"; str "COMMIT"; str "BAD query"])
    by (vm_compute; reflexivity).
  rewrite Ho, Hq. destruct sample_response_ok, ok_reply_ok, error_reply_ok.
  repeat (apply E; [done|done|vm_compute; reflexivity|];
    match goal with |- direct_session _ _ ?st _ _ _ => let v := eval vm_compute in st in change st with v end).
  apply direct_end.
Qed.

