(* ===== verification/MariaBatch.v ===== *)
(** * Package mariadb: a batched write, from the client to the database

    What a session of src/mariadb/mariadb.go answers to a write with a batch
    hint, against the laws of the batch manager ([BatchLaws]); with the manager
    and the executor of src/writebatch ([BatchModel]) this is the way of the
    write through all components. *)

From Stdlib Require Import Ascii ZArith Lia.
From stdpp Require Import base list gmap strings numbers.
From coqutil Require Import Datatypes.RecordSetters.
From S2P Require Import Prelude GoStrings BatchText Metrics Executor Manager Batching Parser Replica Cache Config Effects Services MariaWire MariaConn MariaFlow MariaServe.
Import DoubleBraceUpdate.

Open Scope Z_scope.

Section Batched.
Context `{Ut : UnicodeTables} `{Dr : Driver} `{Nw : Network} `{Cs : CacheService} `{Gv : GoValues} `{Da : !Database} `{Bs : !BatchService}.
Context `{Bl : !BatchLaws}.
Variable error_text : MariaConn.error -> bytes.

(** A write of the session's own database with a batch hint, outside of a
    transaction. *)
Definition batched_statement (w : MariaConn.world) (parsed : ParsedQuery) : Prop :=
  classify (Parser.Query parsed) = SOther /\ DB parsed = [] /\ IsBatchable parsed = true /\ inTransaction (conn w) = false /\
  is_ascii (Parser.Query parsed) = true.

(** What the client gets for the result of the database. *)
Definition write_answer (c : clientConn) (r : Result + db_error) : bytes :=
  frame (MariaWire.next_seq (sequence c))
    match r with
    | inl r => WriteOKPacket (uint64 (RowsAffected r)) (uint64 (LastInsertId r)) (status c) (capability c)
    | inr e => WriteErrorPacket 1105 (str "HY000") (error_text (BatchError (DbError e))) (capability c)
    end.

(** The session after the manager answered with the result of the database. *)
Lemma batched_run query ms f l t r m m' w : writeBatch (proxy w) = Some m -> client_writes w = [] ->
  forallb label_ok [f; l; t; str "false"] = true ->
  Enqueue m (GetBatchKey (Parse query)) query [] ms = (m', write_result ms r) ->
  exists w', handleBatchedWrite error_text query ms f l t false w = (w', Done tt) /\ writeBatch (proxy w') = Some m' /\
    client_out w' = client_out w ++ write_answer (conn w) r /\
    trace w' = trace w ++ [EEnqueue (GetBatchKey (Parse query)) query []].
Proof.
  intros Hm Hw Hl He. cbn [forallb] in Hl. bool_simpl. unfold handleBatchedWrite. cbv zeta.
  assert (Hq : enqueue (GetBatchKey (Parse query)) query [] ms w =
    (w {{ trace ::= fun t => t ++ [EEnqueue (GetBatchKey (Parse query)) query []]; proxy -> writeBatch := Some m' }}, Done (write_result ms r))).
  { unfold enqueue. erewrite bind_run by reflexivity. rewrite Hm. cbn [or_crash]. do 2 (erewrite bind_run by reflexivity). rewrite He. by destruct w as [? ? ? ? ? ? []]. }
  rewrite (bind_run _ _ _ _ _ Hq).
  do 2 (erewrite (bind_run (metric _ _)) by (apply metric_run; [reflexivity|]; cbn [forallb]; by repeat (apply andb_true_intro; split))).
  destruct r as [r|e]; cbn [write_result Error error_result]; cbv iota.
  - unfold batch_done, writeOKWithRowsAndID. do 3 (erewrite bind_run by reflexivity). eexists. split; [|].
    + unfold client_write. destruct w as [[] ? ? ? ? ? [] ? ? ?]. cbn in Hw. subst. reflexivity.
    + destruct w as [[] ? ? ? ? ? [] ? ? ?]. done.
  - unfold writeError. do 2 (erewrite bind_run by reflexivity). eexists. split; [|].
    + unfold client_write. destruct w as [[] ? ? ? ? ? [] ? ? ?]. cbn in Hw. subst. reflexivity.
    + destruct w as [[] ? ? ? ? ? [] ? ? ?]. done.
Qed.

End Batched.

(** ** Through all components

    A session over the manager and the executor, with a database that executes
    the first statement and refuses the second. *)

#[local] Existing Instance ascii_tables.
#[local] Existing Instance NoFloats.
#[local] Existing Instance ScriptDB.
#[local] Existing Instance PlainDriver.
#[local] Existing Instance TestNet.
#[local] Existing Instance TestCache.

Definition answers (l : list bool) : @dbstate NoFloats ScriptDB := l.
Definition batch_manager : Executor.Manager := Executor.New (str "*mysql.MySQLDriver") DefaultConfig.
#[local] Instance ManagerService : BatchService := BatchModel batch_manager.
#[local] Instance ManagerServiceLaws : BatchLaws := BatchModelLaws batch_manager.

Definition batching_session (d : dbstate) : MariaConn.world := {|
  conn := test_conn (str "primary"); client_in := []; client_out := []; client_writes := []; backend_in := []; dials := O;
  proxy := MkProxy test_config (<[str "main" := O]> ∅) (Some (Manager.init d));
  pool_heap := [NewPool (str "primary") []]; qcache := ∅; trace := []
|}.

Definition batched_insert : ParsedQuery := Parse (str "/* batch:10 */ INSERT INTO t VALUES (1)").

