(* ===== verification/Client.v ===== *)
(** * The client libraries

    The wrappers of database/sql that print the hints the proxies read
    (src/clients/go/postgres/client.go and src/clients/go/mariadb/client.go,
    which are the same code).  database/sql is a class; what [runtime.Caller]
    returns is an argument. *)

From Stdlib Require Import Ascii ZArith Lia.
From stdpp Require Import base list gmap strings numbers.
From S2P Require Import Prelude GoStrings Regex Parser BatchText.

Open Scope Z_scope.

Definition slash : byte := "/"%char.

(** [filepath.Base] on Unix. *)
Fixpoint drop_slashes (rev_path : bytes) : bytes :=
  match rev_path with
  | c :: rest => if decide (c = slash) then drop_slashes rest else rev_path
  | [] => []
  end.
Fixpoint until_slash (rev_path : bytes) : bytes :=
  match rev_path with
  | c :: rest => if decide (c = slash) then [] else c :: until_slash rest
  | [] => []
  end.
Definition Base (path : bytes) : bytes :=
  if decide (path = []) then str "."
  else
    let elem := reverse (until_slash (drop_slashes (reverse path))) in
    if decide (elem = []) then [slash] else elem.

(** database/sql, with its values, contexts, rows and errors. *)
Class SqlPackage `{GoValues} := {
  sqlDB : Type;
  sqlContext : Type;
  sqlRows : Type;
  sqlRow : Type;
  sqlError : Type;
  sqlOpen : bytes -> bytes -> sqlDB + sqlError;
  QueryContext : sqlDB -> sqlContext -> bytes -> list value -> sqlDB * (sqlRows + sqlError);
  QueryRowContext : sqlDB -> sqlContext -> bytes -> list value -> sqlDB * sqlRow
}.

Section Client.
Context `{Sp : SqlPackage}.

(** ** Package postgres *)

Record DB := MkDB { sqldb : sqlDB }.

Definition Open (driverName dataSourceName : bytes) : DB + sqlError :=
  match sqlOpen driverName dataSourceName with
  | inr err => inr err
  | inl db => inl (MkDB db)
  end.

Definition Wrap (db : sqlDB) : DB := MkDB db.

(** [runtime.Caller(1)] gives a path and a line, or not. *)
Definition caller_info (caller : option (bytes * Z)) : bytes * Z :=
  match caller with
  | None => (str "unknown", 0)
  | Some (file, line) => (Base file, line)
  end.

(** [fmt.Sprintf("/* ttl:%d file:%s line:%d */", ttl, file, line)] *)
Definition hint_text (ttl : Z) (file : bytes) (line : Z) : bytes :=
  str "/* ttl:" ++ Itoa ttl ++ str " file:" ++ file ++ str " line:" ++ Itoa line ++ str " */".

Definition QueryWithTTL (caller : option (bytes * Z)) (db : DB) (ctx : sqlContext) (ttl : Z) (query : bytes) (args : list value)
    : DB * (sqlRows + sqlError) :=
  let '(file, line) := caller_info caller in
  let hint := hint_text ttl file line in
  let hintedQuery := hint ++ str " " ++ query in
  let '(d, r) := QueryContext (sqldb db) ctx hintedQuery args in
  (MkDB d, r).

Definition QueryRowWithTTL (caller : option (bytes * Z)) (db : DB) (ctx : sqlContext) (ttl : Z) (query : bytes) (args : list value)
    : DB * sqlRow :=
  let '(file, line) := caller_info caller in
  let hint := hint_text ttl file line in
  let hintedQuery := hint ++ str " " ++ query in
  let '(d, r) := QueryRowContext (sqldb db) ctx hintedQuery args in
  (MkDB d, r).

(** ** Package mariadb *)

Definition maria_Open (driverName dataSourceName : bytes) : DB + sqlError :=
  match sqlOpen driverName dataSourceName with
  | inr err => inr err
  | inl db => inl (MkDB db)
  end.

Definition maria_Wrap (db : sqlDB) : DB := MkDB db.

Definition maria_QueryWithTTL (caller : option (bytes * Z)) (db : DB) (ctx : sqlContext) (ttl : Z) (query : bytes) (args : list value)
    : DB * (sqlRows + sqlError) :=
  let '(file, line) := caller_info caller in
  let hint := hint_text ttl file line in
  let hintedQuery := hint ++ str " " ++ query in
  let '(d, r) := QueryContext (sqldb db) ctx hintedQuery args in
  (MkDB d, r).

Definition maria_QueryRowWithTTL (caller : option (bytes * Z)) (db : DB) (ctx : sqlContext) (ttl : Z) (query : bytes) (args : list value)
    : DB * sqlRow :=
  let '(file, line) := caller_info caller in
  let hint := hint_text ttl file line in
  let hintedQuery := hint ++ str " " ++ query in
  let '(d, r) := QueryRowContext (sqldb db) ctx hintedQuery args in
  (MkDB d, r).
End Client.

Arguments DB {_} _.

(** ** Lemmas *)

(** The last element of a path. *)
Lemma until_slash_app s rest : slash ∉ s -> until_slash (s ++ slash :: rest) = s.
Proof.
  induction s as [|c s IH]; intros Hs; cbn [app until_slash]; [by rewrite decide_True|].
  apply not_elem_of_cons in Hs as [Hc Hs]. rewrite decide_False, IH by done. done.
Qed.

Lemma Base_path dir file : file <> [] -> slash ∉ file -> Base (dir ++ [slash] ++ file) = file.
Proof.
  intros Hne Hs. unfold Base. rewrite decide_False by by destruct dir.
  rewrite reverse_app, reverse_app, <- app_assoc. change (reverse [slash] ++ reverse dir) with (slash :: reverse dir).
  assert (Hn : slash ∉ reverse file) by by rewrite elem_of_reverse.
  replace (drop_slashes _) with (reverse file ++ slash :: reverse dir).
  - rewrite until_slash_app by done. cbv zeta. rewrite reverse_involutive. by rewrite decide_False.
  - destruct (reverse file) as [|c l] eqn:E; [by apply (f_equal reverse) in E; rewrite reverse_involutive in E|].
    cbn [app drop_slashes]. apply not_elem_of_cons in Hn as [Hc _]. by rewrite decide_False.
Qed.

(** The client prints the canonical form of a hint. *)
Lemma hint_text_print ttl file line rest :
  hint_text ttl file line ++ rest = print_hint (MkHint (Some ttl) (Some file) (Some line) None) ++ rest.
Proof. unfold hint_text, print_hint, print_field. cbn [h_ttl h_file h_line h_batch fmap option_fmap option_map]. by rewrite <- !app_assoc. Qed.

Lemma Contains_blank q : Contains q (str "/*") = false -> Contains (str " " ++ q) (str "/*") = false.
Proof.
  rewrite <- !not_true_iff_false, !Contains_spec. intros Hq ([|c pre] & post & E); [done|]. apply Hq. exists pre, post. by injection E.
Qed.

(** ** Properties *)


(** ** A concrete driver: one that returns what it was given *)

#[local] Existing Instance ascii_tables.
#[local] Existing Instance NoFloats.

#[local] Instance EchoSql : SqlPackage := {|
  sqlDB := unit; sqlContext := unit; sqlRows := bytes; sqlRow := bytes; sqlError := unit;
  sqlOpen _ _ := inl tt;
  QueryContext d _ q _ := (d, inl q);
  QueryRowContext d _ q _ := (d, q)
|}.

Definition echo_db : DB EchoSql := @MkDB NoFloats EchoSql tt.
Definition echo_ctx : sqlContext (SqlPackage := EchoSql) := tt.


Definition sent_text (caller : option (bytes * Z)) (ttl : Z) (query : bytes) : bytes :=
  match QueryWithTTL caller echo_db echo_ctx ttl query [] with (_, inl text) => text | _ => [] end.

(** A file name with a blank is not a hint: the query is sent on as it is and is
    not cached. *)
Example client_blank_in_file :
  let text := sent_text (Some (str "/srv/my app.go", 3)) 60 (str "SELECT 1") in
  IsCacheable (Parse text) = false /\ Query (Parse text) = text.
Proof. vm_compute. split; reflexivity. Qed.

(** A call from a file named update.go makes a SELECT an update: it is not
    cached. *)
Example client_keyword_in_file :
  let text := sent_text (Some (str "/srv/update.go", 3)) 60 (str "SELECT 1") in
  Type_ (Parse text) = QueryUpdate /\ IsCacheable (Parse text) = false.
Proof. vm_compute. split; reflexivity. Qed.

(** A negative TTL leaves the hint in the query. *)
Example client_negative_ttl :
  let text := sent_text (Some (str "/srv/a.go", 3)) (-1) (str "SELECT 1") in
  Query (Parse text) = text /\ File (Parse text) = [].
Proof. vm_compute. split; reflexivity. Qed.
