(* ===== verification/PgWire.v ===== *)
(** * Package postgres: the wire protocol

    The parts of src/postgres/postgres.go that read and write bytes: messages,
    the startup packet, result sets as text, the parameters of a Bind message,
    counting placeholders. *)

From Stdlib Require Import Ascii ZArith Lia.
From stdpp Require Import base list gmap strings numbers.
From S2P Require Import Prelude GoStrings BatchText MariaWire.

Open Scope Z_scope.

(** ** Messages *)

Definition encodeMessage (msgType : byte) (payload : bytes) : bytes :=
  msgType :: be_enc 4 (uint32 (zlen payload + 4)) ++ payload.

(** The payload length is computed on [uint32], so a length below four wraps. *)
Definition readMessage (input : bytes) : option (byte * bytes * bytes) :=
  '(typeBuf, input) ← read_full 1 input;
  '(lengthBuf, input) ← read_full 4 input;
  msgType ← typeBuf !! 0%nat;
  '(payload, input) ← read_full (uint32 (be_dec lengthBuf - 4)) input;
  Some (msgType, payload, input).

(** The message with its length. *)
Definition readStartupMessage (input : bytes) : option (bytes * bytes) :=
  '(lengthBuf, input) ← read_full 4 input;
  '(payload, input) ← read_full (uint32 (be_dec lengthBuf - 4)) input;
  Some (lengthBuf ++ payload, input).

(** [writeMessage] writes the type, the length and the payload. *)
Definition message_writes (msgType : byte) (payload : bytes) : list bytes :=
  [[msgType]; be_enc 4 (uint32 (zlen payload + 4)); payload].

(** ** Startup parameters *)

Definition zero : byte := to_byte 0.

(** [bytes.IndexByte(s, 0)] and the two slices around it. *)
Fixpoint cut0 (s : bytes) : option (bytes * bytes) :=
  match s with
  | [] => None
  | b :: s => if decide (b = zero) then Some ([], s) else ('(k, rest) ← cut0 s; Some (b :: k, rest))
  end.

Fixpoint parse_params (fuel : nat) (data : bytes) (params : gmap bytes bytes) : gmap bytes bytes :=
  match fuel with
  | O => params
  | S fuel =>
      match data with
      | [] => params
      | _ =>
          match cut0 data with
          | None | Some ([], _) => params
          | Some (key, data) =>
              match cut0 data with
              | None => params
              | Some (value, data) => parse_params fuel data (<[key := value]> params)
              end
          end
      end
  end.

(** Each turn of the loop takes at least two bytes of the message. *)
Definition parseStartupParams (msg : bytes) : gmap bytes bytes :=
  if zlen msg <? 8 then ∅ else parse_params (length msg) (drop 8 msg) ∅.

(** ** Results *)

(** [fmt.Sprintf("%v", v)]; floating-point numbers are formatted by strconv. *)
Class FloatText `{GoValues} := {
  Sprint_float32 : float32 -> bytes;
  Sprint_float64 : float64 -> bytes
}.

Section Results.
Context `{FloatText}.

Definition sprint_v (v : value) : bytes :=
  match v with
  | VNil => str "<nil>"
  | VBool true => str "true"
  | VBool false => str "false"
  | VInt _ z => Itoa z
  | VFloat32 f => Sprint_float32 f
  | VFloat64 f => Sprint_float64 f
  | VString s => s
  | VBytes s => str "[" ++ Join ((fun b => Itoa (bval b)) <$> s) (str " ") ++ str "]"
  | VOther v => Sprint v
  end.

(** A field of text type. *)
Definition field_description (col : bytes) : bytes :=
  col ++ [zero] ++ be_enc 4 0 ++ be_enc 2 0 ++ be_enc 4 25 ++ be_enc 2 (2 ^ 16 - 1) ++ be_enc 4 (2 ^ 32 - 1) ++ be_enc 2 0.

Definition buildRowDescription (cols : list bytes) : bytes :=
  encodeMessage "T"%char (be_enc 2 (uint16 (zlen cols)) ++ concat (field_description <$> cols)).

Definition data_value (v : value) : bytes :=
  match v with
  | VNil => be_enc 4 (2 ^ 32 - 1)
  | _ => let s := sprint_v v in be_enc 4 (uint32 (zlen s)) ++ s
  end.

Definition data_row (values : list value) : bytes := be_enc 2 (uint16 (zlen values)) ++ concat (data_value <$> values).
Definition buildDataRow (values : list value) : bytes := encodeMessage "D"%char (data_row values).
End Results.

Definition commandComplete (tag : bytes) : bytes := encodeMessage "C"%char (tag ++ [zero]).
Definition readyForQuery : bytes := encodeMessage "Z"%char (str "I").

(** [sendErrorWithSeverity] *)
Definition error_payload (severity code message : bytes) : bytes :=
  str "S" ++ severity ++ [zero] ++ str "C" ++ code ++ [zero] ++ str "M" ++ message ++ [zero] ++ [zero].

Definition parameter_status (name value : bytes) : bytes := name ++ [zero] ++ value ++ [zero].

(** ** Placeholders *)

Fixpoint take_digits (s : bytes) : bytes :=
  match s with
  | b :: s => if is_digit b then b :: take_digits s else []
  | [] => []
  end.

Definition dollar : byte := "$"%char.

Fixpoint count_params (query : bytes) (maxParam : Z) : Z :=
  match query with
  | a :: t =>
      match t with
      | b :: _ =>
          count_params t
            (if bool_decide (a = dollar) && is_digit b then
               match Atoi (take_digits t) with
               | (num, None) => if maxParam <? num then num else maxParam
               | _ => maxParam
               end
             else maxParam)
      | [] => maxParam
      end
  | [] => maxParam
  end.
Definition countPostgresParams (query : bytes) : Z := count_params query 0.

(** ** Bind *)

Section Bind.
Context `{GoValues}.

(** [int(binary.BigEndian.Uint16(payload[pos : pos+2]))] *)
Definition uint16_be (payload : bytes) (pos : Z) : option Z := be_dec <$> slice payload pos (pos + 2).

(** The loop over the parameters.  The length is read as an unsigned number, so
    the test for -1 that follows is never true. *)
Fixpoint bind_params (n : nat) (payload : bytes) (pos : Z) : option (list value + bytes) :=
  match n with
  | O => Some (inl [])
  | S n =>
      if zlen payload <? pos + 4 then Some (inr (str "malformed Bind message: incomplete parameter length"))
      else
        paramLen ← be_dec <$> slice payload pos (pos + 4);
        let pos := pos + 4 in
        if paramLen =? -1 then
          r ← bind_params n payload pos;
          Some (match r with inl vs => inl (VNil :: vs) | inr e => inr e end)
        else if zlen payload <? pos + paramLen then Some (inr (str "malformed Bind message: incomplete parameter value"))
        else
          s ← slice payload pos (pos + paramLen);
          r ← bind_params n payload (pos + paramLen);
          Some (match r with inl vs => inl (VString s :: vs) | inr e => inr e end)
  end.

(** The portal, the statement and the parameters of a Bind message, or the text
    of the error; [None] is a panic.  [known] are the prepared statements. *)
Definition decode_bind (known : bytes -> bool) (payload : bytes) : option ((bytes * bytes * list value) + bytes) :=
  match cut0 payload with
  | None => Some (inr (str "malformed Bind message: no portal name terminator"))
  | Some (portalName, rest) =>
      let stmtStart := zlen portalName + 1 in
      match cut0 rest with
      | None => Some (inr (str "malformed Bind message: no statement name terminator"))
      | Some (stmtName, _) =>
          if negb (known stmtName) then Some (inr (str "unknown prepared statement: " ++ stmtName))
          else
            let pos := stmtStart + zlen stmtName + 1 in
            if zlen payload <? pos + 2 then Some (inr (str "malformed Bind message: incomplete format codes"))
            else
              numFormatCodes ← uint16_be payload pos;
              let pos := pos + 2 + numFormatCodes * 2 in
              if zlen payload <? pos + 2 then Some (inr (str "malformed Bind message: incomplete parameter count"))
              else
                numParams ← uint16_be payload pos;
                r ← bind_params (Z.to_nat numParams) payload (pos + 2);
                Some (match r with inl params => inl (portalName, stmtName, params) | inr e => inr e end)
      end
  end.
End Bind.

(** ** Lemmas *)

Lemma read_full_4 (a b : bytes) n : length a = Z.to_nat n -> 0 <= n -> read_full n (a ++ b) = Some (a, b).
Proof. intros Ha Hn. replace n with (zlen a) by (unfold zlen; lia). apply read_full_app. Qed.

Lemma cut0_app (k rest : bytes) : zero ∉ k -> cut0 (k ++ [zero] ++ rest) = Some (k, rest).
Proof.
  induction k as [|b k IH]; intros Hk; cbn [app cut0]; [by rewrite decide_True|].
  apply not_elem_of_cons in Hk as [Hb Hk]. rewrite decide_False by done. cbn [app] in IH. rewrite IH by done. done.
Qed.

Lemma cut0_split s k rest : cut0 s = Some (k, rest) -> s = k ++ [zero] ++ rest.
Proof.
  revert k rest. induction s as [|b s IH]; intros k rest; cbn [cut0]; [done|]. destruct (decide (b = zero)) as [->|]; [by intros [= <- <-]|].
  destruct (cut0 s) as [[k' r']|]; cbn [mbind option_bind]; [|done]. intros [= <- <-]. cbn [app]. by rewrite (IH k' r').
Qed.

(** A message that fits the length field. *)
Definition fits (payload : bytes) : bool := zlen payload + 4 <? 2 ^ 32.

Lemma be_dec_length (n : nat) z : 0 <= z < 256 ^ Z.of_nat n -> be_dec (be_enc n z) = z.
Proof. intros Hz. by rewrite be_dec_enc, Z.mod_small. Qed.

Lemma readMessage_encode t payload rest : fits payload = true ->
  readMessage (encodeMessage t payload ++ rest) = Some (t, payload, rest).
Proof.
  unfold fits. intros Hf. bool_simpl. pose proof (zlen_nonneg payload). unfold readMessage, encodeMessage.
  change ((t :: be_enc 4 (uint32 (zlen payload + 4)) ++ payload) ++ rest) with ([t] ++ (be_enc 4 (uint32 (zlen payload + 4)) ++ payload) ++ rest).
  rewrite (read_full_4 [t]) by done. cbn [mbind option_bind]. rewrite <- app_assoc.
  rewrite (read_full_4 (be_enc 4 _)) by (rewrite ?length_be_enc; done). cbn [mbind option_bind lookup list_lookup].
  unfold uint32 at 2. rewrite Z.mod_small by lia. rewrite be_dec_length by (change (256 ^ Z.of_nat 4) with (2 ^ 32); lia).
  unfold uint32. rewrite Z.mod_small by lia. replace (zlen payload + 4 - 4) with (zlen payload) by lia. by rewrite read_full_app.
Qed.

(** ** The startup packet *)

Definition param_bytes (kv : bytes * bytes) : bytes := kv.1 ++ [zero] ++ kv.2 ++ [zero].

Definition startup_message (version : Z) (kvs : list (bytes * bytes)) : bytes :=
  let body := be_enc 4 version ++ concat (param_bytes <$> kvs) ++ [zero] in be_enc 4 (zlen body + 4) ++ body.

Definition param_text (kv : bytes * bytes) : Prop := kv.1 <> [] /\ (zero ∉ kv.1) /\ (zero ∉ kv.2).

Lemma parse_params_run kvs : Forall param_text kvs -> forall fuel m, (length kvs < fuel)%nat ->
  parse_params fuel (concat (param_bytes <$> kvs) ++ [zero]) m = foldl (fun m kv => <[kv.1 := kv.2]> m) m kvs.
Proof.
  induction 1 as [|[k v] kvs (Hne & Hk & Hv) Hkvs IH]; intros fuel m Hf; (destruct fuel as [|fuel]; [cbn in Hf; lia|]).
  - done.
  - cbn [fst snd] in *. destruct k as [|a k]; [done|]. rewrite fmap_cons. cbn [concat]. unfold param_bytes at 1. cbn [fst snd].
    assert (E : (((a :: k) ++ [zero] ++ v ++ [zero]) ++ concat (param_bytes <$> kvs)) ++ [zero] =
      (a :: k) ++ [zero] ++ v ++ [zero] ++ concat (param_bytes <$> kvs) ++ [zero]) by by rewrite <- !app_assoc.
    rewrite E. cbn [parse_params]. rewrite (cut0_app (a :: k)) by done. cbn [app].
    pose proof (cut0_app v (concat (param_bytes <$> kvs) ++ [zero]) Hv) as Hc. cbn [app] in Hc. rewrite Hc.
    rewrite IH by (cbn in Hf; lia). done.
Qed.

(** ** Bind messages and rows as the protocol defines them *)

Definition wire_value (v : option bytes) : bytes :=
  match v with Some s => be_enc 4 (zlen s) ++ s | None => be_enc 4 (2 ^ 32 - 1) end.

Definition bind_message (portal stmt : bytes) (formats : list Z) (params : list (option bytes)) (results : bytes) : bytes :=
  (portal ++ [zero]) ++ (stmt ++ [zero]) ++ be_enc 2 (zlen formats) ++ concat (be_enc 2 <$> formats) ++
  be_enc 2 (zlen params) ++ concat (wire_value <$> params) ++ results.

(** The values of a row, as a client reads them. *)
Fixpoint read_values (n : nat) (s : bytes) : option (list (option bytes)) :=
  match n with
  | O => if decide (s = []) then Some [] else None
  | S n =>
      '(l, s) ← read_full 4 s;
      if be_dec l =? 2 ^ 32 - 1 then vs ← read_values n s; Some (None :: vs)
      else '(v, s) ← read_full (be_dec l) s; vs ← read_values n s; Some (Some v :: vs)
  end.
Definition read_row (s : bytes) : option (list (option bytes)) :=
  '(n, s) ← read_full 2 s; read_values (Z.to_nat (be_dec n)) s.

Lemma slice_at {A} (pre mid post : list A) i j : i = zlen pre -> j = i + zlen mid -> slice (pre ++ mid ++ post) i j = Some mid.
Proof. intros -> ->. apply slice_app. Qed.

Lemma zlen_be_enc n z : zlen (be_enc n z) = Z.of_nat n.
Proof. unfold zlen. by rewrite length_be_enc. Qed.

Lemma zlen_concat_be (zs : list Z) : zlen (concat (be_enc 2 <$> zs)) = zlen zs * 2.
Proof. induction zs as [|z zs IH]; [done|]. rewrite fmap_cons. cbn [concat]. rewrite zlen_app, IH, zlen_be_enc, zlen_cons. lia. Qed.

Section BindLemmas.
Context `{GoValues}.

(** What the decoder makes of a list of parameters: NULL has no decoding. *)
Definition bound (params : list (option bytes)) : list value + bytes :=
  match mapM id params with
  | Some ps => inl (VString <$> ps)
  | None => inr (str "malformed Bind message: incomplete parameter value")
  end.

Lemma bind_params_run params : forall pre post, zlen (pre ++ concat (wire_value <$> params) ++ post) < 2 ^ 32 ->
  bind_params (length params) (pre ++ concat (wire_value <$> params) ++ post) (zlen pre) = Some (bound params).
Proof.
  induction params as [|v params IH]; intros pre post Hlen; [done|]. cbn [length bind_params].
  rewrite fmap_cons in *. cbn [concat] in *. rewrite <- app_assoc in *. set (tl := concat (wire_value <$> params)) in *.
  pose proof (zlen_nonneg pre). pose proof (zlen_nonneg tl). pose proof (zlen_nonneg post). rewrite !zlen_app in Hlen.
  assert (E4 : exists l s, wire_value v = be_enc 4 l ++ s /\ 0 <= l < 2 ^ 32 /\
    match v with Some p => s = p /\ l = zlen p | None => s = [] /\ l = 2 ^ 32 - 1 end).
  { destruct v as [p|]; cbn [wire_value] in *; eexists _, _; (split; [try reflexivity; symmetry; apply app_nil_r|]).
    - rewrite zlen_app in Hlen. rewrite zlen_be_enc in Hlen. pose proof (zlen_nonneg p). split; [lia|done].
    - split; [lia|done]. }
  destruct E4 as (l & s & Ev & Hl & Hv). rewrite Ev in *. rewrite <- app_assoc in *. rewrite zlen_app, zlen_be_enc in Hlen.
  pose proof (zlen_nonneg s). rewrite !zlen_app, zlen_be_enc. rewrite (proj2 (Z.ltb_ge _ _)) by lia.
  rewrite (slice_at pre (be_enc 4 l)) by (rewrite ?zlen_be_enc; lia). cbn [fmap option_fmap option_map mbind option_bind].
  rewrite be_dec_length by (change (256 ^ Z.of_nat 4) with (2 ^ 32); lia). rewrite (proj2 (Z.eqb_neq l (-1))) by lia.
  destruct v as [p|]; destruct Hv as [-> ->].
  - rewrite (proj2 (Z.ltb_ge _ _)) by lia. rewrite (app_assoc pre), (slice_at (pre ++ _) p) by (rewrite ?zlen_app, ?zlen_be_enc; lia).
    cbn [mbind option_bind]. rewrite app_assoc. replace (zlen pre + 4 + zlen p) with (zlen ((pre ++ be_enc 4 (zlen p)) ++ p)) by (rewrite !zlen_app, zlen_be_enc; lia).
    rewrite IH by (rewrite !zlen_app, zlen_be_enc; lia). unfold bound. cbn [mapM id mbind option_bind]. by destruct (mapM id params).
  - cbn [zlen length] in *. rewrite (proj2 (Z.ltb_lt _ _)) by (unfold zlen in *; cbn [length]; lia). done.
Qed.
End BindLemmas.

Lemma read_values_run (vs : list (option bytes)) : Forall (fun v => match v with Some s => zlen s < 2 ^ 32 - 1 | None => True end) vs ->
  read_values (length vs) (concat (wire_value <$> vs)) = Some vs.
Proof.
  induction 1 as [|v vs Hv Hvs IH]; [done|]. rewrite fmap_cons. cbn [length read_values concat]. destruct v as [s|]; cbn [wire_value].
  - pose proof (zlen_nonneg s). rewrite <- app_assoc, read_full_4 by (rewrite ?length_be_enc; done). cbn [mbind option_bind].
    rewrite be_dec_length by (change (256 ^ Z.of_nat 4) with (2 ^ 32); lia). rewrite (proj2 (Z.eqb_neq _ _)) by lia.
    rewrite read_full_app. cbn [mbind option_bind]. by rewrite IH.
  - rewrite read_full_4 by (rewrite ?length_be_enc; done). cbn [mbind option_bind].
    rewrite be_dec_length by done. rewrite Z.eqb_refl. by rewrite IH.
Qed.

Lemma decode_bind_message `{GoValues} known portal stmt formats params results :
  zero ∉ portal -> zero ∉ stmt -> known stmt = true -> zlen formats < 2 ^ 16 -> zlen params < 2 ^ 16 ->
  zlen (bind_message portal stmt formats params results) < 2 ^ 32 ->
  decode_bind known (bind_message portal stmt formats params results) =
    Some (match bound params with inl vs => inl (portal, stmt, vs) | inr e => inr e end).
Proof.
  intros Hp Hs Hk Hf Hn Hlen. unfold decode_bind, bind_message in *.
  set (fb := concat (be_enc 2 <$> formats)) in *. set (pb := concat (wire_value <$> params)) in *.
  assert (Hfb : zlen fb = zlen formats * 2) by apply zlen_concat_be.
  rewrite <- (app_assoc portal), cut0_app by done. rewrite <- (app_assoc stmt), cut0_app by done. rewrite Hk. cbn [negb].
  rewrite (app_assoc portal), (app_assoc stmt), (app_assoc (portal ++ [zero])).
  set (pre := (portal ++ [zero]) ++ stmt ++ [zero]) in *.
  assert (Hpre : zlen portal + 1 + zlen stmt + 1 = zlen pre) by (subst pre; rewrite !zlen_app; change (zlen [zero]) with 1; lia).
  rewrite Hpre. pose proof (zlen_nonneg pre). pose proof (zlen_nonneg formats). pose proof (zlen_nonneg params).
  pose proof (zlen_nonneg pb). pose proof (zlen_nonneg results). rewrite (app_assoc (portal ++ [zero])) in Hlen. fold pre in Hlen.
  rewrite (proj2 (Z.ltb_ge _ _)) by (rewrite !zlen_app, !zlen_be_enc; lia). unfold uint16_be.
  rewrite (slice_at pre (be_enc 2 _)) by (rewrite ?zlen_be_enc; lia). cbn [fmap option_fmap option_map mbind option_bind].
  rewrite be_dec_length by (change (256 ^ Z.of_nat 2) with (2 ^ 16); lia).
  rewrite (proj2 (Z.ltb_ge _ _)) by (rewrite !zlen_app, !zlen_be_enc; lia).
  rewrite (app_assoc pre), (app_assoc _ fb). set (pre2 := (pre ++ be_enc 2 (zlen formats)) ++ fb).
  assert (Hp2 : zlen pre2 = zlen pre + 2 + zlen formats * 2) by (subst pre2; rewrite !zlen_app, zlen_be_enc; lia).
  rewrite (slice_at pre2 (be_enc 2 _)) by (rewrite ?zlen_be_enc; lia). cbn [fmap option_fmap option_map mbind option_bind].
  rewrite be_dec_length by (change (256 ^ Z.of_nat 2) with (2 ^ 16); lia).
  rewrite (app_assoc pre2). replace (zlen pre + 2 + zlen formats * 2 + 2) with (zlen (pre2 ++ be_enc 2 (zlen params))) by (rewrite zlen_app, zlen_be_enc; lia).
  unfold zlen at 1. rewrite Nat2Z.id. rewrite bind_params_run; [done|]. fold pb. rewrite !zlen_app in *. rewrite !zlen_be_enc in *. lia.
Qed.

(** Reading a Bind message does not panic, whatever its bytes. *)
Lemma slice_total {A} (l : list A) i j : 0 <= i <= j -> j <= zlen l -> exists s, slice l i j = Some s.
Proof. intros Hi Hj. unfold slice. replace ((0 <=? i) && (i <=? j) && (j <=? zlen l)) with true by lia. eauto. Qed.

Lemma bind_params_total `{GoValues} n : forall payload pos, 0 <= pos -> exists r, bind_params n payload pos = Some r.
Proof.
  induction n as [|n IH]; intros payload pos Hp; cbn [bind_params]; [eauto|].
  destruct (Z.ltb_spec (zlen payload) (pos + 4)); [eauto|]. destruct (slice_total payload pos (pos + 4)) as [s ->]; [lia..|].
  cbn [fmap option_fmap option_map mbind option_bind]. pose proof (be_dec_bound s).
  destruct (_ =? -1); [destruct (IH payload (pos + 4)) as [r ->]; [lia|]; cbn; eauto|].
  destruct (Z.ltb_spec (zlen payload) (pos + 4 + be_dec s)); [eauto|].
  destruct (slice_total payload (pos + 4) (pos + 4 + be_dec s)) as [s' ->]; [lia..|]. cbn [mbind option_bind].
  destruct (IH payload (pos + 4 + be_dec s)) as [r ->]; [lia|]. cbn. eauto.
Qed.

Lemma decode_bind_total `{GoValues} known payload : exists r, decode_bind known payload = Some r.
Proof.
  unfold decode_bind. destruct (cut0 payload) as [[portal rest]|] eqn:E1; [|eauto]. destruct (cut0 rest) as [[stmt rest2]|]; [|eauto].
  destruct (negb _); [eauto|]. pose proof (zlen_nonneg portal). pose proof (zlen_nonneg stmt). cbv zeta.
  destruct (Z.ltb_spec (zlen payload) (zlen portal + 1 + zlen stmt + 1 + 2)); [eauto|]. unfold uint16_be.
  destruct (slice_total payload (zlen portal + 1 + zlen stmt + 1) (zlen portal + 1 + zlen stmt + 1 + 2)) as [s1 ->]; [lia..|].
  cbn [fmap option_fmap option_map mbind option_bind]. pose proof (be_dec_bound s1). set (pos := zlen portal + 1 + zlen stmt + 1 + 2 + _).
  destruct (Z.ltb_spec (zlen payload) (pos + 2)); [eauto|]. subst pos.
  destruct (slice_total payload (zlen portal + 1 + zlen stmt + 1 + 2 + be_dec s1 * 2)
    (zlen portal + 1 + zlen stmt + 1 + 2 + be_dec s1 * 2 + 2)) as [s2 ->]; [lia..|].
  cbn [fmap option_fmap option_map mbind option_bind]. edestruct bind_params_total as [r ->]; [|cbn; eauto]. lia.
Qed.

Lemma startup_message_read version kvs rest : Forall param_text kvs -> zlen (startup_message version kvs) < 2 ^ 32 ->
  readStartupMessage (startup_message version kvs ++ rest) = Some (startup_message version kvs, rest) /\
  parseStartupParams (startup_message version kvs) = foldl (fun m kv => <[kv.1 := kv.2]> m) ∅ kvs.
Proof.
  intros Hkv Hlen. unfold startup_message in *. set (body := be_enc 4 version ++ concat (param_bytes <$> kvs) ++ [zero]) in *.
  rewrite zlen_app in Hlen. unfold zlen at 1 in Hlen. rewrite length_be_enc in Hlen. pose proof (zlen_nonneg body) as Hb.
  split.
  - unfold readStartupMessage. rewrite <- app_assoc, read_full_4 by (rewrite ?length_be_enc; done). cbn [mbind option_bind].
    rewrite be_dec_length by (change (256 ^ Z.of_nat 4) with (2 ^ 32); lia).
    unfold uint32. rewrite Z.mod_small by lia. replace (zlen body + 4 - 4) with (zlen body) by lia. by rewrite read_full_app.
  - unfold parseStartupParams. subst body. rewrite (proj2 (Z.ltb_ge _ 8)) by (unfold zlen; rewrite !length_app, !length_be_enc; lia).
    rewrite app_assoc, drop_app_length' by (by rewrite length_app, !length_be_enc). apply parse_params_run; [done|].
    rewrite !length_app, !length_be_enc. cbn [length].
    enough ((length kvs <= length (concat (param_bytes <$> kvs)))%nat) by lia.
    clear. induction kvs as [|kv kvs IH]; [done|]. rewrite fmap_cons. cbn [concat length]. rewrite length_app.
    unfold param_bytes at 1. rewrite !length_app. cbn [length]. lia.
Qed.

(** ** Properties *)

(** A message written is the message read: a payload that fits the length
    field is framed so that the reader gets its type and payload and nothing of
    what follows; and the three writes of [writeMessage] are that framing. *)
Theorem message_roundtrip t payload rest : fits payload = true ->
  concat (message_writes t payload) = encodeMessage t payload /\
  readMessage (encodeMessage t payload ++ rest) = Some (t, payload, rest).
Proof. intros Hf. split; [|by apply readMessage_encode]. unfold message_writes, encodeMessage. cbn [concat app]. by rewrite app_nil_r. Qed.

(** The startup packet is understood: the parameters a client announces are
    the ones the proxy reads, the last value of a name that is repeated, and
    the packet is taken from the stream exactly. *)
Theorem startup_roundtrip version kvs rest : Forall param_text kvs -> zlen (startup_message version kvs) < 2 ^ 32 ->
  readStartupMessage (startup_message version kvs ++ rest) = Some (startup_message version kvs, rest) /\
  parseStartupParams (startup_message version kvs) = foldl (fun m kv => <[kv.1 := kv.2]> m) ∅ kvs.
Proof. apply startup_message_read. Qed.


(** C32. A row of a result reaches the client: reading a DataRow message back
    gives NULL for the nil values and the printed text of every other one, in
    the order of the columns. *)
Theorem data_row_roundtrip `{FloatText} values : zlen values < 2 ^ 16 ->
  Forall (fun v => zlen (sprint_v v) < 2 ^ 32 - 1) values ->
  read_row (data_row values) = Some ((fun v => match v with VNil => None | _ => Some (sprint_v v) end) <$> values).
Proof.
  intros Hn Hv. set (f := fun v => match v with VNil => None | _ => Some (sprint_v v) end).
  unfold read_row, data_row. rewrite read_full_4 by (rewrite ?length_be_enc; done). cbn [mbind option_bind].
  pose proof (zlen_nonneg values). unfold uint16. rewrite Z.mod_small by lia.
  rewrite be_dec_length by (change (256 ^ Z.of_nat 2) with (2 ^ 16); lia). unfold zlen at 1. rewrite Nat2Z.id.
  assert (E : data_value <$> values = wire_value <$> (f <$> values)).
  { rewrite <- list_fmap_compose. apply list_fmap_ext. intros i v Hi. pose proof (Forall_lookup_1 _ _ _ _ Hv Hi) as Hs.
    cbv beta in Hs. pose proof (zlen_nonneg (sprint_v v)). destruct v; cbn [compose f data_value wire_value]; try done;
    unfold compose, f, data_value, wire_value, uint32; by rewrite Z.mod_small by lia. }
  rewrite E. replace (length values) with (length (f <$> values)) by apply length_fmap. apply read_values_run.
  apply Forall_fmap. eapply Forall_impl; [|exact Hv]. intros v Hs. unfold compose, f. by destruct v.
Qed.

(** ** Witnesses *)

Lemma message_roundtrip_witness : readMessage (encodeMessage "Q"%char (str "SELECT 1") ++ str "rest") = Some ("Q"%char, str "SELECT 1", str "rest").
Proof. apply (message_roundtrip "Q"%char (str "SELECT 1") (str "rest")). reflexivity. Defined.

Lemma startup_roundtrip_witness :
  parseStartupParams (startup_message 196608 [(str "user", str "app"); (str "database", str "shop")]) =
    <[str "database" := str "shop"]> (<[str "user" := str "app"]> ∅).
Proof.
  apply (startup_roundtrip 196608 [(str "user", str "app"); (str "database", str "shop")] []); [|reflexivity].
  repeat constructor; cbn [fst snd]; try done; apply (bool_decide_eq_true_1 _); vm_compute; reflexivity.
Defined.

#[local] Existing Instance NoFloats.
#[local] Instance NoFloatText : FloatText := { Sprint_float32 _ := []; Sprint_float64 _ := [] }.


Lemma data_row_roundtrip_witness : read_row (data_row [VNil; VInt Int64 (-7); VString (str "x")]) = Some [None; Some (str "-7"); Some (str "x")].
Proof. apply (data_row_roundtrip [VNil; VInt Int64 (-7); VString (str "x")]); [reflexivity|]. repeat constructor. Defined.

(** ** Observations *)

(** NULL cannot be bound. *)
Example null_parameter_refused :
  decode_bind (fun _ => true) (bind_message [] [] [] [None] []) = Some (inr (str "malformed Bind message: incomplete parameter value")).
Proof. vm_compute. reflexivity. Qed.

(** A length below four wraps: the messages that follow are read as the payload
    of this one. *)
Example short_length_wraps : readMessage ("S"%char :: be_enc 4 0 ++ encodeMessage "Q"%char (str "SELECT 1")) = None.
Proof. vm_compute. reflexivity. Qed.

(** A value the driver returns as bytes is printed as a list of numbers. *)
Example bytes_as_numbers : sprint_v (VBytes (str "12")) = str "[49 50]".
Proof. vm_compute. reflexivity. Qed.
