(* ===== verification/MariaUnused.v ===== *)
(** * Package mariadb: functions without a caller

    Functions of src/mariadb/mariadb.go that nothing calls: a query on a
    connection of its own ("background refresh"), a result set built from
    database/sql rows, the client's own login forwarded, an error packet for a
    refused login, and a raw write.  The query on a connection of its own has a
    read loop that is simpler than the session's; [execQueryOnConn_agrees] says
    on which responses the two read the same. *)

From Stdlib Require Import Ascii ZArith Lia.
From stdpp Require Import base list gmap strings numbers.
From coqutil Require Import Datatypes.RecordSetters.
From S2P Require Import Prelude GoStrings BatchText Metrics Executor Parser Replica Cache Config Effects Services MariaWire MariaConn MariaFlow MariaServe PgWire.
Import DoubleBraceUpdate.

Open Scope Z_scope.

Section Unused.
Context `{Ut : UnicodeTables} `{Dr : Driver} `{Nw : Network} `{Cs : CacheService} `{Gv : GoValues} `{Da : !Database} `{Bs : !BatchService} `{Ft : !FloatText}.

(** ** Packets of the session *)

Definition forwardClientAuth : M unit :=
  update (fun c => c {{ backendSeq := next_seq (backendSeq c) }});;
  c ← self id;
  p ← or_crash (backend c);
  emit (EWrite (backendAddr c) (rawAuthPkt c));;
  match peer_write p (frame (backendSeq c) (rawAuthPkt c)) with
  | None => fail IOError
  | Some (p, reply) =>
      update (fun c => c {{ backend := Some p }});;
      modify (fun w => w {{ backend_in ::= fun i => i ++ reply }})
  end.

Definition denied (user : bytes) : bytes :=
  str "Access denied for user '" ++ user ++ str "'@'localhost' (using password: YES)".
Definition writeAuthError (user : bytes) : M unit :=
  update (fun c => c {{ sequence := next_seq (sequence c) }});;
  c ← self id;
  client_write (frame (sequence c) (WriteErrorPacket 1045 (str "28000") (denied user) (capability c))).

Definition writeRaw (data : bytes) : M unit := client_write data.

(** ** A query on a connection of its own *)

(** What the loop does after a packet: [None] when it returns, otherwise the
    number of EOF packets seen. *)
Definition refresh_verdict (eofCount : Z) (packet : bytes) : option Z :=
  match packet with
  | [] => Some eofCount
  | h :: _ =>
      if bval h =? 0xFF then None
      else if bval h =? 0x00 then None
      else if (bval h =? 0xFE) && (zlen packet <? 9) then
        if 2 <=? eofCount + 1 then None else Some (eofCount + 1)
      else Some eofCount
  end.

(** The response and the bytes left; [None] when a read fails.  Every packet
    takes at least four bytes of input. *)
Fixpoint refresh_loop (fuel : nat) (eofCount : Z) (response input : bytes) : option (bytes * bytes) :=
  match fuel with
  | O => None
  | S fuel =>
      '(seq, packet, input) ← read_packet input;
      let response := response ++ header (zlen packet) seq ++ packet in
      match refresh_verdict eofCount packet with
      | None => Some (response, input)
      | Some eofCount => refresh_loop fuel eofCount response input
      end
  end.

(** [conn] is [p] with [pending] to be read. *)
Definition execQueryOnConn (p : peer) (pending query : bytes) : option (peer * bytes * bytes) :=
  '(p, reply) ← peer_write p (frame 0 (com ComQuery query));
  let input := pending ++ reply in
  '(response, rest) ← refresh_loop (S (length input)) 0 [] input;
  Some (p, response, rest).

(** ** A result set from database/sql rows *)

(** What [rows] gives: the names of the columns and the rows that Next and Scan
    deliver; [None] for an error of Columns or of Scan. *)
Record sql_rows := MkSqlRows { sql_columns : option (list bytes); sql_scans : list (option (list value)) }.

Variable AppendLengthEncodedInteger : Z -> bytes.   (* mysql.AppendLengthEncodedInteger(nil, n) *)

Definition length_encoded (s : bytes) : bytes := AppendLengthEncodedInteger (zlen s) ++ s.

Definition column_definition (col : bytes) : bytes :=
  to_byte 3 :: str "def" ++ [to_byte 0; to_byte 0; to_byte 0] ++ length_encoded col ++
  (to_byte <$> [0; 0x0c; 0x21; 0x00; 0xff; 0xff; 0xff; 0xff; 0xfd; 0x00; 0x00; 0x00; 0x00; 0x00]).

Definition row_value (v : value) : bytes :=
  match v with
  | VNil => [to_byte 0xfb]
  | VBytes s => length_encoded s
  | v => length_encoded (sprint_v v)
  end.

(** A packet with the next number, appended to [result]. *)
Definition result_packet (payload result : bytes) : M bytes :=
  update (fun c => c {{ sequence := next_seq (sequence c) }});;
  seq ← self sequence;
  mret (result ++ frame seq payload).

(** [eofPacket[3] = c.sequence], where [eofPacket] has no header. *)
Definition result_eof (result : bytes) : M bytes :=
  update (fun c => c {{ sequence := next_seq (sequence c) }});;
  c ← self id;
  let eofPacket := WriteEOFPacket (status c) (capability c) in
  if 3 <? zlen eofPacket then mret (result ++ <[3%nat := to_byte (sequence c)]> eofPacket) else crash.

Fixpoint result_columns (columns : list bytes) (result : bytes) : M bytes :=
  match columns with
  | [] => mret result
  | col :: columns => result ← result_packet (column_definition col) result; result_columns columns result
  end.

Fixpoint result_rows (scans : list (option (list value))) (result : bytes) : M bytes :=
  match scans with
  | [] => mret result
  | None :: _ => fail IOError
  | Some values :: scans => result ← result_packet (concat (row_value <$> values)) result; result_rows scans result
  end.

Definition buildResultSet (rows : sql_rows) : M bytes :=
  match sql_columns rows with
  | None => fail IOError
  | Some columns =>
      result ← result_packet (AppendLengthEncodedInteger (zlen columns)) [];
      result ← result_columns columns result;
      result ← result_eof result;
      result ← result_rows (sql_scans rows) result;
      result_eof result
  end.

(** ** The two read loops *)

Context `{!DriverLaws}.

Lemma refresh_step fuel n acc s p n' input : 0 <= s < 256 -> small p = true -> refresh_verdict n p = Some n' ->
  refresh_loop (S fuel) n acc (frame s p ++ input) = refresh_loop fuel n' (acc ++ frame s p) input.
Proof.
  intros Hs Hp Hv. cbn [refresh_loop]. rewrite read_packet_frame by done. rewrite Z.mod_small by done. cbn [mbind option_bind]. by rewrite Hv.
Qed.

Lemma refresh_stop fuel n acc s p input : 0 <= s < 256 -> small p = true -> refresh_verdict n p = None ->
  refresh_loop (S fuel) n acc (frame s p ++ input) = Some (acc ++ frame s p, input).
Proof.
  intros Hs Hp Hv. cbn [refresh_loop]. rewrite read_packet_frame by done. rewrite Z.mod_small by done. cbn [mbind option_bind]. by rewrite Hv.
Qed.

(** A packet that the simple loop takes for a part of a result set. *)
Definition inner_packet (p : bytes) : Prop := forall h t, p = h :: t ->
  bval h <> 0x00 /\ bval h <> 0xFF /\ (bval h = 0xFE -> 9 <= zlen p).

Lemma refresh_inner ps input : packets_ok ps -> Forall (fun x => inner_packet x.2) ps -> forall n fuel acc,
  refresh_loop (length ps + fuel) n acc (frames ps ++ input) = refresh_loop fuel n (acc ++ frames ps) input.
Proof.
  induction ps as [|[s p] ps IH]; intros Hok Hi n fuel acc; [by rewrite app_nil_r|].
  inversion_clear Hok as [|? ? [Hs Hp] Hok']. apply list.Forall_cons in Hi as [Hip Hi'].
  cbn [length Nat.add]. rewrite frames_cons, <- app_assoc, (refresh_step _ _ _ _ _ n); [|done|done|].
  - by rewrite IH, <- app_assoc by done.
  - cbn [snd] in Hip. destruct p as [|h t]; [done|]. destruct (Hip h t eq_refl) as (H0 & HF & HE). unfold refresh_verdict.
    rewrite (proj2 (Z.eqb_neq _ _) HF), (proj2 (Z.eqb_neq _ _) H0). destruct (bval h =? 0xFE) eqn:E; [|done].
    bool_simpl. cbn [andb]. replace (zlen (h :: t) <? 9) with false by lia. done.
Qed.

(** One result: OK, an error, or rows none of which begins with an empty text. *)
Inductive single_response : list packet -> Prop :=
| single_ok s p : ok_packet false p -> single_response [(s, p)]
| single_err s p : err_packet p -> single_response [(s, p)]
| single_rows defs s1 e1 rows s2 e2 : Forall (fun x => def_packet x.2) defs -> Forall (fun x => inner_packet x.2) rows ->
    (exists b, eof_packet b e1) -> eof_packet false e2 -> single_response (defs ++ (s1, e1) :: rows ++ [(s2, e2)]).

Lemma single_is_response ps : single_response ps -> response ps.
Proof.
  destruct 1 as [| |defs s1 e1 rows s2 e2 Hd Hr]; [by apply response_ok|by apply response_err|]. apply response_rows; try done.
  eapply list.Forall_impl; [exact Hr|]. intros x Hx h t E. destruct (Hx h t E) as (_ & ? & ?). done.
Qed.

Lemma def_is_inner p : def_packet p -> inner_packet p.
Proof. intros (h & t & -> & ? & ? & ? & ?) h' t' [= <- <-]. done. Qed.

Lemma eof_verdict b p n : eof_packet b p -> refresh_verdict n p = if 2 <=? n + 1 then None else Some (n + 1).
Proof.
  intros (w & st & -> & _). unfold refresh_verdict. change (bval (to_byte 0xFE)) with 0xFE. cbn [Z.eqb Pos.eqb andb].
  replace (_ <? 9) with true; [done|]. unfold zlen. cbn [length]. rewrite length_app, !length_le_enc. done.
Qed.

Lemma refresh_spec ps input : packets_ok ps -> single_response ps -> forall fuel acc, (length ps <= fuel)%nat ->
  refresh_loop fuel 0 acc (frames ps ++ input) = Some (acc ++ frames ps, input).
Proof.
  intros Hok Hs fuel acc Hf. destruct Hs as [s p (? & ? & ? & ? & -> & _)|s p (t & ->)|defs s1 e1 rows s2 e2 Hd Hr [b He1] He2].
  1, 2: apply list.Forall_cons in Hok as [[Hs Hp] _]; destruct fuel as [|fuel]; [cbn in Hf; lia|];
    rewrite frames_cons; cbn [frames fmap list_fmap concat]; rewrite app_nil_r; by apply refresh_stop.
  apply list.Forall_app in Hok as [Hokd Hok]. apply list.Forall_cons in Hok as [[Hs1 Hp1] Hok]. apply list.Forall_app in Hok as [Hokr Hok].
  apply list.Forall_cons in Hok as [[Hs2 Hp2] _]. rewrite length_app in Hf. cbn [length] in Hf. rewrite length_app in Hf. cbn [length] in Hf.
  set (k := (fuel - length defs - length rows - 2)%nat).
  replace fuel with (length defs + S (length rows + S k))%nat by lia.
  rewrite frames_app, frames_cons, frames_app, frames_cons, <- !app_assoc. change (frames []) with (@nil ascii).
  assert (Hdi : Forall (fun x : packet => inner_packet x.2) defs) by (eapply list.Forall_impl; [exact Hd|]; intros x; apply def_is_inner).
  rewrite refresh_inner by done.
  rewrite (refresh_step _ _ _ _ _ 1); [|done|done|by rewrite (eof_verdict _ _ _ He1)]. rewrite refresh_inner by done.
  rewrite app_nil_l, refresh_stop; [|done|done|by rewrite (eof_verdict _ _ _ He2)]. by rewrite app_nil_r, <- !app_assoc.
Qed.

(** The two ways to ask a backend agree: on a response of one result, none of
    whose rows begins with an empty text, a query on a connection of its own
    returns the bytes the session's query returns, and leaves nothing unread. *)
Theorem execQueryOnConn_agrees q w p p' ps : backend (conn w) = Some p -> backend_in w = [] ->
  peer_write p (frame 0 (com ComQuery q)) = Some (p', frames ps) -> packets_ok ps -> single_response ps ->
  exists w', execBackendQuery q w = (w', Done (frames ps)) /\ backend_in w' = [] /\
    execQueryOnConn p [] q = Some (p', frames ps, []).
Proof.
  intros Hb Hin Hw Hok Hs. destruct (exec_response_run q w p p' ps Hb Hin Hw Hok (single_is_response _ Hs)) as [s Hx].
  eexists. split; [exact Hx|]. split; [by destruct w as [[]]|]. unfold execQueryOnConn. rewrite Hw. cbn [mbind option_bind app].
  pose proof (refresh_spec ps [] Hok Hs (S (length (frames ps))) []) as E. rewrite app_nil_r in E. cbn [app] in E.
  rewrite E; [done|]. pose proof (length_frames ps). lia.
Qed.
End Unused.

(** ** Runs *)

#[local] Existing Instance ascii_tables.
#[local] Existing Instance NoFloats.
#[local] Existing Instance NoFloatText.
#[local] Existing Instance ScriptDB.
#[local] Existing Instance PlainDriver.
#[local] Existing Instance PlainDriverLaws.
#[local] Existing Instance TestNet.
#[local] Existing Instance TestCache.
#[local] Existing Instance TestBatch.

(** A result set of two rows, the first of which begins with an empty text. *)
Definition empty_text_response : list packet :=
  [(1, [to_byte 1]); (2, str "def"); (3, to_byte 0xFE :: le_enc 2 0 ++ le_enc 2 2);
   (4, [to_byte 0]); (5, to_byte 1 :: str "x"); (6, to_byte 0xFE :: le_enc 2 0 ++ le_enc 2 2)].

(** The simple loop takes a row that begins with an empty text for an OK packet
    and returns in the middle of the result set; the session's loop does not. *)
Example empty_text_cuts_response :
  refresh_loop 100 0 [] (frames empty_text_response) = Some (frames (take 4 empty_text_response), frames (drop 4 empty_text_response)) /\
  collect_response false (frames empty_text_response) = Ok (frames empty_text_response, 6, []).
Proof. split; vm_compute; reflexivity. Qed.

(** The EOF packets of a result set have no header and lose a byte of their
    status: a client takes the first one for the header of a packet of 254 bytes. *)
Example result_set_unreadable :
  match buildResultSet (fun n => [to_byte n]) (MkSqlRows (Some [str "a"]) [Some [VString (str "x")]]) (test_session [] []) with
  | (w, Done out) =>
      bool_decide (take 5 (drop 32 out) = [to_byte 0xFE; to_byte 0; to_byte 0; to_byte 3; to_byte 0]) && (sequence (conn w) =? 5) &&
      match collect_response false out with Err => true | _ => false end
  | _ => false
  end = true.
Proof. vm_compute. reflexivity. Qed.
