(* ===== verification/PgConn.v ===== *)
(** * Package postgres: a client connection

    The session of one client (src/postgres/postgres.go): the startup, the
    message loop, simple queries with the cache and batched writes, the extended
    protocol (Parse, Bind, Describe, Execute, Close).

    A handler runs in the monad of Effects; an error is its text.  database/sql
    with its driver is the class [SqlDriver]; the cache and the write batch
    manager are the services of Services.  Queries sent to a database, uses of
    the cache's flights and enqueued writes are logged. *)

From Stdlib Require Import Ascii ZArith Lia.
From stdpp Require Import base list gmap strings numbers.
From coqutil Require Import Datatypes.RecordSetters.
From S2P Require Import Prelude GoStrings BatchText Metrics Executor Parser Replica Cache Config Effects Sha1 Services MariaWire PgWire.
Import DoubleBraceUpdate.

Open Scope Z_scope.

(** ** What the session calls *)

(** What [rows] gives: the columns ([nil] when Columns fails), and the rows that
    Next and Scan deliver before Next returns false. *)
Record Rows `{GoValues} := MkRows { columns : list bytes; rows : list (list value) }.

(** [*sql.DB] handles over the servers they lead to. *)
Class SqlDriver `{GoValues} := {
  handle : Type;
  servers : Type;
  sql_Open : servers -> bytes -> servers * (handle + bytes);         (* sql.Open("postgres", dsn) *)
  sql_Ping : servers -> handle -> servers * option bytes;
  sql_Query : servers -> handle -> bytes -> list value -> servers * (Rows + bytes);
  sql_Close : servers -> handle -> servers;
  io_text : bytes                                                      (* the text of a network error *)
}.

(** ** Addresses *)

Fixpoint last_index (s : bytes) (c : byte) : option nat :=
  match s with
  | [] => None
  | b :: s =>
      match last_index s c with
      | Some i => Some (S i)
      | None => if decide (b = c) then Some O else None
      end
  end.

Definition colon : byte := ":"%char.
Definition open_bracket : byte := "["%char.
Definition close_bracket : byte := "]"%char.

(** [strings.IndexByte], when it is not -1. *)
Definition index_byte (s : bytes) (c : byte) : option nat := fst <$> list_find (fun b => b = c) s.

(** [net.SplitHostPort]; [None] is an error. *)
Definition SplitHostPort (hostport : bytes) : option (bytes * bytes) :=
  i ← last_index hostport colon;
  '(host, j, k) ←
    (if bool_decide (hostport !! 0%nat = Some open_bracket) then
       e ← index_byte hostport close_bracket;
       if decide (S e = length hostport) then None
       else if decide (S e = i) then Some (take (e - 1) (drop 1 hostport), 1%nat, S e)
       else None
     else
       let host := take i hostport in
       if bool_decide (colon ∈ host) then None else Some (host, 0%nat, 0%nat));
  if bool_decide (open_bracket ∈ drop j hostport) || bool_decide (close_bracket ∈ drop k hostport) then None
  else Some (host, drop (S i) hostport).

Section Session.
Context `{Ut : UnicodeTables} `{Cs : CacheService} `{Gv : GoValues} `{Da : !Database} `{Bs : !BatchService} `{Ft : !FloatText} `{Sd : !SqlDriver}.

(** [err.Error()] of an error of the write batch manager. *)
Variable error_text : Executor.error -> bytes.

(** ** State *)

Record connState := MkState {
  lastBackend : bytes;
  shard : bytes;
  lastCacheHit : bool;
  pool : nat;                              (* a location in the heap of pools *)
  user : bytes;
  password : bytes;
  database : bytes;
  primaryDB : handle;
  replicaDBs : gmap bytes handle;
  preparedStatements : gmap bytes bytes;
  boundParams : gmap bytes (list value);
  portalStatements : gmap bytes bytes;
  writeBatch : bool;                       (* the pointer is not nil: it is the proxy's manager *)
  inTransaction : bool;
  lastBatchSize : Z
}.

Record Proxy := MkProxy {
  pconfig : ProxyConfig;
  ppools : pools;
  pwriteBatch : option manager
}.

Inductive event :=
| EOpen (dsn : bytes)
| EQuery (h : handle) (query : bytes) (params : list value)
| EClose (h : handle)
| ELead (key : bytes)                      (* GetOrWait made this session the leader of a flight *)
| ENotify (key value : bytes)
| ECancel (key : bytes)
| EEnqueue (key query : bytes) (params : list value)
| EClientClosed.

Record world := MkSession {
  state : connState;
  client_in : bytes;                       (* what the client has sent and was not read *)
  client_out : bytes;                      (* what was written to the client *)
  client_writes : list bool;               (* whether the next writes succeed; they do from then on *)
  proxy : Proxy;
  pool_heap : list Pool;
  dbs : servers;
  qcache : cache;
  trace : list event
}.

Abbreviation M := (Effects.M world bytes).
Abbreviation respects := (@Effects.respects world bytes _).

Definition self {A} (f : connState -> A) : M A := fun w => (w, Done (f (state w))).
Definition update (f : connState -> connState) : M unit := fun w => (w {{ state ::= f }}, Done tt).
Definition emit (e : event) : M unit := modify (fun w => w {{ trace ::= fun t => t ++ [e] }}).

(** Run [m] and ignore its error. *)
Definition ignoring {A} (m : M A) : M unit := _ ← catch m; mret tt.

(** ** Messages *)

(** [client.Write] *)
Definition client_write (data : bytes) : M unit := fun w =>
  match client_writes w with
  | false :: rest => (w {{ client_writes := rest }}, Fail io_text)
  | [] => (w {{ client_out ::= fun out => out ++ data }}, Done tt)
  | true :: rest => (w {{ client_writes := rest; client_out ::= fun out => out ++ data }}, Done tt)
  end.

Fixpoint write_all (l : list bytes) : M unit :=
  match l with
  | [] => mret tt
  | data :: l => client_write data;; write_all l
  end.
Definition writeMessage (msgType : byte) (payload : bytes) : M unit := write_all (message_writes msgType payload).

Definition read_message : M (byte * bytes) := fun w =>
  match readMessage (client_in w) with
  | None => (w {{ client_in := [] }}, Fail io_text)
  | Some (msgType, payload, rest) => (w {{ client_in := rest }}, Done (msgType, payload))
  end.

Definition read_startup : M bytes := fun w =>
  match readStartupMessage (client_in w) with
  | None => (w {{ client_in := [] }}, Fail io_text)
  | Some (msg, rest) => (w {{ client_in := rest }}, Done msg)
  end.

Definition sendErrorWithSeverity (severity code message : bytes) : M unit :=
  ignoring (writeMessage "E"%char (error_payload severity code message)).
Definition sendError (code message : bytes) : M unit := sendErrorWithSeverity (str "ERROR") code message.
Definition sendFatalError (code message : bytes) : M unit := sendErrorWithSeverity (str "FATAL") code message.
Definition sendParameterStatus (name value : bytes) : M unit := ignoring (writeMessage "S"%char (parameter_status name value)).
Definition send_ready : M unit := ignoring (writeMessage "Z"%char (str "I")).

(** ** Databases *)

Definition backend_dsn (addr user password database : bytes) : bytes :=
  let rest := str " user=" ++ user ++ str " password=" ++ password ++ str " dbname=" ++ database ++ str " sslmode=disable" in
  if (5 <? zlen addr) && bool_decide (take 5 addr = str "unix:") then str "host=" ++ drop 5 addr ++ rest
  else
    match SplitHostPort addr with
    | Some (h, prt) => str "host=" ++ h ++ str " port=" ++ prt ++ rest
    | None => str "host=127.0.0.1 port=5432" ++ rest
    end.

Definition connectToBackend (addr user password database : bytes) : M handle :=
  let dsn := backend_dsn addr user password database in
  emit (EOpen dsn);;
  s ← get dbs;
  let '(s, r) := sql_Open s dsn in
  modify (fun w => w {{ dbs := s }});;
  match r with inl h => mret h | inr e => fail e end.

Definition db_query (h : handle) (query : bytes) (params : list value) : M Rows :=
  emit (EQuery h query params);;
  s ← get dbs;
  let '(s, r) := sql_Query s h query params in
  modify (fun w => w {{ dbs := s }});;
  match r with inl x => mret x | inr e => fail e end.

Definition db_ping (h : handle) : M (option bytes) :=
  s ← get dbs;
  let '(s, r) := sql_Ping s h in
  modify (fun w => w {{ dbs := s }});;
  mret r.

Definition db_close (h : handle) : M unit :=
  emit (EClose h);; modify (fun w => w {{ dbs ::= fun s => sql_Close s h }}).

(** [pool.GetReplica()], which moves the round-robin index. *)
Definition get_replica (l : nat) : M (bytes * bytes) :=
  h ← get pool_heap;
  p ← or_crash (h !! l);
  '(p, r) ← or_crash (GetReplica p);
  modify (fun w => w {{ pool_heap := <[l := p]> h }});;
  mret r.

(** The handle of a replica, opened when the session has none yet; an error to
    open it leaves the primary as the target. *)
Definition replica_handle (addr : bytes) : M (option handle) :=
  c ← self id;
  match replicaDBs c !! addr with
  | Some rdb => mret (Some rdb)
  | None =>
      r ← catch (connectToBackend addr (user c) (password c) (database c));
      match r with
      | inr _ => mret None
      | inl rdb => update (fun c => c {{ replicaDBs ::= <[addr := rdb]> }});; mret (Some rdb)
      end
  end.

(** The database of a statement and the name it is reported with: a replica for
    a cacheable read, the primary for everything else. *)
Definition choose_backend (parsed : ParsedQuery) : M (handle * bytes) :=
  c ← self id;
  if IsCacheable parsed then
    '(addr, name) ← get_replica (pool c);
    if decide (name = str "primary") then mret (primaryDB c, name)
    else
      rdb ← replica_handle addr;
      mret (default (primaryDB c) rdb, name)
  else mret (primaryDB c, str "primary").

(** ** Results *)

(** The messages of a result set, or the tag of a statement without columns. *)
Definition result_messages (r : Rows) (tag : bytes) : bytes :=
  match columns r with
  | [] => commandComplete tag
  | cols =>
      buildRowDescription cols ++ concat (buildDataRow <$> rows r) ++
      commandComplete (str "SELECT " ++ Itoa (zlen (rows r)))
  end.

Definition handleShowTQDBStatus : M unit :=
  c ← self id;
  let backend := if decide (lastBackend c = []) then str "none" else lastBackend c in
  let sized := 0 <? lastBatchSize c in
  let response :=
    buildRowDescription [str "variable_name"; str "value"] ++
    buildDataRow [VString (str "Shard"); VString (shard c)] ++
    buildDataRow [VString (str "Backend"); VString backend] ++
    (if sized then buildDataRow [VString (str "LastBatchSize"); VString (Itoa (lastBatchSize c))] else []) ++
    commandComplete (str "SELECT " ++ Itoa (if sized then 3 else 2)) ++
    readyForQuery in
  ignoring (client_write response).

(** ** The cache and the batches *)

Definition cache_get (key : bytes) : M (option (bytes * Z)) := fun w =>
  let '(q, r) := cache_Get (qcache w) key in (w {{ qcache := q }}, Done r).

(** The leader of a flight is who neither hit nor waited. *)
Definition cache_get_or_wait (key : bytes) : M (option (bytes * Z) * bool) :=
  q ← get qcache;
  let '(q, r) := cache_GetOrWait q key in
  modify (fun w => w {{ qcache := q }});;
  (match r with (None, false) => emit (ELead key) | _ => mret tt end);;
  mret r.

Definition set_and_notify (key value : bytes) (ttl : Z) : M unit :=
  emit (ENotify key value);; modify (fun w => w {{ qcache ::= fun q => cache_SetAndNotify q key value ttl }}).
Definition cancel_inflight (key : bytes) : M unit :=
  emit (ECancel key);; modify (fun w => w {{ qcache ::= fun q => cache_CancelInflight q key }}).

Definition enqueue (key query : bytes) (params : list value) (batchMs : Z) : M WriteResult :=
  p ← get proxy;
  m ← or_crash (pwriteBatch p);
  emit (EEnqueue key query params);;
  let '(m, r) := Enqueue m key query params batchMs in
  modify (fun w => w {{ proxy -> pwriteBatch := Some m }});;
  mret r.

(** The callback of an enqueued write, which runs when the batch is executed. *)
Definition batchCallback (batchSize : Z) (w : world) : world := w {{ state -> lastBatchSize := batchSize }}.

Definition queryTypeLabel (t : QueryType) : bytes :=
  match t with
  | QuerySelect => str "select"
  | QueryInsert => str "insert"
  | QueryUpdate => str "update"
  | QueryDelete => str "delete"
  | QueryUnknown => str "unknown"
  end.

(** The labels of a statement. *)
Definition file_of (parsed : ParsedQuery) : bytes := if decide (File parsed = []) then str "unknown" else File parsed.
Definition line_of (parsed : ParsedQuery) : bytes := if 0 <? Line parsed then Itoa (Line parsed) else str "0".

(** [QueryTotal] and [QueryLatency]. *)
Definition count_query (parsed : ParsedQuery) (hit : bytes) : M unit :=
  let queryType := queryTypeLabel (Type_ parsed) in
  metric QueryTotal [file_of parsed; line_of parsed; queryType; hit];;
  metric QueryLatency [file_of parsed; line_of parsed; queryType].

Definition serve_cached (from cached : bytes) : M unit :=
  update (fun c => c {{ lastBackend := from; lastCacheHit := true }});;
  ignoring (client_write cached).

Definition serve_hit (parsed : ParsedQuery) (from cached : bytes) : M unit :=
  metric CacheHits [file_of parsed; line_of parsed];;
  count_query parsed (str "true");;
  serve_cached from cached.

(** [Get] of [key]: [true] when the statement was answered from the cache. *)
Definition try_cache (parsed : ParsedQuery) (key : bytes) : M bool :=
  hit ← cache_get key;
  match hit with
  | Some (cached, flags) =>
      if flags =? Cache.FlagFresh then serve_hit parsed (str "cache") cached;; mret true
      else if flags =? Cache.FlagStale then serve_hit parsed (str "cache (stale)") cached;; mret true
      else metric CacheMisses [file_of parsed; line_of parsed];; mret false
  | None => metric CacheMisses [file_of parsed; line_of parsed];; mret false
  end.

(** A miss, or the first access to a stale entry: wait for the session that is
    fetching the statement, or become that session. *)
Definition join_flight (parsed : ParsedQuery) : M bool :=
  '(hit, waited) ← cache_get_or_wait (Query parsed);
  match hit, waited with
  | Some (cached, _), true =>
      metric CacheHits [file_of parsed; line_of parsed];;
      serve_cached (str "cache") cached;;
      mret true
  | _, _ => mret false
  end.

(** Batching is tried before a database is chosen. *)
Definition batched (c : connState) (parsed : ParsedQuery) : bool :=
  writeBatch c && negb (inTransaction c) && IsWritable parsed && IsBatchable parsed.

(** ** Simple queries *)

(** A string ends with a zero, which may be missing. *)
Definition trim_zero (payload : bytes) : bytes :=
  if bool_decide (payload !! (length payload - 1)%nat = Some zero) then take (length payload - 1) payload else payload.

Definition track_transaction (queryUpper : bytes) : M unit :=
  if bool_decide (queryUpper = str "BEGIN") || HasPrefix queryUpper (str "BEGIN ") || bool_decide (queryUpper = str "START TRANSACTION")
  then update (fun c => c {{ inTransaction := true }})
  else if bool_decide (queryUpper = str "COMMIT") || bool_decide (queryUpper = str "ROLLBACK")
  then update (fun c => c {{ inTransaction := false }})
  else mret tt.

Definition batch_done (r : WriteResult) : M unit :=
  update (fun c => c {{ lastBackend := str "write-batch"; lastCacheHit := false; lastBatchSize := BatchSize r }}).

Definition batch_messages (r : WriteResult) : bytes :=
  match ReturningValues r with
  | [] => commandComplete (str "INSERT 0 " ++ Itoa (AffectedRows r))
  | vs =>
      buildRowDescription [str "id"] ++ buildDataRow ((fun v => VString (sprint_v v)) <$> vs) ++
      commandComplete (str "INSERT 0 1")
  end.

Definition query_batched (parsed : ParsedQuery) : M unit :=
  r ← enqueue (GetBatchKey parsed) (Query parsed) [] (BatchMs parsed);
  count_query parsed (str "false");;
  match Error r with
  | Some e => sendError (str "42000") (error_text e);; send_ready
  | None =>
      batch_done r;;
      ignoring (client_write (batch_messages r ++ readyForQuery))
  end.

Definition query_on_backend (parsed : ParsedQuery) : M unit :=
  '(targetDB, backendName) ← choose_backend parsed;
  r ← catch (db_query targetDB (Query parsed) []);
  match r with
  | inr e =>
      (if IsCacheable parsed then cancel_inflight (Query parsed) else mret tt);;
      sendError (str "42000") e;;
      send_ready
  | inl rs =>
      let response := result_messages rs (str "OK") ++ readyForQuery in
      update (fun c => c {{ lastBackend := backendName; lastCacheHit := false }});;
      metric DatabaseQueries [backendName];;
      count_query parsed (str "false");;
      (if IsCacheable parsed then set_and_notify (Query parsed) response (ttl_of parsed) else mret tt);;
      ignoring (client_write response)
  end.

(** The cache lookup of a simple query. *)
Definition lookup_cache (parsed : ParsedQuery) : M bool :=
  served ← try_cache parsed (Query parsed);
  if (served : bool) then mret true else join_flight parsed.

Definition handleQuery (payload : bytes) : M unit :=
  let query := trim_zero payload in
  let queryUpper := ToUpper (TrimSpace query) in
  if Contains queryUpper (str "PG_TQDB_STATUS") then handleShowTQDBStatus
  else
    track_transaction queryUpper;;
    let parsed := Parse query in
    answered ← (if IsCacheable parsed then lookup_cache parsed else mret false);
    if (answered : bool) then mret tt
    else
      c ← self id;
      if batched c parsed then query_batched parsed else query_on_backend parsed.

(** ** The extended protocol *)

Definition handleParse (payload : bytes) : M unit :=
  match cut0 payload with
  | None => fail (str "malformed Parse message: no statement name terminator")
  | Some (stmtName, rest) =>
      match cut0 rest with
      | None => fail (str "malformed Parse message: no query terminator")
      | Some (query, _) =>
          update (fun c => c {{ preparedStatements ::= <[stmtName := query]> }});;
          writeMessage "1"%char []
      end
  end.

(** [make] panics when the length is negative or beyond the address space. *)
Definition maxAlloc : Z := 2 ^ 48.
Definition make_bytes (n : Z) : M bytes :=
  if (0 <=? n) && (n <=? maxAlloc) then mret (replicate (Z.to_nat n) zero) else crash.

(** The description of one column of type int4. *)
Definition int4_description (colName : bytes) : bytes :=
  be_enc 2 1 ++ colName ++ [zero] ++ be_enc 4 0 ++ be_enc 2 0 ++ be_enc 4 23 ++ be_enc 2 4 ++ be_enc 4 (2 ^ 32 - 1) ++ be_enc 2 0.

(** The column after RETURNING: up to a blank, a comma or a semicolon. *)
Definition returning_column (returningClause : bytes) : bytes :=
  let colName := TrimSpace returningClause in
  match list_find (fun b => b ∈ str " ,;") colName with
  | Some (idx, _) => take idx colName
  | None => colName
  end.

Definition describe_statement (name : bytes) : M unit :=
  c ← self id;
  match preparedStatements c !! name with
  | None => fail (str "unknown prepared statement: " ++ name)
  | Some query =>
      let numParams := countPostgresParams query in
      paramDesc ← make_bytes (int64 (2 + int64 (numParams * 4)));
      writeMessage "t"%char (be_enc 2 (uint16 numParams) ++ drop 2 paramDesc);;
      let queryUpper := ToUpper query in
      let returningIdx := Index queryUpper (str " RETURNING ") in
      if 0 <=? returningIdx then
        returningClause ← or_crash (slice_from query (returningIdx + 11));
        writeMessage "T"%char (int4_description (returning_column returningClause))
      else writeMessage "n"%char []
  end.

Definition handleDescribe (payload : bytes) : M unit :=
  match payload with
  | descType :: ((_ :: _) as rest) =>
      match cut0 rest with
      | None => fail (str "malformed Describe message: no name terminator")
      | Some (name, _) =>
          if decide (descType = "S"%char) then describe_statement name
          else if decide (descType = "P"%char) then writeMessage "n"%char []
          else fail (str "unknown describe type: " ++ encode_rune (bval descType))
      end
  | _ => fail (str "malformed Describe message: too short")
  end.

Definition handleBind (payload : bytes) : M unit :=
  c ← self id;
  match decode_bind (fun stmtName => bool_decide (is_Some (preparedStatements c !! stmtName))) payload with
  | None => crash
  | Some (inr e) => fail e
  | Some (inl (portalName, stmtName, params)) =>
      update (fun c => c {{ portalStatements ::= <[portalName := stmtName]>; boundParams ::= <[portalName := params]> }});;
      writeMessage "2"%char []
  end.

(** The key of a cached execution. *)
Definition execute_key (database : bytes) (parsed : ParsedQuery) (params : list value) : bytes :=
  str "ps:" ++ sha1_hex (database ++ Query parsed ++ concat (sprint_v <$> params)).

(** The returned value as an int32. *)
Definition returning_int32 (v : value) : Z :=
  match v with
  | VInt Int64 z | VInt Int z => int32 z
  | VInt Int32 z => z
  | _ =>
      match Atoi (sprint_v v) with                         (* strconv.ParseInt(str, 10, 32) *)
      | (i, None) => if (- 2 ^ 31 <=? i) && (i <? 2 ^ 31) then i else 0
      | _ => 0
      end
  end.

Definition execute_batch_messages (r : WriteResult) : bytes :=
  match ReturningValues r with
  | [] => commandComplete (str "INSERT 0 " ++ Itoa (AffectedRows r))
  | val :: _ =>
      encodeMessage "D"%char (be_enc 2 1 ++ be_enc 4 4 ++ be_enc 4 (uint32 (returning_int32 val))) ++
      commandComplete (str "INSERT 0 1")
  end.

Definition execute_batched (parsed : ParsedQuery) (params : list value) : M unit :=
  r ← enqueue (GetBatchKey parsed) (Query parsed) params (BatchMs parsed);
  count_query parsed (str "false");;
  match Error r with
  | Some e => fail (error_text e)
  | None =>
      batch_done r;;
      client_write (execute_batch_messages r)
  end.

Definition execute_on_backend (parsed : ParsedQuery) (params : list value) (cacheKey : option bytes) : M unit :=
  '(targetDB, backendName) ← choose_backend parsed;
  r ← catch (db_query targetDB (Query parsed) params);
  match r with
  | inr e => (match cacheKey with Some k => cancel_inflight k | None => mret tt end);; fail e
  | inl rs =>
      let response := result_messages rs (str "INSERT 0 1") in
      update (fun c => c {{ lastBackend := backendName; lastCacheHit := false }});;
      metric DatabaseQueries [backendName];;
      count_query parsed (str "false");;
      (match cacheKey with Some k => set_and_notify k response (ttl_of parsed) | None => mret tt end);;
      client_write response
  end.

(** The parameters and the query of a portal. *)
Definition portal_of (c : connState) (portalName : bytes) : (bytes * list value) + bytes :=
  let params := default [] (boundParams c !! portalName) in
  let stmtName := default [] (portalStatements c !! portalName) in
  match preparedStatements c !! stmtName with
  | Some query => inl (query, params)
  | None => inr (str "no prepared statement for portal: " ++ portalName ++ str " (statement: " ++ stmtName ++ str ")")
  end.

Definition handleExecute (payload : bytes) : M unit :=
  match cut0 payload with
  | None => fail (str "malformed Execute message: no portal name terminator")
  | Some (portalName, _) =>
      c ← self id;
      match portal_of c portalName with
      | inr e => fail e
      | inl (query, params) =>
          let parsed := Parse query in
          let cacheKey :=
            if IsCacheable parsed && negb (bool_decide (params = [])) then Some (execute_key (database c) parsed params) else None in
          served ← (match cacheKey with Some k => try_cache parsed k | None => mret false end);
          if (served : bool) then mret tt
          else if batched c parsed then execute_batched parsed params
          else execute_on_backend parsed params cacheKey
      end
  end.

(** A name without its terminator loses its last byte. *)
Definition close_name (rest : bytes) : bytes :=
  match cut0 rest with Some (name, _) => name | None => take (length rest - 1) rest end.

Definition handleClose (payload : bytes) : M unit :=
  match payload with
  | closeType :: ((_ :: _) as rest) =>
      let name := close_name rest in
      (if decide (closeType = "S"%char) then update (fun c => c {{ preparedStatements ::= delete name }})
       else if decide (closeType = "P"%char) then update (fun c => c {{ boundParams ::= delete name }})
       else mret tt);;
      ignoring (writeMessage "3"%char [])
  | _ => ignoring (writeMessage "3"%char [])
  end.

(** ** The message loop *)

(** The error of a handler is sent to the client; after Parse and Bind the
    client is told that the session is ready. *)
Definition reporting (m : M unit) (ready : bool) : M unit :=
  r ← catch m;
  match r with
  | inr e => sendError (str "42000") e;; if ready then send_ready else mret tt
  | inl _ => mret tt
  end.

Definition dispatch (msgType : byte) (payload : bytes) : M unit :=
  if decide (msgType = "Q"%char) then handleQuery payload
  else if decide (msgType = "P"%char) then reporting (handleParse payload) true
  else if decide (msgType = "B"%char) then reporting (handleBind payload) true
  else if decide (msgType = "D"%char) then reporting (handleDescribe payload) false
  else if decide (msgType = "E"%char) then reporting (handleExecute payload) false
  else if decide (msgType = "C"%char) then handleClose payload
  else send_ready.                                          (* Sync, and messages that are not handled *)

(** One message: [false] when the loop ends. *)
Definition serve_message : M bool :=
  r ← catch read_message;
  match r with
  | inr _ => mret false
  | inl (msgType, payload) =>
      if decide (msgType = "X"%char) then mret false else dispatch msgType payload;; mret true
  end.

(** Every message that does not end the loop takes five bytes or more of what
    the client sends. *)
Fixpoint message_loop (fuel : nat) : M unit :=
  match fuel with
  | O => fail io_text
  | S fuel => more ← serve_message; if (more : bool) then message_loop fuel else mret tt
  end.
Definition handleMessages : M unit := input ← get client_in; message_loop (S (length input)).

(** ** A connection *)

(** The startup message; an SSL request is denied and the next message read. *)
Definition startup : M bytes :=
  msg ← read_startup;
  if (zlen msg =? 8) && (be_dec (drop 4 msg) =? 80877103)
  then client_write (str "N");; read_startup
  else mret msg.

(** The user, the password and the database of the client. *)
Definition authenticate : M (bytes * bytes * bytes) :=
  startupMsg ← startup;
  let params := parseStartupParams startupMsg in
  let user := default [] (params !! str "user") in
  let database := default [] (params !! str "database") in
  let database := if decide (database = []) then user else database in
  ignoring (writeMessage "R"%char (be_enc 4 3));;
  '(msgType, payload) ← read_message;
  if decide (msgType = "p"%char) then mret (user, trim_zero payload, database)
  else sendError (str "08P01") (str "expected password message");; fail io_text.

Definition greet (connID : Z) : M unit :=
  ignoring (writeMessage "R"%char (be_enc 4 0));;
  sendParameterStatus (str "server_version") (str "16.0");;
  sendParameterStatus (str "client_encoding") (str "UTF8");;
  sendParameterStatus (str "DateStyle") (str "ISO, MDY");;
  sendParameterStatus (str "TimeZone") (str "UTC");;
  ignoring (writeMessage "K"%char (be_enc 4 connID ++ be_enc 4 12345));;
  send_ready.

Definition strip_pq (e : bytes) : bytes := if HasPrefix e (str "pq: ") then drop 4 e else e.

(** The session on an open database, and the replicas it opened. *)
Definition serve_session (connID : Z) (backendName : bytes) (l : nat) (user password database : bytes) (h : handle) : M unit :=
  p ← get proxy;
  greet connID;;
  update (fun _ => MkState [] backendName false l user password database h ∅ ∅ ∅ ∅
                     (bool_decide (is_Some (pwriteBatch p))) false 0);;
  handleMessages;;
  c ← self id;
  foldr (fun h m => db_close h;; m) (mret tt) (snd <$> map_to_list (replicaDBs c)).

Definition login_session (connID : Z) (user password database : bytes) : M unit :=
  p ← get proxy;
  let backendName := shard_of (pconfig p) database in
  match ppools p !! backendName with
  | None => sendFatalError (str "08006") (str "no backend pool configured")
  | Some l =>
      heap ← get pool_heap;
      pl ← or_crash (heap !! l);
      r ← catch (connectToBackend (GetPrimary pl) user password database);
      match r with
      | inr e => sendError (str "08006") (str "cannot connect to backend: " ++ e)
      | inl h =>
          r ← db_ping h;
          (match r with
           | Some e => sendFatalError (str "28P01") (strip_pq e)
           | None => serve_session connID backendName l user password database h
           end);;
          db_close h
      end
  end.

Definition handleConnection (connID : Z) : M unit :=
  r ← catch authenticate;
  (match r with
   | inr _ => mret tt
   | inl (user, password, database) => login_session connID user password database
   end);;
  emit EClientClosed.

(** ** The proxy *)

Definition New (pcfg : ProxyConfig) (ps : pools) : Proxy := MkProxy pcfg ps None.
Definition UpdateConfig (p : Proxy) (pcfg : ProxyConfig) (ps : pools) : Proxy := MkProxy pcfg ps (pwriteBatch p).
End Session.
