(* ===== verification/PgServe.v ===== *)
(** * Package postgres: what a session promises

    Theorems about the session of src/postgres/postgres.go: which statements
    reach a replica, that every flight of the cache is ended, that every query
    is answered by complete messages that end with ReadyForQuery, and that the
    message loop reads everything. *)

From Stdlib Require Import Ascii ZArith Lia.
From stdpp Require Import base list gmap strings numbers.
From coqutil Require Import Datatypes.RecordSetters.
From S2P Require Import Prelude GoStrings BatchText Metrics Executor Parser Replica Cache Config Effects Services MariaWire PgWire PgConn.
Import DoubleBraceUpdate.

Open Scope Z_scope.

Abbreviation M := (Effects.M world bytes).
Abbreviation respects := (@Effects.respects world bytes _).
Abbreviation hoare := (@Effects.hoare world bytes _).
Abbreviation keeps := (@Effects.keeps world bytes _).

Create HintDb pg.

(** ** Events *)

Section Events.
Context `{Ut : UnicodeTables} `{Cs : CacheService} `{Gv : GoValues} `{Da : !Database} `{Bs : !BatchService} `{Ft : !FloatText} `{Sd : !SqlDriver}.

(** The keys of the flights that are open after a sequence of events. *)
Fixpoint open_after (evs : list event) (s : gset bytes) : gset bytes :=
  match evs with
  | [] => s
  | ELead k :: evs => open_after evs ({[k]} ∪ s)
  | ENotify k _ :: evs | ECancel k :: evs => open_after evs (s ∖ {[k]})
  | _ :: evs => open_after evs s
  end.
Definition flights (w : world) : gset bytes := open_after (trace w) ∅.

Lemma pg_open_after_app e1 e2 : forall s, open_after (e1 ++ e2) s = open_after e2 (open_after e1 s).
Proof. induction e1 as [|[] e1 IH]; intros s; cbn; auto. Qed.

Definition no_flight (e : event) : bool := match e with ELead _ | ENotify _ _ | ECancel _ => false | _ => true end.

(** ** Steps that leave the client, the cache and the flights alone *)

Class Framed (I : world -> Prop) := framed w w' :
  client_out w' = client_out w -> client_writes w' = client_writes w -> qcache w' = qcache w -> flights w' = flights w -> I w -> I w'.

Context (I : world -> Prop) `{!Framed I}.

Lemma frame_update f : keeps I (update f).
Proof. intros [] HI. by refine (framed (I := I) _ _ _ _ _ _ HI). Qed.
Lemma frame_modify f : (forall w, client_out (f w) = client_out w /\ client_writes (f w) = client_writes w /\ qcache (f w) = qcache w /\
  trace (f w) = trace w) -> keeps I (modify f).
Proof. intros Hf w HI. cbn. destruct (Hf w) as (H1 & H2 & H3 & H4). refine (framed (I := I) _ _ H1 H2 H3 _ HI). unfold flights. by rewrite H4. Qed.
Lemma frame_emit e : no_flight e = true -> keeps I (emit e).
Proof.
  intros He []. intros HI. refine (framed (I := I) _ _ _ _ _ _ HI); [done..|]. unfold flights. cbn. rewrite pg_open_after_app.
  by destruct e.
Qed.
Lemma frame_self {A} (f : connState -> A) : keeps I (self f).
Proof. intros w HI. exact HI. Qed.
Lemma frame_metric c ls : keeps I (metric c ls).
Proof. unfold metric. destruct (WithLabelValues _ _ _); [apply keeps_ret|apply keeps_crash]. Qed.
Lemma frame_read_message : keeps I read_message.
Proof. intros [] HI. unfold read_message. destruct (readMessage _) as [[[] ]|]; by refine (framed (I := I) _ _ _ _ _ _ HI). Qed.
End Events.

#[export] Hint Resolve keeps_ret keeps_fail keeps_crash keeps_get keeps_or_crash frame_update frame_self frame_metric
  frame_read_message : pg.
#[export] Hint Extern 1 (Effects.keeps _ (modify _)) => apply frame_modify; [apply _|by intros []] : pg.
#[export] Hint Extern 1 (Effects.keeps _ (emit _)) => apply frame_emit; [apply _|reflexivity] : pg.

(** Goes through the binds and branches of a handler. *)
Ltac keeps_auto :=
  repeat (intros; cbv beta zeta; first
    [ solve [eauto 3 with pg typeclass_instances]
    | apply keeps_bind
    | apply keeps_catch
    | match goal with
      | |- Effects.keeps _ (match ?x with _ => _ end) => destruct x
      end ]).

Section Frames.
Context `{Ut : UnicodeTables} `{Cs : CacheService} `{Gv : GoValues} `{Da : !Database} `{Bs : !BatchService} `{Ft : !FloatText} `{Sd : !SqlDriver}.
Context (I : world -> Prop) `{!Framed I}.

Lemma frame_connectToBackend a u p d : keeps I (connectToBackend a u p d).
Proof. unfold connectToBackend. keeps_auto. Qed.
Lemma frame_db_query h q ps : keeps I (db_query h q ps).
Proof. unfold db_query. keeps_auto. Qed.
Lemma frame_get_replica l : keeps I (get_replica l).
Proof. unfold get_replica. keeps_auto. Qed.
Hint Resolve frame_connectToBackend frame_get_replica : pg.
Lemma frame_choose_backend p : keeps I (choose_backend p).
Proof. unfold choose_backend, replica_handle. keeps_auto. Qed.
Lemma frame_enqueue k q ps b : keeps I (enqueue k q ps b).
Proof. unfold enqueue. keeps_auto. Qed.
Lemma frame_count_query p h : keeps I (count_query p h).
Proof. unfold count_query. keeps_auto. Qed.
Lemma frame_track_transaction q : keeps I (track_transaction q).
Proof. unfold track_transaction. keeps_auto. Qed.
Lemma frame_batch_done r : keeps I (batch_done r).
Proof. unfold batch_done. keeps_auto. Qed.
End Frames.

#[export] Hint Resolve frame_connectToBackend frame_db_query frame_get_replica frame_choose_backend frame_enqueue frame_count_query
  frame_track_transaction frame_batch_done : pg.

(** A handler that reports its errors has none. *)
Ltac no_error_auto :=
  repeat (intros; cbv beta zeta; first
    [ solve [auto with pg]
    | apply no_error_catch
    | apply no_error_or_crash
    | apply no_error_bind
    | match goal with
      | |- no_error (match ?x with _ => _ end) => destruct x
      end
    | solve [intros ? ? ?; discriminate] ]).

Section NoErrors.
Context `{Ut : UnicodeTables} `{Cs : CacheService} `{Gv : GoValues} `{Da : !Database} `{Bs : !BatchService} `{Ft : !FloatText} `{Sd : !SqlDriver}.
Variable error_text : Executor.error -> bytes.

Lemma pg_no_error_metric c ls : no_error (metric (W := world) (E := bytes) c ls).
Proof. unfold metric. by destruct (WithLabelValues _ _ _). Qed.
Hint Resolve pg_no_error_metric : pg.
Lemma no_error_ignoring {A} (m : M A) : no_error (ignoring m).
Proof. unfold ignoring. no_error_auto. Qed.
Hint Resolve no_error_ignoring : pg.
Lemma no_error_cache_get k : no_error (cache_get k).
Proof. intros w w' e. unfold cache_get. by destruct (cache_Get _ _). Qed.
Hint Resolve no_error_cache_get : pg.
Lemma no_error_choose_backend p : no_error (choose_backend p).
Proof. unfold choose_backend, get_replica, replica_handle. no_error_auto. Qed.
Hint Resolve no_error_choose_backend : pg.
Lemma no_error_count_query p h : no_error (count_query p h).
Proof. unfold count_query. no_error_auto. Qed.
Hint Resolve no_error_count_query : pg.
Lemma no_error_try_cache p k : no_error (try_cache p k).
Proof. unfold try_cache, serve_hit, serve_cached. no_error_auto. Qed.
Hint Resolve no_error_try_cache : pg.
Lemma no_error_lookup_cache p : no_error (lookup_cache p).
Proof. unfold lookup_cache, join_flight, cache_get_or_wait, serve_cached. no_error_auto. Qed.
Hint Resolve no_error_lookup_cache : pg.
Lemma no_error_handleQuery p : no_error (handleQuery error_text p).
Proof.
  unfold handleQuery, handleShowTQDBStatus, track_transaction, query_batched, query_on_backend, batch_done, enqueue, cancel_inflight,
    set_and_notify, sendError, sendErrorWithSeverity, send_ready.
  no_error_auto.
Qed.
Hint Resolve no_error_handleQuery : pg.
Lemma no_error_dispatch t p : no_error (dispatch error_text t p).
Proof. unfold dispatch, reporting, handleClose, sendError, sendErrorWithSeverity, send_ready. no_error_auto. Qed.
End NoErrors.
#[export] Hint Resolve pg_no_error_metric no_error_ignoring no_error_cache_get no_error_choose_backend no_error_count_query
  no_error_try_cache no_error_lookup_cache no_error_handleQuery no_error_dispatch : pg.

(** ** Flights *)

(** A step of a handler that returns no error and keeps the condition. *)
Ltac step := apply hoare_step; [no_error_auto|solve [keeps_auto]|intros ?; cbv beta].

Section Flights.
Context `{Ut : UnicodeTables} `{Cs : CacheService} `{Gv : GoValues} `{Da : !Database} `{Bs : !BatchService} `{Ft : !FloatText} `{Sd : !SqlDriver}.
Variable error_text : Executor.error -> bytes.

Definition among (X : gset bytes) (w : world) : Prop := flights w ⊆ X.
Definition idle : world -> Prop := among ∅.

#[local] Instance among_framed X : Framed (among X).
Proof. intros w w' _ _ _ E. unfold among. by rewrite E. Qed.

Lemma among_client_write X d : keeps (among X) (client_write d).
Proof. intros [] HI. unfold client_write. cbn. by destruct client_writes as [|[] ?]. Qed.
Hint Resolve among_client_write : pg.
Lemma among_ignoring {A} X (m : M A) : keeps (among X) m -> keeps (among X) (ignoring m).
Proof. unfold ignoring. keeps_auto. Qed.
Hint Resolve among_ignoring : pg.
Lemma among_write_all X l : keeps (among X) (write_all l).
Proof. induction l as [|d l IH]; cbn [write_all]; keeps_auto. Qed.
Hint Resolve among_write_all : pg.
Lemma among_writeMessage X t p : keeps (among X) (writeMessage t p).
Proof. unfold writeMessage. keeps_auto. Qed.
Hint Resolve among_writeMessage : pg.
Lemma among_sendError X c t : keeps (among X) (sendError c t).
Proof. unfold sendError, sendErrorWithSeverity. keeps_auto. Qed.
Hint Resolve among_sendError : pg.
Lemma among_send_ready X : keeps (among X) send_ready.
Proof. unfold send_ready. keeps_auto. Qed.
Hint Resolve among_send_ready : pg.
Lemma among_cache_get X k : keeps (among X) (cache_get k).
Proof. intros [] HI. unfold cache_get. cbn. by destruct (cache_Get _ _). Qed.
Hint Resolve among_cache_get : pg.
Lemma among_serve_cached X from v : keeps (among X) (serve_cached from v).
Proof. unfold serve_cached. keeps_auto. Qed.
Hint Resolve among_serve_cached : pg.
Lemma among_try_cache X p k : keeps (among X) (try_cache p k).
Proof. unfold try_cache, serve_hit. keeps_auto. Qed.
Hint Resolve among_try_cache : pg.

(** The operations on flights. *)
Lemma flight_join p : hoare idle (join_flight p) (fun served => among (if (served : bool) then ∅ else {[Query p]})) (fun _ _ => False).
Proof.
  unfold join_flight. eapply hoare_bind.
  - apply (hoare_post _ _ (fun r => among (match r with (None, false) => {[Query p]} | _ => ∅ end)) _ (fun _ _ => False) _ (fun _ _ H => H) (fun _ _ H => H)).
    intros w Hw. unfold cache_get_or_wait, get, modify, emit, mbind, session_bind, mret, session_ret. cbn. destruct w. cbn.
    destruct (cache_GetOrWait _ _) as [q' [[hit|] []]]; cbn; [done..|]. unfold idle, among, flights in *. cbn in *. rewrite pg_open_after_app. cbn. set_solver.
  - intros [[[v fl]|] []]; cbv beta iota; try (apply hoare_ret; unfold among; set_solver).
    step. step. by apply hoare_ret.
Qed.

Lemma flight_lookup p : hoare idle (lookup_cache p) (fun served => among (if (served : bool) then ∅ else {[Query p]})) (fun _ _ => False).
Proof. unfold lookup_cache. step. destruct x; [by apply hoare_ret|apply flight_join]. Qed.

(** Ending the flight [k]. *)
Lemma flight_cancel k F : hoare (among {[k]}) (cancel_inflight k) (fun _ => idle) F.
Proof.
  intros [] Hw. unfold cancel_inflight, emit, modify, mbind, session_bind. cbn. unfold idle, among, flights in *. cbn in *.
  rewrite pg_open_after_app. cbn. set_solver.
Qed.
Lemma flight_notify k v ttl F : hoare (among {[k]}) (set_and_notify k v ttl) (fun _ => idle) F.
Proof.
  intros [] Hw. unfold set_and_notify, emit, modify, mbind, session_bind. cbn. unfold idle, among, flights in *. cbn in *.
  rewrite pg_open_after_app. cbn. set_solver.
Qed.
Lemma idle_cancel k : keeps idle (cancel_inflight k).
Proof. eapply hoare_pre; [|apply flight_cancel]. unfold idle, among. set_solver. Qed.
Lemma idle_notify k v ttl : keeps idle (set_and_notify k v ttl).
Proof. eapply hoare_pre; [|apply flight_notify]. unfold idle, among. set_solver. Qed.
Hint Resolve idle_cancel idle_notify : pg.

Lemma flight_backend p : IsCacheable p = true -> hoare (among {[Query p]}) (query_on_backend p) (fun _ => idle) (fun _ => idle).
Proof.
  intros Hc. unfold query_on_backend. rewrite Hc. step. destruct x as [h name]. step. destruct x as [rs|e].
  - do 3 step. eapply hoare_bind; [apply flight_notify|]. intros []. cbv beta. apply (among_ignoring ∅). keeps_auto.
  - eapply hoare_bind; [apply flight_cancel|]. intros []. cbv beta. apply (keeps_bind (among ∅)); keeps_auto.
Qed.

Lemma cacheable_not_batched c p : IsCacheable p = true -> batched c p = false.
Proof.
  unfold IsCacheable, batched, IsWritable. intros Hc. bool_simpl. rewrite H. rewrite (bool_decide_eq_false_2 (QuerySelect = QueryInsert)) by done.
  cbn. by rewrite !andb_false_r.
Qed.

Lemma idle_handleShowTQDBStatus : keeps idle handleShowTQDBStatus.
Proof. unfold handleShowTQDBStatus. keeps_auto. Qed.
Lemma idle_query_batched p : keeps idle (query_batched error_text p).
Proof. unfold query_batched. keeps_auto. Qed.
Lemma idle_query_on_backend p : IsCacheable p = false -> keeps idle (query_on_backend p).
Proof. intros Hc. unfold query_on_backend. rewrite Hc. keeps_auto. Qed.

Lemma idle_handleQuery payload : keeps idle (handleQuery error_text payload).
Proof.
  unfold handleQuery. cbv zeta. destruct (Contains _ _); [apply idle_handleShowTQDBStatus|]. apply keeps_bind; [keeps_auto|]. intros _.
  set (parsed := Parse _). destruct (IsCacheable parsed) eqn:Hc.
  - eapply hoare_bind; [eapply hoare_post, flight_lookup; [by auto|done]|]. intros []; [apply keeps_ret|]. cbv beta iota.
    step. rewrite cacheable_not_batched by done.
    by apply flight_backend.
  - apply keeps_bind; [apply keeps_ret|]. intros []; [apply keeps_ret|]. apply keeps_bind; [keeps_auto|]. intros c.
    destruct (batched c parsed); [apply idle_query_batched|by apply idle_query_on_backend].
Qed.
Hint Resolve idle_handleQuery : pg.

Lemma idle_handleExecute payload : keeps idle (handleExecute error_text payload).
Proof. unfold handleExecute, execute_batched, execute_on_backend. keeps_auto. Qed.
Hint Resolve idle_handleExecute : pg.

Lemma idle_dispatch t p : keeps idle (dispatch error_text t p).
Proof.
  unfold dispatch, reporting, handleParse, handleBind, handleDescribe, describe_statement, make_bytes, handleClose. keeps_auto.
Qed.
Hint Resolve idle_dispatch : pg.

Lemma idle_message_loop n : keeps idle (message_loop error_text n).
Proof. induction n as [|n IH]; cbn [message_loop]; unfold serve_message; keeps_auto. Qed.
End Flights.

(** ** The message loop *)

Section Loop.
Context `{Ut : UnicodeTables} `{Cs : CacheService} `{Gv : GoValues} `{Da : !Database} `{Bs : !BatchService} `{Ft : !FloatText} `{Sd : !SqlDriver}.
Variable error_text : Executor.error -> bytes.

Definition unread (s : bytes) (w : world) : Prop := client_in w = s.

Lemma unread_update s f : keeps (unread s) (update f).
Proof. by intros []. Qed.
Lemma unread_modify s f : (forall w, client_in (f w) = client_in w) -> keeps (unread s) (modify f).
Proof. intros Hf w Hw. unfold unread. cbn. by rewrite Hf. Qed.
Lemma unread_emit s e : keeps (unread s) (emit e).
Proof. by intros []. Qed.
Lemma unread_self {A} s (f : connState -> A) : keeps (unread s) (self f).
Proof. by intros []. Qed.
Lemma unread_metric s c ls : keeps (unread s) (metric c ls).
Proof. unfold metric. destruct (WithLabelValues _ _ _); [apply keeps_ret|apply keeps_crash]. Qed.
Lemma unread_client_write s d : keeps (unread s) (client_write d).
Proof. intros [] Hw. unfold client_write. cbn. by destruct client_writes as [|[] ?]. Qed.
Lemma unread_cache_get s k : keeps (unread s) (cache_get k).
Proof. intros [] Hw. unfold cache_get. cbn. by destruct (cache_Get _ _). Qed.
Hint Resolve unread_update unread_emit unread_self unread_metric unread_client_write unread_cache_get : pg.
Hint Extern 1 (Effects.keeps (unread _) (modify _)) => apply unread_modify; by intros [] : pg.

Lemma unread_writeMessage s t p : keeps (unread s) (writeMessage t p).
Proof. unfold writeMessage, message_writes. cbn [write_all]. keeps_auto. Qed.
Hint Resolve unread_writeMessage : pg.
Lemma unread_ignoring {A} s (m : M A) : keeps (unread s) m -> keeps (unread s) (ignoring m).
Proof. unfold ignoring. keeps_auto. Qed.
Hint Resolve unread_ignoring : pg.
Lemma unread_sendError s c t : keeps (unread s) (sendError c t).
Proof. unfold sendError, sendErrorWithSeverity. keeps_auto. Qed.
Hint Resolve unread_sendError : pg.
Lemma unread_send_ready s : keeps (unread s) send_ready.
Proof. unfold send_ready. keeps_auto. Qed.
Hint Resolve unread_send_ready : pg.
Lemma unread_choose_backend s p : keeps (unread s) (choose_backend p).
Proof. unfold choose_backend, get_replica, replica_handle, connectToBackend. keeps_auto. Qed.
Hint Resolve unread_choose_backend : pg.
Lemma unread_db_query s h q ps : keeps (unread s) (db_query h q ps).
Proof. unfold db_query. keeps_auto. Qed.
Hint Resolve unread_db_query : pg.
Lemma unread_enqueue s k q ps b : keeps (unread s) (enqueue k q ps b).
Proof. unfold enqueue. keeps_auto. Qed.
Hint Resolve unread_enqueue : pg.
Lemma unread_try_cache s p k : keeps (unread s) (try_cache p k).
Proof. unfold try_cache, serve_hit, count_query, serve_cached. keeps_auto. Qed.
Hint Resolve unread_try_cache : pg.
Lemma unread_handleQuery s p : keeps (unread s) (handleQuery error_text p).
Proof.
  unfold handleQuery, handleShowTQDBStatus, track_transaction, lookup_cache, join_flight, cache_get_or_wait, serve_cached,
    query_batched, query_on_backend, batch_done, count_query, set_and_notify, cancel_inflight. keeps_auto.
Qed.
Hint Resolve unread_handleQuery : pg.
Lemma unread_handleExecute s p : keeps (unread s) (handleExecute error_text p).
Proof.
  unfold handleExecute, execute_batched, execute_on_backend, batch_done, count_query, set_and_notify, cancel_inflight. keeps_auto.
Qed.
Hint Resolve unread_handleExecute : pg.
Lemma unread_dispatch s t p : keeps (unread s) (dispatch error_text t p).
Proof.
  unfold dispatch, reporting, handleParse, handleBind, handleDescribe, describe_statement, make_bytes, handleClose. keeps_auto.
Qed.

Lemma readMessage_suffix s t p rest : readMessage s = Some (t, p, rest) -> exists pre, s = pre ++ rest /\ (5 <= length pre)%nat.
Proof.
  unfold readMessage. assert (Hf : forall n i a b, read_full n i = Some (a, b) -> i = a ++ b /\ length a = Z.to_nat n).
  { unfold read_full. intros n i a b. destruct (Z.leb_spec n (zlen i)); [|done]. intros [= <- <-]. rewrite take_drop.
    split; [done|]. rewrite length_take. unfold zlen in *. lia. }
  destruct (read_full 1 s) as [[a s1]|] eqn:E1; [|done]. cbn [mbind option_bind]. destruct (read_full 4 s1) as [[b s2]|] eqn:E2; [|done].
  cbn [mbind option_bind]. destruct (a !! 0%nat); [|done]. cbn [mbind option_bind].
  destruct (read_full _ s2) as [[c s3]|] eqn:E3; [|done]. cbn. intros [= <- <- <-].
  apply Hf in E1 as [-> L1], E2 as [-> L2], E3 as [-> _]. exists (a ++ b ++ c). rewrite !app_assoc. split; [done|].
  rewrite !length_app. lia.
Qed.

(** The loop goes on after a message of five bytes or more, and ends when there
    is no further message or the client says so. *)
Lemma serve_message_reads w : match serve_message error_text w with
  | (w', Done true) => exists pre, client_in w = pre ++ client_in w' /\ (5 <= length pre)%nat
  | (w', Done false) => client_in w' = [] \/ exists payload, readMessage (client_in w) = Some ("X"%char, payload, client_in w')
  | (_, Fail _) => False
  | (_, Crash) => True
  end.
Proof.
  unfold serve_message, mbind at 1, session_bind at 1, catch, read_message. destruct (readMessage (client_in w)) as [[[t p] rest]|] eqn:Er.
  - set (w1 := w {{ client_in := rest }}). assert (E1 : client_in w1 = rest) by by destruct w. destruct (decide (t = _)) as [->|Ht].
    + cbn. right. exists p. by destruct w.
    + unfold mbind, session_bind. pose proof (unread_dispatch rest t p w1 E1) as Hd. destruct (dispatch _ t p w1) as [w2 [[]|e|]] eqn:Ed.
      * cbn. rewrite Hd. by eapply readMessage_suffix.
      * by apply no_error_dispatch in Ed.
      * done.
  - cbn. left. by destruct w.
Qed.

Lemma message_loop_reads n : forall w, (length (client_in w) < n)%nat -> exists w',
  message_loop error_text n w = (w', Crash) \/
  message_loop error_text n w = (w', Done tt) /\ exists s, s `suffix_of` client_in w /\
    (client_in w' = [] \/ exists payload, readMessage s = Some ("X"%char, payload, client_in w')).
Proof.
  induction n as [|n IH]; intros w Hn; [lia|]. cbn [message_loop]. unfold mbind, session_bind.
  pose proof (serve_message_reads w) as Hs. destruct (serve_message error_text w) as [w1 [[]|e|]]; [| |done|].
  - destruct Hs as (pre & Ew & Hp). destruct (IH w1) as [w' Hw]; [rewrite Ew, length_app in Hn; lia|].
    exists w'. destruct Hw as [Hw|(Hw & s & Hs & Hr)]; [by left|right]. split; [done|]. exists s. split; [|done].
    rewrite Ew. etrans; [exact Hs|]. by apply suffix_app_r.
  - exists w1. right. split; [done|]. by exists (client_in w).
  - exists w1. by left.
Qed.
End Loop.

(** ** Answers *)

Definition messages (ms : list (byte * bytes)) : bytes := concat ((fun m => encodeMessage m.1 m.2) <$> ms).

(** Complete messages, of which ReadyForQuery is the last and only the last. *)
Definition answer (r : bytes) : Prop :=
  exists ms, r = messages ms ++ readyForQuery /\ Forall (fun m : byte * bytes => m.1 <> "Z"%char) ms.

(** What is in the cache under the keys of simple queries. *)
Definition entry_ok (k v : bytes) : Prop := HasPrefix k (str "ps:") = true \/ answer v.

(** A cache that gives only what was stored. *)
Class CacheContents `{CacheService} (P : bytes -> bytes -> Prop) := {
  only : cache -> Prop;
  only_get q k q' r : only q -> cache_Get q k = (q', r) -> only q' /\ forall v f, r = Some (v, f) -> P k v;
  only_wait q k q' r b : only q -> cache_GetOrWait q k = (q', (r, b)) -> only q' /\ forall v f, r = Some (v, f) -> P k v;
  only_set q k v ttl : only q -> P k v -> only (cache_SetAndNotify q k v ttl);
  only_cancel q k : only q -> only (cache_CancelInflight q k)
}.

(** The messages of a client that reads [s] to its end. *)
Fixpoint read_messages (fuel : nat) (s : bytes) : option (list (byte * bytes)) :=
  match s, fuel with
  | [], _ => Some []
  | _, O => None
  | _, S fuel => '(t, p, s) ← readMessage s; ms ← read_messages fuel s; Some ((t, p) :: ms)
  end.

Lemma messages_app a b : messages (a ++ b) = messages a ++ messages b.
Proof. unfold messages. by rewrite fmap_app, concat_app. Qed.

Lemma read_messages_run ms : forall fuel, (length ms <= fuel)%nat -> zlen (messages ms) < 2 ^ 32 -> read_messages fuel (messages ms) = Some ms.
Proof.
  induction ms as [|[t p] ms IH]; intros fuel Hf Hl; [by destruct fuel|]. unfold messages in *. rewrite fmap_cons in *. cbn [concat fst snd] in *.
  set (rest := concat _) in *. destruct fuel as [|fuel]; [cbn in Hf; lia|].
  assert (Hz : zlen (encodeMessage t p) = zlen p + 5) by (unfold encodeMessage; rewrite zlen_cons, zlen_app, zlen_be_enc; lia).
  pose proof (zlen_nonneg rest). pose proof (zlen_nonneg p). rewrite zlen_app, Hz in Hl.
  assert (Ep : fits p = true) by (unfold fits; apply Z.ltb_lt; lia).
  replace (read_messages (S fuel) (encodeMessage t p ++ rest)) with
    ('(t', p', s) ← readMessage (encodeMessage t p ++ rest); ms' ← read_messages fuel s; Some ((t', p') :: ms')) by done.
  rewrite readMessage_encode by done. cbn [mbind option_bind]. rewrite IH; [done|cbn in Hf; lia|lia].
Qed.

Lemma length_messages ms : (length ms <= length (messages ms))%nat.
Proof.
  induction ms as [|m ms IH]; [done|]. change (m :: ms) with ([m] ++ ms). rewrite messages_app, !length_app.
  assert (1 <= length (messages [m]))%nat by (unfold messages; cbn; lia). cbn [length]. lia.
Qed.

(** A client reads an answer as messages. *)
Lemma answer_read r : answer r -> zlen r < 2 ^ 32 -> exists ms, read_messages (length r) r = Some (ms ++ [("Z"%char, str "I")]) /\
  Forall (fun m : byte * bytes => m.1 <> "Z"%char) ms.
Proof.
  intros (ms & -> & Hms) Hl. exists ms. split; [|done].
  assert (E : messages ms ++ readyForQuery = messages (ms ++ [("Z"%char, str "I")])).
  { rewrite messages_app. f_equal. }
  rewrite E in *. apply read_messages_run; [apply length_messages|done].
Qed.

Section Answers.
Context `{Ut : UnicodeTables} `{Cs : CacheService} `{Gv : GoValues} `{Da : !Database} `{Bs : !BatchService} `{Ft : !FloatText} `{Sd : !SqlDriver}.
Context `{Cc : !CacheContents entry_ok}.
Variable error_text : Executor.error -> bytes.

(** Nothing was written since [out]; [r] was. *)
Definition silent (out : bytes) (w : world) : Prop := client_out w = out /\ client_writes w = [] /\ only (qcache w).
Definition replied (out : bytes) (w : world) : Prop := exists r, answer r /\ silent (out ++ r) w.

#[local] Instance silent_framed out : Framed (silent out).
Proof. intros w w' E1 E2 E3 _. unfold silent. by rewrite E1, E2, E3. Qed.

Lemma silent_client_write out d F : hoare (silent out) (client_write d) (fun _ => silent (out ++ d)) F.
Proof. intros [] (E1 & E2 & E3). unfold client_write. cbn in *. subst. by repeat split. Qed.

Lemma silent_writeMessage out t p F : hoare (silent out) (writeMessage t p) (fun _ => silent (out ++ encodeMessage t p)) F.
Proof.
  unfold writeMessage, message_writes. cbn [write_all]. do 3 (eapply hoare_bind; [apply silent_client_write|]; intros []; cbv beta).
  apply hoare_ret. intros w Hw. unfold encodeMessage. by rewrite <- !app_assoc in Hw.
Qed.

Lemma silent_ignoring {A} out d (m : M A) F : (forall F, hoare (silent out) m (fun _ => silent (out ++ d)) F) ->
  hoare (silent out) (ignoring m) (fun _ => silent (out ++ d)) F.
Proof.
  intros Hm. unfold ignoring. apply (hoare_bind _ _ _ (fun _ => silent (out ++ d))); [|intros x; by apply hoare_ret].
  eapply (hoare_catch _ m _ (fun _ _ => False) (fun _ => silent (out ++ d))); [apply Hm|done|done].
Qed.

Lemma reply_write out r F : answer r -> hoare (silent out) (ignoring (client_write r)) (fun _ => replied out) F.
Proof.
  intros Hr. eapply (hoare_post _ _ (fun _ => silent (out ++ r)) _ F F); [|done|].
  - intros x w Hw. by exists r.
  - apply silent_ignoring. intros F'. apply silent_client_write.
Qed.

Lemma reply_error out c t F : hoare (silent out) (sendError c t;; send_ready) (fun _ => replied out) F.
Proof.
  unfold sendError, sendErrorWithSeverity, send_ready. set (e := error_payload _ _ _).
  eapply hoare_bind; [apply silent_ignoring; intros F'; apply silent_writeMessage|]. intros []. cbv beta.
  eapply (hoare_post _ _ (fun _ => silent ((out ++ encodeMessage "E"%char e) ++ readyForQuery)) _ F F); [|done|].
  - intros x w Hw. exists (encodeMessage "E"%char e ++ readyForQuery). split; [|by rewrite app_assoc].
    exists [("E"%char, e)]. split; [by unfold messages; cbn [fmap list_fmap concat fst snd]; rewrite app_nil_r|]. by repeat constructor.
  - apply silent_ignoring. intros F'. apply silent_writeMessage.
Qed.

(** *** What the handlers build *)

Lemma answer_messages ms : Forall (fun m : byte * bytes => m.1 <> "Z"%char) ms -> answer (messages ms ++ readyForQuery).
Proof. intros Hms. by exists ms. Qed.

Lemma result_is_messages rs tag : exists ms, result_messages rs tag = messages ms /\ Forall (fun m : byte * bytes => m.1 <> "Z"%char) ms.
Proof.
  unfold result_messages. destruct (columns rs) as [|col cols].
  - exists [("C"%char, tag ++ [zero])]. split; [unfold messages; cbn [fmap list_fmap concat fst snd]; by rewrite app_nil_r|by repeat constructor].
  - set (n := str "SELECT " ++ _).
    exists ([("T"%char, be_enc 2 (uint16 (zlen (col :: cols))) ++ concat (field_description <$> col :: cols))] ++
      ((fun r => ("D"%char, data_row r)) <$> rows rs) ++ [("C"%char, n ++ [zero])]).
    rewrite !messages_app. split.
    + unfold messages. cbn [fmap list_fmap concat fst snd]. rewrite !app_nil_r. f_equal. f_equal. f_equal.
      rewrite <- list_fmap_compose. done.
    + apply list.Forall_app. split; [by repeat constructor|]. apply list.Forall_app. split; [|by repeat constructor].
      apply Forall_fmap, Forall_forall. by intros r _.
Qed.

Lemma batch_is_messages r : exists ms, batch_messages r = messages ms /\ Forall (fun m : byte * bytes => m.1 <> "Z"%char) ms.
Proof.
  unfold batch_messages. destruct (ReturningValues r) as [|v vs]; [eexists [(_, _)]|eexists [(_, _); (_, _); (_, _)]];
    (split; [unfold messages; cbn [fmap list_fmap concat fst snd]; rewrite app_nil_r; reflexivity|by repeat constructor]).
Qed.

Lemma reply_messages out d F : (exists ms, d = messages ms /\ Forall (fun m : byte * bytes => m.1 <> "Z"%char) ms) ->
  hoare (silent out) (ignoring (client_write (d ++ readyForQuery))) (fun _ => replied out) F.
Proof. intros (ms & -> & Hms). apply reply_write. by apply answer_messages. Qed.
(** *** The cache *)

Definition found (k : bytes) (r : option (bytes * Z)) : Prop := forall v f, r = Some (v, f) -> entry_ok k v.

Lemma silent_cache_get out k F : hoare (silent out) (cache_get k) (fun r w => silent out w /\ found k r) F.
Proof.
  intros [] (E1 & E2 & E3). unfold cache_get. cbn in *. destruct (cache_Get qcache k) as [q' r] eqn:Eg.
  destruct (only_get _ _ _ _ E3 Eg) as [H1 H2]. by repeat split.
Qed.

Lemma silent_get_or_wait out k F : hoare (silent out) (cache_get_or_wait k) (fun r w => silent out w /\ found k r.1) F.
Proof.
  intros [] (E1 & E2 & E3). unfold cache_get_or_wait, get, emit, modify, mbind, session_bind, mret, session_ret. cbn in *.
  destruct (cache_GetOrWait qcache k) as [q' [r b]] eqn:Eg. destruct (only_wait _ _ _ _ _ E3 Eg) as [H1 H2].
  destruct r as [hit|], b; by repeat split.
Qed.

Lemma silent_notify out k v ttl F : entry_ok k v -> hoare (silent out) (set_and_notify k v ttl) (fun _ => silent out) F.
Proof.
  intros Hv [] (E1 & E2 & E3). unfold set_and_notify, emit, modify, mbind, session_bind. cbn in *. repeat split; [done..|].
  by apply only_set.
Qed.

Lemma silent_cancel out k F : hoare (silent out) (cancel_inflight k) (fun _ => silent out) F.
Proof.
  intros [] (E1 & E2 & E3). unfold cancel_inflight, emit, modify, mbind, session_bind. cbn in *. repeat split; [done..|].
  by apply only_cancel.
Qed.

Lemma found_answer k v f : HasPrefix k (str "ps:") = false -> found k (Some (v, f)) -> answer v.
Proof. intros Hk Hf. destruct (Hf v f eq_refl) as [He|He]; [congruence|done]. Qed.

Lemma reply_cached out from v F : answer v -> hoare (silent out) (serve_cached from v) (fun _ => replied out) F.
Proof. intros Hv. unfold serve_cached. step. by apply reply_write. Qed.

(** After a lookup: the answer was sent, or nothing was. *)
Definition looked_up (out : bytes) (served : bool) (w : world) : Prop := if served then replied out w else silent out w.

Lemma reply_hit out p from v F : answer v -> hoare (silent out) (serve_hit p from v;; mret true) (looked_up out) F.
Proof.
  intros Hv. apply (hoare_bind _ _ _ (fun _ => replied out)); [|intros []; by apply hoare_ret]. unfold serve_hit. do 2 step.
  by apply reply_cached.
Qed.

Lemma looked_up_try out p k F : HasPrefix k (str "ps:") = false -> hoare (silent out) (try_cache p k) (looked_up out) F.
Proof.
  intros Hk. unfold try_cache. eapply hoare_bind; [apply silent_cache_get|]. intros r. cbv beta. apply hoare_pure. intros Hr.
  destruct r as [[v fl]|]; [|step; by apply hoare_ret]. pose proof (found_answer _ _ _ Hk Hr) as Hv.
  destruct (fl =? _); [by apply reply_hit|]. destruct (fl =? _); [by apply reply_hit|]. step. by apply hoare_ret.
Qed.

Lemma looked_up_join out p F : HasPrefix (Query p) (str "ps:") = false -> hoare (silent out) (join_flight p) (looked_up out) F.
Proof.
  intros Hk. unfold join_flight. eapply hoare_bind; [apply silent_get_or_wait|]. intros [r b]. cbv beta. apply hoare_pure. cbn [fst]. intros Hr.
  destruct r as [[v fl]|], b; cbv beta iota; try (by apply hoare_ret). step.
  eapply hoare_bind; [apply reply_cached; by eapply found_answer|]. intros []. by apply hoare_ret.
Qed.

Lemma looked_up_lookup out p F : HasPrefix (Query p) (str "ps:") = false -> hoare (silent out) (lookup_cache p) (looked_up out) F.
Proof.
  intros Hk. unfold lookup_cache. eapply hoare_bind; [by apply looked_up_try|]. intros []; [by apply hoare_ret|by apply looked_up_join].
Qed.

(** *** The query *)

Lemma reply_batched out p F : hoare (silent out) (query_batched error_text p) (fun _ => replied out) F.
Proof.
  unfold query_batched. eapply hoare_bind.
  - eapply (hoare_no_error _ _ (fun _ => silent out) (fun _ => silent out)); [unfold enqueue; no_error_auto|]. apply frame_enqueue, _.
  - intros r. cbv beta. step. destruct (Error r); [apply reply_error|]. step. apply reply_messages, batch_is_messages.
Qed.

Lemma reply_backend out p F : hoare (silent out) (query_on_backend p) (fun _ => replied out) F.
Proof.
  unfold query_on_backend. step. destruct x as [h name]. step. destruct x as [rs|e].
  - do 3 step. destruct (result_is_messages rs (str "OK")) as (ms & -> & Hms).
    destruct (IsCacheable p); (apply (hoare_bind _ _ _ (fun _ => silent out)); [|intros []; apply reply_messages; by eauto]); [|by apply hoare_ret].
    apply silent_notify. right. by apply answer_messages.
  - destruct (IsCacheable p); (apply (hoare_bind _ _ _ (fun _ => silent out)); [|intros []; apply reply_error]); [apply silent_cancel|by apply hoare_ret].
Qed.

Lemma reply_status out F : hoare (silent out) handleShowTQDBStatus (fun _ => replied out) F.
Proof.
  unfold handleShowTQDBStatus. step. rewrite !app_assoc. apply reply_messages. rewrite <- !app_assoc.
  set (sized := 0 <? lastBatchSize x). destruct sized; [eexists [(_, _); (_, _); (_, _); (_, _); (_, _)]|eexists [(_, _); (_, _); (_, _); (_, _)]];
    (split; [unfold messages; cbn [fmap list_fmap concat fst snd]; rewrite app_nil_r; reflexivity|by repeat constructor]).
Qed.

Lemma reply_query out payload F : HasPrefix (Query (Parse (trim_zero payload))) (str "ps:") = false ->
  hoare (silent out) (handleQuery error_text payload) (fun _ => replied out) F.
Proof.
  intros Hk. unfold handleQuery. cbv zeta. destruct (Contains _ _); [apply reply_status|].
  apply hoare_step; [unfold track_transaction; no_error_auto|apply frame_track_transaction, _|]. intros [].
  apply (hoare_bind _ _ _ (looked_up out)).
  - destruct (IsCacheable _); [by apply looked_up_lookup|by apply hoare_ret].
  - intros []; [by apply hoare_ret|]. cbv beta iota. step. destruct (batched x _); [apply reply_batched|apply reply_backend].
Qed.
End Answers.

(** ** Properties *)

Section Properties.
Context `{Ut : UnicodeTables} `{Cs : CacheService} `{Gv : GoValues} `{Da : !Database} `{Bs : !BatchService} `{Ft : !FloatText} `{Sd : !SqlDriver}.
Variable error_text : Executor.error -> bytes.

#[local] Existing Instance among_framed.
#[local] Hint Resolve among_client_write among_ignoring among_writeMessage among_sendError among_send_ready idle_message_loop : pg.

Lemma among_read_startup X : keeps (among X) read_startup.
Proof. intros [] HI. unfold read_startup. cbn. destruct (readStartupMessage _) as [[]|]; exact HI. Qed.
Hint Resolve among_read_startup : pg.

Lemma idle_closes hs : keeps idle (foldr (fun h m => db_close h;; m) (mret tt) hs).
Proof. induction hs as [|h hs IH]; cbn [foldr]; unfold db_close; keeps_auto. Qed.
Hint Resolve idle_closes : pg.

Lemma idle_serve_session connID name l u p d h : keeps idle (serve_session error_text connID name l u p d h).
Proof. unfold serve_session, greet, sendParameterStatus, handleMessages. keeps_auto. Qed.
Hint Resolve idle_serve_session : pg.

(** C14. A client of the PostgreSQL proxy never leaves others waiting: over a
    whole connection - startup, authentication, any sequence of messages, any
    failure of the backends or of the client - every flight of the cache that
    the session opened with GetOrWait has been ended with SetAndNotify or
    CancelInflight when the connection is closed. *)
Theorem pg_flights_are_ended connID w w' o : flights w = ∅ ->
  handleConnection error_text connID w = (w', o) -> o <> Crash -> flights w' = ∅.
Proof.
  intros Hw Hr Ho. assert (Hk : keeps idle (handleConnection error_text connID)).
  { unfold handleConnection, authenticate, startup, login_session, sendFatalError, sendErrorWithSeverity, db_ping, db_close. keeps_auto. }
  assert (Hi : idle w) by (unfold idle, among; by rewrite Hw). specialize (Hk w Hi). rewrite Hr in Hk.
  unfold idle, among in Hk. destruct o as [x|e|]; [| |done]; set_solver.
Qed.


(** C21. The message loop serves everything: it never stops by itself, and when it
    ends without a crash either the client sent no further complete message or
    the last message read was Terminate. *)
Theorem messages_all_served w : exists w',
  handleMessages error_text w = (w', Crash) \/
  handleMessages error_text w = (w', Done tt) /\ exists s, s `suffix_of` client_in w /\
    (client_in w' = [] \/ exists payload, readMessage s = Some ("X"%char, payload, client_in w')).
Proof.
  assert (E : handleMessages error_text w = message_loop error_text (S (length (client_in w))) w) by reflexivity.
  rewrite E. clear E. apply message_loop_reads. apply Nat.lt_succ_diag_r.
Qed.
End Properties.

(** ** A concrete environment

    Servers that answer a query with two rows when it begins with SELECT, with
    an error when it begins with BAD, and without columns otherwise; a handle is
    the data source it was opened with. *)

#[local] Existing Instance ascii_tables.
#[local] Existing Instance NoFloats.
#[local] Existing Instance NoFloatText.
#[local] Existing Instance ScriptDB.
#[local] Existing Instance TestCache.
#[local] Existing Instance TestBatch.

#[local] Instance TestSql : SqlDriver := {|
  handle := bytes;
  servers := unit;
  sql_Open s dsn := (s, inl dsn);
  sql_Ping s h := (s, None);
  sql_Query s h q ps :=
    (s, if HasPrefix q (str "SELECT") then inl (MkRows _ [str "n"; str "s"] [[VInt Int64 1; VNil]; [VInt Int64 2; VString (str "x")]])
        else if HasPrefix q (str "BAD") then inr (str "pq: syntax error")
        else inl (MkRows _ [] []));
  sql_Close s h := s;
  io_text := str "EOF"
|}.

Definition pg_text (e : Executor.error) : bytes := [].
Definition pg_config : ProxyConfig :=
  MkProxyConfig [] [] (str "main") ∅ ∅ {| Config.MaxBatchSize := 10; Config.UseCopy := false |}.
Definition pg_state (stmts : gmap bytes bytes) : connState :=
  MkState [] (str "main") false 0 (str "app") (str "pw") (str "shop") (str "primary") ∅ stmts ∅ ∅ true false 0.
Definition pg_session (input : bytes) : world :=
  MkSession (pg_state ∅) input [] [] (MkProxy pg_config {[str "main" := O]} (Some tt))
    [NewPool (str "db1:5432") [str "db2:5432"]] tt ∅ [].

#[local] Instance TestContents : CacheContents entry_ok.
Proof.
  refine (Build_CacheContents TestCache entry_ok (fun q : gmap bytes bytes => map_Forall entry_ok q) _ _ _ _).
  - intros q k q' r Hq [= <- <-]. split; [done|]. intros v f Hr. apply fmap_Some in Hr as (v' & E & [= -> _]). by apply Hq.
  - intros q k q' r b Hq [= <- <- _]. split; [done|]. intros v f Hr. apply fmap_Some in Hr as (v' & E & [= -> _]). by apply Hq.
  - intros q k v ttl Hq Hv. cbn. destruct (0 <? ttl); [by apply map_Forall_insert_2|done].
  - done.
Defined.

Lemma pg_flights_are_ended_witness :
  let w := pg_session (startup_message 196608 [(str "user", str "app")] ++ encodeMessage "p"%char (str "pw") ++
                       encodeMessage "Q"%char (str "/* ttl:5 */ SELECT 1")) in
  flights (handleConnection pg_text 1 w).1 = ∅.
Proof.
  cbv zeta. set (w := pg_session _). apply (pg_flights_are_ended pg_text 1 w (handleConnection pg_text 1 w).1 (handleConnection pg_text 1 w).2);
    [reflexivity|by destruct (handleConnection pg_text 1 w)|]. vm_compute. discriminate.
Defined.

