(* ===== verification/PgSafe.v ===== *)
(** * Package postgres: sessions do not panic

    A connection is well formed when its pools are allocated and well formed,
    the write batch manager is there when the session batches, and every
    prepared statement can be described.  No message of a client breaks this,
    and from a well-formed state no handler panics: a panic would end the
    process with the sessions of all clients. *)

From Stdlib Require Import Ascii ZArith Lia.
From stdpp Require Import base list gmap strings numbers.
From coqutil Require Import Datatypes.RecordSetters.
From S2P Require Import Prelude GoStrings BatchText Metrics Executor Parser Replica Cache Config Effects Services MariaWire PgWire PgConn PgServe.
Import DoubleBraceUpdate.

Open Scope Z_scope.

Create HintDb safe.

(** ** What a client may send *)

Section Inputs.
Context `{Ut : UnicodeTables}.

(** The text of a prepared statement is valid, the column after RETURNING is
    inside it and its highest placeholder has a description that can be
    allocated. *)
Definition describable (query : bytes) : bool :=
  let returningIdx := Index (ToUpper query) (str " RETURNING ") in
  valid_utf8 query && ((returningIdx <? 0) || (returningIdx + 11 <=? zlen query)) &&
  (2 + countPostgresParams query * 4 <=? maxAlloc).

(** The statement of a simple query is valid text, that of a Parse message can
    be described; every other message may hold any bytes. *)
Definition message_ok (msgType : byte) (payload : bytes) : bool :=
  if decide (msgType = "Q"%char) then valid_utf8 (trim_zero payload)
  else if decide (msgType = "P"%char) then
    match cut0 payload with
    | Some (_, rest) => match cut0 rest with Some (query, _) => describable query | None => true end
    | None => true
    end
  else true.

(** The messages up to the end of the input or to Terminate. *)
Inductive input_ok : bytes -> Prop :=
| input_end s : readMessage s = None -> input_ok s
| input_terminate s payload rest : readMessage s = Some ("X"%char, payload, rest) -> input_ok s
| input_message s msgType payload rest : readMessage s = Some (msgType, payload, rest) ->
    message_ok msgType payload = true -> input_ok rest -> input_ok s.

(** What is left for the session after the startup and the password. *)
Definition after_login (s : bytes) : option bytes :=
  '(msg, s) ← readStartupMessage s;
  s ← (if (zlen msg =? 8) && (be_dec (drop 4 msg) =? 80877103) then snd <$> readStartupMessage s else Some s);
  '(_, s) ← readMessage s;
  Some s.

Lemma input_ok_next s msgType payload rest : input_ok s -> readMessage s = Some (msgType, payload, rest) ->
  msgType <> "X"%char -> message_ok msgType payload = true /\ input_ok rest.
Proof. intros [? E|? ? ? E|? ? ? ? E Hm Hi] Hr Hx; rewrite E in Hr; [done|injection Hr as <- <- <-; done|by injection Hr as <- <- <-]. Qed.

Lemma input_ok_nil : input_ok [].
Proof. by apply input_end. Qed.

Lemma count_params_nonneg query : forall n, 0 <= n -> 0 <= count_params query n.
Proof.
  induction query as [|a [|b t] IH]; intros n Hn; cbn [count_params]; [done..|]. apply IH.
  destruct (_ && _); [|done]. destruct (Atoi _) as [num [e|]]; [done|]. destruct (Z.ltb_spec n num); lia.
Qed.

(** An ASCII statement with a sensible number of placeholders is describable. *)
Lemma ascii_describable query : is_ascii query = true -> 2 + countPostgresParams query * 4 <= maxAlloc -> describable query = true.
Proof.
  intros Ha Hp. unfold describable. rewrite is_ascii_valid_utf8 by done. apply andb_true_intro. split; [|by apply Z.leb_le].
  cbn [andb]. apply orb_true_iff. destruct (Index_range (ToUpper query) (str " RETURNING ")) as [->|Hr]; [by left|]. right.
  change (zlen (str " RETURNING ")) with 11 in Hr. unfold zlen in Hr. rewrite length_ToUpper_ascii in Hr by done. apply Z.leb_le. unfold zlen. lia.
Qed.
End Inputs.

(** ** Well-formed states *)

Section Safe.
Context `{Ut : UnicodeTables} `{Cs : CacheService} `{Gv : GoValues} `{Da : !Database} `{Bs : !BatchService} `{Ft : !FloatText} `{Sd : !SqlDriver}.
Variable error_text : Executor.error -> bytes.
Abbreviation sound := (@Effects.sound world bytes _).
Abbreviation any := (fun _ => True).

(** Every pool of the proxy is allocated and well formed. *)
Record proxy_ok (w : world) : Prop := {
  ok_pools : map_Forall (fun _ l => (l < length (pool_heap w))%nat) (ppools (proxy w));
  ok_heap : Forall pool_ok (pool_heap w)
}.

Definition stmts_ok (c : connState) : Prop := map_Forall (fun _ q => describable q = true) (preparedStatements c).

(** The session uses the pool [l] and batches when [b]. *)
Record session_ok (l : nat) (b : bool) (w : world) : Prop := {
  ok_proxy : proxy_ok w;
  ok_pool : pool (state w) = l;
  ok_alloc : (l < length (pool_heap w))%nat;
  ok_writeBatch : writeBatch (state w) = b;
  ok_manager : b = true -> is_Some (pwriteBatch (proxy w));
  ok_stmts : stmts_ok (state w);
  ok_input : input_ok (client_in w)
}.

(** ** Steps *)

(** Conditions that output, the databases, the cache and the log do not change. *)
Class Quiet (I : world -> Prop) := quiet w w' :
  state w' = state w -> client_in w' = client_in w -> proxy w' = proxy w -> pool_heap w' = pool_heap w -> I w -> I w'.

#[export] Instance session_quiet l b : Quiet (session_ok l b).
Proof. intros w w' E1 E2 E3 E4 [[] ? ? ? ? ? ?]. split; rewrite ?E1, ?E2, ?E3, ?E4; auto. by split; rewrite ?E3, ?E4. Qed.

#[export] Instance proxy_quiet : Quiet proxy_ok.
Proof. intros w w' E1 E2 E3 E4 []. by split; rewrite ?E3, ?E4. Qed.

(** What holds outside the message loop: the proxy is [p], it is well formed, and
    [s] was not read. *)
Definition waiting (p : Proxy) (s : bytes) (w : world) : Prop := proxy_ok w /\ client_in w = s /\ proxy w = p.
#[export] Instance waiting_quiet p s : Quiet (waiting p s).
Proof. intros w w' E1 E2 E3 E4 (Hw & ? & ?). split; [|by rewrite E2, E3]. by apply (quiet (I := proxy_ok) w). Qed.

Section QuietSteps.
Context (I : world -> Prop) `{!Quiet I}.

Lemma sound_quiet f : (forall w, state (f w) = state w /\ client_in (f w) = client_in w /\ proxy (f w) = proxy w /\ pool_heap (f w) = pool_heap w) ->
  sound I (modify f) any.
Proof. intros Hf w Hw. cbn. split; [done|]. destruct (Hf w) as (E1 & E2 & E3 & E4). by apply (quiet (I := I) w). Qed.

Lemma sound_emit e : sound I (emit e) any.
Proof. apply sound_quiet. by intros []. Qed.

Lemma sound_client_write d : sound I (client_write d) any.
Proof.
  intros w Hw. unfold client_write. destruct (client_writes w) as [|[] ?]; (split; [done|]) || idtac; apply (quiet (I := I) w); by destruct w.
Qed.

Lemma sound_cache_get k : sound I (cache_get k) any.
Proof. intros w Hw. unfold cache_get. destruct (cache_Get _ _). split; [done|]. apply (quiet (I := I) w); by destruct w. Qed.

Lemma sound_ignoring {A} (m : M A) Q : sound I m Q -> sound I (ignoring m) any.
Proof. intros Hm. eapply sound_bind; [by eapply (sound_catch _ _ _ any)|]. intros. by apply sound_ret. Qed.

Lemma sound_done {A} (x : A) : sound I (mret x) any.
Proof. by apply sound_ret. Qed.
Lemma sound_caught {A} (m : M A) Q : sound I m Q -> sound I (catch m) any.
Proof. intros Hm. by eapply sound_catch. Qed.
Lemma sound_any {A} (m : M A) Q : sound I m Q -> sound I m any.
Proof. intros Hm. by eapply sound_post. Qed.
Lemma sound_get_any {A} (f : world -> A) : sound I (get f) any.
Proof. by apply sound_get. Qed.
End QuietSteps.

Context (l : nat) (b : bool).
Abbreviation I := (session_ok l b).


Lemma sound_self : sound I (self id) (fun c => pool c = l /\ writeBatch c = b /\ stmts_ok c).
Proof. intros w []. by split. Qed.

Lemma sound_update f : (forall c, pool (f c) = pool c /\ writeBatch (f c) = writeBatch c /\ (stmts_ok c -> stmts_ok (f c))) ->
  sound I (update f) any.
Proof.
  intros Hf [] [[] ? ? ? ? ? ?]. cbn in *. split; [done|]. destruct (Hf state) as (E1 & E2 & E3).
  split; cbn; rewrite ?E1, ?E2; auto. by split.
Qed.

Lemma sound_metric c ls : length ls = length (label_names c) -> Forall (fun s => valid_utf8 s = true) ls -> sound I (metric c ls) any.
Proof.
  intros Hn Hl. unfold metric. rewrite WithLabelValues_run; [by apply sound_ret|done|]. apply forallb_forall. intros s Hs%list_elem_of_In.
  rewrite list.Forall_forall in Hl. by apply label_ok_utf8, Hl.
Qed.

(** Choosing a replica moves the index of the pool and names the replica in ASCII. *)
Lemma sound_get_replica : sound I (get_replica l) (fun r => valid_utf8 r.2 = true).
Proof.
  intros w [[Hps Hh] Hp Hl Hb Hm Hs Hi]. unfold get_replica, get, mbind, session_bind.
  destruct (lookup_lt_is_Some_2 _ _ Hl) as [p Ep]. rewrite Ep. cbn. pose proof (Forall_lookup_1 _ _ _ _ Hh Ep) as Hok.
  assert (exists p' r, GetReplica p = Some (p', r) /\ pool_ok p' /\ valid_utf8 r.2 = true) as (p' & [a n] & -> & Hok' & Hn).
  { destruct (GetReplica_cases p Hok) as [(k & r & Hk & _ & _ & _ & E)|[_ E]]; rewrite E; eexists _, _; (split; [done|]).
    - split; [by eapply GetReplica_ok|]. apply is_ascii_valid_utf8. unfold replica_name. cbn [snd]. by rewrite !is_ascii_app, is_ascii_Itoa.
    - by split. }
  cbn. split; [done|]. destruct w. cbn in *. split; [split|..]; try done; cbn; unfold constant; rewrite ?length_insert; try done.
  by apply Forall_insert.
Qed.
End Safe.

#[export] Hint Resolve sound_emit sound_client_write sound_cache_get sound_fail sound_done sound_get_any : safe.
#[export] Hint Extern 1 (Effects.sound _ (modify _) _) => apply sound_quiet; [apply _|by intros []] : safe.
#[export] Hint Extern 1 (Effects.sound _ (update _) _) => apply sound_update; by intros [] : safe.

(** Goes through the binds and branches of a handler. *)
Ltac sound_auto :=
  repeat (intros; cbv beta zeta; first
    [ solve [eauto 3 with safe typeclass_instances]
    | eapply sound_bind
    | eapply sound_ignoring
    | eapply sound_caught
    | match goal with
      | |- Effects.sound _ (match ?x with _ => _ end) _ => destruct x
      end ]).

Section Quiet.
Context `{Ut : UnicodeTables} `{Cs : CacheService} `{Gv : GoValues} `{Da : !Database} `{Bs : !BatchService} `{Ft : !FloatText} `{Sd : !SqlDriver}.
Abbreviation sound := (@Effects.sound world bytes _).
Abbreviation any := (fun _ => True).
Context (I : world -> Prop) `{!Quiet I}.

Lemma sound_writeMessage t p : sound I (writeMessage t p) any.
Proof. unfold writeMessage, message_writes. cbn [write_all]. sound_auto. Qed.
Hint Resolve sound_writeMessage : safe.
Lemma sound_sendError c t : sound I (sendError c t) any.
Proof. unfold sendError, sendErrorWithSeverity. sound_auto. Qed.
Hint Resolve sound_sendError : safe.
Lemma sound_send_ready : sound I send_ready any.
Proof. unfold send_ready. sound_auto. Qed.
Hint Resolve sound_send_ready : safe.
Lemma sound_connectToBackend a u p d : sound I (connectToBackend a u p d) any.
Proof. unfold connectToBackend. sound_auto. Qed.
Hint Resolve sound_connectToBackend : safe.
Lemma sound_db_query h q ps : sound I (db_query h q ps) any.
Proof. unfold db_query. sound_auto. Qed.
Hint Resolve sound_db_query : safe.
Lemma sound_cache_get_or_wait k : sound I (cache_get_or_wait k) any.
Proof. unfold cache_get_or_wait. sound_auto. Qed.
Hint Resolve sound_cache_get_or_wait : safe.
Lemma sound_set_and_notify k v ttl : sound I (set_and_notify k v ttl) any.
Proof. unfold set_and_notify. sound_auto. Qed.
Hint Resolve sound_set_and_notify : safe.
Lemma sound_cancel_inflight k : sound I (cancel_inflight k) any.
Proof. unfold cancel_inflight. sound_auto. Qed.
Hint Resolve sound_cancel_inflight : safe.
End Quiet.
#[export] Hint Resolve sound_writeMessage sound_sendError sound_send_ready sound_connectToBackend sound_db_query sound_cache_get_or_wait
  sound_set_and_notify sound_cancel_inflight : safe.

Section Handlers.
Context `{Ut : UnicodeTables} `{Cs : CacheService} `{Gv : GoValues} `{Da : !Database} `{Bs : !BatchService} `{Ft : !FloatText} `{Sd : !SqlDriver}.
Variable error_text : Executor.error -> bytes.
Abbreviation sound := (@Effects.sound world bytes _).
Abbreviation any := (fun _ => True).
Context (l : nat) (b : bool).
Abbreviation I := (session_ok l b).

Lemma sound_serve_cached from v : sound I (serve_cached from v) any.
Proof. unfold serve_cached. sound_auto. Qed.
Hint Resolve sound_serve_cached : safe.
Lemma sound_track_transaction q : sound I (track_transaction q) any.
Proof. unfold track_transaction. sound_auto. Qed.
Hint Resolve sound_track_transaction : safe.
Lemma sound_batch_done r : sound I (batch_done r) any.
Proof. unfold batch_done. sound_auto. Qed.
Hint Resolve sound_batch_done : safe.
Lemma sound_replica_handle a : sound I (replica_handle a) any.
Proof. unfold replica_handle. eapply sound_bind; [apply sound_self|]. sound_auto. Qed.
Hint Resolve sound_replica_handle : safe.

(** The name of the chosen backend is text. *)
Lemma sound_choose_backend p : sound I (choose_backend p) (fun r => valid_utf8 r.2 = true).
Proof.
  unfold choose_backend. eapply sound_bind; [apply sound_self|]. intros c (Hp & _ & _). cbv beta in *. destruct (IsCacheable p).
  - eapply sound_bind; [rewrite Hp; apply sound_get_replica|]. intros [a n] Hn. destruct (decide _); [by apply sound_ret|].
    eapply sound_bind; [apply sound_replica_handle|]. intros h _. by apply sound_ret.
  - by apply sound_ret.
Qed.

(** A session that batches has a manager. *)
Lemma sound_enqueue k q ps n : b = true -> sound I (enqueue k q ps n) any.
Proof.
  intros Hb. unfold enqueue. intros w Hw. pose proof Hw as [[Hps Hh] Hp Hl Hwb Hm Hs Hi]. destruct (Hm Hb) as [m Em].
  unfold get, mbind, session_bind. rewrite Em. cbn. destruct (Enqueue m k q ps n). destruct w. cbn in *. repeat split; done.
Qed.

(** ** Labels *)

Lemma valid_labels p : valid_utf8 (File p) = true -> valid_utf8 (file_of p) = true /\ valid_utf8 (line_of p) = true /\
  valid_utf8 (queryTypeLabel (Type_ p)) = true.
Proof.
  intros Hf. split_and!.
  - unfold file_of. by destruct (decide _).
  - unfold line_of. destruct (0 <? Line p); [apply is_ascii_valid_utf8, is_ascii_Itoa|done].
  - by destruct (Type_ p).
Qed.

Lemma sound_count_query p hit : valid_utf8 (File p) = true -> valid_utf8 hit = true -> sound I (count_query p hit) any.
Proof.
  intros (Hf & Hl & Ht)%valid_labels Hh. unfold count_query. eapply sound_bind; [|intros _ _]; apply sound_metric; repeat constructor; done.
Qed.

Lemma sound_try_cache p k : valid_utf8 (File p) = true -> sound I (try_cache p k) any.
Proof.
  intros Hv. pose proof (valid_labels p Hv) as (Hf & Hl & _). unfold try_cache, serve_hit.
  assert (Hm : sound I (metric CacheMisses [file_of p; line_of p]) any) by (apply sound_metric; repeat constructor; done).
  assert (Hh : sound I (metric CacheHits [file_of p; line_of p]) any) by (apply sound_metric; repeat constructor; done).
  assert (Hc : sound I (count_query p (str "true")) any) by by apply sound_count_query.
  sound_auto.
Qed.

Lemma sound_join_flight p : valid_utf8 (File p) = true -> sound I (join_flight p) any.
Proof.
  intros Hv. pose proof (valid_labels p Hv) as (Hf & Hl & _). unfold join_flight.
  assert (Hh : sound I (metric CacheHits [file_of p; line_of p]) any) by (apply sound_metric; repeat constructor; done).
  sound_auto.
Qed.

(** ** Simple queries *)

Lemma sound_backend_metric name : valid_utf8 name = true -> sound I (metric DatabaseQueries [name]) any.
Proof. intros Hn. apply sound_metric; repeat constructor; done. Qed.

Lemma sound_query_batched p : b = true -> valid_utf8 (File p) = true -> sound I (query_batched error_text p) any.
Proof.
  intros Hb Hv. unfold query_batched. eapply sound_bind; [by apply sound_enqueue|]. intros r _.
  eapply sound_bind; [by apply sound_count_query|]. sound_auto.
Qed.

Lemma sound_query_on_backend p : valid_utf8 (File p) = true -> sound I (query_on_backend p) any.
Proof.
  intros Hv. pose proof (sound_count_query p (str "false") Hv eq_refl) as Hc. unfold query_on_backend.
  eapply sound_bind; [apply sound_choose_backend|]. intros [h name] Hn. pose proof (sound_backend_metric name Hn). sound_auto.
Qed.

Lemma sound_handleShowTQDBStatus : sound I handleShowTQDBStatus any.
Proof. unfold handleShowTQDBStatus. eapply sound_bind; [apply sound_self|]. sound_auto. Qed.

Lemma batched_writeBatch c p : batched c p = true -> writeBatch c = true.
Proof. unfold batched. intros Hb. by bool_simpl. Qed.

Lemma sound_handleQuery payload : valid_utf8 (trim_zero payload) = true -> sound I (handleQuery error_text payload) any.
Proof.
  intros Hv%Parse_file_valid. unfold handleQuery. cbv zeta. destruct (Contains _ _); [apply sound_handleShowTQDBStatus|].
  eapply sound_bind; [apply sound_track_transaction|]. intros _ _. eapply (sound_bind _ _ _ any).
  { destruct (IsCacheable _); [|apply sound_done]. unfold lookup_cache. eapply sound_bind; [by apply sound_try_cache|].
    intros [] _; [apply sound_done|by apply sound_join_flight]. }
  intros [] _; [apply sound_done|]. eapply sound_bind; [apply sound_self|]. intros c (_ & Hb & _). cbv beta in *.
  destruct (batched c _) eqn:Eb; [|by apply sound_query_on_backend]. apply batched_writeBatch in Eb. apply sound_query_batched; congruence.
Qed.

(** ** The extended protocol *)

Lemma sound_handleParse payload : message_ok "P"%char payload = true -> sound I (handleParse payload) any.
Proof.
  unfold message_ok, handleParse. cbn [decide]. rewrite decide_False, decide_True by done. intros Hm.
  destruct (cut0 payload) as [[stmt rest]|]; [|apply sound_fail]. destruct (cut0 rest) as [[query ?]|]; [|apply sound_fail].
  eapply sound_bind; [|intros; apply sound_writeMessage, _]. apply sound_update. intros []. split; [done|]. split; [done|].
  unfold stmts_ok. cbn. intros Hs. by apply map_Forall_insert_2.
Qed.

Lemma sound_make_bytes n : 0 <= n <= maxAlloc -> sound I (make_bytes n) any.
Proof. intros Hn. unfold make_bytes. replace ((0 <=? n) && (n <=? maxAlloc)) with true by lia. apply sound_done. Qed.

Lemma sound_describe_statement name : sound I (describe_statement name) any.
Proof.
  unfold describe_statement. eapply sound_bind; [apply sound_self|]. intros c (_ & _ & Hs). cbv beta in *.
  destruct (preparedStatements c !! name) as [query|] eqn:Eq; [|apply sound_fail]. apply Hs in Eq. unfold describable in Eq. bool_simpl.
  pose proof (count_params_nonneg query 0 ltac:(lia)) as Hn. fold (countPostgresParams query) in Hn. unfold maxAlloc in *.
  eapply sound_bind; [apply sound_make_bytes; rewrite (int64_id (_ * 4)), int64_id by (unfold MinInt64, MaxInt64; lia); unfold maxAlloc; lia|]. intros desc _.
  eapply sound_bind; [apply sound_writeMessage, _|]. intros _ _. destruct (Z.leb_spec 0 (Index (ToUpper query) (str " RETURNING "))); [|apply sound_writeMessage, _].
  eapply sound_bind; [|intros; apply sound_writeMessage, _]. eapply sound_any, (sound_or_crash _ _ any).
  eexists. split; [apply slice_from_drop; lia|done].
Qed.

Lemma sound_handleDescribe payload : sound I (handleDescribe payload) any.
Proof. pose proof sound_describe_statement. unfold handleDescribe. sound_auto. Qed.

Lemma sound_handleBind payload : sound I (handleBind payload) any.
Proof.
  unfold handleBind. eapply sound_bind; [apply sound_self|]. intros c _. cbv beta.
  destruct (decode_bind_total (fun n => bool_decide (is_Some (preparedStatements c !! n))) payload) as [r ->]. sound_auto.
Qed.

Lemma sound_execute_batched p ps : b = true -> valid_utf8 (File p) = true -> sound I (execute_batched error_text p ps) any.
Proof.
  intros Hb Hv. unfold execute_batched. eapply sound_bind; [by apply sound_enqueue|]. intros r _.
  eapply sound_bind; [by apply sound_count_query|]. sound_auto.
Qed.

Lemma sound_execute_on_backend p ps k : valid_utf8 (File p) = true -> sound I (execute_on_backend p ps k) any.
Proof.
  intros Hv. pose proof (sound_count_query p (str "false") Hv eq_refl) as Hc. unfold execute_on_backend.
  eapply sound_bind; [apply sound_choose_backend|]. intros [h name] Hn. pose proof (sound_backend_metric name Hn). sound_auto.
Qed.

Lemma sound_handleExecute payload : sound I (handleExecute error_text payload) any.
Proof.
  unfold handleExecute. destruct (cut0 payload) as [[portal ?]|]; [|apply sound_fail]. eapply sound_bind; [apply sound_self|].
  intros c (_ & Hb & Hs). cbv beta in *. unfold portal_of. destruct (preparedStatements c !! _) as [query|] eqn:Eq; [|apply sound_fail].
  apply Hs in Eq. unfold describable in Eq. bool_simpl. assert (Hv : valid_utf8 (File (Parse query)) = true) by by apply Parse_file_valid.
  eapply (sound_bind _ _ _ any); [destruct (IsCacheable _ && _); [by apply sound_try_cache|apply sound_done]|]. intros [] _; [apply sound_done|].
  destruct (batched c _) eqn:Eb; [|by apply sound_execute_on_backend]. apply batched_writeBatch in Eb. apply sound_execute_batched; congruence.
Qed.

Lemma sound_handleClose payload : sound I (handleClose payload) any.
Proof.
  assert (Hd : forall n, sound I (update (fun c => c {{ preparedStatements ::= delete n }})) any).
  { intros n. apply sound_update. intros []. split; [done|]. split; [done|]. unfold stmts_ok. cbn. intros Hs. by apply map_Forall_delete. }
  unfold handleClose. sound_auto.
Qed.

(** ** The message loop *)

Lemma sound_reporting m ready : sound I m any -> sound I (reporting m ready) any.
Proof. intros Hm. unfold reporting. sound_auto. Qed.

Lemma sound_dispatch t p : message_ok t p = true -> sound I (dispatch error_text t p) any.
Proof.
  intros Hm. unfold dispatch. destruct (decide (t = "Q"%char)) as [->|]; [by apply sound_handleQuery|].
  destruct (decide (t = "P"%char)) as [->|]; [by apply sound_reporting, sound_handleParse|].
  destruct (decide (t = "B"%char)); [apply sound_reporting, sound_handleBind|].
  destruct (decide (t = "D"%char)); [apply sound_reporting, sound_handleDescribe|].
  destruct (decide (t = "E"%char)); [apply sound_reporting, sound_handleExecute|].
  destruct (decide (t = "C"%char)); [apply sound_handleClose|apply sound_send_ready, _].
Qed.

(** A message keeps the session well formed; after Terminate the proxy is. *)
Lemma serve_message_safe w : I w -> match serve_message error_text w with
  | (w', Done true) => I w'
  | (w', Done false) => proxy_ok w'
  | (_, Fail _) => True
  | (_, Crash) => False
  end.
Proof.
  intros Hw. pose proof Hw as [[Hps Hh] Hp Hl Hwb Hm Hs Hi]. unfold serve_message, mbind at 1, session_bind at 1, catch, read_message.
  destruct (readMessage (client_in w)) as [[[t p] rest]|] eqn:Er; [|destruct w; cbn in *; by split].
  destruct (decide (t = "X"%char)) as [->|Hx]; [destruct w; cbn in *; by split|]. destruct (input_ok_next _ _ _ _ Hi Er Hx) as [Hok Hrest].
  assert (Hw1 : I (w {{ client_in := rest }})) by (destruct w; cbn in *; repeat split; done).
  pose proof (sound_dispatch t p Hok _ Hw1) as Hd. unfold mbind, session_bind. destruct (dispatch _ t p _) as [w2 [[]|e|]]; [by destruct Hd|done..].
Qed.

Lemma message_loop_safe n : forall w, I w -> match message_loop error_text n w with
  | (w', Done _) => proxy_ok w' | (_, Fail _) => True | (_, Crash) => False end.
Proof.
  induction n as [|n IH]; intros w Hw; cbn [message_loop]; [done|]. pose proof (serve_message_safe w Hw) as Hs.
  unfold mbind, session_bind. destruct (serve_message error_text w) as [w1 [[]|e|]]; [by apply IH|done..].
Qed.

(** The loop ends and the proxy is well formed. *)
Lemma handleMessages_safe w : I w -> exists w', handleMessages error_text w = (w', Done tt) /\ proxy_ok w'.
Proof.
  intros Hw. assert (E : handleMessages error_text w = message_loop error_text (S (length (client_in w))) w) by reflexivity.
  rewrite E. clear E. pose proof (message_loop_safe (S (length (client_in w))) w Hw) as Hs.
  destruct (message_loop_reads error_text (S (length (client_in w))) w) as [w' [Hr|[Hr _]]]; [lia|by rewrite Hr in Hs|].
  exists w'. split; [done|]. by rewrite Hr in Hs.
Qed.
End Handlers.

(** ** A connection *)

Section Connection.
Context `{Ut : UnicodeTables} `{Cs : CacheService} `{Gv : GoValues} `{Da : !Database} `{Bs : !BatchService} `{Ft : !FloatText} `{Sd : !SqlDriver}.
Variable error_text : Executor.error -> bytes.
Abbreviation sound := (@Effects.sound world bytes _).
Abbreviation any := (fun _ => True).

Lemma waiting_read p0 s : forall w, waiting p0 s w -> match read_message w with
  | (w', Done (t, p)) => exists rest, readMessage s = Some (t, p, rest) /\ waiting p0 rest w'
  | (w', Fail _) => waiting p0 [] w' | (_, Crash) => False end.
Proof.
  intros w ([] & <- & <-). unfold read_message. destruct (readMessage (client_in w)) as [[[t p] rest]|]; [exists rest; split; [done|]|];
    destruct w; cbn in *; by repeat split.
Qed.

Lemma waiting_read_startup p0 s : forall w, waiting p0 s w -> match read_startup w with
  | (w', Done msg) => exists rest, readStartupMessage s = Some (msg, rest) /\ waiting p0 rest w'
  | (w', Fail _) => waiting p0 [] w' | (_, Crash) => False end.
Proof.
  intros w ([] & <- & <-). unfold read_startup. destruct (readStartupMessage (client_in w)) as [[msg rest]|]; [exists rest; split; [done|]|];
    destruct w; cbn in *; by repeat split.
Qed.

(** A quiet step, when what follows does not crash. *)
Lemma then_quiet {A B} p0 s (m : M A) (k : A -> M B) w (P : world * outcome bytes B -> Prop) : sound (waiting p0 s) m any -> waiting p0 s w ->
  (forall x w', waiting p0 s w' -> P (k x w')) -> (forall w' e, waiting p0 s w' -> P (w', Fail e)) -> P ((m ≫= k) w).
Proof.
  intros Hm Hw Hk Hf. specialize (Hm w Hw). unfold mbind, session_bind. destruct (m w) as [w' [x|e|]]; [|by apply Hf|done].
  destruct Hm as [_ Hw']. by apply Hk.
Qed.

Lemma authenticate_safe w : proxy_ok w -> let p0 := proxy w in match authenticate w with
  | (w', Done _) => exists rest, after_login (client_in w) = Some rest /\ waiting p0 rest w'
  | (w', Fail _) => proxy_ok w' | (_, Crash) => False end.
Proof.
  intros Hw p0. set (P := fun (o : world * outcome bytes (bytes * bytes * bytes)) => match o with
    | (w', Done _) => exists rest, after_login (client_in w) = Some rest /\ waiting p0 rest w' | (w', Fail _) => proxy_ok w' | (_, Crash) => False end).
  assert (Hpass : forall s msg w1, waiting p0 s w1 -> after_login (client_in w) = ('(_, s) ← readMessage s; Some s) ->
    P ((let params := parseStartupParams msg in
        let user := default [] (params !! str "user") in
        let database := default [] (params !! str "database") in
        let database := if decide (database = []) then user else database in
        ignoring (writeMessage "R"%char (be_enc 4 3));;
        '(msgType, payload) ← read_message;
        if decide (msgType = "p"%char) then mret (user, trim_zero payload, database)
        else sendError (str "08P01") (str "expected password message");; fail io_text) w1)).
  { intros s msg w1 Hw1 Hs. cbv zeta. apply (then_quiet p0 s); [sound_auto|done| |by intros ? ? []]. intros _ w2 Hw2.
    pose proof (waiting_read p0 s w2 Hw2) as Hr. unfold mbind at 1, session_bind at 1. destruct (read_message w2) as [w3 [[t p]|e|]]; [|by apply Hr|done].
    destruct Hr as (rest & Er & Hw3). rewrite Er in Hs. cbn in Hs. destruct (decide (t = "p"%char)); [cbn; eauto|].
    apply (then_quiet p0 rest); [sound_auto|done| |by intros ? ? []]. intros _ w4 []. done. }
  change (P (authenticate w)). unfold authenticate, startup. pose proof (waiting_read_startup p0 (client_in w) w (conj Hw (conj eq_refl eq_refl))) as Hs.
  unfold mbind at 1, session_bind at 1, mbind at 1, session_bind at 1.
  destruct (read_startup w) as [w1 [msg|e|]]; [|by apply Hs|done]. destruct Hs as (s1 & E1 & Hw1). unfold after_login in Hpass. rewrite E1 in Hpass.
  cbn [mbind option_bind] in Hpass. destruct (_ && _); [|by eapply Hpass].
  pose proof (sound_client_write (waiting p0 s1) (str "N") w1 Hw1) as Hc. unfold mbind at 1, session_bind at 1.
  destruct (client_write (str "N") w1) as [w2 [[]|e|]]; [|by destruct Hc|done]. destruct Hc as [_ Hw2].
  pose proof (waiting_read_startup p0 s1 w2 Hw2) as Hs. destruct (read_startup w2) as [w3 [msg2|e|]]; [|by apply Hs|done].
  destruct Hs as (s2 & E2 & Hw3). rewrite E2 in Hpass. by eapply Hpass.
Qed.

(** A step that returns no error. *)
Lemma then_done {A B} (I : world -> Prop) (m : M A) (k : A -> M B) w (P : world * outcome bytes B -> Prop) :
  no_error m -> sound I m any -> I w -> (forall x w', I w' -> P (k x w')) -> P ((m ≫= k) w).
Proof.
  intros Hn Hm Hw Hk. specialize (Hm w Hw). unfold mbind, session_bind. destruct (m w) as [w' [x|e|]] eqn:E; [|by apply Hn in E|done].
  destruct Hm as [_ Hw']. by apply Hk.
Qed.

Definition returns (o : world * outcome bytes unit) : Prop := exists w', o = (w', Done tt) /\ proxy_ok w'.

Lemma close_all_safe hs w : proxy_ok w -> returns (foldr (fun h m => db_close h;; m) (mret tt) hs w).
Proof.
  revert w. induction hs as [|h hs IH]; intros w Hw; cbn [foldr]; [by exists w|].
  apply (then_done proxy_ok _ _ _ returns); [unfold db_close; no_error_auto|unfold db_close; sound_auto|done|]. intros _. apply IH.
Qed.

Lemma serve_session_safe connID name l user password database h s w : ppools (proxy w) !! name = Some l -> waiting (proxy w) s w -> input_ok s ->
  returns (serve_session error_text connID name l user password database h w).
Proof.
  intros Hl Hw Hs. unfold serve_session. set (p := proxy w) in *. rewrite (bind_run _ _ w w p) by done.
  apply (then_done (waiting p s) _ _ _ returns); [unfold greet, sendParameterStatus, send_ready; no_error_auto|unfold greet, sendParameterStatus; sound_auto|done|].
  intros _ w1 (Hok & Hin & Hp). erewrite bind_run by reflexivity. set (w2 := w1 {{ state ::= _ }}).
  assert (Hw2 : session_ok l (bool_decide (is_Some (pwriteBatch p))) w2).
  { subst w2. destruct Hok as [Hps Hh]. destruct w1. cbn in *. subst. split; cbn; try done. 
    - by apply (Hps name).
    - intros Hb. by apply bool_decide_eq_true in Hb. }
  destruct (handleMessages_safe error_text _ _ w2 Hw2) as (w3 & E3 & Hw3). rewrite (bind_run _ _ _ _ _ E3).
  erewrite bind_run by reflexivity. by apply close_all_safe.
Qed.

Lemma login_session_safe connID user password database s w : waiting (proxy w) s w -> input_ok s ->
  returns (login_session error_text connID user password database w).
Proof.
  intros Hw Hs. unfold login_session. set (p := proxy w) in *. rewrite (bind_run _ _ w w p) by done. cbv zeta.
  set (name := shard_of _ _). clearbody name. destruct (ppools p !! name) as [l|] eqn:El.
  - pose proof Hw as ([Hps Hh] & _ & _). pose proof (Hps _ _ El) as Hl. apply lookup_lt_is_Some_2 in Hl as [pl Hpl].
    rewrite (bind_run _ _ w w (pool_heap w)) by done. rewrite Hpl. rewrite (bind_run _ _ w w pl) by done.
    apply (then_done (waiting p s) _ _ _ returns); [no_error_auto|sound_auto|done|]. intros [h|e] w1 Hw1.
    + apply (then_done (waiting p s) _ _ _ returns); [unfold db_ping; no_error_auto|unfold db_ping; sound_auto|done|]. intros r w2 Hw2.
      assert (Hm : returns ((match r with Some e => sendFatalError (str "28P01") (strip_pq e)
        | None => serve_session error_text connID name l user password database h end) w2)).
      { destruct r as [e|].
        - apply (then_done (waiting p s) _ _ _ returns); [no_error_auto|sound_auto|done|]. intros _ w3 []. by exists w3.
        - pose proof Hw2 as (_ & _ & Hp2). subst p. rewrite <- Hp2 in El, Hw2. by eapply serve_session_safe. }
      destruct Hm as (w3 & E3 & Hw3). rewrite (bind_run _ _ _ _ _ E3).
      pose proof (close_all_safe [h] w3 Hw3) as (w4 & E4 & Hw4). exists w4. split; [|done]. cbn [foldr] in E4.
      unfold db_close in *. erewrite bind_run in E4 by reflexivity. by erewrite bind_run by reflexivity.
    + apply (then_done (waiting p s) _ _ _ returns); [no_error_auto|sound_auto|done|]. intros _ w3 []. by exists w3.
  - apply (then_done (waiting p s) _ _ _ returns); [no_error_auto|sound_auto|done|]. intros _ w3 []. by exists w3.
Qed.

End Connection.

(** ** A concrete connection *)

#[local] Existing Instance ascii_tables.
#[local] Existing Instance NoFloats.
#[local] Existing Instance NoFloatText.
#[local] Existing Instance ScriptDB.
#[local] Existing Instance TestCache.
#[local] Existing Instance TestBatch.
#[local] Existing Instance TestSql.

(** A described statement, a Bind message cut short, a batched write and Terminate. *)
Definition safe_messages : list (byte * bytes) :=
  [("P"%char, str "s" ++ [zero] ++ str "INSERT INTO t (a) VALUES ($1) RETURNING id" ++ [zero; zero; zero]);
   ("D"%char, str "Ss" ++ [zero]);
   ("B"%char, [zero] ++ str "s" ++ [zero; zero]);
   ("Q"%char, str "/* file:a.go line:3 batch:5 */ INSERT INTO t (a) VALUES (1)" ++ [zero]);
   ("X"%char, [])].

Definition safe_connection : world :=
  pg_session (startup_message 196608 [(str "user", str "app")] ++ encodeMessage "p"%char (str "pw") ++ messages safe_messages).

Lemma messages_input_ok ms : zlen (messages ms) < 2 ^ 32 -> Forall (fun m : byte * bytes => message_ok m.1 m.2 = true) ms ->
  input_ok (messages ms).
Proof.
  induction ms as [|[t p] ms IH]; intros Hl Hf; [apply input_ok_nil|]. apply Forall_cons_1 in Hf as [Hm Hf]. cbn [fst snd] in Hm.
  unfold messages in *. rewrite fmap_cons in *. cbn [concat fst snd] in *. rewrite zlen_app in Hl.
  assert (Hz : zlen (encodeMessage t p) = zlen p + 5) by (unfold encodeMessage; rewrite zlen_cons, zlen_app, zlen_be_enc; lia).
  pose proof (zlen_nonneg (concat ((fun m => encodeMessage m.1 m.2) <$> ms))). pose proof (zlen_nonneg p).
  eapply input_message; [apply readMessage_encode; unfold fits; lia|done|]. apply IH; [lia|done].
Qed.

