(* ===== verification/PgRuns.v ===== *)
(** * Package postgres: routing and runs

    Which statements leave the primary, and the steps of the protocol from the
    bytes a client sends to the bytes it gets, which PgSession composes into
    sessions; the login.  The examples at the end show runs in which
    the code does not do what it means to. *)

From Stdlib Require Import Ascii ZArith Lia.
From stdpp Require Import base list gmap strings numbers.
From coqutil Require Import Datatypes.RecordSetters.
From S2P Require Import Prelude GoStrings BatchText Metrics Executor Parser Replica Cache Config Effects Services MariaWire PgWire PgConn PgServe.
Import DoubleBraceUpdate.

Open Scope Z_scope.

Abbreviation M := (Effects.M world bytes).
Abbreviation respects := (@Effects.respects world bytes _).

Create HintDb routed.

(** ** Routing *)

Section Routing.
Context `{Ut : UnicodeTables} `{Cs : CacheService} `{Gv : GoValues} `{Da : !Database} `{Bs : !BatchService} `{Ft : !FloatText} `{Sd : !SqlDriver}.
Variable error_text : Executor.error -> bytes.

(** A query goes to the handle [h], or is a read with a lifetime. *)
Definition routed_event (h : handle) (e : event) : Prop :=
  match e with
  | EQuery h' q _ => h' = h \/ exists q0, q = Query (Parse q0) /\ IsCacheable (Parse q0) = true
  | _ => True
  end.

Definition routed (w w' : world) : Prop :=
  primaryDB (state w') = primaryDB (state w) /\
  exists evs, trace w' = trace w ++ evs /\ Forall (routed_event (primaryDB (state w))) evs.

#[global] Instance routed_preorder : PreOrder routed.
Proof.
  split.
  - intros w. split; [done|]. exists []. by rewrite app_nil_r.
  - intros w1 w2 w3 (P1 & e1 & E1 & H1) (P2 & e2 & E2 & H2). rewrite P1 in P2, H2. split; [done|].
    exists (e1 ++ e2). rewrite E2, E1, <- app_assoc. split; [done|]. by apply list.Forall_app.
Qed.

Lemma routed_same w w' : primaryDB (state w') = primaryDB (state w) -> trace w' = trace w -> routed w w'.
Proof. intros Hp Ht. split; [done|]. exists []. by rewrite app_nil_r. Qed.

Lemma routed_update f : (forall c, primaryDB (f c) = primaryDB c) -> respects routed (update f).
Proof. intros Hf []. apply routed_same; [apply Hf|done]. Qed.
Lemma routed_modify f : (forall w, state (f w) = state w /\ trace (f w) = trace w) -> respects routed (modify f).
Proof. intros Hf w. destruct (Hf w) as [E1 E2]. apply routed_same; cbn; [by rewrite E1|done]. Qed.
Lemma routed_emit_at e w : routed_event (primaryDB (state w)) e -> routed w (emit e w).1.
Proof. intros He. destruct w. split; [done|]. exists [e]. split; [done|]. by repeat constructor. Qed.
Lemma routed_emit e : (forall h, routed_event h e) -> respects routed (emit e).
Proof. intros He w. by apply routed_emit_at. Qed.
Lemma routed_self {A} (f : connState -> A) : respects routed (self f).
Proof. intros w. cbn. reflexivity. Qed.
Lemma routed_client_write d : respects routed (client_write d).
Proof. intros []. unfold client_write. cbn. destruct client_writes as [|[] ?]; by apply routed_same. Qed.
Lemma routed_cache_get k : respects routed (cache_get k).
Proof. intros []. unfold cache_get. cbn. destruct (cache_Get _ _). by apply routed_same. Qed.
Lemma routed_read_message : respects routed read_message.
Proof. intros []. unfold read_message. cbn. destruct (readMessage _) as [[[] ]|]; by apply routed_same. Qed.
End Routing.

#[export] Hint Resolve respects_ret respects_fail respects_crash respects_get respects_or_crash respects_metric routed_self
  routed_client_write routed_cache_get routed_read_message : routed.

Ltac routed_auto :=
  repeat (intros; cbv beta zeta; first
    [ solve [eauto 3 with routed typeclass_instances]
    | apply respects_bind; [apply _| |]
    | apply respects_catch
    | apply routed_update; (solve [intros []; done])
    | apply routed_modify; (solve [intros []; cbn; repeat split])
    | apply routed_emit; (solve [intros; exact Logic.I])
    | match goal with
      | |- Effects.respects _ (match ?x with _ => _ end) => destruct x
      end ]).

Section Routes.
Context `{Ut : UnicodeTables} `{Cs : CacheService} `{Gv : GoValues} `{Da : !Database} `{Bs : !BatchService} `{Ft : !FloatText} `{Sd : !SqlDriver}.
Variable error_text : Executor.error -> bytes.

Lemma routed_ignoring {A} (m : M A) : respects routed m -> respects routed (ignoring m).
Proof. unfold ignoring. routed_auto. Qed.
Hint Resolve routed_ignoring : routed.
Lemma routed_writeMessage t p : respects routed (writeMessage t p).
Proof. unfold writeMessage, message_writes. cbn [write_all]. routed_auto. Qed.
Hint Resolve routed_writeMessage : routed.
Lemma routed_sendError c t : respects routed (sendError c t).
Proof. unfold sendError, sendErrorWithSeverity. routed_auto. Qed.
Hint Resolve routed_sendError : routed.
Lemma routed_send_ready : respects routed send_ready.
Proof. unfold send_ready. routed_auto. Qed.
Hint Resolve routed_send_ready : routed.
Lemma routed_choose_backend p : respects routed (choose_backend p).
Proof. unfold choose_backend, get_replica, replica_handle, connectToBackend. routed_auto. Qed.
Hint Resolve routed_choose_backend : routed.
Lemma routed_count_query p h : respects routed (count_query p h).
Proof. unfold count_query. routed_auto. Qed.
Hint Resolve routed_count_query : routed.
Lemma routed_enqueue k q ps b : respects routed (enqueue k q ps b).
Proof. unfold enqueue. routed_auto. Qed.
Hint Resolve routed_enqueue : routed.
Lemma routed_try_cache p k : respects routed (try_cache p k).
Proof. unfold try_cache, serve_hit, serve_cached. routed_auto. Qed.
Hint Resolve routed_try_cache : routed.
Lemma routed_set_and_notify k v t : respects routed (set_and_notify k v t).
Proof. unfold set_and_notify. routed_auto. Qed.
Hint Resolve routed_set_and_notify : routed.
Lemma routed_cancel_inflight k : respects routed (cancel_inflight k).
Proof. unfold cancel_inflight. routed_auto. Qed.
Hint Resolve routed_cancel_inflight : routed.

(** The query of a statement on the database chosen for it. *)
Lemma routed_db_query_at h q ps w : routed_event (primaryDB (state w)) (EQuery h q ps) -> routed w (db_query h q ps w).1.
Proof.
  intros He. unfold db_query. apply relates_bind; [apply _|by apply routed_emit_at|]. intros [] w1 _.
  match goal with |- routed w1 (?k w1).1 => enough (respects routed k) as Hk by apply Hk end. routed_auto.
Qed.

Lemma choose_pg_primary p w : IsCacheable p = false -> choose_backend p w = (w, Done (primaryDB (state w), str "primary")).
Proof. intros Hc. unfold choose_backend, self, mbind, session_bind. by rewrite Hc. Qed.

Lemma routed_chosen q0 ps w w1 h name : choose_backend (Parse q0) w = (w1, Done (h, name)) ->
  routed w1 (catch (db_query h (Query (Parse q0)) ps) w1).1.
Proof.
  intros Hc. assert (Hq : routed w1 (db_query h (Query (Parse q0)) ps w1).1).
  { apply routed_db_query_at. destruct (IsCacheable (Parse q0)) eqn:Hca; [right; by exists q0|left].
    rewrite choose_pg_primary in Hc by done. by injection Hc as <- <- _. }
  unfold catch. by destruct (db_query _ _ _ w1) as [w2 [x|e|]].
Qed.

(** Goes through the choice of a database and the query. *)
Ltac routed_backend :=
  intros w; apply relates_bind; [apply _|apply routed_choose_backend|]; intros [h name] w1 Hc; cbv beta iota;
  apply relates_bind; [apply _|by eapply routed_chosen|]; intros r w2 _;
  match goal with |- routed _ (?k ?w2).1 => apply (fun Hk : respects routed k => Hk w2) end; routed_auto.

Lemma routed_query_on_backend q0 : respects routed (query_on_backend (Parse q0)).
Proof. unfold query_on_backend. routed_backend. Qed.
Lemma routed_execute_on_backend q0 ps k : respects routed (execute_on_backend (Parse q0) ps k).
Proof. unfold execute_on_backend. routed_backend. Qed.
Hint Resolve routed_query_on_backend routed_execute_on_backend : routed.

Lemma routed_handleQuery payload : respects routed (handleQuery error_text payload).
Proof.
  unfold handleQuery, handleShowTQDBStatus, track_transaction, lookup_cache, join_flight, cache_get_or_wait, serve_cached,
    query_batched, batch_done. routed_auto.
Qed.
Hint Resolve routed_handleQuery : routed.

Lemma routed_handleExecute payload : respects routed (handleExecute error_text payload).
Proof. unfold handleExecute, execute_batched, batch_done. routed_auto. Qed.
Hint Resolve routed_handleExecute : routed.

Lemma routed_dispatch t p : respects routed (dispatch error_text t p).
Proof.
  unfold dispatch, reporting, handleParse, handleBind, handleDescribe, describe_statement, make_bytes, handleClose. routed_auto.
Qed.
Hint Resolve routed_dispatch : routed.

Lemma routed_message_loop n : respects routed (message_loop error_text n).
Proof. induction n as [|n IH]; cbn [message_loop]; unfold serve_message; routed_auto. Qed.

End Routes.

(** ** Runs *)

Section Runs.
Context `{Ut : UnicodeTables} `{Cs : CacheService} `{Gv : GoValues} `{Da : !Database} `{Bs : !BatchService} `{Ft : !FloatText} `{Sd : !SqlDriver}.
Variable error_text : Executor.error -> bytes.

(** [d] was written to the client. *)
Definition say (d : bytes) (w : world) : world := w {{ client_out ::= fun out => out ++ d }}.

Lemma say_say a b w : say b (say a w) = say (a ++ b) w.
Proof. destruct w. unfold say. cbn. by rewrite app_assoc. Qed.

Lemma client_write_run d w : client_writes w = [] -> client_write d w = (say d w, Done tt).
Proof. intros E. unfold client_write. by rewrite E. Qed.

Lemma writes_say d w : client_writes w = [] -> client_writes (say d w) = [].
Proof. by destruct w. Qed.

Lemma ignoring_run {A} (m : M A) w w' x : m w = (w', Done x) -> ignoring m w = (w', Done tt).
Proof. intros E. unfold ignoring, catch, mbind, session_bind. by rewrite E. Qed.

Lemma writeMessage_run t p w : client_writes w = [] -> writeMessage t p w = (say (encodeMessage t p) w, Done tt).
Proof.
  intros E. unfold writeMessage, message_writes. cbn [write_all].
  do 3 (erewrite bind_run; [|apply client_write_run; repeat apply writes_say; done]). rewrite !say_say. done.
Qed.

Lemma send_ready_run w : client_writes w = [] -> send_ready w = (say readyForQuery w, Done tt).
Proof. intros E. eapply ignoring_run, writeMessage_run, E. Qed.

(** One turn of the loop. *)
Lemma message_loop_run n t p rest w w' : readMessage (client_in w) = Some (t, p, rest) -> t <> "X"%char ->
  dispatch error_text t p (w {{ client_in := rest }}) = (w', Done tt) ->
  message_loop error_text (S n) w = message_loop error_text n w'.
Proof.
  intros Hr Ht Hd. cbn [message_loop].
  assert (E : serve_message error_text w = (w', Done true)).
  { unfold serve_message. erewrite bind_run; [|unfold catch, read_message; rewrite Hr; reflexivity]. cbv beta iota.
    rewrite decide_False by done. by rewrite (bind_run _ _ _ _ _ Hd). }
  by rewrite (bind_run _ _ _ _ _ E).
Qed.

Lemma reporting_run m b w w' : m w = (w', Done tt) -> reporting m b w = (w', Done tt).
Proof. intros E. unfold reporting. erewrite bind_run; [|unfold catch; rewrite E; reflexivity]. done. Qed.

(** The payloads of Parse and Execute as the protocol defines them. *)
Definition parse_message (stmt query types : bytes) : bytes := stmt ++ [zero] ++ query ++ [zero] ++ types.
Definition execute_message (portal maxrows : bytes) : bytes := portal ++ [zero] ++ maxrows.

Lemma handleParse_run stmt query types w : zero ∉ stmt -> zero ∉ query -> client_writes w = [] ->
  handleParse (parse_message stmt query types) w =
    (say (encodeMessage "1"%char []) (w {{ state -> preparedStatements ::= <[stmt := query]> }}), Done tt).
Proof.
  intros Hs Hq Hw. unfold handleParse, parse_message. rewrite cut0_app, cut0_app by done.
  erewrite bind_run by reflexivity. by rewrite writeMessage_run by by destruct w.
Qed.

Lemma handleBind_run portal stmt formats params results w : zero ∉ portal -> zero ∉ stmt ->
  is_Some (preparedStatements (state w) !! stmt) -> zlen formats < 2 ^ 16 -> zlen params < 2 ^ 16 ->
  zlen (bind_message portal stmt formats (Some <$> params) results) < 2 ^ 32 -> client_writes w = [] ->
  handleBind (bind_message portal stmt formats (Some <$> params) results) w =
    (say (encodeMessage "2"%char []) (w {{ state -> portalStatements ::= <[portal := stmt]>;
                                           state -> boundParams ::= <[portal := VString <$> params]> }}), Done tt).
Proof.
  intros Hp Hs Hk Hf Hn Hl Hw. unfold handleBind. erewrite bind_run by reflexivity. unfold id.
  rewrite decode_bind_message by (done || by apply bool_decide_eq_true_2 || (unfold zlen; by rewrite length_fmap)).
  assert (Hb : bound (Some <$> params) = inl (VString <$> params)).
  { unfold bound. replace (mapM id (Some <$> params)) with (Some params); [done|]. symmetry. apply mapM_Some, Forall2_fmap_l.
    clear. induction params; constructor; done. }
  rewrite Hb. erewrite bind_run by reflexivity. rewrite writeMessage_run by by destruct w. done.
Qed.

(** A statement that is neither cached nor batched is executed on the primary. *)
Definition plain (w : world) (query : bytes) : Prop :=
  IsCacheable (Parse query) = false /\ batched (state w) (Parse query) = false /\
  forallb label_ok [str "primary"; file_of (Parse query); line_of (Parse query); queryTypeLabel (Type_ (Parse query)); str "false"] = true.

(** The state after the query of a plain statement was answered. *)
Definition executed (query : bytes) (params : list value) (s : servers) (w : world) : world :=
  w {{ trace ::= fun t => t ++ [EQuery (primaryDB (state w)) (Query (Parse query)) params]; dbs := s;
       state -> lastBackend := str "primary"; state -> lastCacheHit := false }}.

Lemma count_query_run p hit w : forallb label_ok [file_of p; line_of p; queryTypeLabel (Type_ p); hit] = true ->
  count_query p hit w = (w, Done tt).
Proof.
  intros Hl. unfold count_query. erewrite bind_run by by apply metric_run. apply metric_run; [reflexivity|]. cbn [forallb] in *. bool_simpl.
  by repeat (apply andb_true_intro; split).
Qed.

Lemma db_query_run h q ps w s r : sql_Query (dbs w) h q ps = (s, inl r) ->
  db_query h q ps w = (w {{ trace ::= fun t => t ++ [EQuery h q ps]; dbs := s }}, Done r).
Proof.
  intros Hq. unfold db_query. erewrite bind_run by reflexivity. erewrite bind_run by reflexivity.
  destruct w. cbn in *. rewrite Hq. done.
Qed.

Lemma catch_run {A} (m : M A) w w' x : m w = (w', Done x) -> catch m w = (w', Done (inl x)).
Proof. intros E. unfold catch. by rewrite E. Qed.

Lemma execute_on_backend_run query params w s rs : plain w query -> client_writes w = [] ->
  sql_Query (dbs w) (primaryDB (state w)) (Query (Parse query)) params = (s, inl rs) ->
  execute_on_backend (Parse query) params None w = (say (result_messages rs (str "INSERT 0 1")) (executed query params s w), Done tt).
Proof.
  intros (Hc & _ & Hl) Hw Hq. unfold execute_on_backend. rewrite (bind_run _ _ _ _ _ (choose_pg_primary _ w Hc)). cbv beta iota.
  rewrite (bind_run _ _ _ _ _ (catch_run _ _ _ _ (db_query_run _ _ _ _ _ _ Hq))). cbv beta iota zeta.
  erewrite bind_run by reflexivity. cbn [forallb] in Hl. bool_simpl.
  erewrite bind_run by (apply metric_run; [reflexivity|]; cbn [forallb]; by apply andb_true_intro).
  erewrite bind_run by (apply count_query_run; cbn [forallb]; repeat (apply andb_true_intro; split); done).
  erewrite bind_run by reflexivity. rewrite client_write_run by by destruct w. by destruct w as [[] ].
Qed.

Lemma query_on_backend_run query w s rs : plain w query -> client_writes w = [] ->
  sql_Query (dbs w) (primaryDB (state w)) (Query (Parse query)) [] = (s, inl rs) ->
  query_on_backend (Parse query) w = (say (result_messages rs (str "OK") ++ readyForQuery) (executed query [] s w), Done tt).
Proof.
  intros (Hc & _ & Hl) Hw Hq. unfold query_on_backend. rewrite (bind_run _ _ _ _ _ (choose_pg_primary _ w Hc)). cbv beta iota.
  rewrite (bind_run _ _ _ _ _ (catch_run _ _ _ _ (db_query_run _ _ _ _ _ _ Hq))). cbv beta iota zeta.
  erewrite bind_run by reflexivity. cbn [forallb] in Hl. bool_simpl.
  erewrite bind_run by (apply metric_run; [reflexivity|]; cbn [forallb]; by apply andb_true_intro).
  erewrite bind_run by (apply count_query_run; cbn [forallb]; repeat (apply andb_true_intro; split); done).
  rewrite Hc. erewrite bind_run by reflexivity. erewrite ignoring_run by (apply client_write_run; by destruct w). by destruct w as [[] ].
Qed.

Lemma handleExecute_run portal maxrows query params w s rs : zero ∉ portal -> portal_of (state w) portal = inl (query, params) ->
  plain w query -> client_writes w = [] ->
  sql_Query (dbs w) (primaryDB (state w)) (Query (Parse query)) params = (s, inl rs) ->
  handleExecute error_text (execute_message portal maxrows) w =
    (say (result_messages rs (str "INSERT 0 1")) (executed query params s w), Done tt).
Proof.
  intros Hz Hp Hpl Hw Hq. pose proof Hpl as (Hc & Hb & _). unfold handleExecute, execute_message. rewrite cut0_app by done.
  erewrite bind_run by reflexivity. unfold id. rewrite Hp. cbv beta iota zeta. rewrite Hc. cbn [andb].
  erewrite bind_run by reflexivity. cbv beta iota. rewrite Hb. by apply execute_on_backend_run.
Qed.
End Runs.

Section EndToEnd.
Context `{Ut : UnicodeTables} `{Cs : CacheService} `{Gv : GoValues} `{Da : !Database} `{Bs : !BatchService} `{Ft : !FloatText} `{Sd : !SqlDriver}.
Variable error_text : Executor.error -> bytes.

Lemma trim_zero_app s : trim_zero (s ++ [zero]) = s.
Proof.
  unfold trim_zero. rewrite length_app. cbn [length]. replace (length s + 1 - 1)%nat with (length s) by lia.
  rewrite lookup_app_r, Nat.sub_diag, take_app_length by lia. done.
Qed.

Lemma dispatch_query p : dispatch error_text "Q"%char p = handleQuery error_text p.
Proof. reflexivity. Qed.
Lemma dispatch_parse p : dispatch error_text "P"%char p = reporting (handleParse p) true.
Proof. reflexivity. Qed.
Lemma dispatch_bind p : dispatch error_text "B"%char p = reporting (handleBind p) true.
Proof. reflexivity. Qed.
Lemma dispatch_execute p : dispatch error_text "E"%char p = reporting (handleExecute error_text p) false.
Proof. reflexivity. Qed.
Lemma dispatch_sync p : dispatch error_text "S"%char p = send_ready.
Proof. reflexivity. Qed.

(** The parameters a client announces, the last value of a repeated name. *)
Definition announced (kvs : list (bytes * bytes)) (name : bytes) : bytes :=
  default [] ((foldl (fun m kv => <[kv.1 := kv.2]> m) ∅ kvs : gmap bytes bytes) !! name).

Lemma read_message_run t p rest w : fits p = true -> client_in w = encodeMessage t p ++ rest ->
  read_message w = (w {{ client_in := rest }}, Done (t, p)).
Proof. intros Hf Hin. unfold read_message. by rewrite Hin, readMessage_encode. Qed.

Lemma startup_run kvs rest w : Forall param_text kvs -> zlen (startup_message 196608 kvs) < 2 ^ 32 ->
  client_in w = startup_message 196608 kvs ++ rest -> startup w = (w {{ client_in := rest }}, Done (startup_message 196608 kvs)).
Proof.
  intros Hkv Hl Hin. unfold startup. destruct (startup_message_read 196608 kvs rest Hkv Hl) as [Hr _].
  erewrite bind_run; [|unfold read_startup; rewrite Hin, Hr; reflexivity]. cbv beta.
  rewrite (proj2 (Z.eqb_neq _ _)); [done|]. unfold startup_message. rewrite !zlen_app, !zlen_be_enc. change (zlen [zero]) with 1.
  pose proof (zlen_nonneg (concat (param_bytes <$> kvs))). lia.
Qed.

Lemma authenticate_run kvs pw rest w : Forall param_text kvs -> zlen (startup_message 196608 kvs) < 2 ^ 32 ->
  fits (pw ++ [zero]) = true -> client_in w = startup_message 196608 kvs ++ encodeMessage "p"%char (pw ++ [zero]) ++ rest ->
  client_writes w = [] ->
  let u := announced kvs (str "user") in
  let d := announced kvs (str "database") in
  authenticate w = (say (encodeMessage "R"%char (be_enc 4 3)) (w {{ client_in := rest }}),
                    Done (u, pw, if decide (d = []) then u else d)).
Proof.
  intros Hkv Hl Hf Hin Hw u d. unfold authenticate. rewrite (bind_run _ _ _ _ _ (startup_run _ _ _ Hkv Hl Hin)). cbv beta zeta.
  destruct (startup_message_read 196608 kvs [] Hkv Hl) as [_ ->].
  destruct w as [st ci co cw px ph ds qc tr]. cbn in Hw. subst cw.
  erewrite bind_run by (eapply ignoring_run; by apply writeMessage_run). cbv beta.
  erewrite bind_run by (apply (read_message_run "p"%char (pw ++ [zero]) rest); done). cbv beta iota.
  by rewrite trim_zero_app.
Qed.

Lemma connect_run a u p d w s h : sql_Open (dbs w) (backend_dsn a u p d) = (s, inl h) ->
  connectToBackend a u p d w = (w {{ trace ::= fun t => t ++ [EOpen (backend_dsn a u p d)]; dbs := s }}, Done h).
Proof.
  intros Ho. unfold connectToBackend. erewrite bind_run by reflexivity. erewrite bind_run by reflexivity.
  destruct w. cbn -[backend_dsn] in *. rewrite Ho. done.
Qed.

Lemma ping_run h w s r : sql_Ping (dbs w) h = (s, r) -> db_ping h w = (w {{ dbs := s }}, Done r).
Proof. intros Hp. unfold db_ping. erewrite bind_run by reflexivity. rewrite Hp. done. Qed.

(** C22. A login the database refuses serves nothing: the proxy opens the primary of
    the shard of the client's database with the user, the password and the
    database the client announced; when the database does not accept them the
    client gets its error as a FATAL one, the handle is closed, no message after
    the password is read and no query is sent. *)
Theorem refused_login connID kvs pw rest w l pl h s1 s2 e :
  let user := announced kvs (str "user") in
  let database := if decide (announced kvs (str "database") = []) then user else announced kvs (str "database") in
  let dsn := backend_dsn (GetPrimary pl) user pw database in
  Forall param_text kvs -> zlen (startup_message 196608 kvs) < 2 ^ 32 -> fits (pw ++ [zero]) = true ->
  client_in w = startup_message 196608 kvs ++ encodeMessage "p"%char (pw ++ [zero]) ++ rest -> client_writes w = [] ->
  ppools (proxy w) !! shard_of (pconfig (proxy w)) database = Some l -> pool_heap w !! l = Some pl ->
  sql_Open (dbs w) dsn = (s1, inl h) -> sql_Ping s1 h = (s2, Some e) ->
  exists w', handleConnection error_text connID w = (w', Done tt) /\ client_in w' = rest /\
    client_out w' = client_out w ++ encodeMessage "R"%char (be_enc 4 3) ++
      encodeMessage "E"%char (error_payload (str "FATAL") (str "28P01") (strip_pq e)) /\
    trace w' = trace w ++ [EOpen dsn; EClose h; EClientClosed].
Proof.
  intros user database dsn Hkv Hl Hf Hin Hw Hpool Hheap Hopen Hping. unfold handleConnection.
  rewrite (bind_run _ _ _ _ _ (catch_run _ _ _ _ (authenticate_run _ _ _ _ Hkv Hl Hf Hin Hw))). fold user. fold database.
  destruct w as [st ci co cw px ph ds qc tr]. cbn in Hw, Hpool, Hheap, Hopen. subst cw. eexists. split.
  - erewrite bind_run.
    2:{ unfold login_session. erewrite bind_run by reflexivity. cbn -[encodeMessage]. rewrite Hpool. erewrite bind_run by reflexivity. cbn -[encodeMessage].
        rewrite Hheap. cbn [or_crash]. erewrite bind_run by reflexivity.
        erewrite bind_run by (apply catch_run; by apply connect_run). cbv beta iota.
        erewrite bind_run by by apply ping_run. cbv beta iota. erewrite bind_run.
        2:{ eapply ignoring_run. by apply writeMessage_run. }
        reflexivity. }
    reflexivity.
  - cbn -[encodeMessage]. rewrite <- !app_assoc. done.
Qed.
End EndToEnd.

(** ** Witnesses *)

#[local] Existing Instance ascii_tables.
#[local] Existing Instance NoFloats.
#[local] Existing Instance NoFloatText.
#[local] Existing Instance ScriptDB.
#[local] Existing Instance TestCache.
#[local] Existing Instance TestBatch.

Ltac absent := apply (bool_decide_eq_true_1 _); vm_compute; reflexivity.

Section Refused.
(** A server that refuses every login. *)
#[local] Instance refusing : SqlDriver := {|
  handle := bytes; servers := unit;
  sql_Open s dsn := (s, inl dsn);
  sql_Ping s h := (s, Some (str "pq: password authentication failed"));
  sql_Query s h q ps := (s, inr []);
  sql_Close s h := s;
  io_text := []
|}.

Definition login_input : bytes :=
  startup_message 196608 [(str "user", str "app"); (str "database", str "shop")] ++ encodeMessage "p"%char (str "wrong" ++ [zero]) ++
  encodeMessage "Q"%char (str "SELECT 1").

Definition login_world : world :=
  MkSession (MkState [] [] false 0 [] [] [] [] ∅ ∅ ∅ ∅ false false 0) login_input [] []
    (MkProxy pg_config {[str "main" := O]} None) [NewPool (str "db1:5432") []] tt ∅ [].

Lemma refused_login_witness :
  let dsn := str "host=db1 port=5432 user=app password=wrong dbname=shop sslmode=disable" in
  exists w', handleConnection pg_text 1 login_world = (w', Done tt) /\
    client_in w' = encodeMessage "Q"%char (str "SELECT 1") /\
    client_out w' = encodeMessage "R"%char (be_enc 4 3) ++
      encodeMessage "E"%char (error_payload (str "FATAL") (str "28P01") (str "password authentication failed")) /\
    trace w' = [EOpen dsn; EClose dsn; EClientClosed].
Proof.
  refine (refused_login pg_text 1 [(str "user", str "app"); (str "database", str "shop")] (str "wrong")
    (encodeMessage "Q"%char (str "SELECT 1")) login_world 0 (NewPool (str "db1:5432") []) _ tt tt
    (str "pq: password authentication failed") _ _ _ _ _ _ _ _ _); try reflexivity.
  repeat constructor; cbn [fst snd]; try discriminate; absent.
Defined.
End Refused.

#[local] Existing Instance TestSql.

(** ** Runs that were not intended *)

(** The queries a session sent to a database, with their parameters' texts. *)
Definition queries_sent (w : world) : list (bytes * bytes * list bytes) :=
  omap (fun e => match e with EQuery h q ps => Some (h, q, sprint_v <$> ps) | _ => None end) (trace w).
Definition enqueued (w : world) : list bytes := omap (fun e => match e with EEnqueue _ q _ => Some q | _ => None end) (trace w).
Definition panics {A} (r : world * outcome bytes A) : bool := match r.2 with Crash => true | _ => false end.
Definition query_msg (q : bytes) : bytes := encodeMessage "Q"%char (q ++ [zero]).
Abbreviation served input := (handleMessages pg_text (pg_session input)).1.

Definition prepare (q : bytes) : bytes := encodeMessage "P"%char (parse_message [] q (be_enc 2 0)).
Definition bind_execute (ps : list bytes) : bytes :=
  encodeMessage "B"%char (bind_message [] [] [] (Some <$> ps) (be_enc 2 0)) ++
  encodeMessage "E"%char (execute_message [] (be_enc 4 0)).

(** A cacheable read inside a transaction leaves it: it is sent to a replica. *)
Example read_leaves_transaction :
  queries_sent (served (query_msg (str "BEGIN") ++ query_msg (str "/* ttl:5 */ SELECT 1"))) =
  [(str "primary", str "BEGIN", []);
   (str "host=db2 port=5432 user=app password=pw dbname=shop sslmode=disable", str "SELECT 1", [])].
Proof. vm_compute. reflexivity. Qed.

(** A BEGIN with a semicolon is not noticed, and the write that follows is
    batched, outside of the transaction. *)
Example begin_with_semicolon :
  enqueued (served (query_msg (str "BEGIN;") ++ query_msg (str "/* batch:10 */ INSERT INTO t VALUES (1)"))) = [str "INSERT INTO t VALUES (1)"].
Proof. vm_compute. reflexivity. Qed.

(** Nor is a BEGIN of the extended protocol. *)
Example begin_prepared :
  enqueued (served (prepare (str "BEGIN") ++ bind_execute [] ++ query_msg (str "/* batch:10 */ INSERT INTO t VALUES (1)"))) =
  [str "INSERT INTO t VALUES (1)"].
Proof. vm_compute. reflexivity. Qed.

(** Parameters are put into the cache key without separators: the second
    execution gets the rows of the first. *)
Example execute_key_collides :
  queries_sent (served (prepare (str "/* ttl:5 */ SELECT $1, $2") ++ bind_execute [str "a"; str "bc"] ++ bind_execute [str "ab"; str "c"])) =
  [(str "host=db2 port=5432 user=app password=pw dbname=shop sslmode=disable", str "SELECT $1, $2", [str "a"; str "bc"])].
Proof. vm_compute. reflexivity. Qed.

(** A statement whose text is the key of an execution gets the answer of that
    execution, which has no ReadyForQuery. *)
Example text_reads_execution :
  let q := str "/* ttl:5 */ SELECT $1" in
  let k := execute_key (str "shop") (Parse q) [VString (str "a")] in
  let w := served (prepare q ++ bind_execute [str "a"] ++ query_msg (str "/* ttl:5 file:select */ " ++ k)) in
  length k = 43%nat /\ map fst <$> read_messages 30 (client_out w) = Some ["1"; "2"; "T"; "D"; "D"; "C"; "T"; "D"; "D"; "C"]%char.
Proof. vm_compute. split; reflexivity. Qed.

(** The number of a placeholder decides how much is allocated, and overflows. *)
Example describe_panics :
  panics (handleMessages pg_text (pg_session (prepare (str "SELECT $9223372036854775807") ++ encodeMessage "D"%char (str "S" ++ [zero])))) = true.
Proof. vm_compute. reflexivity. Qed.

(** An index into the upper-case text is used in the text itself, which is
    shorter when a letter has a longer capital. *)
Example returning_panics :
  let q := [to_byte 0xC9; to_byte 0x90; to_byte 0xC9; to_byte 0x90] ++ str " RETURNING x" in
  panics (handleMessages (Ut := turned_a_tables) pg_text (pg_session (prepare q ++ encodeMessage "D"%char (str "S" ++ [zero])))) = true.
Proof. vm_compute. reflexivity. Qed.

(** Closing a portal keeps its statement: executing it runs the statement without
    parameters. *)
Example closed_portal_executes :
  queries_sent (served (prepare (str "SELECT $1") ++ encodeMessage "B"%char (bind_message [] [] [] [Some (str "7")] (be_enc 2 0)) ++
    encodeMessage "C"%char (str "P" ++ [zero]) ++ encodeMessage "E"%char (execute_message [] (be_enc 4 0)))) =
  [(str "primary", str "SELECT $1", [])].
Proof. vm_compute. reflexivity. Qed.

(** A client is told that there are no rows, and gets rows. *)
Example described_without_rows :
  let w := served (prepare (str "SELECT 1") ++ encodeMessage "D"%char (str "S" ++ [zero]) ++ bind_execute []) in
  map fst <$> read_messages 20 (client_out w) = Some ["1"; "t"; "n"; "2"; "T"; "D"; "D"; "C"]%char.
Proof. vm_compute. reflexivity. Qed.

(** ReadyForQuery reports an idle session inside a transaction. *)
Example ready_in_transaction :
  let w := served (query_msg (str "BEGIN")) in
  inTransaction (state w) = true /\ read_messages 20 (client_out w) = Some [("C"%char, str "OK" ++ [zero]); ("Z"%char, str "I")].
Proof. vm_compute. split; reflexivity. Qed.

(** A statement that mentions the status command, in a literal for example, is
    not executed. *)
Example status_swallows_statement :
  queries_sent (served (query_msg (str "INSERT INTO log VALUES ('pg_tqdb_status')"))) = [].
Proof. vm_compute. reflexivity. Qed.

(** The credentials of a client are put into the connection string as they are. *)
Example dsn_injection :
  backend_dsn (str "db1:5432") (str "app") (str "x host=other") (str "shop") =
  str "host=db1 port=5432 user=app password=x host=other dbname=shop sslmode=disable".
Proof. vm_compute. reflexivity. Qed.
