(* ===== verification/PgSession.v ===== *)
(** * Package postgres: a session refines a direct connection

    The abstract specification of a session: a client that talks to one database
    server directly, request by request.  A session of statements that are
    neither cached nor batched - simple queries and extended ones, in any number
    and order, with or without errors - refines it: the server sees the same
    statements in the same order and the client gets the same answers. *)

From Stdlib Require Import Ascii ZArith Lia.
From stdpp Require Import base list gmap strings numbers.
From coqutil Require Import Datatypes.RecordSetters.
From S2P Require Import Prelude GoStrings BatchText Metrics Executor Parser Replica Cache Config Effects Services MariaWire PgWire PgConn PgServe PgSafe PgRuns.
Import DoubleBraceUpdate.

Open Scope Z_scope.

Section Specification.
Context `{Ut : UnicodeTables} `{Cs : CacheService} `{Gv : GoValues} `{Da : !Database} `{Bs : !BatchService} `{Ft : !FloatText} `{Sd : !SqlDriver}.

(** ** The specification *)

(** A request of a client: one Query message, or Parse, Bind, Execute and Sync. *)
Inductive request :=
| Simple (query : bytes)
| Extended (stmt portal query types : bytes) (formats : list Z) (params : list bytes) (results maxrows : bytes).

Definition request_messages (r : request) : list (byte * bytes) :=
  match r with
  | Simple query => [("Q"%char, query ++ [zero])]
  | Extended stmt portal query types formats params results maxrows =>
      [("P"%char, parse_message stmt query types); ("B"%char, bind_message portal stmt formats (Some <$> params) results);
       ("E"%char, execute_message portal maxrows); ("S"%char, [])]
  end.

(** The statement and the parameters of a request. *)
Definition request_query (r : request) : bytes := match r with Simple q | Extended _ _ q _ _ _ _ _ => q end.
Definition request_params (r : request) : list value :=
  match r with Simple _ => [] | Extended _ _ _ _ _ params _ _ => VString <$> params end.

(** What a server answers to a request whose statement gave [o]. *)
Definition reply (r : request) (o : Rows + bytes) : bytes :=
  let result tag := match o with
    | inl rs => result_messages rs tag
    | inr e => encodeMessage "E"%char (error_payload (str "ERROR") (str "42000") e)
    end in
  match r with
  | Simple _ => result (str "OK") ++ readyForQuery
  | Extended _ _ _ _ _ _ _ _ => encodeMessage "1"%char [] ++ encodeMessage "2"%char [] ++ result (str "INSERT 0 1") ++ readyForQuery
  end.

(** A direct connection to [h]: the servers and the answers after some requests. *)
Fixpoint direct (h : handle) (s : servers) (rs : list request) : servers * bytes :=
  match rs with
  | [] => (s, [])
  | r :: rs =>
      let '(s, o) := sql_Query s h (Query (Parse (request_query r))) (request_params r) in
      let '(s, out) := direct h s rs in
      (s, reply r o ++ out)
  end.

(** A statement that the proxy has no reason to treat in its own way. *)
Definition ordinary (query : bytes) : bool :=
  negb (IsCacheable (Parse query)) && negb (IsBatchable (Parse query)) && valid_utf8 query.

Definition request_ok (r : request) : Prop :=
  ordinary (request_query r) = true /\ Forall (fun m : byte * bytes => fits m.2 = true) (request_messages r) /\
  match r with
  | Simple query => Contains (ToUpper (TrimSpace query)) (str "PG_TQDB_STATUS") = false
  | Extended stmt portal query types formats params results maxrows =>
      (zero ∉ stmt) /\ (zero ∉ portal) /\ (zero ∉ query) /\ zlen formats < 2 ^ 16 /\ zlen params < 2 ^ 16
  end.

(** ** One request *)

Variable error_text : Executor.error -> bytes.

Lemma ordinary_plain w query : ordinary query = true -> plain w query.
Proof.
  unfold ordinary, plain, batched. intros Ho. bool_simpl. split; [done|]. rewrite H1, andb_false_r. split; [done|].
  destruct (valid_labels (Parse query)) as (Hf & Hl & Ht); [by apply Parse_file_valid|]. cbn [forallb].
  by rewrite !label_ok_utf8 by (done || by apply is_ascii_valid_utf8).
Qed.

(** The databases were asked. *)
Definition asked (q : bytes) (ps : list value) (s : servers) (w : world) : world :=
  w {{ trace ::= fun t => t ++ [EQuery (primaryDB (state w)) q ps]; dbs := s }}.

Lemma sendError_run c t w : client_writes w = [] ->
  sendError c t w = (say (encodeMessage "E"%char (error_payload (str "ERROR") c t)) w, Done tt).
Proof. intros E. eapply ignoring_run, writeMessage_run, E. Qed.

Lemma db_query_fails q ps w s e : sql_Query (dbs w) (primaryDB (state w)) q ps = (s, inr e) ->
  catch (db_query (primaryDB (state w)) q ps) w = (asked q ps s w, Done (inr e)).
Proof.
  intros Hq. unfold catch, db_query, asked. erewrite bind_run by reflexivity. erewrite bind_run by reflexivity.
  destruct w. cbn in *. rewrite Hq. done.
Qed.

Lemma query_on_backend_fails query w s e : plain w query -> client_writes w = [] ->
  sql_Query (dbs w) (primaryDB (state w)) (Query (Parse query)) [] = (s, inr e) ->
  query_on_backend (Parse query) w =
    (say (encodeMessage "E"%char (error_payload (str "ERROR") (str "42000") e) ++ readyForQuery) (asked (Query (Parse query)) [] s w), Done tt).
Proof.
  intros (Hc & _ & Hl) Hw Hq. unfold query_on_backend. rewrite (bind_run _ _ _ _ _ (choose_pg_primary _ w Hc)). cbv beta iota.
  rewrite (bind_run _ _ _ _ _ (db_query_fails _ _ _ _ _ Hq)). cbv beta iota zeta. rewrite Hc.
  erewrite bind_run by reflexivity. erewrite bind_run by (apply sendError_run; by destruct w).
  rewrite send_ready_run by by destruct w. by rewrite say_say.
Qed.

Lemma execute_on_backend_fails query params w s e : plain w query -> client_writes w = [] ->
  sql_Query (dbs w) (primaryDB (state w)) (Query (Parse query)) params = (s, inr e) ->
  execute_on_backend (Parse query) params None w = (asked (Query (Parse query)) params s w, Fail e).
Proof.
  intros (Hc & _ & Hl) Hw Hq. unfold execute_on_backend. rewrite (bind_run _ _ _ _ _ (choose_pg_primary _ w Hc)). cbv beta iota.
  rewrite (bind_run _ _ _ _ _ (db_query_fails _ _ _ _ _ Hq)). done.
Qed.

Lemma reporting_fails m w w' e : m w = (w', Fail e) -> client_writes w' = [] ->
  reporting m false w = (say (encodeMessage "E"%char (error_payload (str "ERROR") (str "42000") e)) w', Done tt).
Proof.
  intros E Hw. unfold reporting. erewrite bind_run; [|unfold catch; rewrite E; reflexivity]. cbv beta iota.
  by erewrite bind_run by by apply sendError_run.
Qed.

Lemma track_transaction_run q w : exists b, track_transaction q w = (w {{ state -> inTransaction := b }}, Done tt).
Proof.
  unfold track_transaction. destruct (_ || _); [by exists true|]. destruct (_ || _); [by exists false|].
  exists (inTransaction (state w)). by destruct w as [[] ].
Qed.

(** What a request leaves behind. *)
Record served (r : request) (rest : bytes) (w w' : world) : Prop := {
  sv_in : client_in w' = rest;
  sv_writes : client_writes w' = [];
  sv_primary : primaryDB (state w') = primaryDB (state w);
  sv_answer : let '(s, o) := sql_Query (dbs w) (primaryDB (state w)) (Query (Parse (request_query r))) (request_params r) in
    dbs w' = s /\ client_out w' = client_out w ++ reply r o;
  sv_trace : trace w' = trace w ++ [EQuery (primaryDB (state w)) (Query (Parse (request_query r))) (request_params r)]
}.

Lemma simple_served query rest w n : request_ok (Simple query) -> client_in w = encodeMessage "Q"%char (query ++ [zero]) ++ rest ->
  client_writes w = [] -> exists w', message_loop error_text (S n) w = message_loop error_text n w' /\ served (Simple query) rest w w'.
Proof.
  intros (Ho & Hf & Hst) Hin Hw. apply Forall_cons_1 in Hf as [Hf _]. cbn [snd] in Hf.
  set (w0 := w {{ client_in := rest }}). destruct (track_transaction_run (ToUpper (TrimSpace query)) w0) as [b Hb].
  set (w1 := w0 {{ state -> inTransaction := b }}) in *.
  assert (Hpl : plain w1 query) by by apply ordinary_plain.
  assert (Hq : handleQuery error_text (query ++ [zero]) w0 = query_on_backend (Parse query) w1).
  { unfold handleQuery. rewrite (trim_zero_app query), Hst. cbv zeta. rewrite (bind_run _ _ _ _ _ Hb).
    destruct Hpl as (Hc & Hbt & _). rewrite Hc. erewrite bind_run by reflexivity. cbv beta iota.
    erewrite bind_run by reflexivity. unfold id. by rewrite Hbt. }
  assert (Hr : readMessage (client_in w) = Some ("Q"%char, query ++ [zero], rest)) by by rewrite Hin, readMessage_encode.
  assert (Hw1 : client_writes w1 = []) by by destruct w.
  destruct (sql_Query (dbs w1) (primaryDB (state w1)) (Query (Parse query)) []) as [s [rs|e]] eqn:Es.
  - eexists. split.
    + eapply message_loop_run; [exact Hr|done|]. rewrite dispatch_query. etrans; [exact Hq|]. by apply query_on_backend_run.
    + subst w1 w0. destruct w as [[] ]. split; try done. cbn in Es |- *. by rewrite Es.
  - eexists. split.
    + eapply message_loop_run; [exact Hr|done|]. rewrite dispatch_query. etrans; [exact Hq|]. by apply query_on_backend_fails.
    + subst w1 w0. destruct w as [[] ]. split; try done. cbn in Es |- *. by rewrite Es.
Qed.

(** Execute of a portal, with the result or the error of the database. *)
Lemma execute_served portal maxrows query params w s o : zero ∉ portal -> portal_of (state w) portal = inl (query, params) ->
  ordinary query = true -> client_writes w = [] ->
  sql_Query (dbs w) (primaryDB (state w)) (Query (Parse query)) params = (s, o) ->
  dispatch error_text "E"%char (execute_message portal maxrows) w =
    (match o with
     | inl rs => say (result_messages rs (str "INSERT 0 1")) (executed query params s w)
     | inr e => say (encodeMessage "E"%char (error_payload (str "ERROR") (str "42000") e)) (asked (Query (Parse query)) params s w)
     end, Done tt).
Proof.
  intros Hz Hp Ho Hw Hq. pose proof (ordinary_plain w query Ho) as Hpl. rewrite dispatch_execute. destruct o as [rs|e].
  - by apply reporting_run, handleExecute_run.
  - apply reporting_fails; [|by destruct w]. pose proof Hpl as (Hc & Hb & _). unfold handleExecute, execute_message. rewrite cut0_app by done.
    erewrite bind_run by reflexivity. unfold id. rewrite Hp. cbv beta iota zeta. rewrite Hc. cbn [andb].
    erewrite bind_run by reflexivity. cbv beta iota. rewrite Hb. by apply execute_on_backend_fails.
Qed.

Lemma extended_served stmt portal query types formats params results maxrows rest w n :
  let r := Extended stmt portal query types formats params results maxrows in
  request_ok r -> client_in w = messages (request_messages r) ++ rest -> client_writes w = [] ->
  exists w', message_loop error_text (4 + n) w = message_loop error_text n w' /\ served r rest w w'.
Proof.
  intros r (Ho & Hf & Hs & Hp & Hq & Hfo & Hpa) Hin Hw. do 3 (apply Forall_cons_1 in Hf as [?F Hf]). cbn [snd] in F, F0, F1.
  unfold r, messages, request_messages in Hin. rewrite !fmap_cons in Hin. cbn [concat fmap list_fmap fst snd] in Hin. rewrite <- !app_assoc in Hin.
  destruct w as [st ci co cw px ph d qc tr]. destruct st. cbn in Hin, Hw. subst ci cw.
  pose proof (fun w => ordinary_plain w query Ho) as Hpl.
  destruct (sql_Query d primaryDB (Query (Parse query)) (VString <$> params)) as [s o] eqn:Es.
  assert (Hbind : zlen (bind_message portal stmt formats (Some <$> params) results) < 2 ^ 32) by (unfold fits in F0; bool_simpl; lia).
  eexists. split.
  - etrans; [|etrans; [|etrans]].
    + eapply message_loop_run; [by apply readMessage_encode|done|]. rewrite dispatch_parse. by apply reporting_run, handleParse_run.
    + eapply message_loop_run; [by apply readMessage_encode|done|]. rewrite dispatch_bind. apply reporting_run, handleBind_run; try done.
      cbn. rewrite lookup_insert_eq. by eexists.
    + eapply message_loop_run; [by apply readMessage_encode|done|]. eapply execute_served; try done.
      unfold portal_of. cbn. by rewrite !lookup_insert_eq.
    + eapply message_loop_run; [destruct o; exact (readMessage_encode "S"%char [] rest eq_refl)|done|]. rewrite dispatch_sync. apply send_ready_run. by destruct o.
  - cbn [request_query request_params r]. split; cbn [request_query request_params r]; [by destruct o..| |].
    + cbn -[encodeMessage]. rewrite Es. split; [by destruct o|]. unfold reply. cbn -[encodeMessage].
      destruct o; cbn -[encodeMessage]; by rewrite <- !app_assoc.
    + by destruct o.
Qed.

Lemma request_served r rest w n : request_ok r -> client_in w = messages (request_messages r) ++ rest -> client_writes w = [] ->
  exists w', message_loop error_text (length (request_messages r) + n) w = message_loop error_text n w' /\ served r rest w w'.
Proof.
  destruct r as [query|stmt portal query types formats params results maxrows]; intros Hr Hin Hw.
  - apply simple_served; [done| |done]. unfold messages in Hin. cbn [request_messages fmap list_fmap concat fst snd] in Hin. by rewrite app_nil_r in Hin.
  - by apply extended_served.
Qed.

(** ** Sessions *)

Definition session_bytes (rs : list request) : bytes := messages (concat (request_messages <$> rs)).

Definition session_queries (h : handle) (rs : list request) : list event :=
  (fun r => EQuery h (Query (Parse (request_query r))) (request_params r)) <$> rs.

Lemma requests_served rs : forall w n, Forall request_ok rs -> client_in w = session_bytes rs -> client_writes w = [] ->
  exists w', message_loop error_text (length (concat (request_messages <$> rs)) + n) w = message_loop error_text n w' /\
    client_in w' = [] /\ (dbs w', client_out w') = (let '(s, out) := direct (primaryDB (state w)) (dbs w) rs in (s, client_out w ++ out)) /\
    trace w' = trace w ++ session_queries (primaryDB (state w)) rs.
Proof.
  induction rs as [|r rs IH]; intros w n Hrs Hin Hw.
  - exists w. cbn. by rewrite !app_nil_r.
  - apply Forall_cons_1 in Hrs as [Hr Hrs]. unfold session_bytes in Hin. rewrite fmap_cons in *. cbn [concat] in *. rewrite messages_app in Hin.
    rewrite length_app, <- Nat.add_assoc. destruct (request_served r _ w (length (concat (request_messages <$> rs)) + n) Hr Hin Hw) as (w1 & E1 & [Hin1 Hw1 Hp1 Ha1 Ht1]). rewrite E1.
    destruct (IH w1 n Hrs Hin1 Hw1) as (w2 & E2 & Hin2 & Ha2 & Ht2). exists w2. rewrite E2. split; [done|]. split; [done|].
    rewrite Hp1 in Ha2, Ht2. cbn [direct]. destruct (sql_Query _ _ _ _) as [s o]. destruct Ha1 as [Hd1 Ho1]. rewrite Hd1, Ho1 in Ha2.
    destruct (direct _ s rs) as [s2 out2]. rewrite Ha2, <- app_assoc. split; [done|]. rewrite Ht2, Ht1, <- app_assoc. done.
Qed.

End Specification.

(** ** A concrete session *)

#[local] Existing Instance ascii_tables.
#[local] Existing Instance NoFloats.
#[local] Existing Instance NoFloatText.
#[local] Existing Instance ScriptDB.
#[local] Existing Instance TestCache.
#[local] Existing Instance TestBatch.
#[local] Existing Instance TestSql.

(** A transaction with a query that fails and an extended one. *)
Definition some_requests : list request :=
  [Simple (str "BEGIN"); Simple (str "BAD query"); Simple (str "/* file:a.go line:7 */ SELECT 1");
   Extended (str "s1") (str "p1") (str "INSERT INTO t VALUES ($1)") (be_enc 2 0) [] [str "7"] (be_enc 2 0) (be_enc 4 0);
   Simple (str "COMMIT")].

