(* ===== verification/PgBatch.v ===== *)
(** * Package postgres: a batched write, from the client to the database

    What a session of src/postgres/postgres.go answers to the Execute message of
    a write with a batch hint, against the laws of the batch manager
    ([BatchLaws]); with the manager and the executor of src/writebatch
    ([BatchModel]) this is the way of the write through all components. *)

From Stdlib Require Import Ascii ZArith Lia.
From stdpp Require Import base list gmap strings numbers.
From coqutil Require Import Datatypes.RecordSetters.
From S2P Require Import Prelude GoStrings BatchText Metrics Executor Manager Batching Parser Replica Cache Config Effects Services MariaWire PgWire PgConn PgServe PgSafe PgRuns PgSession.
Import DoubleBraceUpdate.

Open Scope Z_scope.

Section Batched.
Context `{Ut : UnicodeTables} `{Cs : CacheService} `{Gv : GoValues} `{Da : !Database} `{Bs : !BatchService} `{Ft : !FloatText} `{Sd : !SqlDriver}.
Context `{Bl : !BatchLaws}.
Variable error_text : Executor.error -> bytes.

(** What the client gets for the result of the database. *)
Definition execute_answer (r : Result + db_error) : bytes :=
  match r with
  | inl r => commandComplete (str "INSERT 0 " ++ Itoa (RowsAffected r))
  | inr e => encodeMessage "E"%char (error_payload (str "ERROR") (str "42000") (error_text (DbError e)))
  end.

Lemma execute_batched_run p params r m m' w : pwriteBatch (proxy w) = Some m -> client_writes w = [] -> valid_utf8 (File p) = true ->
  Enqueue m (GetBatchKey p) (Parser.Query p) params (BatchMs p) = (m', write_result (BatchMs p) r) ->
  exists w', reporting (execute_batched error_text p params) false w = (w', Done tt) /\ pwriteBatch (proxy w') = Some m' /\
    client_out w' = client_out w ++ execute_answer r /\
    trace w' = trace w ++ [EEnqueue (GetBatchKey p) (Parser.Query p) params].
Proof.
  intros Hm Hw (Hf & Hl & Ht)%valid_labels He.
  set (w1 := w {{ trace ::= fun t => t ++ [EEnqueue (GetBatchKey p) (Parser.Query p) params]; proxy -> pwriteBatch := Some m' }}).
  assert (Hq : enqueue (GetBatchKey p) (Parser.Query p) params (BatchMs p) w = (w1, Done (write_result (BatchMs p) r))).
  { unfold enqueue. erewrite bind_run by reflexivity. rewrite Hm. cbn [or_crash]. do 2 (erewrite bind_run by reflexivity). rewrite He.
    unfold w1. by destruct w as [? ? ? ? []]. }
  assert (Hc : count_query p (str "false") w1 = (w1, Done tt)) by (apply count_query_run; cbn [forallb]; by rewrite !label_ok_utf8).
  assert (Hw1 : client_writes w1 = []) by (unfold w1; by destruct w). destruct r as [r|e].
  - eexists. split.
    + eapply reporting_run. unfold execute_batched. rewrite (bind_run _ _ _ _ _ Hq), (bind_run _ _ _ _ _ Hc).
      cbn [write_result Error]. cbv iota. unfold batch_done. erewrite bind_run by reflexivity.
      apply client_write_run. by destruct w1.
    + unfold w1. by destruct w as [[] ? ? ? []].
  - eexists. split.
    + eapply reporting_fails; [|exact Hw1]. unfold execute_batched. rewrite (bind_run _ _ _ _ _ Hq), (bind_run _ _ _ _ _ Hc). reflexivity.
    + unfold w1. by destruct w as [[] ? ? ? []].
Qed.

End Batched.

(** ** Through all components *)

#[local] Existing Instance ascii_tables.
#[local] Existing Instance NoFloats.
#[local] Existing Instance NoFloatText.
#[local] Existing Instance ScriptDB.
#[local] Existing Instance TestCache.
#[local] Existing Instance TestSql.

Definition pg_manager : Executor.Manager := Executor.New (str "*pq.Driver") DefaultConfig.
#[local] Instance PgManagerService : BatchService := BatchModel pg_manager.
#[local] Instance PgManagerServiceLaws : BatchLaws := BatchModelLaws pg_manager.

Definition pg_answers (l : list bool) : @dbstate NoFloats ScriptDB := l.

(** A session with the portal [p], which runs [query] with the parameter 7. *)
Definition portal_session (query : bytes) (d : dbstate) : PgConn.world :=
  MkSession (PgConn.MkState [] (str "main") false 0 (str "app") (str "pw") (str "shop") (str "primary") ∅ {[str "s" := query]}
      {[str "p" := [VString (str "7")]]} {[str "p" := str "s"]} true false 0)
    [] [] [] (MkProxy pg_config {[str "main" := O]} (Some (Manager.init d))) [NewPool (str "db1:5432") []] tt ∅ [].

Definition batched_update : bytes := str "/* batch:10 */ UPDATE t SET a = $1".


(** A write that returns a value, when it is the only one of its batch: it is
    executed without reading the value, and the client gets no row. *)
Example returning_lost_alone :
  let q := str "/* batch:10 */ INSERT INTO t (a) VALUES ($1) RETURNING id" in
  hasReturningClause (Parser.Query (Parse q)) = true /\
  client_out (dispatch (Bs := PgManagerService) pg_text "E"%char (execute_message (str "p") (be_enc 4 0)) (portal_session q (pg_answers []))).1 =
    commandComplete (str "INSERT 0 1").
Proof. split; vm_compute; reflexivity. Qed.
