(* ===== verification/Listen.v ===== *)
(** * Accepting and stopping

    The accept loops of both proxies and [Stop] of the MariaDB proxy
    (src/mariadb/mariadb.go, src/postgres/postgres.go).  The loops of a proxy
    share one counter of connections; they run beside each other and beside
    [Stop], so they are a transition system.  A listener is open or closed; what
    [Accept] returns on an open one - a client or an error - is arbitrary, on a
    closed one it is the error "use of closed network connection". *)

From Stdlib Require Import Ascii ZArith Lia.
From stdpp Require Import base list gmap strings numbers.
From S2P Require Import Prelude.

Open Scope Z_scope.

Section Accept.
Context {Client : Type}.

(** ** Accept loops *)

(** The error of [Accept]; the loop of mariadb compares its text. *)
Inductive accept_error := OpError (text : bytes) | OtherError.

(** [ErrNetClosing] of the package net. *)
Definition closed_text : bytes := str "use of closed network connection".

(** What one turn of the loop does with what [Accept] returned. *)
Inductive turn :=
| Return
| Continue
| Serve (client : Client) (connID : Z).       (* go p.handleConnection(client, connID) *)

(** [atomic.AddUint32(&p.connID, 1)] *)
Definition next_id (connID : Z) : Z := uint32 (connID + 1).

Definition mariadb_turn (connID : Z) (r : Client + accept_error) : turn :=
  match r with
  | inr (OpError text) => if decide (text = closed_text) then Return else Continue
  | inr OtherError => Continue
  | inl client => Serve client (next_id connID)
  end.

Definition postgres_turn (connID : Z) (r : Client + accept_error) : turn :=
  match r with
  | inr _ => Continue
  | inl client => Serve client (next_id connID)
  end.

(** ** A proxy that listens *)

Record listening := MkListening {
  open : list bool;                    (* per listener: not closed yet *)
  looping : list bool;                 (* per listener: its accept loop runs *)
  counter : Z;                         (* connID of mariadb, connCounter of postgres *)
  sessions : list (Client * Z)         (* the connections handed to handleConnection *)
}.

(** [Start]: one loop per listener.  The counter of mariadb starts at 1000, that
    of postgres at 0. *)
Definition listen_on (n : nat) (first : Z) : listening := MkListening (replicate n true) (replicate n true) first [].

(** What [Accept] can return on listener [i]. *)
Definition accepts (s : listening) (i : nat) (r : Client + accept_error) : Prop :=
  match open s !! i with
  | Some true => r <> inr (OpError closed_text)
  | Some false => r = inr (OpError closed_text)
  | None => False
  end.

Definition apply_turn (s : listening) (i : nat) (t : turn) : listening :=
  match t with
  | Return => MkListening (open s) (<[i := false]> (looping s)) (counter s) (sessions s)
  | Continue => s
  | Serve client connID => MkListening (open s) (looping s) connID (sessions s ++ [(client, connID)])
  end.

(** [listener.Close()] on every listener. *)
Definition close_all (s : listening) : listening := MkListening (replicate (length (open s)) false) (looping s) (counter s) (sessions s).

Inductive accept_step (loop_turn : Z -> Client + accept_error -> turn) : listening -> listening -> Prop :=
| step_turn s i r : looping s !! i = Some true -> accepts s i r -> accept_step loop_turn s (apply_turn s i (loop_turn (counter s) r))
| step_stop s : accept_step loop_turn s (close_all s).

(** ** Lemmas *)

Definition ids (s : listening) : list Z := snd <$> sessions s.

(** The ids of a proxy are the numbers after the first, modulo 2^32. *)
Definition counted (first : Z) (s : listening) : Prop :=
  ids s = (fun k => uint32 (first + 1 + Z.of_nat k)) <$> seq 0 (length (sessions s)) /\
  counter s mod 2 ^ 32 = (first + Z.of_nat (length (sessions s))) mod 2 ^ 32.

Definition serves_next (loop_turn : Z -> Client + accept_error -> turn) : Prop :=
  forall c x t, loop_turn c x = t -> match t with Serve _ id => id = next_id c | _ => True end.

Lemma turn_counted (loop_turn : Z -> Client + accept_error -> turn) first s i r : serves_next loop_turn ->
  counted first s -> counted first (apply_turn s i (loop_turn (counter s) r)).
Proof.
  intros Ht [Hi Hc]. destruct (loop_turn (counter s) r) as [| |client id] eqn:E; cbn [apply_turn]; [done..|].
  apply Ht in E as ->. unfold counted, ids in *. cbn [sessions counter]. rewrite length_app, fmap_app, Hi. cbn [length fmap list_fmap snd].
  rewrite Nat.add_1_r, seq_S, fmap_app. cbn [fmap list_fmap]. unfold next_id, uint32. split.
  - f_equal. f_equal. rewrite (Z.add_mod (counter s)), Hc, <- Z.add_mod by done. f_equal. lia.
  - rewrite Z.mod_mod by done. rewrite (Z.add_mod (counter s)), Hc, <- Z.add_mod by done. f_equal. lia.
Qed.

Lemma mariadb_serves_next : serves_next mariadb_turn.
Proof. intros c [cl|[text|]] t <-; cbn; [done| |done]. by destruct (decide _). Qed.
Lemma postgres_serves_next : serves_next postgres_turn.
Proof. by intros c [cl|e] t <-. Qed.

Lemma accept_counted loop_turn n first s : serves_next loop_turn -> reach (accept_step loop_turn) (listen_on n first) s -> counted first s.
Proof.
  intros Ht Hr. eapply reach_inv; [|intros s1 s2 Hs Hstep|exact Hr].
  - split; [done|]. cbn. by rewrite Z.add_0_r.
  - destruct Hstep as [s1 i r _ _|s1]; [by apply turn_counted|done].
Qed.

Lemma counted_NoDup first s : counted first s -> Z.of_nat (length (sessions s)) <= 2 ^ 32 -> NoDup (ids s).
Proof.
  intros [-> _] Hn. apply NoDup_fmap_2_strong; [|apply NoDup_seq]. intros a b Ha%elem_of_seq Hb%elem_of_seq. unfold uint32. intros E.
  assert (Hd : (Z.of_nat a - Z.of_nat b) mod 2 ^ 32 = 0).
  { replace (Z.of_nat a - Z.of_nat b) with ((first + 1 + Z.of_nat a) - (first + 1 + Z.of_nat b)) by lia.
    rewrite Zminus_mod, E, Z.sub_diag. done. }
  apply Z.mod_divide in Hd as [k Hk]; [|done]. assert (k = 0) by nia. lia.
Qed.

(** ** After the listeners were closed *)

Definition stopped (s : listening) : Prop := Forall (eq false) (open s).

(** The number of loops that run. *)
Fixpoint count_true (l : list bool) : nat := match l with [] => O | true :: l => S (count_true l) | false :: l => count_true l end.
Definition running_loops (s : listening) : nat := count_true (looping s).

Lemma close_all_stopped s : stopped (close_all s).
Proof. apply Forall_replicate_eq. Qed.

Lemma close_all_id s : stopped s -> close_all s = s.
Proof.
  destruct s as [o l c ss]. unfold stopped, close_all. cbn. intros Ho. f_equal. induction Ho as [|b o <- _ IH]; cbn; [done|]. by rewrite IH.
Qed.

Lemma count_true_insert l i : l !! i = Some true -> S (count_true (<[i := false]> l)) = count_true l.
Proof.
  revert i. induction l as [|b l IH]; intros [|i] Hi; cbn in *; [done|done|by injection Hi as ->|].
  destruct b; cbn; by rewrite <- (IH i Hi).
Qed.

Lemma count_true_zero l : count_true l = O -> Forall (eq false) l.
Proof. induction l as [|[] l IH]; cbn; intros Hl; [constructor|done|]. constructor; auto. Qed.

Lemma count_true_pos l : count_true l <> O -> exists i, l !! i = Some true.
Proof. induction l as [|[] l IH]; cbn; intros Hl; [done|by exists O|]. destruct (IH Hl) as [i Hi]. by exists (S i). Qed.

(** On a closed listener the loop of mariadb returns and that of postgres goes on. *)
Lemma stopped_turn s i r : stopped s -> accepts s i r -> mariadb_turn (counter s) r = Return /\ postgres_turn (counter s) r = Continue.
Proof.
  intros Hs. unfold accepts. destruct (open s !! i) as [b|] eqn:Eo; [|done]. pose proof (Forall_lookup_1 _ _ _ _ Hs Eo) as <-. intros ->.
  cbn. by rewrite decide_True.
Qed.

Lemma stopped_step s s' : stopped s -> accept_step mariadb_turn s s' ->
  stopped s' /\ sessions s' = sessions s /\ (s' = s \/ running_loops s = S (running_loops s')).
Proof.
  intros Hs Hstep. destruct Hstep as [s i r Hl Ha|s].
  - destruct (stopped_turn s i r Hs Ha) as [-> _]. split; [done|]. split; [done|]. right. symmetry. by apply count_true_insert.
  - rewrite close_all_id by done. auto.
Qed.

(** A loop that runs has a listener. *)
Definition matched (s : listening) : Prop := length (looping s) = length (open s).

Lemma matched_reach loop_turn n first s : reach (accept_step loop_turn) (listen_on n first) s -> matched s.
Proof.
  intros Hr. eapply reach_inv; [|intros s1 s2 Hm Hstep|exact Hr]; unfold matched in *; cbn; [by rewrite !length_replicate|].
  destruct Hstep as [s1 i r _ _|s1]; [|cbn; by rewrite length_replicate].
  destruct (loop_turn (counter s1) r); cbn; by rewrite ?length_insert.
Qed.

Lemma drain n : forall s, stopped s -> matched s -> running_loops s = n ->
  exists s', reach (accept_step mariadb_turn) s s' /\ Forall (eq false) (looping s').
Proof.
  induction n as [|n IH]; intros s Hs Hm Hn.
  - exists s. split; [apply reach_refl|by apply count_true_zero].
  - destruct (count_true_pos (looping s)) as [i Hi]; [unfold running_loops in Hn; lia|].
    assert (Ho : open s !! i = Some false).
    { assert (Hlt : (i < length (open s))%nat) by (rewrite <- Hm; by eapply lookup_lt_Some).
      apply lookup_lt_is_Some_2 in Hlt as [b Hb]. by rewrite (Forall_lookup_1 _ _ _ _ Hs Hb). }
    assert (Ha : accepts s i (inr (OpError closed_text))) by (unfold accepts; by rewrite Ho).
    pose proof (step_turn mariadb_turn s i _ Hi Ha) as Hstep. destruct (stopped_turn s i _ Hs Ha) as [E _]. rewrite E in Hstep.
    destruct (IH (apply_turn s i Return)) as (s' & Hr & Hend).
    + done.
    + unfold matched in *. cbn. by rewrite length_insert.
    + unfold running_loops in *. cbn. rewrite <- (count_true_insert _ _ Hi) in Hn. by injection Hn.
    + exists s'. split; [|done]. eapply reach_trans; [|exact Hr]. eapply reach_step; [apply reach_refl|exact Hstep].
Qed.
End Accept.

Arguments listening : clear implicits.

(** ** [Stop] *)

(** The parts of a started proxy that [Stop] releases. *)
Record server := MkServer {
  srv_batch : bool;                (* p.writeBatch is not nil *)
  srv_cancel : bool;               (* p.wbCancel is not nil *)
  srv_listeners : list nat;
  srv_db : bool                    (* p.db is not nil *)
}.

Inductive stop_event := CloseBatch | CancelBatch | CloseListener (l : nat) | CloseDB.

Section Stop.
(** The errors of [Close]. *)
Variables (close_listener : nat -> option bytes) (close_db : option bytes).

Definition Stop (p : server) : server * list stop_event * list bytes :=
  let events :=
    (if srv_batch p then [CloseBatch] else []) ++ (if srv_cancel p then [CancelBatch] else []) ++
    (CloseListener <$> srv_listeners p) ++ (if srv_db p then [CloseDB] else []) in
  let errs := omap close_listener (srv_listeners p) ++ (if srv_db p then match close_db with Some e => [e] | None => [] end else []) in
  (MkServer (srv_batch p) (srv_cancel p) [] false, events, errs).
End Stop.

(** ** Properties *)

(** Every client that was accepted is served once, under the next number; the
    numbers of the first 2^32 clients of a proxy are all different, over both of
    its listeners. *)
Theorem connections_are_numbered {Client} n first (s : listening Client) :
  reach (accept_step mariadb_turn) (listen_on n first) s \/ reach (accept_step postgres_turn) (listen_on n first) s ->
  ids s = (fun k => uint32 (first + 1 + Z.of_nat k)) <$> seq 0 (length (sessions s)) /\
  (Z.of_nat (length (sessions s)) <= 2 ^ 32 -> NoDup (ids s)).
Proof.
  intros Hr. assert (Hc : counted first s).
  { destruct Hr as [Hr|Hr]; [exact (accept_counted _ n first s mariadb_serves_next Hr)|exact (accept_counted _ n first s postgres_serves_next Hr)]. }
  split; [apply Hc|by apply counted_NoDup with first].
Qed.

(** C26. Stopping the MariaDB proxy ends its accept loops: once the listeners are
    closed no connection is served any more, a loop makes at most one further
    turn, and the loops can always run to their end. *)
Theorem stop_ends_loops {Client} n (s : listening Client) :
  reach (accept_step mariadb_turn) (listen_on n 1000) s ->
  let s := close_all s in
  (forall s', reach (accept_step mariadb_turn) s s' -> sessions s' = sessions s) /\
  (forall s' s'', reach (accept_step mariadb_turn) s s' -> accept_step mariadb_turn s' s'' ->
     s'' = s' \/ running_loops s' = S (running_loops s'')) /\
  (forall s', reach (accept_step mariadb_turn) s s' ->
     exists s'', reach (accept_step mariadb_turn) s' s'' /\ Forall (eq false) (looping s'')).
Proof.
  intros Hr s0. assert (Hs0 : stopped s0) by apply close_all_stopped.
  assert (Hinv : forall s', reach (accept_step mariadb_turn) s0 s' -> stopped s' /\ sessions s' = sessions s0).
  { intros s' Hr'. eapply (reach_inv _ (fun s' => stopped s' /\ sessions s' = sessions s0)); [done| |exact Hr'].
    intros s1 s2 [H1 H2] Hstep. destruct (stopped_step s1 s2 H1 Hstep) as (H3 & H4 & _). split; [done|congruence]. }
  split; [intros s' Hr'; by apply Hinv|]. split.
  - intros s' s'' Hr' Hstep. by destruct (stopped_step s' s'' (proj1 (Hinv s' Hr')) Hstep) as (_ & _ & H).
  - intros s' Hr'. apply (drain (running_loops s') s'); [by apply Hinv| |done].
    assert (Hm : reach (accept_step mariadb_turn) (listen_on n 1000) s') by (eapply reach_trans; [eapply reach_step; [exact Hr|apply step_stop]|exact Hr']).
    by eapply matched_reach.
Qed.

(** What [Stop] releases: every listener and the database are closed exactly once,
    all of them also when one fails, the errors are reported, and a second call
    closes no listener and no database again. *)
Theorem Stop_releases close_listener close_db p :
  let '(p', events, errs) := Stop close_listener close_db p in
  srv_listeners p' = [] /\ srv_db p' = false /\
  omap (fun e => match e with CloseListener l => Some l | _ => None end) events = srv_listeners p /\
  (errs = [] <-> (forall l, l ∈ srv_listeners p -> close_listener l = None) /\ (srv_db p = true -> close_db = None)) /\
  (Stop close_listener close_db p').2 = [].
Proof.
  destruct p as [b c ls d]. unfold Stop. cbn [srv_batch srv_cancel srv_listeners srv_db]. split; [done|]. split; [done|]. split; [|split; [|done]].
  - rewrite !omap_app. replace (omap _ (if b then _ else _)) with (@nil nat) by by destruct b.
    replace (omap _ (if c then _ else _)) with (@nil nat) by by destruct c.
    replace (omap _ (if d then _ else _)) with (@nil nat) by by destruct d. cbn [app]. rewrite app_nil_r.
    induction ls as [|l ls IH]; [done|]. rewrite fmap_cons. cbn. by f_equal.
  - rewrite app_nil. assert (Hl : omap close_listener ls = [] <-> forall l, l ∈ ls -> close_listener l = None).
    { induction ls as [|l ls IH]; cbn; [split; [by intros _ l ?%elem_of_nil|done]|]. destruct (close_listener l) as [e|] eqn:E.
      - split; [done|]. intros H. specialize (H l ltac:(by left)). congruence.
      - rewrite IH. split; [intros H l' [->|Hl']%elem_of_cons; auto|intros H l' Hl'; apply H; by right]. }
    rewrite Hl. destruct d, close_db; naive_solver.
Qed.

(** ** The loop of the PostgreSQL proxy *)

(** It has no end: after its listener is closed it asks again and again. *)
Lemma postgres_loops_forever {Client} n first (s : listening Client) :
  reach (accept_step postgres_turn) (listen_on n first) s -> looping s = replicate n true.
Proof.
  intros Hr. refine (reach_inv _ (fun s => looping s = replicate n true) (listen_on n first) s eq_refl _ Hr). intros s1 s2 Hl Hstep. destruct Hstep as [s1 i r _ _|s1]; [|done].
  by destruct r.
Qed.

Definition one_client : listening unit := apply_turn (listen_on 2 1000) 0 (mariadb_turn 1000 (inl tt)).

Lemma one_client_reach : reach (accept_step mariadb_turn) (listen_on 2 1000) one_client.
Proof. eapply reach_step; [apply reach_refl|]. by apply (step_turn mariadb_turn (listen_on 2 1000) 0 (inl tt)). Qed.

Lemma connections_are_numbered_witness : ids one_client = [1001] /\ NoDup (ids one_client).
Proof.
  destruct (connections_are_numbered 2 1000 one_client (or_introl one_client_reach)) as [H1 H2].
  split; [exact H1|]. apply H2. vm_compute. discriminate.
Defined.

Lemma stop_ends_loops_witness : exists s', reach (accept_step mariadb_turn) (close_all one_client) s' /\ Forall (eq false) (looping s').
Proof. apply (stop_ends_loops 2 one_client one_client_reach). apply reach_refl. Defined.
