(* ===== verification/Main.v ===== *)
(** * The process

    src/cmd/tqdbproxy/main.go with [New], [Start] and [UpdateConfig] of both
    proxies: the configuration is loaded, the pools are built, the proxies are
    started, and SIGHUP loads the configuration again.  Opening a database for
    the batches, making the batch manager and listening are the class [Host];
    the sessions and the health checks change pools between signals, but not
    their addresses. *)

From Stdlib Require Import Ascii ZArith Lia.
From stdpp Require Import base list gmap strings numbers.
From coqutil Require Import Datatypes.RecordSetters.
From S2P Require Import Prelude GoStrings BatchText Metrics Executor Replica Cache Config Services MariaConn PgConn.
Import DoubleBraceUpdate.

Open Scope Z_scope.

Class Host `{BatchService} := {
  db_handle : Type;
  open_db : bytes -> bytes -> db_handle + bytes;      (* sql.Open(driver, dsn) *)
  new_manager : db_handle -> Z -> bool -> manager;    (* writebatch.New(db, {MaxBatchSize, UseCopy}) *)
  listen : bytes -> bytes -> option bytes             (* net.Listen(network, address): its error *)
}.

Section Process.
Context `{Gv : GoValues} `{Da : !Database} `{Bs : !BatchService} `{Ho : !Host}.

(** ** Starting a proxy *)

Inductive start_error :=
| NoDefaultPool (name : bytes)
| OpenFailed (e : bytes)
| ListenFailed (e : bytes).

Definition is_unix (addr : bytes) : bool := (5 <? zlen addr) && bool_decide (take 5 addr = str "unix:").

Definition mariadb_dsn (addr : bytes) : bytes :=
  if is_unix addr then str "tqdbproxy:tqdbproxy@unix(" ++ drop 5 addr ++ str ")/tqdbproxy"
  else str "tqdbproxy:tqdbproxy@tcp(" ++ addr ++ str ")/tqdbproxy".

Definition postgres_dsn (addr : bytes) : bytes :=
  let '(host, port) :=
    match last_index addr colon with
    | Some i => (take i addr, drop (S i) addr)
    | None => (addr, str "5432")
    end in
  let rest := str " user=tqdbproxy password=tqdbproxy dbname=tqdbproxy sslmode=disable" in
  if is_unix addr then str "host=" ++ drop 5 addr ++ rest else str "host=" ++ host ++ str " port=" ++ port ++ rest.

(** The TCP listener, and the unix socket when there is one. *)
Definition open_listeners (c : ProxyConfig) : option bytes :=
  match listen (str "tcp") (Listen c) with
  | Some e => Some e
  | None => if decide (Socket c = []) then None else listen (str "unix") (Socket c)
  end.

(** [Start] up to the accept loops: the batch manager on the primary of the
    default pool, and the listeners. *)
Definition start (driver : bytes) (dsn : bytes -> bytes) (useCopy : bool) (c : ProxyConfig) (ps : pools) (h : heap) : manager + start_error :=
  match l ← ps !! Default c; h !! l with
  | None => inr (NoDefaultPool (Default c))
  | Some defaultPool =>
      match open_db driver (dsn (GetPrimary defaultPool)) with
      | inr e => inr (OpenFailed e)
      | inl db =>
          match open_listeners c with
          | Some e => inr (ListenFailed e)
          | None => inl (new_manager db (Config.MaxBatchSize (WriteBatch c)) useCopy)
          end
      end
  end.

Definition start_mariadb (p : MariaConn.Proxy) (h : heap) : MariaConn.Proxy + start_error :=
  let c := MariaConn.pconfig p in
  match start (str "mysql") mariadb_dsn (UseCopy (WriteBatch c)) c (MariaConn.ppools p) h with
  | inl m => inl (MariaConn.MkProxy c (MariaConn.ppools p) (Some m))
  | inr e => inr e
  end.

Definition start_postgres (p : PgConn.Proxy) (h : heap) : PgConn.Proxy + start_error :=
  let c := PgConn.pconfig p in
  match start (str "postgres") postgres_dsn false c (PgConn.ppools p) h with
  | inl m => inl (PgConn.MkProxy c (PgConn.ppools p) (Some m))
  | inr e => inr e
  end.

(** ** The process *)

Record process := MkProcess {
  proc_heap : heap;
  mariadbProxy : MariaConn.Proxy;
  pgProxy : PgConn.Proxy
}.

(** [order] is the order in which [range] visits a map of backends. *)
Variable order : gmap bytes BackendConfig -> list (bytes * BackendConfig).

(** From the loaded configuration to the signal loop; an error is fatal. *)
Definition boot (cfg : Config) : process + start_error :=
  let '(h, mariadbPools) := initPools [] (order (Backends (MariaDB cfg))) in
  match start_mariadb (MariaConn.New (MariaDB cfg) mariadbPools) h with
  | inr e => inr e
  | inl maria =>
      let '(h, pgPools) := initPools h (order (Backends (Postgres cfg))) in
      match start_postgres (PgConn.New (Postgres cfg) pgPools) h with
      | inr e => inr e
      | inl pg => inl (MkProcess h maria pg)
      end
  end.

(** SIGHUP: [loaded] is what [config.Load] returned. *)
Definition reload (p : process) (loaded : option Config) : process :=
  match loaded with
  | None => p
  | Some newCfg =>
      let '(h, mariadbPools) := updatePools (proc_heap p) (MariaConn.ppools (mariadbProxy p)) (order (Backends (MariaDB newCfg))) in
      let maria := MariaConn.UpdateConfig (MariaDB newCfg) mariadbPools (mariadbProxy p) in
      let '(h, pgPools) := updatePools h (PgConn.ppools (pgProxy p)) (order (Backends (Postgres newCfg))) in
      MkProcess h maria (PgConn.UpdateConfig (pgProxy p) (Postgres newCfg) pgPools)
  end.

(** ** [main] *)

(** A signal of the loop; on SIGHUP the configuration is loaded again. *)
Inductive signal := SIGHUP (loaded : option Config) | SIGINT | SIGTERM.

(** The signal loop: the process it leaves, and whether it returned. *)
Fixpoint signal_loop (p : process) (signals : list signal) : process * bool :=
  match signals with
  | [] => (p, false)
  | SIGHUP loaded :: signals => signal_loop (reload p loaded) signals
  | SIGINT :: _ | SIGTERM :: _ => (p, true)
  end.

Inductive fatal :=
| LoadFailed
| MetricsPanic
| CacheFailed (e : bytes)
| StartFailed (e : start_error).

(** From [config.Load] to the return of [main]; a fatal error ends the process
    before the signal loop. *)
Definition main `{St : Store} `{Sm : !StoreMaker} (loaded : option Config) (r : registry) (signals : list signal) : (process * bool) + fatal :=
  match loaded with
  | None => inr LoadFailed
  | Some cfg =>
      match Metrics.Init r with
      | None => inr MetricsPanic
      | Some _ =>
          match Cache.New DefaultCacheConfig with
          | inr e => inr (CacheFailed e)
          | inl _ =>
              match boot cfg with
              | inr e => inr (StartFailed e)
              | inl p => inl (signal_loop p signals)
              end
          end
      end
  end.

(** What happens to a process that was started with a configuration it loaded:
    sessions and health checks, which keep the addresses of the pools, and
    reloads, which may fail. *)
Context `{In : Ini}.

Definition addresses (h : heap) : list (bytes * list bytes) := (fun p => (primary p, replicas p)) <$> h.

Inductive running : Config -> process -> Prop :=
| running_boot ini_load getenv path cfg p :
    Load ini_load getenv path = Some cfg -> boot cfg = inl p -> running cfg p
| running_serve cfg p h :
    running cfg p -> addresses h = addresses (proc_heap p) -> running cfg (MkProcess h (mariadbProxy p) (pgProxy p))
| running_failed cfg p :
    running cfg p -> running cfg (reload p None)
| running_reload ini_load getenv path cfg p newCfg :
    running cfg p -> Load ini_load getenv path = Some newCfg -> running newCfg (reload p (Some newCfg)).

(** ** The pools of a configuration *)

(** Every backend of [c] has the pool it describes. *)
Definition describes (h : heap) (c : ProxyConfig) (ps : pools) : Prop :=
  forall n bc, Backends c !! n = Some bc -> exists l p, ps !! n = Some l /\ h !! l = Some p /\
    primary p = Primary bc /\ replicas p = Replicas bc.

Definition disjoint_pools (ps1 ps2 : pools) : Prop := forall n1 n2 l, ps1 !! n1 = Some l -> ps2 !! n2 = Some l -> False.

Record proc_ok (cfg : Config) (p : process) : Prop := {
  ok_mariadb : pools_ok (proc_heap p) (MariaConn.ppools (mariadbProxy p));
  ok_postgres : pools_ok (proc_heap p) (PgConn.ppools (pgProxy p));
  ok_disjoint : disjoint_pools (MariaConn.ppools (mariadbProxy p)) (PgConn.ppools (pgProxy p));
  ok_mariadb_config : MariaConn.pconfig (mariadbProxy p) = MariaDB cfg;
  ok_postgres_config : PgConn.pconfig (pgProxy p) = Postgres cfg;
  ok_mariadb_pools : describes (proc_heap p) (MariaDB cfg) (MariaConn.ppools (mariadbProxy p));
  ok_postgres_pools : describes (proc_heap p) (Postgres cfg) (PgConn.ppools (pgProxy p));
  ok_loaded : config_ok (MariaDB cfg) /\ config_ok (Postgres cfg)
}.

Hypothesis order_all : forall m, order m ≡ₚ map_to_list m.

Lemma order_NoDup m : NoDup (order m).*1.
Proof. rewrite order_all. apply NoDup_fst_map_to_list. Qed.

(** Updating the pools [ps] gives every backend of [c] its pool; pools [other]
    elsewhere in the heap are left alone. *)
Lemma updatePools_describes h ps h' ps' c other : pools_ok h ps -> pools_ok h other -> disjoint_pools ps other ->
  updatePools h ps (order (Backends c)) = (h', ps') ->
  pools_ok h' ps' /\ describes h' c ps' /\ pools_ok h' other /\ disjoint_pools ps' other /\
  (forall n l, other !! n = Some l -> h' !! l = h !! l).
Proof.
  intros Hps Hot Hdis Hu.
  destruct (updatePools_inv h ps (order (Backends c)) h' ps' Hps (order_NoDup _) Hu) as (Hlen & Hok & Hsame & Hdom & Hspec).
  split; [done|]. split; [|split; [|split]].
  - intros n bc Hb. destruct (Hspec n bc) as (l & Hl & Hr); [by rewrite order_all, elem_of_map_to_list|].
    unfold reloaded in Hr. destruct (ps !! n) as [l0|]; [destruct Hr as (-> & q & _ & Hr)|destruct Hr as [_ Hr]]; eauto 10.
  - destruct Hot as [H1 H2]. split; [|done]. intros n l Hl. specialize (H1 _ _ Hl). lia.
  - intros n1 n2 l H1 H2. destruct (Hdom _ _ H1) as [_ [Hc|Hge]]; [by eapply Hdis|]. destruct Hot as [Hlt _]. specialize (Hlt _ _ H2). lia.
  - intros n l Hl. apply Hsame; [by eapply Hot|]. intros n' _ Hc. by eapply Hdis.
Qed.

Lemma describes_same h h' c ps : (forall n l, ps !! n = Some l -> h' !! l = h !! l) -> describes h c ps -> describes h' c ps.
Proof. intros Hs Hd n bc Hb. destruct (Hd _ _ Hb) as (l & p & Hl & Hp & ?). exists l, p. by rewrite (Hs _ _ Hl). Qed.

Lemma Load_ok ini_load getenv path cfg : Load ini_load getenv path = Some cfg -> config_ok (MariaDB cfg) /\ config_ok (Postgres cfg).
Proof.
  unfold Load. destruct (ini_load path) as [f|]; [|done]. intros [= <-].
  split; cbn; destruct (decide _); (apply loadProxyConfig_ok || exact (loadProxyConfig_ok _ _ _)).
Qed.

Lemma reload_ok cfg p newCfg : config_ok (MariaDB newCfg) /\ config_ok (Postgres newCfg) -> proc_ok cfg p -> proc_ok newCfg (reload p (Some newCfg)).
Proof.
  intros Hl [H1 H2 H3 _ _ _ _ _]. unfold reload.
  destruct (updatePools (proc_heap p) _ _) as [h1 ps1] eqn:E1.
  destruct (updatePools_describes _ _ _ _ _ _ H1 H2 H3 E1) as (A1 & A2 & A3 & A4 & _).
  destruct (updatePools h1 _ _) as [h2 ps2] eqn:E2.
  destruct (updatePools_describes h1 _ _ _ _ ps1 A3 A1 (fun a b l Ha Hb => A4 _ _ _ Hb Ha) E2) as (B1 & B2 & B3 & B4 & B5).
  split; cbn; try done; [intros a b l Ha Hb; by eapply B4|by eapply describes_same].
Qed.

Lemma start_mariadb_same p h p' : start_mariadb p h = inl p' ->
  MariaConn.pconfig p' = MariaConn.pconfig p /\ MariaConn.ppools p' = MariaConn.ppools p.
Proof. unfold start_mariadb. destruct (start _ _ _ _ _ _); [by intros [= <-]|done]. Qed.
Lemma start_postgres_same p h p' : start_postgres p h = inl p' ->
  PgConn.pconfig p' = PgConn.pconfig p /\ PgConn.ppools p' = PgConn.ppools p.
Proof. unfold start_postgres. destruct (start _ _ _ _ _ _); [by intros [= <-]|done]. Qed.

Lemma no_pools_ok h : pools_ok h ∅.
Proof. split; intros *; by rewrite lookup_empty. Qed.

Lemma boot_ok cfg p : config_ok (MariaDB cfg) /\ config_ok (Postgres cfg) -> boot cfg = inl p -> proc_ok cfg p.
Proof.
  intros Hl. unfold boot. rewrite initPools_update. destruct (updatePools [] ∅ _) as [h1 ps1] eqn:E1.
  destruct (updatePools_describes _ _ _ _ _ ∅ (no_pools_ok _) (no_pools_ok _) ltac:(intros ???; by rewrite lookup_empty) E1)
    as (A1 & A2 & A3 & A4 & _).
  destruct (start_mariadb _ h1) as [maria|] eqn:Em; [|done]. apply start_mariadb_same in Em as [Em1 Em2]. cbn in Em1, Em2.
  rewrite initPools_update. destruct (updatePools h1 ∅ _) as [h2 ps2] eqn:E2.
  destruct (updatePools_describes h1 ∅ _ _ _ ps1 A3 A1 (fun a b l Ha Hb => A4 _ _ _ Hb Ha) E2) as (B1 & B2 & B3 & B4 & B5).
  destruct (start_postgres _ h2) as [pg|] eqn:Ep; [|done]. apply start_postgres_same in Ep as [Ep1 Ep2]. cbn in Ep1, Ep2.
  intros [= <-]. split; cbn; rewrite ?Em1, ?Em2, ?Ep1, ?Ep2; try done;
    [intros a b l Ha Hb; by eapply B4|by eapply describes_same].
Qed.

Lemma same_addresses_length (h h' : heap) : addresses h' = addresses h -> length h' = length h.
Proof. intros E. apply (f_equal length) in E. unfold addresses in E. by rewrite !length_fmap in E. Qed.

Lemma same_addresses_describes h h' c ps : addresses h' = addresses h -> describes h c ps -> describes h' c ps.
Proof.
  intros E Hd n bc Hb. destruct (Hd _ _ Hb) as (l & p & Hl & Hp & Hpr & Hre).
  assert (Hx : addresses h' !! l = Some (primary p, replicas p)) by (rewrite E; unfold addresses; by rewrite list_lookup_fmap, Hp).
  unfold addresses in Hx. rewrite list_lookup_fmap in Hx. apply fmap_Some in Hx as (p' & Hp' & [= E1 E2]).
  exists l, p'. by rewrite <- E1, <- E2.
Qed.

Lemma serve_ok cfg p h : addresses h = addresses (proc_heap p) -> proc_ok cfg p ->
  proc_ok cfg (MkProcess h (mariadbProxy p) (pgProxy p)).
Proof.
  intros E [H1 H2 H3 H4 H5 H6 H7 H8]. pose proof (same_addresses_length _ _ E) as Hlen.
  assert (Hok : forall ps, pools_ok (proc_heap p) ps -> pools_ok h ps) by (intros ps [Hlt Hinj]; split; [intros n l Hn; rewrite Hlen; eauto|done]).
  split; cbn; try done; try (by apply Hok); by eapply same_addresses_describes.
Qed.

Lemma running_ok cfg p : running cfg p -> proc_ok cfg p.
Proof.
  induction 1 as [? ? ? ? ? Hl Hb|? ? ? _ IH E|? ? _ IH|? ? ? ? ? ? _ IH Hl].
  - eapply boot_ok; [by eapply Load_ok|done].
  - by apply serve_ok.
  - exact IH.
  - eapply reload_ok; [by eapply Load_ok|exact IH].
Qed.

(** The configuration that was loaded last, over the signals before the loop
    returns. *)
Fixpoint last_loaded (cfg : Config) (signals : list signal) : Config :=
  match signals with
  | SIGHUP (Some newCfg) :: signals => last_loaded newCfg signals
  | SIGHUP None :: signals => last_loaded cfg signals
  | _ => cfg
  end.

Definition from_file (s : signal) : Prop :=
  match s with SIGHUP (Some cfg) => exists ini_load getenv path, Load ini_load getenv path = Some cfg | _ => True end.

Lemma signal_loop_running signals : forall cfg p, Forall from_file signals -> running cfg p ->
  running (last_loaded cfg signals) (signal_loop p signals).1.
Proof.
  induction signals as [|[[newCfg|]| |] signals IH]; intros cfg p Hf Hr; cbn [signal_loop last_loaded]; try done;
    apply list.Forall_cons in Hf as [Hl Hf].
  - destruct Hl as (ini_load & getenv & path & Hl). apply IH; [done|]. by eapply running_reload.
  - apply IH; [done|]. by apply running_failed.
Qed.

(** A database that [c] maps, or that its default serves, has the pool [c]
    describes. *)
Definition routes (h : heap) (c : ProxyConfig) (pc : ProxyConfig) (ps : pools) : Prop := forall db,
  is_Some (DBMap c !! db) \/ is_Some (Backends c !! Default c) ->
  exists l p bc, target_pool pc ps db = Some l /\ h !! l = Some p /\ Backends c !! shard_of c db = Some bc /\
    primary p = Primary bc /\ replicas p = Replicas bc /\ primary p <> [].

Lemma describes_routes h c ps : config_ok c -> describes h c ps -> routes h c c ps.
Proof.
  intros Hc Hd db Hdb. destruct (shard_configured c db Hc Hdb) as [bc Hbc]. destruct (Hd _ _ Hbc) as (l & p & Hl & Hp & E1 & E2).
  exists l, p, bc. repeat split; try done. rewrite E1. destruct Hc as [Hb _]. by apply (Hb _ _ Hbc).
Qed.

Lemma running_routes cfg p : running cfg p ->
  routes (proc_heap p) (MariaDB cfg) (MariaConn.pconfig (mariadbProxy p)) (MariaConn.ppools (mariadbProxy p)) /\
  routes (proc_heap p) (Postgres cfg) (PgConn.pconfig (pgProxy p)) (PgConn.ppools (pgProxy p)) /\
  disjoint_pools (MariaConn.ppools (mariadbProxy p)) (PgConn.ppools (pgProxy p)).
Proof.
  intros [H1 H2 H3 H4 H5 H6 H7 [H8 H9]]%running_ok. rewrite H4, H5. split; [by apply describes_routes|]. split; [by apply describes_routes|done].
Qed.

(** C24. [main] serves by the configuration it last loaded: when it reaches the
    signal loop - its configuration was loaded and both proxies started - each
    proxy routes, after any signals, every database to the pool of the last
    configuration that was loaded without an error; the proxies share no pool;
    the loop returns at the first SIGINT or SIGTERM and not before. *)
Theorem main_serves_last_config `{St : Store} `{Sm : !StoreMaker} ini_load getenv path cfg r signals p ended :
  Load ini_load getenv path = Some cfg -> Forall from_file signals ->
  main (Some cfg) r signals = inl (p, ended) ->
  let last := last_loaded cfg signals in
  routes (proc_heap p) (MariaDB last) (MariaConn.pconfig (mariadbProxy p)) (MariaConn.ppools (mariadbProxy p)) /\
  routes (proc_heap p) (Postgres last) (PgConn.pconfig (pgProxy p)) (PgConn.ppools (pgProxy p)) /\
  disjoint_pools (MariaConn.ppools (mariadbProxy p)) (PgConn.ppools (pgProxy p)) /\
  ended = existsb (fun s => match s with SIGHUP _ => false | _ => true end) signals.
Proof.
  intros Hl Hf. unfold main. destruct (Init r) as [r'|]; [|done]. destruct (Cache.New _) as [c|e]; [|done].
  destruct (boot cfg) as [p0|e] eqn:Eb; [|done]. intros [= Ep]. cbv zeta.
  pose proof (signal_loop_running signals cfg p0 Hf (running_boot ini_load getenv path cfg p0 Hl Eb)) as Hr. rewrite Ep in Hr. cbn [fst] in Hr.
  destruct (running_routes _ _ Hr) as (H1 & H2 & H3). split; [exact H1|]. split; [exact H2|]. split; [exact H3|].
  clear -Ep. revert p0 Ep. induction signals as [|[loaded| |] signals IH]; intros p0 Ep; cbn [signal_loop existsb] in *; [by injection Ep| |by injection Ep..].
  by apply (IH (reload p0 loaded)).
Qed.
End Process.

(** ** A concrete process

    The batch manager is the data source it was made with. *)

#[local] Existing Instance NoFloats.
#[local] Existing Instance ScriptDB.
#[local] Existing Instance MapIni.

#[local] Instance DsnBatch : BatchService := {|
  manager := bytes;
  Enqueue m _ _ _ _ := (m, MkResult 1 0 1 [] None)
|}.
#[local] Instance DsnHost : Host := {|
  db_handle := bytes;
  open_db _ dsn := inl dsn;
  new_manager db _ _ := db;
  listen _ _ := None
|}.

Definition ini_of (primary : bytes) : gmap bytes (list (bytes * bytes)) :=
  <[str "mariadb.main" := [(str "primary", primary); (str "replicas", str "r1:3306")]]>
  (<[str "postgres.main" := [(str "primary", str "pg1:5432")]]> ∅).
Definition load_from (f : gmap bytes (list (bytes * bytes))) : option Config := Load (fun _ => Some f) (fun _ => []) [].
Definition the_config (f : gmap bytes (list (bytes * bytes))) : Config :=
  default {| MariaDB := w_config; Postgres := w_config |} (load_from f).
Definition old_config : Config := the_config (ini_of (str "db1:3306")).
Definition new_config : Config := the_config (ini_of (str "db2:3306")).
Definition booted : option process := match boot map_to_list old_config with inl p => Some p | inr _ => None end.
Definition after_reload : option process := (fun p => reload map_to_list p (Some new_config)) <$> booted.

#[local] Existing Instance TimedStore.
#[local] Instance TimedMaker : StoreMaker := {| NewSharded _ _ _ := inl (Timed 0 ∅); store_close _ := None |}.

Definition hup_then_term : list signal := [SIGHUP None; SIGHUP (Some new_config); SIGTERM; SIGHUP (Some old_config)].

Lemma main_serves_last_config_witness : exists p,
  main map_to_list (Some old_config) (MkRegistry false ∅) hup_then_term = inl (p, true) /\
  routes (proc_heap p) (MariaDB new_config) (MariaConn.pconfig (mariadbProxy p)) (MariaConn.ppools (mariadbProxy p)).
Proof.
  assert (Hb : match main map_to_list (Some old_config) (MkRegistry false ∅) hup_then_term with inl _ => true | inr _ => false end = true)
    by (vm_compute; reflexivity).
  destruct (main map_to_list (Some old_config) (MkRegistry false ∅) hup_then_term) as [[p ended]|e] eqn:E; [|discriminate Hb].
  destruct (main_serves_last_config (In := MapIni) map_to_list (fun m => reflexivity _) (fun _ => Some (ini_of (str "db1:3306"))) (fun _ => []) []
    old_config (MkRegistry false ∅) hup_then_term p ended) as (H1 & _ & _ & H2).
  - reflexivity.
  - repeat constructor; [|exists (fun _ => Some (ini_of (str "db1:3306"))), (fun _ => []), []; reflexivity].
    exists (fun _ => Some (ini_of (str "db2:3306"))), (fun _ => []), []. reflexivity.
  - exact E.
  - exists p. split; [rewrite H2; reflexivity|exact H1].
Defined.

(** ** Observations *)

(** A reload gives the pools the new primary; the batches still go to the one the
    process was started with. *)
Example batches_keep_old_primary :
  (fun p => (MariaConn.writeBatch (mariadbProxy p), primary <$> (proc_heap p !! 0%nat))) <$> after_reload =
  Some (Some (str "tqdbproxy:tqdbproxy@tcp(db1:3306)/tqdbproxy"), Some (str "db2:3306")).
Proof. vm_compute. reflexivity. Qed.

(** Without a backend of one protocol, for which loading prints a warning, the
    process does not start. *)
Example one_protocol_is_fatal :
  match boot map_to_list (the_config (<[str "mariadb.main" := [(str "primary", str "db1:3306")]]> ∅)) with
  | inr (NoDefaultPool name) => bool_decide (name = str "main")
  | _ => false
  end = true.
Proof. vm_compute. reflexivity. Qed.
